(* ===== verification/_CoqProject ===== *)
-Q . S2P
Prelude.v
RustStd.v
Json.v
Core.v
KillSwitch.v
Policy.v
Approvals.v
Guard.v
Gateway.v
Channels.v
Inventory.v
PgInventory.v
AuditLog.v
Broker.v
Admin.v
Vault.v
Kms.v
AuditChain.v
Llm.v
Memory.v
HotMemory.v
AppDb.v
Iam.v
Config.v
Console.v
Observer.v
Runtime.v
Supervisor.v
Bus.v
Orchestrator.v
Triage.v
Saga.v
Param.v
Connector.v
RouterOs.v
Chat.v
Ws.v
Adapters.v
Skills.v
Graph.v
Tables.v
Bubble.v
Listings.v
SelfMetrics.v
Startup.v
Migrate.v
Pages.v
SettingsUi.v
Transports.v
System.v
