(* ===== verification/Prelude.v ===== *)
(** * daimon: a verification development

    daimon (the Rust workspace under [src/crates/]) lets LLM agents operate
    infrastructure under human control. A request travels

      operator (console, socket, messaging channel) -> chat turn or plan
        -> bus (dispatcher, supervisor) -> driver
        -> broker -> guard -> inventory, vault -> transport -> device

    and every effect is audited. The development models that path, the parts that
    decide whether a device may be touched, who may ask, and what is stored.

    ** Files

    Foundations.
    - [Prelude.v]: [result], the state-and-error monad [io] used for every async
      function, the lemmas on running it, the relation transformers [evolves]
      (what an effect may change), tactics and hints.
    - [RustStd.v], [Json.v]: the parts of Rust's standard library and of
      [serde_json::Value] the sources use, on UTF-8 byte strings.
    - [Core.v] ([daimon-core]): capabilities, the read/write classifier,
      envelopes. The [semver] crate is the classes [SemVer] and [SemVerOrder].

    The gate.
    - [KillSwitch.v] ([daimon-guard/src/kill_switch.rs]): the kill state, and the
      poll task, the SIGUSR1 handler and the operator as a transition system
      [kstep] with one label per atomic action.
    - [Policy.v] ([policy.rs]): rules, [glob_match], [evaluate].
    - [Approvals.v] ([approvals.rs], [error.rs]): the inbox table, its statements
      as operations on [gworld], and the polling [wait_for_decision].
    - [Guard.v] ([daimon-guard/src/lib.rs]): [pre_flight] and the
      [awaiting_approval] notification.
    - [Broker.v] ([daimon-broker/src/{request,broker}.rs]): [execute] and
      [lint_write_capabilities]; [Admin.v] ([admin.rs]): the admin proxy.

    Channels.
    - [Gateway.v] ([daimon-gateway]): inbound messages, the Telegram webhook's
      verification, the batched reply sink; [Channels.v] ([daimon-app/src/gw.rs],
      [alert_router.rs]): alerts to operators and approvals over chat;
      [Adapters.v] ([adapters/{telegram,matrix}.rs], the webhook route and the
      cursor store of [gw.rs]): how messages get in and out, with the Telegram
      poller, the service and crashes as a transition system [tg_step].

    Stores.
    - [Inventory.v] ([daimon-inventory], [daimon-vault], [daimon-transport]):
      references and their parsers, credentials, targets, operations; the
      [Inventory] and [VaultClient] traits as classes with laws, the in-memory
      registry and the stubs as instances, [Transport] as a record.
      [PgInventory.v] ([postgres_registry.rs]): the Postgres registry, an instance
      that refines the in-memory one.
    - [Vault.v] ([postgres_client.rs], [sealed.rs], [master_key.rs]): the Postgres
      vault with its cache, refining a table of credentials; [Kms.v]
      ([daimon-kms]): the four key providers.
    - [AuditLog.v] ([daimon-audit/src/event.rs], [sink.rs]): events and codecs;
      [AuditChain.v] ([postgres_sink.rs], [daimon-anchor], the trigger of
      [V020]): the hash chain, its verification and queries.
    - [AppDb.v] ([daimon-app/src/db.rs] and its migrations): the application's
      tables and queries; [HotMemory.v] ([daimon-redis]): working memory and its
      two implementations; [Memory.v] ([daimon-memory]): recall and capture.

    The application.
    - [Startup.v] ([main.rs], [daimon-broker/src/production.rs]): the start of the
      process up to the listener; [SelfMetrics.v] ([observability.rs]): what it counts.
    - [Iam.v] ([auth.rs], [auth_guard.rs], [iam.rs], [login.rs]): login, sessions,
      roles, user administration; [Config.v] ([config.rs], [config_keys.rs],
      [secret_resolve.rs], [admin_settings.rs]): settings; [Console.v]
      ([admin_*.rs]): the console's server functions; [Listings.v] ([admin_audit.rs],
      [admin_observer.rs], [admin_memory.rs], [admin_plans.rs] ...): its views.
    - The console's client side: [Tables.v] ([components/sortable_table.rs], [table.rs],
      [viz.rs], [sparkline.rs]), [Bubble.v] ([chat_bubble.rs]), [Pages.v]
      ([pages/admin/{targets,credentials,audit}.rs], [topology.rs], [dashboard.rs]) and
      [SettingsUi.v] ([pages/settings]): state and handlers of the components, with
      requests in flight as part of the state.
    - [Llm.v] ([daimon-llm]): the four providers' requests, replies and streams;
      [Chat.v] ([chat.rs], [harness.rs]): the chat turn; [Ws.v] ([ws.rs]): the
      socket, and the turn of a message from a channel.
    - [Observer.v] ([daimon-observer]): metric queries, anomalies, the line
      protocol; [Triage.v] ([daimon-triage]): from an anomaly to an empty plan.

    Execution.
    - [Runtime.v] ([daimon-runtime]): the capability registry, [dispatch],
      [await_reply]; [Supervisor.v] ([supervisor.rs]): the restart loop, and the
      tables and tasks as a transition system [sup_step]; [Bus.v] ([bus.rs],
      [nats_bus.rs], the JSON of [envelope.rs]): the in-process and the NATS bus.
    - [Orchestrator.v] ([daimon-orchestrator]): plans, steps, [create_plan],
      [run_plan], compensation; [Saga.v]: what [run_plan] guarantees.
    - [Param.v], [Connector.v] ([daimon-driver]): parameter validation,
      declarative profiles, templates, the connector's verbs and bus adapter.
    - [RouterOs.v] ([daimon-driver-firewall-routeros]): the reference driver.
    - [Transports.v] ([ssh.rs], [rest.rs], [snmp.rs]): the real transports.
    - [Skills.v] ([skills.rs], [admin_skills.rs]): plan templates; [Graph.v]
      ([daimon-graph], [blast_radius.rs], [admin_graph.rs]): the graph mirror and
      the blast radius of a target.
    - [Migrate.v] ([daimon-migrate]): the move of the old SQLite files to Postgres.
    - [System.v]: theorems across components.

    ** How the code is represented

    An async method [fn f(&self, x) -> Result<A, E>] is a function
    [f x : io W E A], i.e. [W -> result E A * W], where the world [W] holds the
    state the component shares: [gworld] (kill state, approval table, timeout,
    published envelopes), [bworld] (guard, inventory, vault, device, the log of
    transport calls and of audit events), [dworld] (registry, sent envelopes,
    incoming stream), [oworld] (plan and step tables, bus, dispatch log),
    [sworld] (supervisor), [pg] (the application's database), [chatw] (one chat
    turn: application, bus, memory, provider, sink), [chw] (an adapter). Failures
    of the database, the audit store, the bus and the file system are part of the
    world (a list of outcomes consumed call by call), so a theorem about every
    world covers every pattern of faults. What other tasks do while an async
    function is suspended is part of the world too: [gworld] and [pg] carry, for
    each await, how long it took and what others did meanwhile. Integers are [Z],
    wrapped where the width matters; times are in milliseconds; IEEE doubles are
    the Standard Library's [SpecFloat].

    Code that is not in the repository is a parameter with its documented
    behaviour as laws: [SemVer], [HashOrder] (the order of [HashMap::values] is some
    permutation), [UuidParse], [ConstantTimeEq], [JsonText], [Bcrypt], [Jwt], the
    AEAD and SHA-256, [Base64], the Redis server, the HTTP clients ([TransitHttp],
    [DmemHttp], [LlmHost], [ChannelHost], [RestHttp], [GraphHttp], [VmHttp]), [Russh],
    [Csnmp], the broadcast channel and the NATS client, [Chrono], [LowerCase], the TOML
    reader, the [Debug] printer, the browser's [Date.parse], the SQLite reader.
    Each class has an instance, so the theorems about it apply to something. [serde_json]
    reads back what it printed for plain values only ([json_plain]: 64-bit integers, no
    fractions, sorted keys, at most 127 levels); theorems that rely on it ask for those.

    ** Fuel

    [wait_loop] (the approval poll) is run with [wait_fuel] iterations, enough
    because each iteration sleeps at least the poll interval ([wait_total]).
    [exec_loop] (the main loop of [run_plan]) gets one more iteration than there
    are steps, enough because each iteration settles a step or ends
    ([run_loop_terminates]). [substitute_fuel] (template substitution) gets the
    length of the template, enough because each iteration consumes a slot with its
    braces; [substitute_spec] shows that it never runs out. The tool loop of a chat
    turn is bounded by the source itself ([MAX_LOOPS]). The pollers' loops have no
    exit; their fuel is how many iterations are looked at, and their theorems hold
    for every number.

    ** What is proved

    - The gate: who gets through [pre_flight], what happens to unattended requests,
      the inbox's history, the policy's verdict, and that the switch is consulted
      only on entry; the KILL switch's invariant under every interleaving.
    - The human end of the gate: an alert goes to enrolled people only, and only an
      approver's answer decides it.
    - The broker: every device call is gated, every call is audited, and what
      follows from a passing lint.
    - Channels: no Telegram update is lost whatever fails, none is handled twice
      unless the bookkeeping fails, all are handled once the service answers; the
      Matrix cursor follows the dispatch; a webhook starts turns for authentic
      requests only; room ids survive the path.
    - The chat turn: it ends with one final event, dispatches in the operator's name
      and never silently, asks the model the operator chose, if permitted, or the
      configured default, at most eight times with complete rounds; a socket acts as its
      session's user only.
    - Providers: what the chat loop makes of a streamed Anthropic message is the message
      sent whole, but for its input count; tool names survive sanitizing when they do not
      collide.
    - Stores: the Postgres vault and registry refine their specifications; the audit
      chain verifies exactly when every row stores the digest of its text and of the hash
      before it, and a row whose digest an edit changes is reported; a recall keeps its
      budget.
    - The application: user administration, console and transcripts are reached by
      the right callers only, the last administrator stays, login and session agree,
      disabled users are out, secrets stay out of the settings table even when the
      database loses an answer.
    - Observation: a cycle stores and announces each breach once; triage never runs
      anything and opens one plan per breach and window.
    - The bus: resolution, request/reply matching, restart limits, stopping; receivers
      lose nothing silently, the NATS bus refines the in-process one, and nothing
      addressed to an agent crosses it.
    - Startup: a process that listens is gated, audited and announces approvals; a
      second start changes nothing; a channel runs only as it is configured.
    - The console's client side: tables sort, page and export what they were given; the
      chat panel shows the turn it receives; the forms submit what they show, a saved
      setting is in force, a provider is switched only after its credentials are stored,
      a revealed secret is hidden within thirty wake-ups, the topology draws every target
      once; the views are complete and the administrators' only.
    - Migration: a run that ends has moved every row, a second run changes nothing but
      times of update, a dry run writes nothing.
    - Plans: exactly which calls a run makes, forward and back, success, liveness,
      deadlock, creation that is all or nothing under faults and lost answers, and how
      compensation is recorded.
    - Drivers: no injection, exact substitution, honest replies, profile loading.
    - Transports: nothing is sent over SSH before the host's key was verified; a REST
      request for a path stays on its target and carries the token in one header
      only; device output becomes valid text.
    - Skills and graph: a skill is an administrator's plan with the template's steps
      and no metacharacter of its inputs; a plan's batch leaves exactly its image.
    - Across components: RouterOS writes need a human under the shipped policy,
      replies reach their caller, which rules can be rolled back.
    - Where the code does less than its comments say, a lemma with a concrete run or
      a general statement shows it (for example [reply_decides_another_approval],
      [kill_rm_before_poll_sticks], [matrix_restart_drops_reply],
      [foreign_session_resumed], [nats_direct_never_crosses], [failed_load_saves_previous],
      [dropped_tenants_stop]).

    ** Not modelled

    The markup of the web console, with the pages that hold nothing else (IAM, approvals,
    memory, plans, the sidebar and the layout), and the HTTP router: they belong to the
    Leptos and axum frameworks. The SQL migration files as programs (the tables they leave
    are modelled with their constraints where they are used), the pool and migration runner
    of [daimon-db], argument parsers, log lines, the object-store upload of the anchor tool
    and the demonstration command [daimon-cli]: they compute nothing the theorems are
    about. *)

From stdpp Require Export base tactics option list gmap strings.
From stdpp Require Import sorting.
From Stdlib Require Import Permutation.

(** ** Rust's [Result] *)

(** [Result<A, E>]; the error type comes first so that [result E] is a monad. *)
Inductive result (E A : Type) : Type :=
| Ok (a : A)
| Err (e : E).

Arguments Ok {E A} a.
Arguments Err {E A} e.

Declare Scope daimon_scope.
Delimit Scope daimon_scope with daimon.

#[export] Instance result_ret {E} : MRet (result E) := λ A a, Ok a.
#[export] Instance result_bind {E} : MBind (result E) :=
  λ A B f m, match m with Ok a => f a | Err e => Err e end.
#[export] Instance result_fmap {E} : FMap (result E) :=
  λ A B f m, match m with Ok a => Ok (f a) | Err e => Err e end.

(** [Result::map_err]. *)
Definition map_err {E F A} (f : E → F) (m : result E A) : result F A :=
  match m with Ok a => Ok a | Err e => Err (f e) end.

(** [Option::ok_or]. *)
Definition ok_or {E A} (o : option A) (e : E) : result E A :=
  match o with Some a => Ok a | None => Err e end.

(** [Result::ok]. *)
Definition ok {E A} (m : result E A) : option A :=
  match m with Ok a => Some a | Err _ => None end.

Definition is_ok {E A} (m : result E A) : bool :=
  match m with Ok _ => true | Err _ => false end.

(** ** Effects: explicit state passing with errors

    An [async fn] that reads and writes a world [W] and returns a [Result].
    An error keeps the state it was raised in: what was written before the
    [?] stays written. *)
Definition io (W E A : Type) : Type := W → result E A * W.

#[export] Instance io_ret {W E} : MRet (io W E) := λ A a w, (Ok a, w).
#[export] Instance io_bind {W E} : MBind (io W E) :=
  λ A B f m w,
    match m w with
    | (Ok a, w') => f a w'
    | (Err e, w') => (Err e, w')
    end.

Definition throw {W E A} (e : E) : io W E A := λ w, (Err e, w).
Definition gets {W E A} (f : W → A) : io W E A := λ w, (Ok (f w), w).
Definition modify {W E} (f : W → W) : io W E unit := λ w, (Ok tt, f w).
Definition lift {W E A} (r : result E A) : io W E A := λ w, (r, w).

(** Run an effect on a component of the world. *)
Definition zoom {W S E A} (get : W → S) (set : S → W → W) (m : io S E A) : io W E A :=
  λ w, let '(r, s) := m (get w) in (r, set s w).

(** The [Result] of an effectful call as a value: [match m.await { .. }], and
    the [let _ = m.await] of best-effort calls. *)
Definition attempt {W E F A} (m : io W E A) : io W F (result E A) :=
  λ w, let '(r, w') := m w in (Ok r, w').

(** [m.await.map_err(f)?] *)
Definition io_map_err {W E F A} (f : E → F) (m : io W E A) : io W F A :=
  λ w, let '(r, w') := m w in (map_err f r, w').

Notation "'when' b 'do' m" := (if b then m else mret tt)
  (at level 60, b at level 59, m at level 60, right associativity) : daimon_scope.

Lemma io_bind_ok {W E A B} (m : io W E A) (f : A → io W E B) w b w' :
  (m ≫= f) w = (Ok b, w') →
  ∃ a w1, m w = (Ok a, w1) ∧ f a w1 = (Ok b, w').
Proof. unfold mbind, io_bind. destruct (m w) as [[a|e] w1]; naive_solver. Qed.

Lemma io_bind_err {W E A B} (m : io W E A) (f : A → io W E B) w e w' :
  (m ≫= f) w = (Err e, w') →
  m w = (Err e, w') ∨ ∃ a w1, m w = (Ok a, w1) ∧ f a w1 = (Err e, w').
Proof. unfold mbind, io_bind. destruct (m w) as [[a|e1] w1]; naive_solver. Qed.

Lemma io_bind_run_ok {W E A B} (m : io W E A) (f : A → io W E B) w a w1 :
  m w = (Ok a, w1) → (m ≫= f) w = f a w1.
Proof. unfold mbind, io_bind. by intros ->. Qed.

Lemma io_bind_run_err {W E A B} (m : io W E A) (f : A → io W E B) w e w1 :
  m w = (Err e, w1) → (m ≫= f) w = (Err e, w1).
Proof. unfold mbind, io_bind. by intros ->. Qed.

Lemma io_bind_assoc {W E A B C} (m : io W E A) (f : A → io W E B) (g : B → io W E C) w :
  (m ≫= λ a, f a ≫= g) w = ((m ≫= f) ≫= g) w.
Proof. unfold mbind, io_bind. by destruct (m w) as [[a|e] w1]. Qed.

Lemma io_map_err_ok {W E F A} (f : E → F) (m : io W E A) w a w' :
  io_map_err f m w = (Ok a, w') → m w = (Ok a, w').
Proof. unfold io_map_err. destruct (m w) as [[b|e] w1]; simpl; naive_solver. Qed.

Lemma lift_ok {W E A} (r : result E A) (w : W) a w' : lift r w = (Ok a, w') → r = Ok a ∧ w = w'.
Proof. by intros [= -> ->]. Qed.

Lemma run_split {A B} (r : A * B) a : r.1 = a → r = (a, r.2).
Proof. by destruct r; intros <-. Qed.

(** A world predicate every run of [m] preserves, whatever it returns. *)
Definition preserves {W E A} (I : W → Prop) (m : io W E A) : Prop :=
  ∀ w, I w → I (m w).2.

(** A transition between worlds every run of [m] makes, whatever it returns. *)
Definition evolves {W E A} (R : W → W → Prop) (m : io W E A) : Prop :=
  ∀ w, R w (m w).2.

Lemma preserves_bind {W E A B} I (m : io W E A) (f : A → io W E B) :
  preserves I m → (∀ a, preserves I (f a)) → preserves I (m ≫= f).
Proof.
  intros Hm Hf w Hw. specialize (Hm w Hw). unfold mbind, io_bind.
  destruct (m w) as [[a|e] w1]; simpl in *; [by apply Hf|done].
Qed.

Lemma evolves_bind {W E A B} (R : W → W → Prop) `{!Transitive R}
    (m : io W E A) (f : A → io W E B) :
  evolves R m → (∀ a, evolves R (f a)) → evolves R (m ≫= f).
Proof.
  intros Hm Hf w. specialize (Hm w). unfold mbind, io_bind.
  destruct (m w) as [[a|e] w1]; simpl in *; [by etrans; [|apply Hf]|done].
Qed.

Lemma evolves_ret {W E A} (R : W → W → Prop) `{!Reflexive R} (a : A) :
  evolves R (mret a : io W E A).
Proof. by intros w. Qed.

Lemma evolves_gets {W E A} (R : W → W → Prop) `{!Reflexive R} (f : W → A) :
  evolves R (gets f : io W E A).
Proof. by intros w. Qed.

Lemma evolves_throw {W E A} (R : W → W → Prop) `{!Reflexive R} (e : E) :
  evolves R (throw e : io W E A).
Proof. by intros w. Qed.

Lemma evolves_lift {W E A} (R : W → W → Prop) `{!Reflexive R} (r : result E A) :
  evolves R (lift r : io W E A).
Proof. by intros w. Qed.

Lemma evolves_attempt {W E F A} (R : W → W → Prop) (m : io W E A) :
  evolves R m → evolves R (attempt m : io W F _).
Proof. intros Hm w. unfold attempt. specialize (Hm w). by destruct (m w). Qed.

Lemma evolves_map_err {W E F A} (R : W → W → Prop) (f : E → F) (m : io W E A) :
  evolves R m → evolves R (io_map_err f m).
Proof. intros Hm w. unfold io_map_err. specialize (Hm w). by destruct (m w). Qed.

Create HintDb daimon.
#[export] Hint Resolve evolves_ret evolves_gets evolves_throw evolves_lift
  evolves_attempt evolves_map_err evolves_bind : daimon.

(** Decompose a successful or failed run of a monadic block in the context. *)
Ltac inv_io_step :=
  match goal with
  | H : (_ ≫= _) _ = (Ok _, _) |- _ =>
      let a := fresh "a" in let w := fresh "w" in let H1 := fresh "Hrun" in
      apply io_bind_ok in H as (a & w & H1 & H)
  | H : mret _ _ = (Ok _, _) |- _ => unfold mret, io_ret in H; simplify_eq
  | H : mret _ _ = (Err _, _) |- _ => unfold mret, io_ret in H; simplify_eq
  | H : throw _ _ = (Ok _, _) |- _ => unfold throw in H; simplify_eq
  | H : throw _ _ = (Err _, _) |- _ => unfold throw in H; simplify_eq
  | H : gets _ _ = (Ok _, _) |- _ => unfold gets in H; simplify_eq
  | H : gets _ _ = (Err _, _) |- _ => unfold gets in H; simplify_eq
  | H : modify _ _ = (Ok _, _) |- _ => unfold modify in H; simplify_eq
  | H : modify _ _ = (Err _, _) |- _ => unfold modify in H; simplify_eq
  | H : lift _ _ = _ |- _ => unfold lift in H; simplify_eq
  | H : attempt ?m ?w = (_, _) |- _ =>
      unfold attempt in H; destruct (m w) as [[?|?] ?] eqn:?; simplify_eq
  | H : io_map_err ?f ?m ?w = (_, _) |- _ =>
      unfold io_map_err in H; destruct (m w) as [[?|?] ?] eqn:?; simplify_eq/=
  end.
Ltac inv_io := repeat inv_io_step.

(** Case analysis on the first [match] or [if] scrutinee of a hypothesis. *)
Ltac case_hyp H :=
  match type of H with
  | context [match ?x with _ => _ end] => destruct x eqn:?; simplify_eq/=
  end.

(** ** Unspecified iteration order

    Rust leaves the iteration order of a [HashMap] unspecified. A model that
    iterates takes the order as a parameter that is some enumeration of the
    entries; nothing else is assumed about it. *)
Class HashOrder (V : Type) := {
  hash_values : gmap string V → list V;
  hash_values_perm : ∀ m, hash_values m ≡ₚ (map_to_list m).*2;
}.

#[export] Program Instance canonical_order V : HashOrder V | 100 := {|
  hash_values := λ m, (map_to_list m).*2
|}.
Next Obligation. done. Qed.

Lemma elem_of_hash_values `{HashOrder V} (m : gmap string V) v :
  v ∈ hash_values m ↔ ∃ k, m !! k = Some v.
Proof.
  rewrite hash_values_perm, list_elem_of_fmap. split.
  - intros ([k x] & -> & Hk%elem_of_map_to_list). by exists k.
  - intros [k Hk]. exists (k, v). by rewrite elem_of_map_to_list.
Qed.

(** ** Ordered maps

    A [BTreeMap<String, V>] is a [gmap string V] iterated in key order. *)
Definition key_le {V} (x y : string * V) : Prop := String.le x.1 y.1.

#[export] Instance key_le_dec {V} : RelDecision (@key_le V).
Proof. intros x y. unfold key_le. apply _. Defined.

Definition btree_iter {V} (m : gmap string V) : list (string * V) :=
  merge_sort key_le (map_to_list m).

Lemma elem_of_btree_iter {V} (m : gmap string V) k v :
  (k, v) ∈ btree_iter m ↔ m !! k = Some v.
Proof.
  unfold btree_iter. rewrite merge_sort_Permutation. apply elem_of_map_to_list.
Qed.

(** ** Lists *)

(** [iter().position(p)]. *)
Fixpoint position {A} (p : A → bool) (l : list A) : option nat :=
  match l with
  | [] => None
  | x :: l => if p x then Some 0 else S <$> position p l
  end.

Lemma position_Some {A} (p : A → bool) l i :
  position p l = Some i →
  (∃ x, l !! i = Some x ∧ p x = true) ∧
  ∀ j x, j < i → l !! j = Some x → p x = false.
Proof.
  revert i; induction l as [|a l IH]; intros i; simpl; [done|].
  destruct (p a) eqn:Hp; intros Hi.
  - simplify_eq. split; [by exists a|lia].
  - destruct (position p l) as [k|] eqn:Hk; simplify_eq/=.
    destruct (IH k eq_refl) as [Hx Hlt]. split; [done|].
    intros [|j] x Hj Hl; simplify_eq/=; [done|]. eapply Hlt; [|done]. lia.
Qed.

Lemma position_None {A} (p : A → bool) l :
  position p l = None ↔ ∀ x, x ∈ l → p x = false.
Proof.
  induction l as [|a l IH]; simpl.
  - split; [intros _ x Hx; by apply not_elem_of_nil in Hx|done].
  - destruct (p a) eqn:Hp.
    + split; [done|]. intros H. specialize (H a). rewrite H in Hp; [done|left].
    + destruct (position p l) eqn:Hl; simpl.
      * split; [done|]. intros H. enough (Some n = None) as ? by done.
        apply IH. intros x Hx. apply H. by right.
      * split; [|done]. intros _ x [->|Hx]%elem_of_cons; [done|].
        by apply IH.
Qed.

(** [iter().find(p)] and [iter().any(p)]. *)
Definition find {A} (p : A → bool) (l : list A) : option A := List.find p l.

Lemma find_Some_elem {A} (p : A → bool) l x :
  find p l = Some x → x ∈ l ∧ p x = true.
Proof. intros [? ?]%List.find_some. by rewrite list_elem_of_In. Qed.

Lemma existsb_elem {A} (p : A → bool) l :
  existsb p l = true ↔ ∃ x, x ∈ l ∧ p x = true.
Proof.
  rewrite List.existsb_exists.
  by setoid_rewrite list_elem_of_In.
Qed.

Lemma forallb_elem {A} (p : A → bool) l :
  forallb p l = true ↔ ∀ x, x ∈ l → p x = true.
Proof.
  rewrite List.forallb_forall.
  by setoid_rewrite list_elem_of_In.
Qed.
