(* ===== verification/RustStd.v ===== *)
(** * The parts of Rust's standard library the program uses

    Strings are UTF-8 byte strings ([string] is a list of 8-bit characters);
    a [char] is represented by its UTF-8 encoding, so [chars] splits a string
    into the encodings of its characters. Searches for an ASCII character or
    an ASCII literal act on bytes, as in Rust. Integers are [Z] with the range
    of their width checked where the program parses them. *)

From S2P Require Import Prelude.
From Stdlib Require Import Ascii ZArith.

Local Open Scope Z_scope.

(** ** Bytes *)

Fixpoint bytes (s : string) : list ascii :=
  match s with
  | EmptyString => []
  | String a s => a :: bytes s
  end.

Definition byte_val (a : ascii) : Z := Z.of_N (N_of_ascii a).

Lemma string_app_cons a s t : String a s +:+ t = String a (s +:+ t).
Proof. done. Qed.

Lemma bytes_app s t : bytes (s +:+ t) = bytes s ++ bytes t.
Proof. induction s as [|a s IH]; simpl; [done|]. by f_equal. Qed.

Lemma bytes_inj s t : bytes s = bytes t → s = t.
Proof.
  revert t; induction s as [|a s IH]; intros [|b t]; simpl; intros; simplify_eq;
    f_equal; auto.
Qed.

Lemma string_app_assoc s t u : s +:+ (t +:+ u) = (s +:+ t) +:+ u.
Proof. apply bytes_inj. by rewrite !bytes_app, app_assoc. Qed.

Lemma string_app_nil_r s : s +:+ EmptyString = s.
Proof. apply bytes_inj. by rewrite bytes_app, app_nil_r. Qed.

Definition string_eqb (s t : string) : bool := bool_decide (s = t).

Lemma string_eqb_eq s t : string_eqb s t = true ↔ s = t.
Proof. unfold string_eqb. by rewrite bool_decide_eq_true. Qed.

Lemma string_eqb_neq s t : string_eqb s t = false ↔ s ≠ t.
Proof. unfold string_eqb. by rewrite bool_decide_eq_false. Qed.

(** ** Characters *)

Definition char := string.

(** A UTF-8 continuation byte, [10xxxxxx]. *)
Definition is_continuation (a : ascii) : bool :=
  (128 <=? byte_val a) && (byte_val a <? 192).

Fixpoint chars (s : string) : list char :=
  match s with
  | EmptyString => []
  | String a r =>
      match r with
      | EmptyString => [String a EmptyString]
      | String b _ =>
          if is_continuation b then
            match chars r with
            | c :: cs => String a c :: cs
            | [] => [String a EmptyString]
            end
          else String a EmptyString :: chars r
      end
  end.

Fixpoint string_concat (l : list string) : string :=
  match l with
  | [] => EmptyString
  | s :: l => s +:+ string_concat l
  end.

Lemma chars_nonempty a s : chars (String a s) ≠ [].
Proof.
  destruct s as [|b s]; cbn -[is_continuation]; [done|].
  destruct (is_continuation b); [|done].
  by destruct (match s with EmptyString => _ | _ => _ end).
Qed.

Lemma chars_concat s : string_concat (chars s) = s.
Proof.
  induction s as [|a [|b s] IH]; [done|done|].
  change (chars (String a (String b s))) with
    (if is_continuation b then
       match chars (String b s) with
       | c :: cs => String a c :: cs
       | [] => [String a EmptyString]
       end
     else String a EmptyString :: chars (String b s)).
  pose proof (chars_nonempty b s) as Hne.
  destruct (is_continuation b).
  - destruct (chars (String b s)) as [|c cs]; [done|].
    simpl in *. by rewrite <- IH.
  - cbn [string_concat]. by rewrite IH.
Qed.

(** [s.chars().take(n).collect::<String>()] *)
Definition chars_take (n : nat) (s : string) : string :=
  string_concat (take n (chars s)).

Definition in_range (lo hi : Z) (a : ascii) : bool :=
  (lo <=? byte_val a) && (byte_val a <=? hi).

Definition byte_is_alphanumeric (a : ascii) : bool :=
  in_range 48 57 a || in_range 65 90 a || in_range 97 122 a.

Definition byte_is_hexdigit (a : ascii) : bool :=
  in_range 48 57 a || in_range 65 70 a || in_range 97 102 a.

Definition byte_is_digit (a : ascii) : bool := in_range 48 57 a.

(** [char::is_ascii_alphanumeric], [char::is_ascii_hexdigit]. *)
Definition is_ascii_alphanumeric (c : char) : bool :=
  match c with
  | String a EmptyString => byte_is_alphanumeric a
  | _ => false
  end.

Definition is_ascii_hexdigit (c : char) : bool :=
  match c with
  | String a EmptyString => byte_is_hexdigit a
  | _ => false
  end.

(** [matches!(c, 'x' | 'y' | ..)] for ASCII characters. *)
Definition char_in (c : char) (l : list ascii) : bool :=
  match c with
  | String a EmptyString => bool_decide (a ∈ l)
  | _ => false
  end.

(** A predicate on characters that holds of one-byte characters only. *)
Definition ascii_class (p : char → bool) (q : ascii → bool) : Prop :=
  ∀ c, p c = true → ∃ a, c = String a EmptyString ∧ q a = true.

Lemma chars_ascii_bytes p q s :
  ascii_class p q → Forall (λ c, p c = true) (chars s) →
  Forall (λ a, q a = true) (bytes s).
Proof.
  intros Hpq. rewrite <- (chars_concat s) at 2.
  induction 1 as [|c l Hc Hl IH]; simpl; [constructor|].
  destruct (Hpq c Hc) as (a & -> & Ha). rewrite bytes_app. simpl.
  by constructor.
Qed.

(** The Unicode [White_Space] characters, which [str::trim] removes: U+0009 to
    U+000D, U+0020, U+0085, U+00A0, U+1680, U+2000 to U+200A, U+2028, U+2029,
    U+202F, U+205F and U+3000. *)
Definition utf8 (l : list N) : char :=
  fold_right (λ n s, String (ascii_of_N n) s) EmptyString l.

Definition whitespace_chars : list char :=
  Eval vm_compute in
    map utf8
      ([[9]; [10]; [11]; [12]; [13]; [32]; [194; 133]; [194; 160];
       [225; 154; 128];
       [226; 128; 128]; [226; 128; 129]; [226; 128; 130]; [226; 128; 131];
       [226; 128; 132]; [226; 128; 133]; [226; 128; 134]; [226; 128; 135];
       [226; 128; 136]; [226; 128; 137]; [226; 128; 138];
       [226; 128; 168]; [226; 128; 169]; [226; 128; 175]; [226; 129; 159];
       [227; 128; 128]])%N.

Definition is_whitespace (c : char) : bool := bool_decide (c ∈ whitespace_chars).

Fixpoint drop_while {A} (p : A → bool) (l : list A) : list A :=
  match l with
  | [] => []
  | x :: l' => if p x then drop_while p l' else l
  end.

(** [str::trim]. *)
Definition trim (s : string) : string :=
  string_concat
    (reverse (drop_while is_whitespace (reverse (drop_while is_whitespace (chars s))))).

(** ** Searching and splitting *)

(** [str::strip_prefix], [str::starts_with]. *)
Fixpoint strip_prefix (p s : string) : option string :=
  match p, s with
  | EmptyString, _ => Some s
  | String a p, String b s => if bool_decide (a = b) then strip_prefix p s else None
  | String _ _, EmptyString => None
  end.

Definition starts_with (s p : string) : bool :=
  match strip_prefix p s with Some _ => true | None => false end.

(** [str::contains(&str)]. *)
Fixpoint contains (s p : string) : bool :=
  starts_with s p ||
  match s with
  | EmptyString => false
  | String _ s => contains s p
  end.

Lemma strip_prefix_Some p s r : strip_prefix p s = Some r ↔ s = p +:+ r.
Proof.
  revert s; induction p as [|a p IH]; intros s; simpl.
  - split; [by intros [= ->]|by intros ->].
  - destruct s as [|b s]; [done|].
    change (String a p +:+ r) with (String a (p +:+ r)).
    case_bool_decide; simplify_eq.
    + rewrite IH. split; [by intros ->|by intros [= ->]].
    + split; [done|by intros [= ]].
Qed.

Lemma strip_prefix_app p r : strip_prefix p (p +:+ r) = Some r.
Proof. by apply strip_prefix_Some. Qed.

Lemma starts_with_spec s p : starts_with s p = true ↔ ∃ r, s = p +:+ r.
Proof.
  unfold starts_with. split.
  - destruct (strip_prefix p s) as [r|] eqn:H; [|done].
    apply strip_prefix_Some in H as ->. by exists r.
  - intros [r ->]. by rewrite (proj2 (strip_prefix_Some p _ r) eq_refl).
Qed.

Lemma starts_with_app s p : starts_with (p +:+ s) p = true.
Proof. apply starts_with_spec. eauto. Qed.

Lemma contains_spec s p : contains s p = true ↔ ∃ u v, s = u +:+ p +:+ v.
Proof.
  induction s as [|a s IH]; cbn [contains]; rewrite orb_true_iff, starts_with_spec.
  - split.
    + intros [[r Hr]|?]; [|done]. by exists EmptyString, r.
    + intros (u & v & H). left. destruct u as [|? ?]; [|done]. by exists v.
  - rewrite IH. split.
    + intros [[r Hr]|(u & v & ->)]; [by exists EmptyString, r|].
      by exists (String a u), v.
    + intros (u & v & H). destruct u as [|b u]; [left; by exists v|].
      right. rewrite string_app_cons in H. simplify_eq. by exists u, v.
Qed.

(** [str::strip_suffix]. *)
Definition strip_suffix (p s : string) : option string :=
  String.rev <$> strip_prefix (String.rev p) (String.rev s).

(** [trim_start_matches], [trim_end_matches] with a string pattern: the pattern
    is removed as often as it occurs. The fuel is the length of the text. *)
Fixpoint trim_start_fuel (n : nat) (p s : string) : string :=
  match n with
  | O => s
  | S n => match strip_prefix p s with Some r => trim_start_fuel n p r | None => s end
  end.

Definition trim_start_matches (p s : string) : string :=
  trim_start_fuel (length (bytes s)) p s.

Fixpoint trim_end_fuel (n : nat) (p s : string) : string :=
  match n with
  | O => s
  | S n => match strip_suffix p s with Some r => trim_end_fuel n p r | None => s end
  end.

Definition trim_end_matches (p s : string) : string :=
  trim_end_fuel (length (bytes s)) p s.

Lemma bytes_rev_app s t : bytes (String.rev_app s t) = reverse (bytes s) ++ bytes t.
Proof.
  revert t; induction s as [|a s IH]; intros t; [done|].
  cbn [String.rev_app bytes]. rewrite IH. simpl.
  by rewrite reverse_cons, <- app_assoc.
Qed.

Lemma bytes_rev s : bytes (String.rev s) = reverse (bytes s).
Proof. unfold String.rev. by rewrite bytes_rev_app, app_nil_r. Qed.

Lemma strip_suffix_Some p s r : strip_suffix p s = Some r ↔ s = r +:+ p.
Proof.
  unfold strip_suffix. rewrite fmap_Some. split.
  - intros (t & Ht%strip_prefix_Some & ->). apply bytes_inj.
    apply (f_equal bytes) in Ht. rewrite bytes_rev, bytes_app, bytes_rev in Ht.
    rewrite bytes_app, bytes_rev.
    apply (f_equal reverse) in Ht. by rewrite reverse_app, !reverse_involutive in Ht.
  - intros ->. exists (String.rev r). split.
    + apply strip_prefix_Some. apply bytes_inj.
      by rewrite bytes_app, !bytes_rev, bytes_app, reverse_app.
    + apply bytes_inj. by rewrite !bytes_rev, reverse_involutive.
Qed.

(** [str::find(c)] for an ASCII character, with the text on both sides:
    [Some (&s[..i], &s[i+1..])]. This is also [str::split_once(c)]. *)
Fixpoint split_once (c : ascii) (s : string) : option (string * string) :=
  match s with
  | EmptyString => None
  | String a s =>
      if bool_decide (a = c) then Some (EmptyString, s)
      else (λ '(x, y), (String a x, y)) <$> split_once c s
  end.

Lemma split_once_Some c s x y :
  split_once c s = Some (x, y) → s = x +:+ String c y ∧ c ∉ bytes x.
Proof.
  revert x; induction s as [|a s IH]; intros x; simpl; [done|].
  case_bool_decide; intros H1; simplify_eq/=.
  - split; [done|]. apply not_elem_of_nil.
  - destruct (split_once c s) as [[x' y']|] eqn:Hs; simplify_eq/=.
    destruct (IH x' eq_refl) as [-> Hx]. split; [done|].
    rewrite not_elem_of_cons. done.
Qed.

Lemma split_once_app c s t : c ∉ bytes s → split_once c (s +:+ String c t) = Some (s, t).
Proof.
  induction s as [|a s IH]; intros Hc; simpl in Hc.
  - change ("" +:+ String c t) with (String c t). simpl. by rewrite bool_decide_eq_true_2.
  - rewrite string_app_cons. simpl. apply not_elem_of_cons in Hc as [Hne Hc].
    rewrite bool_decide_eq_false_2 by congruence. by rewrite IH.
Qed.

Lemma split_once_None c s : split_once c s = None ↔ c ∉ bytes s.
Proof.
  induction s as [|a s IH]; simpl.
  - split; [intros _; apply not_elem_of_nil|done].
  - rewrite not_elem_of_cons. case_bool_decide; simplify_eq.
    + split; [done|]. intros [? _]. done.
    + destruct (split_once c s) as [[??]|]; simpl.
      * split; [done|]. intros [_ Hs]. apply IH in Hs. done.
      * split; [|done]. intros _. split; [done|]. by apply IH.
Qed.

(** [str::split(c)] for an ASCII character: always at least one piece. *)
Fixpoint split (c : ascii) (s : string) : list string :=
  match s with
  | EmptyString => [EmptyString]
  | String a s =>
      if bool_decide (a = c) then EmptyString :: split c s
      else match split c s with
           | x :: l => String a x :: l
           | [] => [String a EmptyString]
           end
  end.

Definition contains_char (c : ascii) (s : string) : bool := bool_decide (c ∈ bytes s).

(** The pieces joined back by the separator. *)
Fixpoint join (c : ascii) (l : list string) : string :=
  match l with
  | [] => EmptyString
  | [x] => x
  | x :: l => x +:+ String c (join c l)
  end.

Lemma split_nonempty c s : split c s ≠ [].
Proof.
  destruct s as [|a s]; simpl; [done|]. case_bool_decide; [done|].
  by destruct (split c s).
Qed.

Lemma join_split c s : join c (split c s) = s.
Proof.
  induction s as [|a s IH]; simpl; [done|].
  pose proof (split_nonempty c s) as Hne.
  case_bool_decide; simplify_eq.
  - destruct (split c s) as [|x l]; [done|]. by rewrite <- IH.
  - destruct (split c s) as [|x [|y l]]; [done| |]; simpl in *; by rewrite <- IH.
Qed.

Lemma split_pieces c s : Forall (λ x, c ∉ bytes x) (split c s).
Proof.
  induction s as [|a s IH]; simpl.
  - constructor; [apply not_elem_of_nil|constructor].
  - case_bool_decide; simplify_eq.
    + constructor; [apply not_elem_of_nil|done].
    + destruct (split c s) as [|x l]; inversion_clear IH; repeat constructor;
        try done; simpl; rewrite ?not_elem_of_cons; try done.
      split; [done|apply not_elem_of_nil].
Qed.

Lemma split_no_sep c s : c ∉ bytes s → split c s = [s].
Proof.
  induction s as [|a s IH]; simpl; [done|].
  rewrite not_elem_of_cons. intros [Hac Hs].
  rewrite bool_decide_false by done. by rewrite IH.
Qed.

Lemma split_app_sep c s t : c ∉ bytes s → split c (s +:+ String c t) = s :: split c t.
Proof.
  induction s as [|a s IH].
  - intros _. simpl. by rewrite bool_decide_true.
  - simpl bytes. rewrite not_elem_of_cons. intros [Hac Hs].
    change (String a s +:+ String c t) with (String a (s +:+ String c t)).
    simpl. rewrite bool_decide_false by done. by rewrite IH.
Qed.

(** ** Integers *)

Fixpoint digits_val (acc : Z) (s : string) : option Z :=
  match s with
  | EmptyString => Some acc
  | String a s =>
      if byte_is_digit a then digits_val (acc * 10 + (byte_val a - 48)) s else None
  end.

(** [str::parse] for an integer type: an optional sign ([-] for signed types
    only), at least one digit, and the value within the type's range. *)
Definition parse_int (signed : bool) (lo hi : Z) (s : string) : option Z :=
  let check (z : option Z) :=
    match z with
    | Some z => if (lo <=? z) && (z <=? hi) then Some z else None
    | None => None
    end in
  match s with
  | EmptyString => None
  | String a EmptyString =>
      if bool_decide (a = "+"%char) || bool_decide (a = "-"%char) then None
      else check (digits_val 0 s)
  | String a r =>
      if bool_decide (a = "+"%char) then check (digits_val 0 r)
      else if signed && bool_decide (a = "-"%char) then
        check (Z.opp <$> digits_val 0 r)
      else check (digits_val 0 s)
  end.

Definition parse_u8 : string → option Z := parse_int false 0 255.
Definition parse_i64 : string → option Z := parse_int true (-2^63) (2^63 - 1).

(** [Display] of an integer. *)
Definition digit (z : Z) : ascii := ascii_of_N (Z.to_N (48 + z)).

Fixpoint show_pos (fuel : nat) (z : Z) (acc : string) : string :=
  match fuel with
  | O => acc
  | S fuel =>
      if z <? 10 then String (digit z) acc
      else show_pos fuel (z / 10) (String (digit (z mod 10)) acc)
  end.

(** Enough fuel for the decimal digits of [z]: its bit length. *)
Definition show_Z (z : Z) : string :=
  if z <? 0
  then String "-" (show_pos (S (Z.to_nat (Z.log2 (- z)))) (- z) EmptyString)
  else show_pos (S (Z.to_nat (Z.log2 z))) z EmptyString.

(** What is printed is digits, after a minus sign if negative. *)
Lemma digit_range z : 0 ≤ z < 10 → byte_is_digit (digit z) = true.
Proof.
  intros Hz. assert (z = 0 ∨ z = 1 ∨ z = 2 ∨ z = 3 ∨ z = 4 ∨ z = 5 ∨ z = 6 ∨ z = 7 ∨ z = 8 ∨ z = 9)
    as Hc by lia. by destruct Hc as [->|[->|[->|[->|[->|[->|[->|[->|[->| ->]]]]]]]]].
Qed.

Lemma show_pos_digits fuel z acc :
  0 ≤ z → Forall (λ a, byte_is_digit a = true) (bytes acc) →
  Forall (λ a, byte_is_digit a = true) (bytes (show_pos fuel z acc)).
Proof.
  revert z acc. induction fuel as [|fuel IH]; intros z acc Hz Ha; [done|]. cbn [show_pos].
  destruct (z <? 10) eqn:E.
  - apply Z.ltb_lt in E. constructor; [|done]. by apply digit_range.
  - apply IH; [by apply Z.div_pos|]. constructor; [|done]. apply digit_range, Z.mod_pos_bound. lia.
Qed.

Lemma show_Z_digits z :
  Forall (λ a, byte_is_digit a = true ∨ a = "-"%char) (bytes (show_Z z)).
Proof.
  unfold show_Z. destruct (z <? 0) eqn:E; [apply Z.ltb_lt in E|apply Z.ltb_ge in E].
  - cbn [bytes]. constructor; [by right|]. eapply Forall_impl; [apply show_pos_digits; [lia|constructor]|].
    auto.
  - eapply Forall_impl; [apply show_pos_digits; [lia|constructor]|]. auto.
Qed.

Lemma byte_val_digit z : 0 ≤ z < 10 → byte_val (digit z) = 48 + z.
Proof.
  intros Hz. assert (z = 0 ∨ z = 1 ∨ z = 2 ∨ z = 3 ∨ z = 4 ∨ z = 5 ∨ z = 6 ∨ z = 7 ∨ z = 8 ∨ z = 9)
    as Hc by lia. by destruct Hc as [->|[->|[->|[->|[->|[->|[->|[->|[->| ->]]]]]]]]].
Qed.

Lemma digits_val_show fuel z acc :
  0 ≤ z < 2 ^ Z.of_nat fuel → digits_val 0 (show_pos fuel z acc) = digits_val z acc.
Proof.
  revert z acc. induction fuel as [|fuel IH]; intros z acc Hz.
  { assert (z = 0) as -> by lia. done. }
  cbn [show_pos]. destruct (z <? 10) eqn:E.
  - apply Z.ltb_lt in E. cbn [digits_val]. rewrite digit_range, byte_val_digit by lia. f_equal. lia.
  - apply Z.ltb_ge in E. rewrite IH.
    + cbn [digits_val]. pose proof (Z.mod_pos_bound z 10 ltac:(lia)).
      rewrite digit_range, byte_val_digit by lia. f_equal. pose proof (Z.div_mod z 10). lia.
    + rewrite Nat2Z.inj_succ, Z.pow_succ_r in Hz by lia. split; [by apply Z.div_pos; lia|].
      apply Z.div_lt_upper_bound; lia.
Qed.

Lemma show_pos_nonempty fuel z acc : acc ≠ "" → show_pos fuel z acc ≠ "".
Proof.
  revert z acc. induction fuel as [|fuel IH]; intros z acc Ha; cbn [show_pos]; [done|].
  destruct (z <? 10); [done|]. by apply IH.
Qed.

(** A number that is printed is read back. *)
Lemma parse_int_show sg lo hi z :
  lo ≤ z ≤ hi → 0 ≤ z → parse_int sg lo hi (show_Z z) = Some z.
Proof.
  intros Hz Hz0. unfold show_Z. destruct (z <? 0) eqn:E; [apply Z.ltb_lt in E; lia|clear E].
  set (s := show_pos _ z ""). assert (digits_val 0 s = Some z) as Hd.
  { unfold s. rewrite digits_val_show; [done|]. rewrite Nat2Z.inj_succ, Z2Nat.id by apply Z.log2_nonneg.
    split; [lia|]. destruct (decide (z = 0)) as [->|]; [done|]. apply Z.log2_spec. lia. }
  assert (Forall (λ a, byte_is_digit a = true) (bytes s)) as Hb.
  { apply show_pos_digits; [lia|constructor]. }
  assert (s ≠ "") as Hs.
  { unfold s. cbn [show_pos]. destruct (z <? 10); [done|]. by apply show_pos_nonempty. }
  clearbody s. destruct s as [|a s]; [done|]. cbn [bytes] in Hb. apply Forall_cons in Hb as [Ha _].
  assert (bool_decide (a = "+"%char) = false ∧ bool_decide (a = "-"%char) = false) as [Hp Hm].
  { split; apply bool_decide_false; intros ->; discriminate. }
  unfold parse_int. rewrite Hp, Hm, !Hd, andb_false_r. simpl.
  assert ((lo <=? z) && (z <=? hi) = true) as ->
    by (apply andb_true_iff; split; apply Z.leb_le; lia).
  by destruct s.
Qed.

Lemma parse_show z : 0 ≤ z < 2^63 → parse_i64 (show_Z z) = Some z.
Proof. intros Hz. apply parse_int_show; lia. Qed.

(** A parsed integer's text is made of digits and at most one leading sign. *)
Definition int_byte (a : ascii) : bool :=
  byte_is_digit a || bool_decide (a = "+"%char) || bool_decide (a = "-"%char).

Lemma digits_val_bytes acc s z :
  digits_val acc s = Some z → Forall (λ a, byte_is_digit a = true) (bytes s).
Proof.
  revert acc; induction s as [|a s IH]; intros acc; simpl; [constructor|].
  destruct (byte_is_digit a) eqn:Ha; [|done]. intros H. constructor; eauto.
Qed.

Lemma parse_int_bytes sg lo hi s z :
  parse_int sg lo hi s = Some z → Forall (λ a, int_byte a = true) (bytes s).
Proof.
  assert (∀ t acc v, digits_val acc t = Some v →
            Forall (λ a, int_byte a = true) (bytes t)) as Hd.
  { intros t acc v H. eapply Forall_impl; [by eapply digits_val_bytes|].
    intros a Ha. unfold int_byte. by rewrite Ha. }
  destruct s as [|a [|b r]]; [done| |].
  - cbn [parse_int]. destruct (_ || _); [done|].
    destruct (digits_val 0 _) eqn:H; [|done]. intros _. by eapply Hd.
  - unfold parse_int. case_bool_decide as Ha.
    { destruct (digits_val 0 _) eqn:H; [|done]. intros _.
      simpl. constructor; [|by eapply (Hd (String b r))].
      unfold int_byte. by rewrite (bool_decide_true _ Ha), orb_true_r. }
    destruct (sg && _) eqn:Hs.
    { destruct (digits_val 0 (String b r)) eqn:H; [|done]. intros _.
      simpl. constructor; [|by eapply (Hd (String b r))].
      apply andb_true_iff in Hs as [_ Hs]. unfold int_byte.
      by rewrite Hs, orb_true_r. }
    destruct (digits_val 0 _) eqn:H; [|done]. intros _. by eapply Hd.
Qed.

Lemma parse_int_range sg lo hi s z :
  parse_int sg lo hi s = Some z → lo ≤ z ≤ hi.
Proof.
  unfold parse_int. intros H.
  repeat case_match; simplify_eq; lia.
Qed.

(** ** Text commands *)

(** [str::to_ascii_lowercase]. *)
Definition ascii_lower (a : ascii) : ascii :=
  if in_range 65 90 a then ascii_of_N (N_of_ascii a + 32) else a.

Fixpoint to_ascii_lowercase (s : string) : string :=
  match s with
  | EmptyString => EmptyString
  | String a s => String (ascii_lower a) (to_ascii_lowercase s)
  end.

(** [s.split_once(char::is_whitespace)]: around the first such character. *)
Fixpoint split_once_chars (p : char → bool) (l : list char) : option (string * string) :=
  match l with
  | [] => None
  | c :: l =>
      if p c then Some (EmptyString, string_concat l)
      else (λ '(x, y), (c +:+ x, y)) <$> split_once_chars p l
  end.

Definition split_once_whitespace (s : string) : option (string * string) :=
  split_once_chars is_whitespace (chars s).

(** [str::trim_start]. *)
Definition trim_start (s : string) : string :=
  string_concat (drop_while is_whitespace (chars s)).

Fixpoint take_while {A} (p : A → bool) (l : list A) : list A :=
  match l with
  | [] => []
  | x :: l => if p x then x :: take_while p l else []
  end.

(** [s.split_whitespace().next()]. *)
Definition first_word (s : string) : option string :=
  match drop_while is_whitespace (chars s) with
  | [] => None
  | l => Some (string_concat (take_while (λ c, negb (is_whitespace c)) l))
  end.

(** [str::lines]: a line ends with a line feed, before which one carriage return
    is dropped; an empty rest after the last line feed is no line. *)
Definition strip_cr (s : string) : string :=
  default s (strip_suffix (String "013"%char EmptyString) s).

Fixpoint lines_of (pieces : list string) : list string :=
  match pieces with
  | [] => []
  | [last] => if string_eqb last EmptyString then [] else [last]
  | x :: pieces => strip_cr x :: lines_of pieces
  end.

Definition lines (s : string) : list string := lines_of (split "010"%char s).

(** Strings of one-byte characters. *)
Lemma chars_ascii s :
  Forall (λ a, is_continuation a = false) (bytes s) →
  chars s = map (λ a, String a EmptyString) (bytes s).
Proof.
  induction s as [|a [|b s] IH]; [done|done|]. intros [_ Hb]%Forall_cons.
  specialize (IH Hb). apply Forall_cons in Hb as [Hb _].
  change (chars (String a (String b s))) with
    (if is_continuation b then
       match chars (String b s) with
       | c :: cs => String a c :: cs
       | [] => [String a EmptyString]
       end
     else String a EmptyString :: chars (String b s)).
  by rewrite Hb, IH.
Qed.

Lemma drop_while_head {A} (p : A → bool) l :
  (∀ x, hd_error l = Some x → p x = false) → drop_while p l = l.
Proof. destruct l as [|x l]; [done|]. intros Hx. simpl. by rewrite (Hx x eq_refl). Qed.

(** A text that neither begins nor ends with white space is its own [trim]. *)
Lemma trim_fix s :
  (∀ c, hd_error (chars s) = Some c → is_whitespace c = false) →
  (∀ c, last (chars s) = Some c → is_whitespace c = false) → trim s = s.
Proof.
  intros Hh Hl. unfold trim. rewrite (drop_while_head is_whitespace (chars s)) by done.
  rewrite (drop_while_head is_whitespace (reverse (chars s))).
  - by rewrite reverse_involutive, chars_concat.
  - intros c Hc. apply Hl. rewrite <- (reverse_involutive (chars s)), last_reverse.
    by destruct (reverse (chars s)).
Qed.

(** Text of plain bytes with no white space is its own trim. *)
Lemma trim_plain s :
  Forall (λ a, is_continuation a = false ∧ is_whitespace (String a EmptyString) = false)
    (bytes s) → trim s = s.
Proof.
  intros Hs. assert (Forall (λ c, is_whitespace c = false) (chars s)) as Hw.
  { rewrite chars_ascii by (eapply Forall_impl; [exact Hs|]; by intros a []).
    apply Forall_fmap. eapply Forall_impl; [exact Hs|]. by intros a []. }
  rewrite Forall_forall in Hw. apply trim_fix; intros c Hc; apply Hw.
  - destruct (chars s); simplify_eq/=. by left.
  - by apply last_Some_elem_of.
Qed.

Lemma split_once_chars_app p l c r :
  Forall (λ x, p x = false) l → p c = true →
  split_once_chars p (l ++ c :: r) = Some (string_concat l, string_concat r).
Proof.
  intros Hl Hc. induction Hl as [|x l Hx _ IH]; simpl; [by rewrite Hc|]. by rewrite Hx, IH.
Qed.

(** ** UTF-8 validation *)

(** [std::str::from_utf8] accepts exactly the well-formed sequences of the Unicode
    standard (no overlong forms, no surrogates, at most U+10FFFF). *)
Definition cont (a : ascii) : bool := is_continuation a.

Fixpoint utf8_valid (l : list ascii) : bool :=
  match l with
  | [] => true
  | a :: l1 =>
      if byte_val a <? 128 then utf8_valid l1
      else match l1 with
      | [] => false
      | b :: l2 =>
          if in_range 194 223 a then cont b && utf8_valid l2
          else match l2 with
          | [] => false
          | c :: l3 =>
              if bool_decide (byte_val a = 224) then
                in_range 160 191 b && cont c && utf8_valid l3
              else if bool_decide (byte_val a = 237) then
                in_range 128 159 b && cont c && utf8_valid l3
              else if in_range 225 239 a then cont b && cont c && utf8_valid l3
              else match l3 with
              | [] => false
              | d :: l4 =>
                  (if bool_decide (byte_val a = 240) then in_range 144 191 b
                   else if in_range 241 243 a then cont b
                   else bool_decide (byte_val a = 244) && in_range 128 143 b)
                  && cont c && cont d && utf8_valid l4
              end
          end
      end
  end.

(** The text of a byte sequence. *)
Fixpoint string_of_bytes (l : list ascii) : string :=
  match l with [] => EmptyString | a :: l => String a (string_of_bytes l) end.

Lemma string_of_bytes_bytes s : string_of_bytes (bytes s) = s.
Proof. induction s as [|a s IH]; simpl; [done|]. by rewrite IH. Qed.

Definition from_utf8 (l : list ascii) : option string :=
  if utf8_valid l then Some (string_of_bytes l) else None.

(** No ASCII byte is followed by a continuation byte. *)
Fixpoint lone (l : list ascii) : bool :=
  match l with
  | [] => true
  | a :: r =>
      (if byte_val a <? 128 then match r with b :: _ => negb (is_continuation b) | [] => true end
       else true) && lone r
  end.

Lemma utf8_head a l : utf8_valid (a :: l) = true → is_continuation a = false.
Proof.
  simpl. unfold is_continuation. intros Hv. destruct (byte_val a <? 128) eqn:Ha.
  { apply Z.ltb_lt in Ha. apply andb_false_iff. left. apply Z.leb_gt. lia. }
  apply andb_false_iff. right. apply Z.ltb_ge. apply Z.ltb_ge in Ha.
  destruct l as [|b l]; [done|]. unfold in_range in Hv.
  destruct (Z.leb_spec 192 (byte_val a)); [done|]. exfalso. revert Hv.
  repeat first
    [ rewrite (proj2 (Z.leb_gt _ (byte_val a))) by lia
    | rewrite bool_decide_false by lia ]; simpl.
  destruct l as [|c l]; [done|]. destruct l; done.
Qed.

Lemma lone_high a l : byte_val a <? 128 = false → lone (a :: l) = lone l.
Proof. intros Ha. simpl. by rewrite Ha. Qed.

Lemma cont_high a : is_continuation a = true → byte_val a <? 128 = false.
Proof. unfold is_continuation. intros [Ha _]%andb_true_iff. apply Z.leb_le in Ha. by apply Z.ltb_ge. Qed.

Lemma range_high lo hi a : 128 ≤ lo → in_range lo hi a = true → byte_val a <? 128 = false.
Proof.
  intros Hl [Ha _]%andb_true_iff. apply Z.leb_le in Ha. apply Z.ltb_ge. lia.
Qed.

Lemma utf8_lone l : utf8_valid l = true → lone l = true.
Proof.
  remember (length l) as n eqn:Hn. revert l Hn.
  induction n as [n IH] using lt_wf_ind; intros l -> Hv.
  destruct l as [|a l1]; [done|]. destruct (byte_val a <? 128) eqn:Ha.
  { simpl in *. rewrite Ha in *. rewrite (IH (length l1)) by (done || lia).
    destruct l1 as [|b l2]; [done|]. by rewrite (utf8_head b l2). }
  rewrite lone_high by done. simpl in Hv. rewrite Ha in Hv.
  destruct l1 as [|b l2]; [done|]. destruct (in_range 194 223 a).
  { apply andb_true_iff in Hv as [Hb Hv]. rewrite lone_high by by apply cont_high.
    by apply (IH (length l2)); [simpl; lia|..]. }
  destruct l2 as [|c l3]; [done|].
  assert (∀ x, byte_val x <? 128 = false → cont c && utf8_valid l3 = true → lone (x :: c :: l3) = true)
    as H3.
  { intros x Hx [Hc Hl]%andb_true_iff. rewrite !lone_high by (done || by apply cont_high).
    by apply (IH (length l3)); [simpl; lia|..]. }
  destruct (bool_decide (byte_val a = 224)).
  { apply andb_true_iff in Hv as [[Hb Hc]%andb_true_iff Hv].
    apply H3; [by apply (range_high 160 191)|by rewrite Hc, Hv]. }
  destruct (bool_decide (byte_val a = 237)).
  { apply andb_true_iff in Hv as [[Hb Hc]%andb_true_iff Hv].
    apply H3; [by apply (range_high 128 159)|by rewrite Hc, Hv]. }
  destruct (in_range 225 239 a).
  { apply andb_true_iff in Hv as [[Hb Hc]%andb_true_iff Hv].
    apply H3; [by apply cont_high|by rewrite Hc, Hv]. }
  destruct l3 as [|d l4]; [done|].
  apply andb_true_iff in Hv as [[[Hb Hc]%andb_true_iff Hd]%andb_true_iff Hv].
  assert (byte_val b <? 128 = false) as Hb'.
  { destruct (bool_decide (byte_val a = 240)); [by apply (range_high 144 191)|].
    destruct (in_range 241 243 a); [by apply cont_high|].
    apply andb_true_iff in Hb as [_ Hb]. by apply (range_high 128 143). }
  rewrite (lone_high b), (lone_high c), (lone_high d) by (done || by apply cont_high).
  by apply (IH (length l4)); [simpl; lia|..].
Qed.

(** In valid text an ASCII byte is a character of its own. *)
Lemma chars_lone s :
  lone (bytes s) = true →
  Forall (λ c, ∀ a, a ∈ bytes c → byte_val a < 128 → c = String a EmptyString) (chars s).
Proof.
  induction s as [|a s IH]; intros Hl; [constructor|].
  cbn [bytes lone] in Hl. apply andb_true_iff in Hl as [Ha Hl]. specialize (IH Hl).
  destruct s as [|b s].
  { apply Forall_cons; split; [|constructor]. intros x Hx _. by apply list_elem_of_singleton in Hx as ->. }
  change (chars (String a (String b s))) with
    (if is_continuation b then
       match chars (String b s) with
       | c :: cs => String a c :: cs
       | [] => [String a EmptyString]
       end
     else String a EmptyString :: chars (String b s)).
  pose proof (chars_nonempty b s) as Hne. destruct (is_continuation b) eqn:Hb.
  - destruct (chars (String b s)) as [|c cs] eqn:Ec; [done|].
    apply Forall_cons in IH as [Hc Hcs]. apply Forall_cons; split; [|done].
    intros x Hx Hlt. exfalso. cbn [bytes] in Hx, Ha. rewrite Hb in Ha. simpl in Ha.
    apply elem_of_cons in Hx as [->|Hx].
    + by rewrite (proj2 (Z.ltb_lt _ _) Hlt) in Ha.
    + specialize (Hc x Hx Hlt) as ->. pose proof (chars_concat (String b s)) as Hs.
      rewrite Ec in Hs. simpl in Hs. injection Hs as -> _.
      apply cont_high in Hb. apply Z.ltb_ge in Hb. lia.
  - apply Forall_cons; split; [|done]. intros x Hx _. by apply list_elem_of_singleton in Hx as ->.
Qed.

(** ** Random bytes *)

(** [OsRng]: a sequence of random bytes and the number already drawn. *)
Record rng := mkRng { rng_bytes : nat → ascii; rng_drawn : nat }.

(** [OsRng.fill_bytes] on a buffer of [n] bytes. *)
Definition fill_bytes (n : nat) (r : rng) : list ascii * rng :=
  (rng_bytes r <$> seq (rng_drawn r) n, mkRng (rng_bytes r) (rng_drawn r + n)).

Lemma fill_bytes_length n r : length (fill_bytes n r).1 = n.
Proof. unfold fill_bytes. simpl. by rewrite length_fmap, length_seq. Qed.
