(* ===== verification/Json.v ===== *)
(** * JSON values ([serde_json::Value])

    The program exchanges JSON trees: envelope bodies, step parameters and
    results, connector templates. Integers are kept exact; a non-integer number
    is represented by the decimal text [serde_json] prints for it. An object is
    the list of its entries in key order, which is how [serde_json::Map]
    (a [BTreeMap], the [preserve_order] feature is off) stores and iterates it. *)

From S2P Require Import Prelude RustStd.
From Stdlib Require Import ZArith Ascii.

Inductive json :=
| JNull
| JBool (b : bool)
| JInt (z : Z)
| JFloat (repr : string)
| JString (s : string)
| JArray (l : list json)
| JObject (l : list (string * json)).

(** The induction principle that goes under the lists. *)
Section json_ind.
Variable P : json → Prop.
Hypothesis Hnull : P JNull.
Hypothesis Hbool : ∀ b, P (JBool b).
Hypothesis Hint : ∀ z, P (JInt z).
Hypothesis Hfloat : ∀ r, P (JFloat r).
Hypothesis Hstring : ∀ s, P (JString s).
Hypothesis Harray : ∀ l, Forall P l → P (JArray l).
Hypothesis Hobject : ∀ l, Forall (λ kv, P kv.2) l → P (JObject l).

Fixpoint json_deep_ind (j : json) : P j :=
  match j with
  | JNull => Hnull
  | JBool b => Hbool b
  | JInt z => Hint z
  | JFloat r => Hfloat r
  | JString s => Hstring s
  | JArray l =>
      Harray l
        ((fix go l : Forall P l :=
            match l with
            | [] => Forall_nil_2 _
            | x :: l => Forall_cons_2 _ _ _ (json_deep_ind x) (go l)
            end) l)
  | JObject l =>
      Hobject l
        ((fix go l : Forall (λ kv, P kv.2) l :=
            match l with
            | [] => Forall_nil_2 _
            | (k, x) :: l => Forall_cons_2 _ (k, x) _ (json_deep_ind x) (go l)
            end) l)
  end.
End json_ind.

(** Lookup and insertion in an object's entries. *)
Fixpoint assoc {V} (k : string) (l : list (string * V)) : option V :=
  match l with
  | [] => None
  | (k', v) :: l => if string_eqb k k' then Some v else assoc k l
  end.

Fixpoint assoc_insert {V} (k : string) (v : V) (l : list (string * V)) :
    list (string * V) :=
  match l with
  | [] => [(k, v)]
  | (k', v') :: r =>
      if string_eqb k k' then (k, v) :: r
      else if String.leb k k' then (k, v) :: l
      else (k', v') :: assoc_insert k v r
  end.

(** [Value::get] with a string key: [None] on anything but an object. *)
Definition jget (j : json) (k : string) : option json :=
  match j with JObject l => assoc k l | _ => None end.

(** [Value::as_str], [as_bool], [as_u64]. *)
Definition as_str (j : json) : option string :=
  match j with JString s => Some s | _ => None end.

Definition as_bool (j : json) : option bool :=
  match j with JBool b => Some b | _ => None end.

Definition as_u64 (j : json) : option Z :=
  match j with JInt z => if (0 <=? z)%Z then Some z else None | _ => None end.

(** [Value::as_array], empty for anything else; [value[k]], null when absent. *)
Definition as_array (j : json) : list json := match j with JArray l => l | _ => [] end.

Definition jindex (j : json) (k : string) : json := default JNull (jget j k).

(** [json!({..})]: the entries are inserted in order. *)
Definition jobj (l : list (string * json)) : json :=
  JObject (fold_left (λ acc kv, assoc_insert kv.1 kv.2 acc) l []).

(** [Value::Null] for [None], the value itself for [Some] ([json!] on an
    [Option]). *)
Definition jopt (o : option string) : json :=
  match o with Some s => JString s | None => JNull end.

Lemma assoc_insert_eq {V} k (v : V) l : assoc k (assoc_insert k v l) = Some v.
Proof.
  assert (string_eqb k k = true) as Hkk by by apply bool_decide_true.
  induction l as [|[k' v'] l IH]; simpl; [by rewrite Hkk|].
  destruct (string_eqb k k') eqn:E; simpl; [by rewrite Hkk|].
  destruct (String.leb k k'); simpl; [by rewrite Hkk|]. by rewrite E.
Qed.

Lemma assoc_insert_ne {V} k k' (v : V) l :
  k ≠ k' → assoc k' (assoc_insert k v l) = assoc k' l.
Proof.
  intros Hne. assert (string_eqb k' k = false) as Hk
    by (apply bool_decide_false; congruence).
  induction l as [|[k2 v2] l IH]; simpl; [by rewrite Hk|].
  destruct (string_eqb k k2) eqn:E; simpl.
  { apply bool_decide_eq_true in E as <-. by rewrite Hk. }
  destruct (String.leb k k2); simpl; [by rewrite Hk|].
  destruct (string_eqb k' k2); [done|]. apply IH.
Qed.

(** [Value::as_i64]; serde's derived decoders of a struct, on objects. *)
Definition as_i64 (j : json) : option Z :=
  match j with JInt z => if ((-2^63 <=? z) && (z <? 2^63))%Z then Some z else None | _ => None end.

Definition on_object {A} (j : json) (r : option A) : option A :=
  match j with JObject _ => r | _ => None end.

(** A required field, one of type [Option], and one with [#[serde(default)]]. *)
Definition req_field {A} (dec : json → option A) (j : json) (k : string) : option A := jget j k ≫= dec.

Definition opt_field {A} (dec : json → option A) (j : json) (k : string) : option (option A) :=
  match jget j k with None | Some JNull => Some None | Some v => Some <$> dec v end.

Definition default_field {A} (dec : json → option A) (d : A) (j : json) (k : string) : option A :=
  match jget j k with None => Some d | Some v => dec v end.

Definition decode_list {A} (dec : json → option A) (j : json) : option (list A) :=
  match j with JArray l => mapM dec l | _ => None end.

(** The keys of a [BTreeMap]: ascending, none twice. *)
Fixpoint keys_ascend (l : list (string * json)) : bool :=
  match l with
  | (k, _) :: ((k', _) :: _) as r => String.leb k k' && negb (string_eqb k k') && keys_ascend r
  | _ => true
  end.

(** A value whose text reads back as the value itself: its objects are maps, its
    integers fit [i64] or [u64], it has no other number (the [float_roundtrip]
    feature is off, so a fraction may come back changed), and arrays and objects are
    nested at most [depth] deep. The parser gives up at 128 levels. *)
Fixpoint json_plain (depth : nat) (j : json) : bool :=
  match j with
  | JNull | JBool _ | JString _ => true
  | JInt z => ((-2^63 <=? z) && (z <? 2^64))%Z
  | JFloat _ => false
  | JArray l => match depth with O => false | S d => forallb (json_plain d) l end
  | JObject l =>
      match depth with
      | O => false
      | S d => keys_ascend l && forallb (λ kv, json_plain d kv.2) l
      end
  end.

Definition MAX_DEPTH : nat := 127.

(** [serde_json::to_string] and [serde_json::from_str::<Value>] with the message of
    its error; what is printed of a plain value is read back. *)
Class JsonText := {
  json_to_string : json → string;
  json_from_str : string → result string json;
}.

Class JsonTextLaws `{JsonText} := {
  json_text_roundtrip j :
    json_plain MAX_DEPTH j = true → json_from_str (json_to_string j) = Ok j;
}.

Lemma plain_int d z : (-2^63 ≤ z < 2^64)%Z → json_plain d (JInt z) = true.
Proof.
  intros Hz. destruct d; unfold json_plain; rewrite andb_true_iff, Z.leb_le, Z.ltb_lt; lia.
Qed.

(** Inserting keeps the keys in order, so an object literal of plain values is plain. *)
Lemma keys_ascend_insert k v l : keys_ascend l = true → keys_ascend (assoc_insert k v l) = true.
Proof.
  induction l as [|[k' v'] l IH]; intros Hl; [done|]. simpl assoc_insert.
  destruct (string_eqb k k') eqn:He.
  { apply bool_decide_eq_true in He as ->. destruct l as [|[k2 v2] l]; exact Hl. }
  destruct (String.leb k k') eqn:Hle.
  { cbn [keys_ascend]. cbn [keys_ascend] in Hl. by rewrite Hle, He, Hl. }
  assert (String.leb k' k = true ∧ string_eqb k' k = false) as [Hlt Hne].
  { split; [by destruct (String.leb_total k k') as [?|?]; congruence|].
    apply bool_decide_false. intros ->. by apply bool_decide_eq_false in He. }
  destruct l as [|[k2 v2] l]; simpl assoc_insert.
  { cbn [keys_ascend]. by rewrite Hlt, Hne. }
  cbn [keys_ascend] in Hl. apply andb_true_iff in Hl as [Hk2 Hl]. specialize (IH Hl).
  simpl assoc_insert in IH. destruct (string_eqb k k2); [|destruct (String.leb k k2)];
    cbn [keys_ascend] in IH |- *; by rewrite ?Hlt, ?Hne, ?Hk2, ?IH.
Qed.

Lemma plain_jobj d l :
  forallb (λ kv, json_plain d kv.2) l = true → json_plain (S d) (jobj l) = true.
Proof.
  unfold jobj. cbn [json_plain].
  assert (∀ acc : list (string * json),
    keys_ascend acc = true → forallb (λ kv, json_plain d kv.2) acc = true →
    forallb (λ kv, json_plain d kv.2) l = true →
    let r := fold_left (λ acc kv, assoc_insert kv.1 kv.2 acc) l acc in
    keys_ascend r && forallb (λ kv, json_plain d kv.2) r = true) as Hgen; [|by apply Hgen].
  induction l as [|[k v] l IH]; intros acc Hk Ha Hl; simpl; [by rewrite Hk, Ha|].
  simpl in Hl. apply andb_true_iff in Hl as [Hv Hl]. apply IH; [by apply keys_ascend_insert| |done].
  clear IH Hk Hl. induction acc as [|[k' v'] acc IHa]; simpl in *; [by rewrite Hv|].
  apply andb_true_iff in Ha as [Hv' Ha].
  destruct (string_eqb k k'); [by simpl; rewrite Hv, Ha|].
  destruct (String.leb k k'); simpl; [by rewrite Hv, Hv', Ha|by rewrite Hv', IHa].
Qed.

(** A deeper allowance allows the same values. *)
Lemma json_plain_mono d d' j : d ≤ d' → json_plain d j = true → json_plain d' j = true.
Proof.
  revert d d'. induction j as [|b|z|r|s|l IH|l IH] using json_deep_ind; intros d d' Hd.
  1-5: by destruct d, d'.
  - destruct d as [|d], d' as [|d']; try done; [lia|]. cbn [json_plain]. rewrite !forallb_elem.
    intros Hl x Hx. rewrite Forall_forall in IH. apply (IH x Hx d); [lia|by apply Hl].
  - destruct d as [|d], d' as [|d']; try done; [lia|]. cbn [json_plain].
    rewrite !andb_true_iff, !forallb_elem. intros [Hk Hl]. split; [done|].
    intros x Hx. rewrite Forall_forall in IH. apply (IH x Hx d); [lia|by apply Hl].
Qed.

(** [StatusCode::is_success]. *)
Definition is_success (status : Z) : bool := ((200 <=? status) && (status <? 300))%Z.

(** ** A text form

    Enough to run definitions that read and print JSON on concrete values: the value
    as a tree, the tree as a number, the number in binary. *)

Fixpoint json_tree (j : json) : gen_tree (bool + (Z + (string + string))) :=
  match j with
  | JNull => GenNode 0 []
  | JBool b => GenLeaf (inl b)
  | JInt z => GenLeaf (inr (inl z))
  | JFloat r => GenLeaf (inr (inr (inl r)))
  | JString s => GenLeaf (inr (inr (inr s)))
  | JArray l => GenNode 1 (map json_tree l)
  | JObject l =>
      GenNode 2 (map (λ kv, GenNode 3 [GenLeaf (inr (inr (inr kv.1))); json_tree kv.2]) l)
  end.

Fixpoint tree_json (t : gen_tree (bool + (Z + (string + string)))) : json :=
  match t with
  | GenLeaf (inl b) => JBool b
  | GenLeaf (inr (inl z)) => JInt z
  | GenLeaf (inr (inr (inl r))) => JFloat r
  | GenLeaf (inr (inr (inr s))) => JString s
  | GenNode 1 l => JArray (map tree_json l)
  | GenNode 2 l =>
      JObject (map (λ t, match t with
                         | GenNode _ [GenLeaf (inr (inr (inr k))); v] => (k, tree_json v)
                         | _ => ("", JNull)
                         end) l)
  | GenNode _ _ => JNull
  end.

Lemma tree_json_tree j : tree_json (json_tree j) = j.
Proof.
  induction j as [|b|z|r|s|l IH|l IH] using json_deep_ind; simpl; try done; f_equal.
  - induction IH as [|x l Hx _ IHl]; simpl; by f_equal.
  - induction IH as [|[k x] l Hx _ IHl]; simpl in *; [done|]. by rewrite Hx, IHl.
Qed.

#[export] Instance json_eq_dec : EqDecision json.
Proof.
  refine (λ x y, cast_if (decide (json_tree x = json_tree y))); [|congruence].
  rewrite <- (tree_json_tree x), <- (tree_json_tree y). congruence.
Defined.

#[export] Instance json_countable : Countable json := inj_countable' json_tree tree_json tree_json_tree.

Fixpoint bits (p : positive) : string :=
  match p with
  | xH => EmptyString
  | xO p => String "0"%char (bits p)
  | xI p => String "1"%char (bits p)
  end.
Fixpoint unbits (s : string) : positive :=
  match s with
  | EmptyString => xH
  | String a s => if bool_decide (a = "1"%char) then xI (unbits s) else xO (unbits s)
  end.
Lemma unbits_bits p : unbits (bits p) = p.
Proof. induction p as [p IH|p IH|]; simpl; by rewrite ?IH. Qed.

(** A text that starts with [j] is a value. *)
Definition demo_print (j : json) : string := String "j" (bits (encode j)).
Definition demo_parse (s : string) : result string json :=
  match s with
  | String "j" s => ok_or (decode (unbits s)) "expected value"
  | _ => Err "expected value"
  end.

Lemma demo_parse_print j : demo_parse (demo_print j) = Ok j.
Proof. unfold demo_parse, demo_print. by rewrite unbits_bits, decode_encode. Qed.

Definition demo_json_text : JsonText := {| json_to_string := demo_print; json_from_str := demo_parse |}.
Definition demo_json_laws : @JsonTextLaws demo_json_text :=
  @Build_JsonTextLaws demo_json_text (λ j _, demo_parse_print j).
