(* ===== verification/Core.v ===== *)
(** * daimon-core: capabilities, identities and envelopes

    The data the agents exchange ([daimon-core/src]). The [semver] crate is a
    parameter ({!SemVer}): the program only builds versions, parses and prints
    version requirements and asks whether a version satisfies one. *)

From S2P Require Import Prelude RustStd Json.
From Stdlib Require Import ZArith Ascii.

(** ** The semver crate *)

Class SemVer := {
  version : Type;
  version_req : Type;
  version_new : Z → Z → Z → version;
  (** [str::parse::<VersionReq>]; the error is its [Display] text. *)
  req_parse : string → result string version_req;
  (** [VersionReq::to_string]. *)
  req_show : version_req → string;
  (** [VersionReq::matches]. *)
  req_matches : version_req → version → bool;
}.

(** Documented behaviour of the crate the code relies on: [*] parses, and is
    satisfied by every release version (one without a pre-release tag). *)
Class SemVerLaws `{SemVer} := {
  req_star : version_req;
  req_star_parse : req_parse "*" = Ok req_star;
  req_star_matches : ∀ a b c, req_matches req_star (version_new a b c) = true;
}.

(** [semver::Version]: its order and its [Display]. The caret of a version parses to a
    requirement the version itself meets. *)
Class SemVerOrder `{SemVer} := {
  version_leb : version → version → bool;
  version_show : version → string;
  caret_parse v : ∃ r, req_parse ("^" +:+ version_show v) = Ok r ∧ req_matches r v = true;
}.

(** ** Identities *)

(** An agent id is an opaque string. A UUID is its canonical text. *)
Abbreviation AgentId := string (only parsing).
Abbreviation Uuid := string (only parsing).

(** ** Capabilities *)

Record CompensatingCapability := mkCompensating {
  comp_name : string;
  comp_version_req : option string;
}.

Section Core.
Context `{SemVer}.

Record Capability := mkCapability {
  cap_name : string;
  cap_version : version;
  cap_description : option string;
  cap_schema : option json;
  cap_compensating : option CompensatingCapability;
  cap_irreversible : bool;
}.

(** [Capability::read_only]. *)
Definition read_only (name : string) (v : version) : Capability :=
  {| cap_name := name; cap_version := v; cap_description := None;
     cap_schema := None; cap_compensating := None; cap_irreversible := false |}.

Definition READ_MARKERS : list string :=
  ["_info"; "_list"; "list_"; ".list"; "_addresses"; "ip_addresses";
   "_status"; ".status"; ".read"; "_read"; "read_state"; "describe";
   "diagnose"; ".get"; "_get"; "_show"; "_print"].

(** [Capability::name_is_read]: some marker occurs anywhere in the name. *)
Definition name_is_read (name : string) : bool :=
  existsb (λ m, contains name m) READ_MARKERS.

(** [Capability::is_read]: the server-side read-only disposition. *)
Definition is_read (c : Capability) : bool :=
  match cap_compensating c with None => true | Some _ => false end
  && negb (cap_irreversible c) && name_is_read (cap_name c).

(** ** Envelopes *)

Inductive Recipient :=
| Direct (id : AgentId)
| ByCapability (name : string) (req : version_req).

Record AuditMetadata := mkAuditMetadata {
  am_ts : Z;
  am_parent_correlation_id : option Uuid;
}.

Record AgentEnvelope := mkEnvelope {
  env_correlation_id : Uuid;
  env_from : AgentId;
  env_to : Recipient;
  env_reply_to : option AgentId;
  env_body : json;
  env_audit : AuditMetadata;
}.

(** [AuditMetadata::default] at time [now]. *)
Definition audit_default (now : Z) : AuditMetadata :=
  {| am_ts := now; am_parent_correlation_id := None |}.

(** [AgentEnvelope::new]; the fresh correlation id and the clock are
    arguments. *)
Definition envelope_new (corr : Uuid) (now : Z) (from : AgentId) (to : Recipient)
    (body : json) : AgentEnvelope :=
  {| env_correlation_id := corr; env_from := from; env_to := to;
     env_reply_to := None; env_body := body; env_audit := audit_default now |}.

(** [AgentEnvelope::reply_to]. *)
Definition reply_to (request : AgentEnvelope) (now : Z) (from : AgentId)
    (body : json) : AgentEnvelope :=
  {| env_correlation_id := env_correlation_id request; env_from := from;
     env_to := Direct (env_from request); env_reply_to := None;
     env_body := body; env_audit := audit_default now |}.

(** ** Errors *)

Inductive CoreError :=
| CapabilityNotFound (name version_req : string)
| AgentNotFound (id : string)
| BusSend (msg : string)
| Handler (msg : string)
| Serde (msg : string)
| CoreOther (msg : string).

Definition show_core_error (e : CoreError) : string :=
  match e with
  | CapabilityNotFound n v =>
      "no agent registered for capability `" +:+ n +:+ "` matching `" +:+ v +:+ "`"
  | AgentNotFound i => "agent `" +:+ i +:+ "` not found"
  | BusSend m => "bus send failed: " +:+ m
  | Handler m => "agent handler error: " +:+ m
  | Serde m => "serialization error: " +:+ m
  | CoreOther m => m
  end.

(** A write disposition is decided by any one of three facts. *)
Lemma is_read_spec c :
  is_read c = true ↔
  cap_compensating c = None ∧ cap_irreversible c = false ∧
  ∃ m u v, m ∈ READ_MARKERS ∧ cap_name c = u +:+ m +:+ v.
Proof.
  unfold is_read, name_is_read.
  rewrite !andb_true_iff, negb_true_iff, existsb_elem.
  setoid_rewrite contains_spec.
  destruct (cap_compensating c); split; [by intros [[? _] _]|by intros [? _]| |];
    [intros [[_ ?] (m & ? & u & v & ?)]|intros (_ & ? & m & u & v & ? & ?)]; eauto 10.
Qed.
End Core.

(** A concrete [semver] for evaluation: versions are triples of numbers and a
    requirement is either [*], [^major] or an exact triple. It serves the
    witnesses; no theorem assumes it. *)
Module DemoSemVer.
Inductive req := Star | Caret (major : Z) | Exact (v : Z * Z * Z).

Definition parse (s : string) : result string req :=
  if string_eqb s "*" then Ok Star
  else match strip_prefix "^" s with
       | Some r =>
           match parse_u8 r with
           | Some z => Ok (Caret z)
           | None =>
               match strip_prefix "v" r ≫= λ s, decode (A := Z * Z * Z) (unbits s) with
               | Some v => Ok (Caret v.1.1)
               | None => Err "unexpected character"
               end
           end
       | None =>
           match map parse_u8 (split "."%char s) with
           | [Some a; Some b; Some c] => Ok (Exact (a, b, c))
           | _ => Err "unexpected character"
           end
       end.

Definition show (r : req) : string :=
  match r with
  | Star => "*"
  | Caret m => "^" +:+ show_Z m
  | Exact (a, b, c) => show_Z a +:+ "." +:+ show_Z b +:+ "." +:+ show_Z c
  end.

Definition matches (r : req) (v : Z * Z * Z) : bool :=
  match r with
  | Star => true
  | Caret m => (v.1.1 =? m)%Z
  | Exact w => bool_decide (v = w)
  end.

#[export] Instance demo_semver : SemVer := {|
  version := Z * Z * Z; version_req := req;
  version_new := λ a b c, (a, b, c);
  req_parse := parse; req_show := show; req_matches := matches;
|}.

#[export] Instance demo_semver_laws : SemVerLaws.
Proof. by exists Star. Defined.

(** A version prints as a code. *)
Definition leb (v w : Z * Z * Z) : bool :=
  (v.1.1 <? w.1.1)%Z || ((v.1.1 =? w.1.1)%Z && ((v.1.2 <? w.1.2)%Z ||
  ((v.1.2 =? w.1.2)%Z && (v.2 <=? w.2)%Z))).
Definition show_version (v : Z * Z * Z) : string := "v" +:+ bits (encode v).

Lemma caret_of v : parse ("^" +:+ show_version v) = Ok (Caret v.1.1).
Proof.
  assert (decode (unbits (bits (encode v))) = Some v) as Hv by by rewrite unbits_bits, decode_encode.
  unfold parse, show_version. simpl. change ("" +:+ bits (encode v)) with (bits (encode v)).
  rewrite Hv. by destruct (bits (encode v)).
Qed.

Lemma caret_meets v : ∃ r, parse ("^" +:+ show_version v) = Ok r ∧ matches r v = true.
Proof. exists (Caret v.1.1). split; [apply caret_of|]. apply Z.eqb_refl. Qed.

#[export] Instance demo_semver_order : SemVerOrder := {|
  version_leb := leb; version_show := show_version; caret_parse := caret_meets;
|}.
End DemoSemVer.
