(* ===== verification/KillSwitch.v ===== *)
(** * daimon-guard: the KILL switch ([daimon-guard/src/kill_switch.rs])

    The shared kill state and the two background tasks that drive it: the poll
    task that watches the KILL file and the SIGUSR1 handler. The tasks run
    concurrently with the operator (who creates and removes the file), so they
    are a transition system: one label per atomic action, with the poll task
    and the signal handler suspended at each of their [await] points. *)

From S2P Require Import Prelude RustStd.

(** ** Kill state *)

Record KillState := mkKillState {
  engaged : bool;
  reason : string;
}.

(** [KillState::new]. *)
Definition kill_new : KillState := {| engaged := false; reason := "" |}.

(** [KillState::engage]. *)
Definition engage (r : string) (k : KillState) : KillState :=
  {| engaged := true; reason := r |}.

(** [KillState::release]. *)
Definition release (k : KillState) : KillState :=
  {| engaged := false; reason := "" |}.

(** ** The watcher tasks *)

(** Where the poll task is suspended. [SawPresent]: [try_exists] said the file
    exists and the last poll had not seen it; [HasReason]: its text has been
    read; [SawAbsent]: the file is gone and the last poll had seen it. *)
Inductive poll_pc := PollIdle | SawPresent | HasReason (r : string) | SawAbsent.

(** Where the SIGUSR1 task is suspended: waiting for a signal, or between
    writing the KILL file and engaging. *)
Inductive sig_pc := SigIdle | SigWrote.

Record ksys := mkKsys {
  k_state : KillState;
  k_file : option string;  (** contents of the KILL file, if it exists *)
  k_last : bool;           (** the poll task's [last] *)
  k_poll : poll_pc;
  k_sig : sig_pc;
}.

(** The state [spawn_watchers] starts from. *)
Definition kinit (file : option string) : ksys :=
  {| k_state := kill_new; k_file := file; k_last := false;
     k_poll := PollIdle; k_sig := SigIdle |}.

(** The atomic actions. The boolean of a file operation says whether the
    operating system served it. *)
Inductive klabel :=
| Touch (contents : string)   (** the operator creates the KILL file *)
| Rm                          (** the operator removes it *)
| PollCheck (ok : bool)       (** [interval.tick] and [try_exists] *)
| PollRead (ok : bool)        (** [read_to_string] *)
| PollApply                   (** [engage] or [release], and [last = exists] *)
| SigRecv (ok : bool)         (** a signal arrives; the file is written *)
| SigEngage.                  (** the handler engages *)

Definition file_exists (s : ksys) : bool :=
  match k_file s with Some _ => true | None => false end.

(** The reason the poll task engages with, from what [read_to_string] gave. *)
Definition poll_reason (path : string) (text : option string) : string :=
  let t := trim (default "file present" text) in
  if string_eqb t "" then "KILL file present at " +:+ path else t.

Definition kstep (path : string) (s : ksys) (l : klabel) : option ksys :=
  let 'mkKsys st file last pc sig := s in
  match l, pc, sig with
  | Touch c, _, _ => Some (mkKsys st (Some c) last pc sig)
  | Rm, _, _ => Some (mkKsys st None last pc sig)
  | PollCheck ok, PollIdle, _ =>
      let exists_ := ok && file_exists s in
      Some (if eqb exists_ last then s
            else mkKsys st file last (if exists_ then SawPresent else SawAbsent) sig)
  | PollRead ok, SawPresent, _ =>
      Some (mkKsys st file last
              (HasReason (poll_reason path (if ok then file else None))) sig)
  | PollApply, HasReason r, _ => Some (mkKsys (engage r st) file true PollIdle sig)
  | PollApply, SawAbsent, _ => Some (mkKsys (release st) file false PollIdle sig)
  | SigRecv ok, _, SigIdle =>
      let text := "engaged via SIGUSR1" +:+ String (Ascii.ascii_of_nat 10) "" in
      Some (mkKsys st (if ok then Some text else file) last pc SigWrote)
  | SigEngage, _, SigWrote =>
      Some (mkKsys (engage "SIGUSR1 received" st) file last pc SigIdle)
  | _, _, _ => None
  end.

(** Runs: the labels taken in order. *)
Inductive ksteps (path : string) : ksys → list klabel → ksys → Prop :=
| ksteps_nil s : ksteps path s [] s
| ksteps_cons s l s1 ls s' :
    kstep path s l = Some s1 → ksteps path s1 ls s' → ksteps path s (l :: ls) s'.

Fixpoint kexec (path : string) (s : ksys) (ls : list klabel) : option ksys :=
  match ls with
  | [] => Some s
  | l :: ls => kstep path s l ≫= λ s1, kexec path s1 ls
  end.

Lemma kexec_ksteps path s ls s' : kexec path s ls = Some s' ↔ ksteps path s ls s'.
Proof.
  revert s; induction ls as [|l ls IH]; intros s; simpl.
  - split; [intros [= ->]; constructor|by inversion_clear 1].
  - rewrite bind_Some. setoid_rewrite IH. split.
    + intros (s1 & ? & ?). by econstructor.
    + inversion_clear 1; eauto.
Qed.

(** The labels an environment without file-system faults takes. *)
Definition served (l : klabel) : bool :=
  match l with
  | PollCheck ok | PollRead ok | SigRecv ok => ok
  | _ => true
  end.

Definition is_rm (l : klabel) : bool := match l with Rm => true | _ => false end.

(** ** The watcher invariant *)

(** The poll task's [last] is never ahead of the switch, and its suspended
    states agree with [last]. *)
Definition kinv (s : ksys) : Prop :=
  (k_last s = true → engaged (k_state s) = true) ∧
  match k_poll s with
  | PollIdle => True
  | SawPresent | HasReason _ => k_last s = false
  | SawAbsent => k_last s = true
  end.

Lemma kinv_init file : kinv (kinit file).
Proof. done. Qed.

Ltac kcases s l :=
  destruct s as [[eng rsn] file last pc sig]; destruct l, pc, sig; simplify_eq/=.

Lemma kinv_step path s l s' : kstep path s l = Some s' → kinv s → kinv s'.
Proof.
  intros Hs [H1 H2]. kcases s l; try done;
    repeat case_match; simplify_eq/=; split; simpl; try done; auto;
    destruct last, ok, file; simplify_eq/=; auto.
Qed.

Lemma kinv_steps path s ls s' : ksteps path s ls s' → kinv s → kinv s'.
Proof. induction 1; eauto using kinv_step. Qed.

(** The operator's halt holds: the switch is engaged, the file is there and the
    poll task has seen it. *)
Definition held (s : ksys) : Prop :=
  engaged (k_state s) = true ∧ k_file s ≠ None ∧ k_last s = true ∧
  k_poll s = PollIdle.

Lemma held_step path s l s' :
  kstep path s l = Some s' → served l = true → is_rm l = false →
  held s → held s'.
Proof.
  intros Hs Hok Hrm (H1 & H2 & H3 & H4).
  kcases s l; unfold held; simpl; try done.
  all: destruct file; simplify_eq/=; try done.
  all: by repeat split.
Qed.

(** Once the poll task has seen the KILL file, the switch stays engaged through
    every interleaving of the poll task, the signal handler and the operator in
    which nobody removes the file and the file system answers. *)
Lemma held_steps path s ls s' :
  ksteps path s ls s' → forallb served ls = true →
  existsb is_rm ls = false → held s → held s'.
Proof.
  induction 1 as [|s l s1 ls s' Hs Hst IH]; simpl; [done|].
  rewrite andb_true_iff, orb_false_iff. intros [? ?] [? ?] Hh.
  apply IH; try done. by eapply held_step.
Qed.

(** The labels of a poll that runs to its end without the others moving. *)
Definition one_poll (s : ksys) : list klabel :=
  if eqb (file_exists s) (k_last s) then [PollCheck true]
  else if file_exists s then [PollCheck true; PollRead true; PollApply]
  else [PollCheck true; PollApply].

(** ** Properties *)

(** No auto-resume. Once the KILL file has been noticed by the poll task,
    every run of the poll task, the SIGUSR1 handler and the operator in which
    nobody removes the file and the file system answers keeps the switch
    engaged. *)
Theorem kill_holds_until_rm path s ls s' :
  ksteps path s ls s' → forallb served ls = true → existsb is_rm ls = false →
  held s → engaged (k_state s') = true.
Proof. intros Hst Hok Hrm Hh. by destruct (held_steps _ _ _ _ Hst Hok Hrm Hh). Qed.

Lemma kill_holds_until_rm_witness :
  let s := mkKsys (mkKillState true "maintenance") (Some "maintenance") true
                  PollIdle SigIdle in
  let ls := [PollCheck true; SigRecv true; PollCheck true; SigEngage; Touch "x"] in
  ∃ s', ksteps "/k" s ls s' ∧ engaged (k_state s') = true.
Proof.
  intros s ls.
  assert (ksteps "/k" s ls (mkKsys (mkKillState true "SIGUSR1 received") (Some "x")
            true PollIdle SigIdle)) as Hst by (apply kexec_ksteps; reflexivity).
  eexists. split; [exact Hst|].
  apply (kill_holds_until_rm "/k" s ls _ Hst); by repeat split.
Defined.

(** The halt takes effect. From every state the watchers can reach, whatever
    the interleaving and the file-system faults so far, if the poll task is
    between polls and the KILL file exists, one undisturbed poll leaves the
    switch engaged; if the file does not exist and the last poll had seen it,
    one undisturbed poll releases the switch. *)
Theorem kill_poll_effect path file ls s :
  ksteps path (kinit file) ls s → k_poll s = PollIdle →
  ∃ s', kexec path s (one_poll s) = Some s' ∧ k_last s' = file_exists s ∧
        (file_exists s = true → engaged (k_state s') = true) ∧
        (file_exists s = false → k_last s = true → engaged (k_state s') = false).
Proof.
  intros Hst Hpc.
  destruct (kinv_steps _ _ _ _ Hst (kinv_init file)) as [Hinv _].
  destruct s as [[eng rsn] f last pc sig]; simplify_eq/=.
  destruct f, last; cbn; eexists; (split; [reflexivity|]); naive_solver.
Qed.

Lemma kill_poll_effect_witness :
  let s := mkKsys (mkKillState false "") (Some "stop") false PollIdle SigIdle in
  ksteps "/k" (kinit None) [PollCheck true; Touch "stop"] s ∧
  ∃ s', kexec "/k" s (one_poll s) = Some s' ∧ k_last s' = file_exists s ∧
        (file_exists s = true → engaged (k_state s') = true) ∧
        (file_exists s = false → k_last s = true → engaged (k_state s') = false).
Proof.
  split.
  - apply kexec_ksteps. reflexivity.
  - apply (kill_poll_effect "/k" None [PollCheck true; Touch "stop"]);
      [apply kexec_ksteps|]; reflexivity.
Defined.

(** A SIGUSR1 halt that the operator lifts before the next poll is never
    lifted. There is a run without file-system faults in which the signal
    engages the switch, the operator removes the KILL file, and from then on no
    number of polls releases the switch, although the file is gone. *)
Theorem kill_rm_before_poll_sticks path :
  ∃ s, ksteps path (kinit None) [PollCheck true; SigRecv true; SigEngage; Rm] s ∧
       k_file s = None ∧
       ∀ n, ∃ s', kexec path s (replicate n (PollCheck true)) = Some s' ∧
                  k_poll s' = PollIdle ∧ engaged (k_state s') = true.
Proof.
  eexists. split; [apply kexec_ksteps; reflexivity|]. split; [done|].
  induction n as [|n IH]; simpl; [by eexists|]. exact IH.
Qed.

(** The file watcher fails open. With the switch engaged, the KILL file in
    place and the poll task between polls, a single [try_exists] that the
    operating system refuses makes the watcher release the switch. *)
Theorem kill_stat_fault_releases path s :
  held s →
  ∃ s', kexec path s [PollCheck false; PollApply] = Some s' ∧
        engaged (k_state s') = false ∧ k_file s' = k_file s.
Proof.
  destruct s as [[eng rsn] f last pc sig]. intros (? & ? & ? & ?); simplify_eq/=.
  eexists; split; [reflexivity|done].
Qed.

Lemma kill_stat_fault_releases_witness :
  let s := mkKsys (mkKillState true "maintenance") (Some "maintenance") true
                  PollIdle SigIdle in
  held s ∧ ∃ s', kexec "/k" s [PollCheck false; PollApply] = Some s' ∧
        engaged (k_state s') = false ∧ k_file s' = k_file s.
Proof.
  assert (held (mkKsys (mkKillState true "maintenance") (Some "maintenance") true
                  PollIdle SigIdle)) as Hh by by repeat split.
  split; [exact Hh|]. by apply (kill_stat_fault_releases "/k").
Defined.
