(* ===== verification/Policy.v ===== *)
(** * daimon-guard: the policy engine ([daimon-guard/src/policy.rs])

    An ordered list of rules, each a glob over capability names with a
    decision; the first rule that matches decides and no match means deny.
    Reading the TOML text is the [toml] crate's work; the model starts from the
    rules it yields. *)

From S2P Require Import Prelude RustStd.

Inductive Decision := Allow | Deny | RequireApproval.

#[export] Instance Decision_eq_dec : EqDecision Decision.
Proof. solve_decision. Defined.

Record PolicyRule := mkRule {
  rule_capability : string;
  rule_decision : Decision;
  rule_description : option string;
}.

Record PolicyVerdict := mkVerdict {
  verdict_decision : Decision;
  verdict_rule_index : option nat;
}.

Record PolicyEngine := mkEngine {
  engine_rules : list PolicyRule;
  engine_default : Decision;
}.

(** [PolicyEngine::new]. *)
Definition policy_new (rules : list PolicyRule) : PolicyEngine :=
  {| engine_rules := rules; engine_default := Deny |}.

(** [PolicyEngine::from_toml_file], from whether the file exists and what
    reading and parsing it gave. *)
Definition policy_from_file {E} (present : bool) (parsed : result E (list PolicyRule)) :
    result E PolicyEngine :=
  if negb present then Ok (policy_new [])
  else policy_new <$> parsed.

(** [glob_match]. *)
Definition glob_match (pattern value : string) : bool :=
  if string_eqb pattern value then true
  else match strip_suffix ".*" pattern with
       | Some prefix => string_eqb value prefix || starts_with value (prefix +:+ ".")
       | None => string_eqb pattern "*"
       end.

Fixpoint evaluate_from (i : nat) (rules : list PolicyRule) (dflt : Decision)
    (capability : string) : PolicyVerdict :=
  match rules with
  | [] => {| verdict_decision := dflt; verdict_rule_index := None |}
  | r :: rules =>
      if glob_match (rule_capability r) capability
      then {| verdict_decision := rule_decision r; verdict_rule_index := Some i |}
      else evaluate_from (S i) rules dflt capability
  end.

(** [PolicyEngine::evaluate]. *)
Definition evaluate (e : PolicyEngine) (capability : string) : PolicyVerdict :=
  evaluate_from 0 (engine_rules e) (engine_default e) capability.

(** ** Specification *)

(** What a pattern covers: itself; for [p.*] also [p] and everything below it;
    for a lone star everything. *)
Definition covers (pattern value : string) : Prop :=
  pattern = value ∨ pattern = "*" ∨
  ∃ p, pattern = p +:+ ".*" ∧ (value = p ∨ ∃ r, value = p +:+ "." +:+ r).

Lemma glob_match_covers pattern value :
  glob_match pattern value = true ↔ covers pattern value.
Proof.
  unfold glob_match, covers.
  destruct (string_eqb pattern value) eqn:E1.
  { apply string_eqb_eq in E1. naive_solver. }
  assert (pattern ≠ value) as Hne by (rewrite <- string_eqb_eq; congruence).
  destruct (strip_suffix ".*" pattern) as [p|] eqn:Hs.
  - apply strip_suffix_Some in Hs as ->.
    rewrite orb_true_iff, string_eqb_eq, starts_with_spec.
    setoid_rewrite <- string_app_assoc. split.
    + intros Hv. right; right. by exists p.
    + intros [?|[Hstar|(q & Hq & Hv)]]; [done| |].
      * apply (f_equal (λ s, length (bytes s))) in Hstar.
        rewrite bytes_app, length_app in Hstar. simpl in Hstar. lia.
      * apply (f_equal (strip_suffix ".*")) in Hq.
        rewrite !(proj2 (strip_suffix_Some ".*" _ _) eq_refl) in Hq.
        by simplify_eq.
  - rewrite string_eqb_eq. split; [by auto|].
    intros [?|[?|(q & -> & _)]]; [done|done|].
    by rewrite (proj2 (strip_suffix_Some ".*" _ q) eq_refl) in Hs.
Qed.

Lemma evaluate_from_spec i rules dflt cap :
  match verdict_rule_index (evaluate_from i rules dflt cap) with
  | Some k => ∃ j r, k = i + j ∧ rules !! j = Some r ∧
      covers (rule_capability r) cap ∧
      verdict_decision (evaluate_from i rules dflt cap) = rule_decision r ∧
      ∀ j' r', j' < j → rules !! j' = Some r' → ¬ covers (rule_capability r') cap
  | None => verdict_decision (evaluate_from i rules dflt cap) = dflt ∧
      ∀ r, r ∈ rules → ¬ covers (rule_capability r) cap
  end.
Proof.
  revert i; induction rules as [|r rules IH]; intros i; simpl.
  { split; [done|]. intros r Hr. by apply not_elem_of_nil in Hr. }
  destruct (glob_match (rule_capability r) cap) eqn:Hg; simpl.
  { exists 0, r. rewrite <- glob_match_covers. repeat split; [lia|done|].
    intros. lia. }
  assert (¬ covers (rule_capability r) cap) as Hn
    by (rewrite <- glob_match_covers; congruence).
  specialize (IH (S i)). destruct (verdict_rule_index _) as [k|].
  - destruct IH as (j & r1 & -> & Hj & Hc & Hd & Hlt).
    exists (S j), r1. repeat split; [lia|done|done|done|].
    intros [|j'] r' Hj' Hr'; simplify_eq/=; [done|]. eapply Hlt; [|done]. lia.
  - destruct IH as [Hd Hall]. split; [done|].
    intros r' [->|Hr']%elem_of_cons; auto.
Qed.

(** ** Properties *)

(** First match wins, no match denies. The engine's verdict names the first
    rule whose pattern covers the capability and carries that rule's decision;
    when no rule covers it, an engine built by [PolicyEngine::new] denies. *)
Theorem evaluate_first_match rules cap :
  match verdict_rule_index (evaluate (policy_new rules) cap) with
  | Some k => ∃ r, rules !! k = Some r ∧ covers (rule_capability r) cap ∧
      verdict_decision (evaluate (policy_new rules) cap) = rule_decision r ∧
      ∀ j r', j < k → rules !! j = Some r' → ¬ covers (rule_capability r') cap
  | None => verdict_decision (evaluate (policy_new rules) cap) = Deny ∧
      ∀ r, r ∈ rules → ¬ covers (rule_capability r) cap
  end.
Proof.
  pose proof (evaluate_from_spec 0 rules Deny cap) as H. unfold evaluate; simpl.
  destruct (verdict_rule_index _) as [k|]; [|done].
  destruct H as (j & r & -> & Hj & Hc & Hd & Hlt). by exists r.
Qed.

(** A pattern that ends in a star but not in [.*] is not a prefix match: it
    matches only a capability spelled exactly like it. *)
Theorem glob_bare_star_is_literal p value :
  p ≠ "" → (∀ q, p ≠ q +:+ ".") →
  glob_match (p +:+ "*") value = true ↔ value = p +:+ "*".
Proof.
  intros Hp Hdot. rewrite glob_match_covers. split; [|intros ->; by left].
  intros [->|[Hs|(q & Hq & _)]]; [done| |].
  - exfalso. destruct p as [|a p]; [done|]. rewrite string_app_cons in Hs.
    apply (f_equal (λ s, length (bytes s))) in Hs. simpl in Hs.
    rewrite bytes_app, length_app in Hs. simpl in Hs. lia.
  - exfalso. apply (Hdot q).
    change ".*" with ("." +:+ "*") in Hq. rewrite string_app_assoc in Hq.
    apply (f_equal (strip_suffix "*")) in Hq.
    rewrite !(proj2 (strip_suffix_Some "*" _ _) eq_refl) in Hq. by simplify_eq.
Qed.

Lemma glob_bare_star_is_literal_witness :
  glob_match ("vault" +:+ "*") "vault.reveal" = true ↔ "vault.reveal" = "vault" +:+ "*".
Proof.
  apply (glob_bare_star_is_literal "vault" "vault.reveal"); [done|].
  intros q Hq. apply (f_equal (λ s, reverse (bytes s))) in Hq.
  rewrite bytes_app, reverse_app in Hq. discriminate Hq.
Defined.
