(* ===== verification/Approvals.v ===== *)
(** * daimon-guard: the approval inbox ([daimon-guard/src/approvals.rs])

    The inbox is a Postgres table; the statements the queue sends are modelled
    on a map from row ids to rows. Every database call may fail: the world
    carries the outcome of each call in order ({!fault}). Other tasks (the
    operator deciding in the console, the kill switch, a settings edit) run
    whenever the guard awaits a database call or sleeps between polls: the
    world carries, for each of these awaits, how long it really took and what
    the others did meanwhile. Times are in milliseconds. *)

From S2P Require Import Prelude RustStd Json Core KillSwitch.
From stdpp Require Import sorting.
From Stdlib Require Import ZArith.

Local Open Scope Z_scope.

(** ** Status *)

Inductive ApprovalStatus := Pending | Approved | Denied | Expired.

#[export] Instance ApprovalStatus_eq_dec : EqDecision ApprovalStatus.
Proof. solve_decision. Defined.

(** [ApprovalStatus::as_str], [ApprovalStatus::from_str]. *)
Definition status_as_str (s : ApprovalStatus) : string :=
  match s with
  | Pending => "pending"
  | Approved => "approved"
  | Denied => "denied"
  | Expired => "expired"
  end.

Definition status_from_str (s : string) : ApprovalStatus :=
  if string_eqb s "pending" then Pending
  else if string_eqb s "approved" then Approved
  else if string_eqb s "denied" then Denied
  else Expired.

Lemma status_roundtrip s : status_from_str (status_as_str s) = s.
Proof. by destruct s. Qed.

Record ApprovalRecord := mkApproval {
  ar_id : Uuid;
  ar_actor_id : string;
  ar_capability : string;
  ar_target_ref : option string;
  ar_params : json;
  ar_status : ApprovalStatus;
  ar_created_at : Z;
  ar_decided_at : option Z;
  ar_decided_by : option Uuid;
}.

(** A row of [public.approvals]: the status column is text. *)
Record ApprovalRow := mkRow {
  row_actor_id : string;
  row_capability : string;
  row_target_ref : option string;
  row_params : json;
  row_status : string;
  row_created_at : Z;
  row_decided_at : option Z;
  row_decided_by : option Uuid;
}.

(** [row_to_record]. *)
Definition row_to_record (id : Uuid) (r : ApprovalRow) : ApprovalRecord :=
  {| ar_id := id; ar_actor_id := row_actor_id r; ar_capability := row_capability r;
     ar_target_ref := row_target_ref r; ar_params := row_params r;
     ar_status := status_from_str (row_status r); ar_created_at := row_created_at r;
     ar_decided_at := row_decided_at r; ar_decided_by := row_decided_by r |}.

(** ** Errors ([daimon-guard/src/error.rs]) *)

Inductive GuardError :=
| GIo (msg : string)
| GToml (msg : string)
| GPool (msg : string)
| GPg (msg : string)
| GDecode (msg : string)
| GKillEngaged (reason : string)
| GPolicyDenied (reason : string)
| GApprovalRequired (capability : string)
| GApprovalTimeout (id : string)
| GOther (msg : string).

Definition show_guard_error (e : GuardError) : string :=
  match e with
  | GIo m => "io: " +:+ m
  | GToml m => "toml: " +:+ m
  | GPool m => "pool: " +:+ m
  | GPg m => "pg: " +:+ m
  | GDecode m => "decode: " +:+ m
  | GKillEngaged r => "kill switch engaged: " +:+ r
  | GPolicyDenied r => "policy denied: " +:+ r
  | GApprovalRequired c => "approval required: " +:+ c
  | GApprovalTimeout i => "approval timeout: " +:+ i
  | GOther m => m
  end.

(** The outcome of one database call: served, no pool connection, or the
    server rejected the statement. *)
Inductive fault := Served | PoolFault (msg : string) | PgFault (msg : string).

(** What another task does while the guard sleeps. *)
Inductive env_action :=
| EnvDecide (id by_ : Uuid) (st : ApprovalStatus)
| EnvEngage (r : string)
| EnvRelease
| EnvSetTimeout (secs : Z).

Section Approvals.
Context `{SemVer}.

(** The guard's mutable state and its surroundings. *)
Record gworld := mkGworld {
  g_kill : KillState;
  g_timeout_secs : Z;                          (** [approval_timeout_secs] *)
  g_bus : option (AgentEnvelope → result string unit);  (** the [OnceLock]'s [BusHandle::send] *)
  g_published : list AgentEnvelope;            (** what the bus accepted *)
  g_table : gmap Uuid ApprovalRow;             (** [public.approvals] *)
  g_now : Z;
  g_faults : list fault;                       (** outcome of the next calls *)
  g_uuid : nat → Uuid;                         (** the source of random ids *)
  g_next : nat;
  g_sched : list (Z * list env_action);        (** what happens at the coming awaits *)
}.

Definition set_kill k w :=
  mkGworld k (g_timeout_secs w) (g_bus w) (g_published w) (g_table w) (g_now w)
    (g_faults w) (g_uuid w) (g_next w) (g_sched w).
Definition set_timeout t w :=
  mkGworld (g_kill w) t (g_bus w) (g_published w) (g_table w) (g_now w)
    (g_faults w) (g_uuid w) (g_next w) (g_sched w).
Definition set_table t w :=
  mkGworld (g_kill w) (g_timeout_secs w) (g_bus w) (g_published w) t (g_now w)
    (g_faults w) (g_uuid w) (g_next w) (g_sched w).
Definition set_published p w :=
  mkGworld (g_kill w) (g_timeout_secs w) (g_bus w) p (g_table w) (g_now w)
    (g_faults w) (g_uuid w) (g_next w) (g_sched w).
Definition set_bus_handle b w :=
  mkGworld (g_kill w) (g_timeout_secs w) b (g_published w) (g_table w) (g_now w)
    (g_faults w) (g_uuid w) (g_next w) (g_sched w).
Definition set_faults f w :=
  mkGworld (g_kill w) (g_timeout_secs w) (g_bus w) (g_published w) (g_table w)
    (g_now w) f (g_uuid w) (g_next w) (g_sched w).
Definition set_next n w :=
  mkGworld (g_kill w) (g_timeout_secs w) (g_bus w) (g_published w) (g_table w)
    (g_now w) (g_faults w) (g_uuid w) n (g_sched w).
Definition set_clock now sched w :=
  mkGworld (g_kill w) (g_timeout_secs w) (g_bus w) (g_published w) (g_table w)
    now (g_faults w) (g_uuid w) (g_next w) sched.

Definition gio := io gworld GuardError.

Definition fresh_uuid : gio Uuid := λ w,
  (Ok (g_uuid w (g_next w)), set_next (S (g_next w)) w).

(** ** The statements *)

(** [UPDATE .. SET status = $1, decided_at = now(), decided_by = $2
     WHERE id = $3 AND status = 'pending'] *)
Definition row_decide (st : ApprovalStatus) (by_ : Uuid) (now : Z) (r : ApprovalRow) :
    ApprovalRow :=
  {| row_actor_id := row_actor_id r; row_capability := row_capability r;
     row_target_ref := row_target_ref r; row_params := row_params r;
     row_status := status_as_str st; row_created_at := row_created_at r;
     row_decided_at := Some now; row_decided_by := Some by_ |}.

(** [UPDATE .. SET status = 'expired', decided_at = now()
     WHERE id = $1 AND status = 'pending'] *)
Definition row_expire (now : Z) (r : ApprovalRow) : ApprovalRow :=
  {| row_actor_id := row_actor_id r; row_capability := row_capability r;
     row_target_ref := row_target_ref r; row_params := row_params r;
     row_status := "expired"; row_created_at := row_created_at r;
     row_decided_at := Some now; row_decided_by := row_decided_by r |}.

(** The guarded update: only a row that is still pending changes. *)
Definition update_pending (f : ApprovalRow → ApprovalRow) (id : Uuid)
    (t : gmap Uuid ApprovalRow) : gmap Uuid ApprovalRow :=
  match t !! id with
  | Some r => if string_eqb (row_status r) "pending" then <[id := f r]> t else t
  | None => t
  end.

(** What the other tasks do, by the same statements. *)
Definition env_step (w : gworld) (a : env_action) : gworld :=
  match a with
  | EnvDecide id by_ st =>
      set_table (update_pending (row_decide st by_ (g_now w)) id (g_table w)) w
  | EnvEngage r => set_kill (engage r (g_kill w)) w
  | EnvRelease => set_kill (release (g_kill w)) w
  | EnvSetTimeout s => if 0 <? s then set_timeout s w else w
  end.

(** A suspension of at least [d]: longer by what the schedule says, with the
    other tasks' actions in between. *)
Definition suspend (d : Z) (w : gworld) : gworld :=
  match g_sched w with
  | [] => set_clock (g_now w + d) [] w
  | (extra, acts) :: s =>
      fold_left env_step acts (set_clock (g_now w + d + Z.max 0 extra) s w)
  end.

(** [tokio::time::sleep]. *)
Definition sleep (d : Z) : gio unit := λ w, (Ok tt, suspend d w).

(** Await the next database call and take its outcome; with none left, calls
    are served. *)
Definition db_call : gio unit := λ w,
  let w := suspend 0 w in
  match g_faults w with
  | [] | Served :: _ => (Ok tt, set_faults (tail (g_faults w)) w)
  | PoolFault m :: f => (Err (GPool m), set_faults f w)
  | PgFault m :: f => (Err (GPg m), set_faults f w)
  end.

(** ** [ApprovalQueue] *)

(** [enqueue]. The id is the column default [gen_random_uuid()]; a collision
    violates the primary key. *)
Definition enqueue (actor_id capability : string) (target_ref : option string)
    (params : json) : gio Uuid :=
  db_call ≫= λ _,
  fresh_uuid ≫= λ id,
  gets g_now ≫= λ now,
  gets g_table ≫= λ t,
  match t !! id with
  | Some _ => throw (GPg "duplicate key value violates unique constraint")
  | None =>
      modify (set_table
        (<[id := {| row_actor_id := actor_id; row_capability := capability;
                    row_target_ref := target_ref; row_params := params;
                    row_status := "pending"; row_created_at := now;
                    row_decided_at := None; row_decided_by := None |}]> t)) ≫= λ _,
      mret id
  end.

(** [get]. *)
Definition get (id : Uuid) : gio (option ApprovalRecord) :=
  db_call ≫= λ _,
  gets g_table ≫= λ t,
  mret (row_to_record id <$> t !! id).

(** [decide]: a row that is not pending (or absent) returns no row, which
    [query_one] reports as an error; the error of the statement itself is
    wrapped. *)
Definition decide_approval (id decided_by : Uuid) (st : ApprovalStatus) :
    gio ApprovalRecord :=
  io_map_err (λ e, match e with
                   | GPg m => GOther ("decide: " +:+ m)
                   | e => e
                   end)
    (db_call ≫= λ _,
     gets g_now ≫= λ now,
     gets g_table ≫= λ t,
     match t !! id with
     | Some r =>
         if string_eqb (row_status r) "pending" then
           modify (set_table (<[id := row_decide st decided_by now r]> t)) ≫= λ _,
           mret (row_to_record id (row_decide st decided_by now r))
         else throw (GPg "query returned an unexpected number of rows")
     | None => throw (GPg "query returned an unexpected number of rows")
     end).

(** [expire_if_pending]. *)
Definition expire_if_pending (id : Uuid) : gio unit :=
  db_call ≫= λ _,
  gets g_now ≫= λ now,
  modify (λ w, set_table (update_pending (row_expire now) id (g_table w)) w).

(** [ORDER BY created_at DESC]. *)
Definition newer (x y : Uuid * ApprovalRow) : Prop :=
  row_created_at y.2 ≤ row_created_at x.2.

#[export] Instance newer_dec : RelDecision newer.
Proof. intros x y. unfold newer. apply _. Defined.

(** [list_pending]. *)
Definition list_pending (limit : Z) : gio (list ApprovalRecord) :=
  db_call ≫= λ _,
  gets g_table ≫= λ t,
  mret (map (λ x, row_to_record x.1 x.2)
          (take (Z.to_nat limit)
             (merge_sort newer
                (List.filter (λ x, string_eqb (row_status x.2) "pending")
                   (map_to_list t))))).

Definition decided (st : ApprovalStatus) : bool :=
  match st with Approved | Denied => true | _ => false end.

(** The polling loop of [wait_for_decision]; [None] when the fuel runs out. *)
Fixpoint wait_loop (fuel : nat) (id : Uuid) (deadline poll : Z) (w : gworld) :
    option (result GuardError ApprovalRecord * gworld) :=
  match fuel with
  | O => None
  | S fuel =>
      match get id w with
      | (Err e, w1) => Some (Err e, w1)
      | (Ok rec, w1) =>
          let go_on :=
            if deadline <=? g_now w1 then
              (** best-effort: the result of the update is dropped *)
              let '(_, w2) := expire_if_pending id w1 in
              Some (Err (GApprovalTimeout id), w2)
            else
              let '(_, w2) := sleep poll w1 in
              wait_loop fuel id deadline poll w2 in
          match rec with
          | Some r => if decided (ar_status r) then Some (Ok r, w1) else go_on
          | None => go_on
          end
      end
  end.

(** One read per poll interval up to the deadline, and one after it. *)
Definition wait_fuel (timeout poll : Z) : nat := S (S (Z.to_nat (timeout / poll))).

(** [wait_for_decision]. {!wait_total} shows the fuel never runs out. *)
Definition wait_for_decision (id : Uuid) (timeout poll : Z) : gio ApprovalRecord :=
  λ w, default (Err (GOther "wait_for_decision: out of fuel"), w)
         (wait_loop (wait_fuel timeout poll) id (g_now w + timeout) poll w).

(** ** Rows only ever leave [pending] *)

(** What a statement may do to an existing row: nothing once it is decided, and
    never touch who asked for what. *)
Definition row_next (r r' : ApprovalRow) : Prop :=
  (row_status r ≠ "pending" → r' = r) ∧
  row_actor_id r' = row_actor_id r ∧ row_capability r' = row_capability r ∧
  row_target_ref r' = row_target_ref r ∧ row_params r' = row_params r ∧
  row_created_at r' = row_created_at r.

#[export] Instance row_next_refl : Reflexive row_next.
Proof. by intros r. Qed.
#[export] Instance row_next_trans : Transitive row_next.
Proof.
  intros r1 r2 r3 (H1 & ?) (H2 & ?). split; [|intuition congruence].
  intros Hp. rewrite <- (H1 Hp). apply H2. by rewrite (H1 Hp).
Qed.

Definition table_next (w w' : gworld) : Prop :=
  ∀ id r, g_table w !! id = Some r → ∃ r', g_table w' !! id = Some r' ∧ row_next r r'.

#[export] Instance table_next_refl : Reflexive table_next.
Proof. intros w id r Hr. by exists r. Qed.
#[export] Instance table_next_trans : Transitive table_next.
Proof.
  intros w1 w2 w3 H12 H23 id r (r2 & Hr2 & Hn)%H12.
  destruct (H23 id r2 Hr2) as (r3 & ? & ?). exists r3. split; [done|by etrans].
Qed.

(** Every decided row names who decided it. *)
Definition has_decider (r : ApprovalRow) : Prop :=
  decided (status_from_str (row_status r)) = true → row_decided_by r ≠ None.

Definition deciders (w : gworld) : Prop :=
  ∀ id r, g_table w !! id = Some r → has_decider r.

(** The two facts every operation maintains, as one transition relation. *)
Definition inbox_next (w w' : gworld) : Prop :=
  table_next w w' ∧ (deciders w → deciders w') ∧ g_now w ≤ g_now w' ∧
  g_uuid w' = g_uuid w.

#[export] Instance inbox_next_refl : Reflexive inbox_next.
Proof. intros w. by repeat split. Qed.
#[export] Instance inbox_next_trans : Transitive inbox_next.
Proof.
  intros w1 w2 w3 (?&?&?&?) (?&?&?&?). repeat split; [by etrans|auto|lia|congruence].
Qed.

Lemma update_pending_next f id t :
  (∀ r, row_status r = "pending" → row_next r (f r)) →
  ∀ i r, t !! i = Some r →
    ∃ r', update_pending f id t !! i = Some r' ∧ row_next r r'.
Proof.
  intros Hf i r Hi. unfold update_pending.
  destruct (t !! id) as [r0|] eqn:Hid; [|by exists r].
  destruct (string_eqb (row_status r0) "pending") eqn:Hp; [|by exists r].
  destruct (decide (id = i)) as [->|Hne].
  - simplify_eq. exists (f r). rewrite lookup_insert_eq. split; [done|].
    apply Hf. by apply bool_decide_eq_true in Hp.
  - exists r. by rewrite lookup_insert_ne.
Qed.

Lemma update_pending_deciders f id t :
  (∀ r, has_decider (f r)) → (∀ i r, t !! i = Some r → has_decider r) →
  ∀ i r, update_pending f id t !! i = Some r → has_decider r.
Proof.
  intros Hf Ht i r. unfold update_pending. repeat case_match; eauto.
  rewrite lookup_insert. case_decide; [|by eauto]. intros [= <-]. apply Hf.
Qed.

Lemma row_decide_next st by_ now r :
  row_status r = "pending" → row_next r (row_decide st by_ now r).
Proof. intros Hp. by repeat split. Qed.

Lemma row_expire_next now r :
  row_status r = "pending" → row_next r (row_expire now r).
Proof. intros Hp. by repeat split. Qed.

Lemma inbox_update w f id :
  (∀ r, row_status r = "pending" → row_next r (f r)) → (∀ r, has_decider (f r)) →
  inbox_next w (set_table (update_pending f id (g_table w)) w).
Proof.
  intros Hn Hd. repeat split; simpl; [|intros Ht|lia].
  - intros i r Hi. by apply update_pending_next.
  - intros i r. by apply update_pending_deciders.
Qed.

Lemma inbox_same w w' :
  g_table w' = g_table w → g_now w ≤ g_now w' → g_uuid w' = g_uuid w → inbox_next w w'.
Proof.
  intros Ht Hn Hu. split; [|split; [|done]].
  - intros i r Hi. exists r. by rewrite Ht.
  - unfold deciders. by rewrite Ht.
Qed.

Lemma env_step_next w a : inbox_next w (env_step w a).
Proof.
  destruct a; simpl; try (by apply inbox_same).
  - apply inbox_update; [by apply row_decide_next|by intros ?].
  - destruct (0 <? secs); by apply inbox_same.
Qed.

Lemma env_steps_next acts w : inbox_next w (fold_left env_step acts w).
Proof.
  revert w; induction acts as [|a acts IH]; intros w; simpl; [done|].
  etrans; [apply env_step_next|apply IH].
Qed.

Lemma suspend_next d w : 0 ≤ d → inbox_next w (suspend d w).
Proof.
  intros Hd. unfold suspend. destruct (g_sched w) as [|[x acts] s]; simpl.
  - apply inbox_same; simpl; [done|lia|done].
  - etrans; [|apply env_steps_next]. apply inbox_same; simpl; [done|lia|done].
Qed.

Lemma suspend_clock d w : 0 ≤ d → g_now w + d ≤ g_now (suspend d w).
Proof.
  intros Hd. unfold suspend. destruct (g_sched w) as [|[x acts] s]; simpl; [lia|].
  destruct (env_steps_next acts (set_clock (g_now w + d + Z.max 0 x) s w))
    as (_ & _ & Hle & _). simpl in Hle. lia.
Qed.

Lemma sleep_next d : 0 ≤ d → evolves inbox_next (sleep d).
Proof. intros Hd w. by apply suspend_next. Qed.

Lemma db_call_next : evolves inbox_next db_call.
Proof.
  intros w. etrans; [by apply (suspend_next 0)|]. unfold db_call.
  destruct (g_faults _) as [|[] ?]; by apply inbox_same.
Qed.

Lemma enqueue_next a c t p : evolves inbox_next (enqueue a c t p).
Proof.
  intros w. unfold enqueue, mbind, io_bind, fresh_uuid, gets, throw, modify, mret, io_ret.
  pose proof (db_call_next w) as Hdb. destruct (db_call w) as [[[]|e] w1]; simpl in *; [|done].
  etrans; [exact Hdb|]. clear Hdb w.
  destruct (g_table w1 !! g_uuid w1 (g_next w1)) eqn:Hid; simpl; [by apply inbox_same|].
  repeat split; simpl; [|intros Hd|lia].
  - intros i r Hi. exists r. simpl. rewrite lookup_insert_ne; [done|congruence].
  - intros i r; simpl. rewrite lookup_insert. case_decide; [|by eauto].
    intros [= <-]. unfold has_decider. by simpl.
Qed.

Lemma get_next id : evolves inbox_next (get id).
Proof. unfold get. auto using db_call_next with daimon typeclass_instances. Qed.

Lemma expire_next id : evolves inbox_next (expire_if_pending id).
Proof.
  apply evolves_bind; [apply _|apply db_call_next|]. intros _.
  apply evolves_bind; [apply _|by intros w|]. intros now w. simpl.
  apply inbox_update; [by apply row_expire_next|]. by intros r.
Qed.

Lemma decide_next id by_ st : evolves inbox_next (decide_approval id by_ st).
Proof.
  apply evolves_map_err. apply evolves_bind; [apply _|apply db_call_next|].
  intros _ w. unfold mbind, io_bind, gets, modify, throw, mret, io_ret.
  destruct (g_table w !! id) as [r|] eqn:Hr; simpl; [|done].
  destruct (string_eqb (row_status r) "pending") eqn:Hp; simpl; [|done].
  pose proof (inbox_update w (row_decide st by_ (g_now w)) id) as Hu.
  unfold update_pending in Hu. rewrite Hr, Hp in Hu. apply Hu; [|by intros ?].
  by apply row_decide_next.
Qed.

(** A successful read returns the row as it was when the call was served. *)
Lemma get_ok id w o w1 :
  get id w = (Ok o, w1) → o = row_to_record id <$> g_table w1 !! id.
Proof.
  unfold get, db_call, mbind, io_bind, gets, mret, io_ret.
  destruct (g_faults _) as [|[] ?] eqn:Hf; simpl; intros; by simplify_eq/=.
Qed.

Lemma wait_loop_sound fuel id deadline poll w r w' :
  0 ≤ poll → wait_loop fuel id deadline poll w = Some (r, w') →
  inbox_next w w' ∧
  (∀ rec, r = Ok rec → decided (ar_status rec) = true ∧
     ∃ row, g_table w' !! id = Some row ∧ rec = row_to_record id row).
Proof.
  intros Hpoll. revert w; induction fuel as [|fuel IH]; intros w; [done|].
  cbn [wait_loop]. pose proof (get_next id w) as Hg.
  destruct (get id w) as [[o|e] w1] eqn:Hget; cbn [snd] in Hg; last first.
  { intros. simplify_eq. split; [done|]. intros; simplify_eq. }
  match goal with |- context [match o with Some r => if _ then _ else ?c | None => ?c' end] =>
    set (cont := c) end.
  assert (cont = Some (r, w') →
          inbox_next w w' ∧ ∀ rec, r = Ok rec → decided (ar_status rec) = true ∧
            ∃ row, g_table w' !! id = Some row ∧ rec = row_to_record id row) as Hc.
  { unfold cont. destruct (deadline <=? g_now w1).
    - pose proof (expire_next id w1) as He. destruct (expire_if_pending id w1) as [? w2].
      intros [= <- <-]. split; [by etrans|]. intros; simplify_eq.
    - pose proof (sleep_next poll Hpoll w1) as Hs. destruct (sleep poll w1) as [? w2].
      intros Hl. destruct (IH _ Hl) as [Hn Hr]. split; [|done].
      etrans; [done|]. by etrans. }
  destruct o as [rec|]; [|done].
  destruct (decided (ar_status rec)) eqn:Hd; [|done].
  intros [= <- <-]. split; [done|]. intros rec' [= <-]. split; [done|].
  apply get_ok in Hget as Ho. destruct (g_table w1 !! id) as [row|]; simplify_eq/=.
  by exists row.
Qed.

Lemma wait_loop_fuel fuel id deadline poll w :
  0 < poll → deadline - g_now w ≤ poll * Z.of_nat fuel →
  is_Some (wait_loop (S fuel) id deadline poll w).
Proof.
  intros Hpoll. revert w; induction fuel as [|fuel IH]; intros w Hf.
  all: cbn [wait_loop]; destruct (get_next id w) as (_ & _ & Hnow & _);
    destruct (get id w) as [[o|e] w1]; [|by eexists].
  all: cbn [snd] in Hnow.
  all: match goal with
       |- context [match ?x with Some r => if _ then _ else ?c | None => ?c' end] =>
         enough (is_Some c) as Hc
           by (destruct x as [rec|]; [|done]; destruct (decided _); [by eexists|done])
       end.
  all: destruct (deadline <=? g_now w1) eqn:Hd;
    [destruct (expire_if_pending id w1); by eexists|].
  - lia.
  - pose proof (suspend_clock poll w1 ltac:(lia)) as Hs. apply IH.
    rewrite Nat2Z.inj_succ in Hf. lia.
Qed.

Lemma wait_total id timeout poll w :
  0 < poll →
  is_Some (wait_loop (wait_fuel timeout poll) id (g_now w + timeout) poll w).
Proof.
  intros Hp. apply wait_loop_fuel; [done|].
  pose proof (Z.mul_succ_div_gt timeout poll Hp).
  rewrite Nat2Z.inj_succ. nia.
Qed.

Lemma wait_sound id timeout poll w r w' :
  0 < poll → wait_for_decision id timeout poll w = (r, w') →
  inbox_next w w' ∧
  (∀ rec, r = Ok rec → decided (ar_status rec) = true ∧
     ∃ row, g_table w' !! id = Some row ∧ rec = row_to_record id row).
Proof.
  intros Hp. unfold wait_for_decision.
  destruct (wait_total id timeout poll w Hp) as [[r1 w1] Hr].
  rewrite Hr. simpl. intros [= <- <-]. eapply wait_loop_sound; [|done]. lia.
Qed.

(** ** A request nobody decides *)

(** No coming action of another task decides row [id]; no call fails. *)
Definition unattended (id : Uuid) (w : gworld) : Prop :=
  (∀ e a, e ∈ g_sched w → a ∈ e.2 → ∀ by_ st, a ≠ EnvDecide id by_ st) ∧
  (∀ f, f ∈ g_faults w → f = Served).

Lemma env_steps_unattended id acts w :
  (∀ a, a ∈ acts → ∀ by_ st, a ≠ EnvDecide id by_ st) →
  let w' := fold_left env_step acts w in
  g_table w' !! id = g_table w !! id ∧ g_sched w' = g_sched w ∧
  g_faults w' = g_faults w.
Proof.
  revert w; induction acts as [|a acts IH]; intros w Ha; simpl; [done|].
  destruct (IH (env_step w a)) as (-> & -> & ->); [intros; apply Ha; by right|].
  specialize (Ha a ltac:(left)). destruct a; simpl; [|done|done|by case_match].
  split; [|done]. unfold update_pending. repeat case_match; try done.
  rewrite lookup_insert_ne; [done|]. intros ->. by eapply Ha.
Qed.

Lemma suspend_unattended id d w :
  unattended id w →
  unattended id (suspend d w) ∧ g_table (suspend d w) !! id = g_table w !! id.
Proof.
  intros [Hs Hf]. unfold suspend, unattended.
  destruct (g_sched w) as [|[x acts] s] eqn:E; simpl; [done|].
  edestruct (env_steps_unattended id acts) as (-> & -> & ->);
    [intros a Ha; apply (Hs (x, acts)); [left|done]|]. simpl. split; [|done]. split; [|done].
  intros e a He. apply Hs. by right.
Qed.

Lemma db_call_unattended id w :
  unattended id w →
  ∃ w1, db_call w = (Ok tt, w1) ∧ unattended id w1 ∧
    g_table w1 !! id = g_table w !! id.
Proof.
  intros Hu. destruct (suspend_unattended id 0 w Hu) as [[Hs Hf] Ht].
  unfold db_call. destruct (g_faults (suspend 0 w)) as [|f fs] eqn:E.
  - eexists; split; [done|]. split; [|done]. split; simpl; [done|].
    intros f Hf'. by apply not_elem_of_nil in Hf'.
  - rewrite (Hf f) by left. eexists; split; [done|]. simpl. split; [|done].
    split; simpl; [done|]. intros f' Hf'. apply Hf. by right.
Qed.

Lemma wait_loop_unattended fuel id deadline poll w r w' row :
  unattended id w → g_table w !! id = Some row → row_status row = "pending" →
  wait_loop fuel id deadline poll w = Some (r, w') →
  r = Err (GApprovalTimeout id) ∧ deadline ≤ g_now w' ∧
  ∃ row', g_table w' !! id = Some row' ∧ row_status row' = "expired".
Proof.
  revert w; induction fuel as [|fuel IH]; intros w Hu Hrow Hp; [done|].
  cbn [wait_loop]. destruct (db_call_unattended id w Hu) as (w1 & Hdb & Hu1 & Ht1).
  assert (get id w = (Ok (Some (row_to_record id row)), w1)) as ->.
  { unfold get. rewrite (io_bind_run_ok _ _ _ _ _ Hdb).
    unfold gets, mbind, io_bind, mret, io_ret. by rewrite Ht1, Hrow. }
  cbn [row_to_record ar_status]. rewrite Hp. cbn [decided].
  change (decided (status_from_str "pending")) with false. cbn match.
  rewrite Hrow in Ht1. destruct (deadline <=? g_now w1) eqn:Hd.
  - destruct (db_call_unattended id w1 Hu1) as (w2 & Hdb2 & Hu2 & Ht2).
    pose proof (db_call_next w1) as (_ & _ & Hn & _). rewrite Hdb2 in Hn. simpl in Hn.
    unfold expire_if_pending. rewrite (io_bind_run_ok _ _ _ _ _ Hdb2).
    unfold mbind, io_bind, gets, modify. intros [= <- <-]. split; [done|].
    split; [simpl; lia|]. unfold update_pending; simpl. rewrite Ht2, Ht1, Hp.
    change (string_eqb "pending" "pending") with true. cbn match.
    rewrite lookup_insert_eq. by eexists.
  - simpl. destruct (suspend_unattended id poll w1 Hu1) as [Hu2 Ht2].
    apply IH; [done| |done]. congruence.
Qed.

(** A timeout is never early. *)
Lemma wait_loop_not_early fuel id deadline poll w i w' :
  wait_loop fuel id deadline poll w = Some (Err (GApprovalTimeout i), w') →
  deadline ≤ g_now w'.
Proof.
  revert w; induction fuel as [|fuel IH]; intros w; [done|]. cbn [wait_loop].
  destruct (get id w) as [[o|e] w1] eqn:Hget; last first.
  { intros [= -> ->]. revert Hget.
    unfold get, db_call, mbind, io_bind, gets, mret, io_ret. repeat case_match; naive_solver. }
  intros Hl. assert ((if deadline <=? g_now w1 then
      let '(_, w2) := expire_if_pending id w1 in Some (Err (GApprovalTimeout id), w2)
    else let '(_, w2) := sleep poll w1 in wait_loop fuel id deadline poll w2)
    = Some (Err (GApprovalTimeout i), w')) as Hc by (destruct o; [case_match|]; done).
  clear Hl. destruct (deadline <=? g_now w1) eqn:Hd; [|by apply IH in Hc].
  pose proof (expire_next id w1) as (_ & _ & Hn & _).
  destruct (expire_if_pending id w1) as [? w2]. simplify_eq. simpl in Hn. lia.
Qed.
End Approvals.
