(* ===== verification/Guard.v ===== *)
(** * daimon-guard: the facade ([daimon-guard/src/lib.rs])

    [Guard::pre_flight], the gate every capability invocation passes: the KILL
    switch first, then the read short-circuit, then the policy, then the
    approval inbox. The mutable parts of the [Guard] struct (kill state,
    timeout atomic, bus handle) and the inbox live in {!gworld}; the policy is
    fixed at construction and is an argument. *)

From S2P Require Import Prelude RustStd Json Core KillSwitch Policy Approvals.
From Stdlib Require Import ZArith.

Local Open Scope Z_scope.

Definition DEFAULT_APPROVAL_TIMEOUT_SECS : Z := 300.

(** The poll interval [pre_flight] waits with, in milliseconds. *)
Definition poll_interval : Z := 2000.

Section Guard.
Context `{SemVer}.

(** [Guard::new], around the inbox, the clock and the id source it is given. *)
Definition guard_new (kill : KillState) (table : gmap Uuid ApprovalRow) (now : Z)
    (faults : list fault) (uuids : nat → Uuid) (sched : list (Z * list env_action)) :
    gworld :=
  {| g_kill := kill; g_timeout_secs := DEFAULT_APPROVAL_TIMEOUT_SECS; g_bus := None;
     g_published := []; g_table := table; g_now := now; g_faults := faults;
     g_uuid := uuids; g_next := 0; g_sched := sched |}.

(** [Guard::set_bus]: a second call is ignored. *)
Definition set_bus (send : AgentEnvelope → result string unit) (w : gworld) : gworld :=
  match g_bus w with
  | None => set_bus_handle (Some send) w
  | Some _ => w
  end.

(** [Guard::set_approval_timeout_secs]: zero is ignored. *)
Definition set_approval_timeout_secs (secs : Z) (w : gworld) : gworld :=
  if 0 <? secs then set_timeout secs w else w.

(** [Guard::approval_timeout], in milliseconds. *)
Definition approval_timeout (w : gworld) : Z := 1000 * g_timeout_secs w.

(** [awaiting_approval_envelope]. *)
Definition awaiting_approval_envelope (corr : Uuid) (now : Z) (id : Uuid)
    (capability : string) (target_ref : option string) (actor_id : string) :
    option AgentEnvelope :=
  req ← ok (req_parse "^1");
  let body := jobj [("kind", JString "awaiting_approval");
                    ("approval_id", JString id);
                    ("capability", JString capability);
                    ("target_ref", jopt target_ref);
                    ("actor", JString actor_id)] in
  Some (envelope_new corr now "guard" (ByCapability "harness.alert.approval" req) body).

(** [Guard::publish_awaiting_approval]: best effort, never fails. *)
Definition publish_awaiting_approval (id : Uuid) (capability : string)
    (target_ref : option string) (actor_id : string) : gio unit :=
  gets g_bus ≫= λ bus,
  match bus with
  | None => mret tt
  | Some send =>
      fresh_uuid ≫= λ corr,
      gets g_now ≫= λ now,
      match awaiting_approval_envelope corr now id capability target_ref actor_id with
      | None => mret tt
      | Some env =>
          match send env with
          | Ok _ => modify (λ w, set_published (g_published w ++ [env]) w)
          | Err _ => mret tt
          end
      end
  end.

(** [Guard::pre_flight]. *)
Definition pre_flight (policy : PolicyEngine) (actor_id capability : string)
    (target_ref : option string) (params : json) (is_read_only : bool) : gio unit :=
  gets g_kill ≫= λ kill,
  if engaged kill then throw (GKillEngaged (reason kill))
  else if is_read_only then mret tt
  else
    match verdict_decision (evaluate policy capability) with
    | Allow => mret tt
    | Deny =>
        throw (GPolicyDenied ("policy denies capability `" +:+ capability +:+ "`"))
    | RequireApproval =>
        enqueue actor_id capability target_ref params ≫= λ id,
        publish_awaiting_approval id capability target_ref actor_id ≫= λ _,
        gets approval_timeout ≫= λ timeout,
        wait_for_decision id timeout poll_interval ≫= λ rec,
        match ar_status rec with
        | Approved => mret tt
        | Denied =>
            throw (GPolicyDenied ("operator denied approval " +:+ id +:+ " for `" +:+
                                  capability +:+ "`"))
        | _ => throw (GApprovalTimeout id)
        end
    end.

(** ** Lemmas *)

Lemma publish_same id c t a w :
  ∃ w1, publish_awaiting_approval id c t a w = (Ok tt, w1) ∧
    g_table w1 = g_table w ∧ g_now w1 = g_now w ∧ g_uuid w1 = g_uuid w ∧
    g_sched w1 = g_sched w ∧ g_faults w1 = g_faults w ∧ g_kill w1 = g_kill w ∧
    g_timeout_secs w1 = g_timeout_secs w.
Proof.
  unfold publish_awaiting_approval, fresh_uuid, gets, modify, mbind, io_bind, mret, io_ret.
  destruct (g_bus w) as [send|]; [|by eexists]. simpl.
  destruct (awaiting_approval_envelope _ _ _ _ _ _) as [env|]; [|by eexists].
  destruct (send env); by eexists.
Qed.

Lemma publish_next id c t a : evolves inbox_next (publish_awaiting_approval id c t a).
Proof.
  intros w. destruct (publish_same id c t a w) as (w1 & -> & ? & ? & ? & _).
  apply inbox_same; simpl; [done|lia|done].
Qed.

(** A successful [enqueue] inserts one new pending row that records the request. *)
Lemma enqueue_ok a c t p w id w1 :
  enqueue a c t p w = (Ok id, w1) →
  g_table w !! id = None ∧
  g_table w1 !! id = Some {| row_actor_id := a; row_capability := c; row_target_ref := t;
    row_params := p; row_status := "pending"; row_created_at := g_now w1;
    row_decided_at := None; row_decided_by := None |}.
Proof.
  unfold enqueue, fresh_uuid, gets, modify, throw, mbind, io_bind, mret, io_ret.
  pose proof (db_call_next w) as (Ht & _).
  destruct (db_call w) as [[[]|e] w0]; simpl in *; [|done].
  destruct (g_table w0 !! g_uuid w0 (g_next w0)) as [|] eqn:Hid; intros; simplify_eq/=.
  split; [|by rewrite lookup_insert_eq].
  destruct (g_table w !! _) as [r|] eqn:Hr; [|done].
  destruct (Ht _ _ Hr) as (r' & ? & _). congruence.
Qed.

Lemma status_from_approved s : status_from_str s = Approved → s = "approved".
Proof.
  unfold status_from_str. repeat case_match; try done.
  intros _. by apply string_eqb_eq.
Qed.

Lemma pre_flight_next policy a c t p ro :
  evolves inbox_next (pre_flight policy a c t p ro).
Proof.
  unfold pre_flight. apply evolves_bind; [apply _|by apply evolves_gets; apply _|].
  intros kill. repeat case_match; auto with daimon typeclass_instances.
  apply evolves_bind; [apply _|apply enqueue_next|]. intros id.
  apply evolves_bind; [apply _|apply publish_next|]. intros _.
  apply evolves_bind; [apply _|by apply evolves_gets; apply _|]. intros timeout.
  apply evolves_bind; [apply _| |].
  - intros w. destruct (wait_for_decision id timeout poll_interval w) as [r w'] eqn:Hw.
    by eapply wait_sound in Hw as [? _].
  - intros rec. repeat case_match; auto with daimon typeclass_instances.
Qed.

(** What a passed gate certifies about the invocation: read-only, allowed by
    policy, or approved by a named decider on a row of its own. *)
Definition cleared (policy : PolicyEngine) (actor cap : string) (target : option string)
    (params : json) (ro : bool) (w w' : gworld) : Prop :=
  ro = true ∨
  verdict_decision (evaluate policy cap) = Allow ∨
  verdict_decision (evaluate policy cap) = RequireApproval ∧
  ∃ id row, g_table w !! id = None ∧ g_table w' !! id = Some row ∧
    row_actor_id row = actor ∧ row_capability row = cap ∧
    row_target_ref row = target ∧ row_params row = params ∧
    row_status row = "approved" ∧ row_decided_by row ≠ None.

Lemma pre_flight_cleared policy actor cap target params ro w w' :
  deciders w →
  pre_flight policy actor cap target params ro w = (Ok tt, w') →
  engaged (g_kill w) = false ∧ cleared policy actor cap target params ro w w'.
Proof.
  unfold cleared.
  intros Hdec Hrun. unfold pre_flight in Hrun.
  rewrite (io_bind_run_ok _ _ _ (g_kill w) w) in Hrun by done.
  destruct (engaged (g_kill w)) eqn:Hk; [done|]. split; [done|].
  destruct ro; [by left|right].
  destruct (verdict_decision (evaluate policy cap)) eqn:Hv; inv_io; [by left|right].
  rename a into id. destruct (publish_same id cap target actor w0) as (w1' & Hp & Ht & _).
  rewrite Hp in Hrun1. simplify_eq.
  pose proof (enqueue_next actor cap target params w) as He. rewrite Hrun0 in He.
  simpl in He. destruct He as (_ & Hd1 & _).
  apply enqueue_ok in Hrun0 as [Hnone Hrow]. apply wait_sound in Hrun3; [|done].
  destruct Hrun3 as [(Hnext & Hd2 & _) Hrec].
  destruct (Hrec a2 eq_refl) as [_ (row & Hr & ->)]. simpl in Hrun.
  destruct (status_from_str (row_status row)) eqn:Hs; inv_io.
  split; [done|]. exists id, row. rewrite <- Ht in Hrow.
  destruct (Hnext _ _ Hrow) as (row' & Hr' & _ & Hf). simplify_eq. simpl in Hf.
  destruct Hf as (? & ? & ? & ? & _). repeat split; try done.
  - by apply status_from_approved.
  - eapply Hd2; [|exact Hr|by rewrite Hs].
    unfold deciders. rewrite Ht. by apply Hd1.
Qed.

(** ** Properties *)

(** C1: soundness of the gate. When [pre_flight] lets an invocation through, the
    KILL switch was not engaged when it started, and either the capability is
    read-only, or the policy allows it outright, or the policy asks for
    approval and the inbox holds a new row for exactly this actor, capability,
    target and parameters, approved, by a named decider. *)
Theorem pre_flight_sound policy actor cap target params ro w w' :
  deciders w →
  pre_flight policy actor cap target params ro w = (Ok tt, w') →
  engaged (g_kill w) = false ∧
  (ro = true ∨
   verdict_decision (evaluate policy cap) = Allow ∨
   verdict_decision (evaluate policy cap) = RequireApproval ∧
   ∃ id row, g_table w !! id = None ∧ g_table w' !! id = Some row ∧
     row_actor_id row = actor ∧ row_capability row = cap ∧
     row_target_ref row = target ∧ row_params row = params ∧
     row_status row = "approved" ∧ row_decided_by row ≠ None).
Proof. apply pre_flight_cleared. Qed.

(** The KILL switch overrides everything. While it is engaged every
    invocation, read-only or not, whatever the policy, is refused with the
    switch's reason; no database call is made, no approval is enqueued and
    nothing is published. *)
Theorem pre_flight_killed policy actor cap target params ro w :
  engaged (g_kill w) = true →
  pre_flight policy actor cap target params ro w
    = (Err (GKillEngaged (reason (g_kill w))), w).
Proof.
  intros Hk. unfold pre_flight. rewrite (io_bind_run_ok _ _ _ (g_kill w) w) by done.
  by rewrite Hk.
Qed.

(** A request that needs approval, unrolled up to the wait. *)
Lemma pre_flight_park policy actor cap target params w id w1 :
  engaged (g_kill w) = false →
  verdict_decision (evaluate policy cap) = RequireApproval →
  enqueue actor cap target params w = (Ok id, w1) →
  ∃ w2, g_table w2 = g_table w1 ∧ g_now w2 = g_now w1 ∧ g_sched w2 = g_sched w1 ∧
    g_faults w2 = g_faults w1 ∧ g_timeout_secs w2 = g_timeout_secs w1 ∧
    pre_flight policy actor cap target params false w =
      (wait_for_decision id (approval_timeout w1) poll_interval ≫= λ rec,
       match ar_status rec with
       | Approved => mret tt
       | Denied =>
           throw (GPolicyDenied ("operator denied approval " +:+ id +:+ " for `" +:+
                                 cap +:+ "`"))
       | _ => throw (GApprovalTimeout id)
       end) w2.
Proof.
  intros Hk Hv He. destruct (publish_same id cap target actor w1)
    as (w2 & Hp & Ht & Hn & _ & Hs & Hf & _ & Hto). exists w2.
  do 5 (split; [done|]). unfold pre_flight.
  rewrite (io_bind_run_ok _ _ _ (g_kill w) w) by done. rewrite Hk, Hv.
  rewrite (io_bind_run_ok _ _ _ _ _ He), (io_bind_run_ok _ _ _ _ _ Hp).
  rewrite (io_bind_run_ok (gets approval_timeout) _ _ (approval_timeout w2) w2) by done.
  unfold approval_timeout. by rewrite Hto.
Qed.

(** C21: an unattended request is denied. A capability that needs approval, that
    nobody decides and whose database calls are served, is refused with
    [ApprovalTimeout] for its own inbox row, not before the timeout in force
    when it was parked has elapsed, and the row ends up expired: the operator
    can no longer approve it. *)
Theorem pre_flight_unattended policy actor cap target params w id w1 :
  engaged (g_kill w) = false →
  verdict_decision (evaluate policy cap) = RequireApproval →
  enqueue actor cap target params w = (Ok id, w1) → unattended id w1 →
  ∃ w' row, pre_flight policy actor cap target params false w
              = (Err (GApprovalTimeout id), w') ∧
    g_now w1 + approval_timeout w1 ≤ g_now w' ∧
    g_table w' !! id = Some row ∧ row_status row = "expired".
Proof.
  intros Hk Hv He Hu.
  destruct (pre_flight_park policy actor cap target params w id w1 Hk Hv He)
    as (w2 & Ht & Hn & Hs & Hf & Hto & ->).
  apply enqueue_ok in He as [_ Hrow]. rewrite <- Ht in Hrow.
  destruct (wait_total id (approval_timeout w1) poll_interval w2 ltac:(done))
    as [[r w3] Hw].
  eapply wait_loop_unattended in Hw as Hend; [|by unfold unattended; rewrite Hs, Hf|done|done].
  destruct Hend as (-> & Hle & row & Hr & Hexp). exists w3, row.
  rewrite (io_bind_run_err _ _ _ (GApprovalTimeout id) w3);
    [|unfold wait_for_decision; by rewrite Hw].
  by rewrite <- Hn.
Qed.
(** Everything that touches the inbox, in any order: requests passing the gate,
    operator decisions, expiries, reads, and the other tasks. *)
Inductive inbox_op : gworld → gworld → Prop :=
| OpPreFlight policy a c t p ro w : inbox_op w (pre_flight policy a c t p ro w).2
| OpDecide id by_ st w : inbox_op w (decide_approval id by_ st w).2
| OpExpire id w : inbox_op w (expire_if_pending id w).2
| OpGet id w : inbox_op w (get id w).2
| OpList n w : inbox_op w (list_pending n w).2
| OpEnv a w : inbox_op w (env_step w a).

Lemma list_pending_next n : evolves inbox_next (list_pending n).
Proof. unfold list_pending. auto using db_call_next with daimon typeclass_instances. Qed.

Lemma inbox_ops_next w w' : rtc inbox_op w w' → inbox_next w w'.
Proof.
  induction 1 as [|w w1 w2 Hop _ IH]; [done|]. etrans; [|exact IH].
  destruct Hop; [apply pre_flight_next|apply decide_next|apply expire_next
    |apply get_next|apply list_pending_next|apply env_step_next].
Qed.

(** C22: an inbox decision is final. Whatever sequence of requests, decisions,
    expiries, reads and other-task actions runs, with any database faults and
    any interleaving, a row that is no longer pending never changes again, no
    row disappears, and what a row says was asked for never changes. *)
Theorem inbox_decision_final w w' id row :
  rtc inbox_op w w' → g_table w !! id = Some row →
  ∃ row', g_table w' !! id = Some row' ∧
    (row_status row ≠ "pending" → row' = row) ∧
    row_actor_id row' = row_actor_id row ∧ row_capability row' = row_capability row ∧
    row_target_ref row' = row_target_ref row ∧ row_params row' = row_params row.
Proof.
  intros (Ht & _)%inbox_ops_next Hr. destruct (Ht _ _ Hr) as (row' & ? & ?).
  exists row'. unfold row_next in *. intuition.
Qed.
End Guard.

(** ** Witnesses *)

Module GuardDemo.
Import DemoSemVer.

Definition ids (n : nat) : Uuid := "id-" +:+ show_Z (Z.of_nat n).

Definition rules : list PolicyRule :=
  [mkRule "network.firewall.*" RequireApproval None; mkRule "ssh.exec" Allow None].

(** A fresh guard with an empty inbox. *)
Definition fresh (kill : KillState) (sched : list (Z * list env_action)) : gworld :=
  guard_new kill ∅ 0 [] ids sched.

(** The operator approves the first row during the second poll. *)
Definition approving : list (Z * list env_action) :=
  [(0, []); (0, []); (0, []); (5, [EnvDecide "id-0" "operator" Approved])].

Definition run (w : gworld) : result GuardError unit * gworld :=
  pre_flight (policy_new rules) "alice" "network.firewall.rule.add" (Some "node:r1")
    (JObject []) false w.
End GuardDemo.

Lemma pre_flight_sound_witness :
  let w := GuardDemo.fresh kill_new GuardDemo.approving in
  ∃ id row, g_table (GuardDemo.run w).2 !! id = Some row ∧ row_status row = "approved".
Proof.
  intros w. destruct (pre_flight_sound (policy_new GuardDemo.rules) "alice"
    "network.firewall.rule.add" (Some "node:r1") (JObject []) false w (GuardDemo.run w).2)
    as [_ [Ho|[Ho|(_ & id & row & _ & Hr & _ & _ & _ & _ & Hs & _)]]].
  - intros id row Hr. discriminate Hr.
  - apply run_split. vm_compute. reflexivity.
  - discriminate Ho.
  - discriminate Ho.
  - by exists id, row.
Defined.

Lemma pre_flight_killed_witness :
  GuardDemo.run (GuardDemo.fresh (engage "drill" kill_new) [])
    = (Err (GKillEngaged "drill"), GuardDemo.fresh (engage "drill" kill_new) []).
Proof.
  exact (pre_flight_killed (policy_new GuardDemo.rules) "alice" "network.firewall.rule.add"
    (Some "node:r1") (JObject []) false (GuardDemo.fresh (engage "drill" kill_new) [])
    eq_refl).
Defined.

Lemma pre_flight_unattended_witness :
  let w := GuardDemo.fresh kill_new [] in
  let w1 := (enqueue "alice" "network.firewall.rule.add" (Some "node:r1") (JObject []) w).2 in
  ∃ w' row, GuardDemo.run w = (Err (GApprovalTimeout "id-0"), w') ∧
    g_now w1 + approval_timeout w1 ≤ g_now w' ∧
    g_table w' !! "id-0" = Some row ∧ row_status row = "expired".
Proof.
  intros w w1. apply (pre_flight_unattended (policy_new GuardDemo.rules) "alice"
    "network.firewall.rule.add" (Some "node:r1") (JObject []) w "id-0" w1);
    [done|done|apply run_split; vm_compute; reflexivity|].
  split; intros x; [intros a|]; intros Hx; by apply not_elem_of_nil in Hx.
Defined.

(** The KILL switch is only consulted on entry. A write that is already
    parked when the switch engages is still let through when the operator (or
    an approval that was already on its way) approves its row: [pre_flight]
    returns [Ok] in a world whose switch is engaged. *)
Theorem pre_flight_kill_while_parked :
  let sched := [(0, []); (0, []); (0, [EnvEngage "stop everything"]);
                (0, [EnvDecide "id-0" "operator" Approved])] in
  let '(r, w') := pre_flight (policy_new GuardDemo.rules) "alice" "network.firewall.rule.add"
                    (Some "node:r1") (JObject []) false (GuardDemo.fresh kill_new sched) in
  r = Ok tt ∧ engaged (g_kill w') = true.
Proof. by vm_compute. Qed.

Lemma inbox_decision_final_witness :
  let w := (GuardDemo.run (GuardDemo.fresh kill_new [])).2 in
  ∃ row', g_table (decide_approval "id-0" "operator" Approved w).2 !! "id-0" = Some row' ∧
    row_status row' = "expired".
Proof.
  intros w. assert (row_status <$> g_table w !! "id-0" = Some "expired") as Hs
    by (vm_compute; reflexivity).
  apply fmap_Some in Hs as (row & Hr & Hs).
  destruct (inbox_decision_final w (decide_approval "id-0" "operator" Approved w).2
    "id-0" row) as (row' & Hrow' & Hsame & _); [apply rtc_once, OpDecide|exact Hr|].
  exists row'. split; [exact Hrow'|]. rewrite Hsame; [by rewrite Hs|]. rewrite <- Hs. discriminate.
Defined.
