(* ===== verification/Gateway.v ===== *)
(** * daimon-gateway: channels ([daimon-gateway/src])

    What a messaging channel hands to the application: verified and normalised
    inbound messages ([gateway.rs], [verify.rs], the Telegram adapter), and the
    batched reply sink ([reply_sink.rs]). The JSON decoder of an update and the
    HTTP client are parameters. *)

From S2P Require Import Prelude RustStd Json.
From Stdlib Require Import ZArith Ascii.

Local Open Scope Z_scope.

(** ** Messages ([gateway.rs]) *)

Record Correlation := mkCorrelation {
  co_thread : option string;
  co_reply_to : string;
}.

(** [Correlation::session_id]. *)
Definition session_id (c : Correlation) (channel : string) : string :=
  "gw:" +:+ channel +:+ ":" +:+ default (co_reply_to c) (co_thread c).

Record InboundMessage := mkInbound {
  im_channel : string;
  im_platform_handle : string;
  im_text : string;
  im_correlation : Correlation;
  im_reply_to_message_id : option string;
  im_received_at : Z;
}.

(** [InboundHttp]: header names are lowercased on the way in and on lookup; of
    two headers that differ in case only, the one the map yields last stays. *)
Record InboundHttp := mkInboundHttp {
  ih_headers : gmap string string;
  ih_body : string;
}.

Definition inbound_http_new (headers : list (string * string)) (body : string) : InboundHttp :=
  mkInboundHttp (fold_left (λ m kv, <[to_ascii_lowercase kv.1 := kv.2]> m) headers ∅) body.

Definition header (r : InboundHttp) (name : string) : option string :=
  ih_headers r !! to_ascii_lowercase name.

(** The [Recipient] of an alert. *)
Record AlertRecipient := mkAlertRecipient { rc_channel : string; rc_to : string }.

Record AlertBody := mkAlertBody { ab_title : string; ab_body : string }.

(** [AlertBody::render]. *)
Definition render (b : AlertBody) : string :=
  let nl := String "010"%char EmptyString in
  if string_eqb (ab_body b) "" then ab_title b else ab_title b +:+ nl +:+ nl +:+ ab_body b.

Inductive GatewayError :=
| GwUnauthorized (msg : string)
| GwBadRequest (msg : string)
| GwIgnored (msg : string)
| GwChannel (msg : string)
| GwNotImplemented.

Definition show_gateway_error (e : GatewayError) : string :=
  match e with
  | GwUnauthorized m => "unauthorized: " +:+ m
  | GwBadRequest m => "bad request: " +:+ m
  | GwIgnored m => "ignored: " +:+ m
  | GwChannel m => "channel error: " +:+ m
  | GwNotImplemented => "not implemented"
  end.

(** ** Verification ([verify.rs]) *)

(** The [subtle] crate: comparison of byte strings of equal length. *)
Class ConstantTimeEq := {
  ct_eq : string → string → bool;
  ct_eq_spec a b : ct_eq a b = true ↔ a = b;
}.

#[export] Instance string_ct_eq : ConstantTimeEq | 100 := {|
  ct_eq := string_eqb;
  ct_eq_spec := string_eqb_eq;
|}.

Section Verify.
Context `{ConstantTimeEq}.

(** [constant_time_eq], [verify_secret_token]. *)
Definition constant_time_eq (a b : string) : bool :=
  if negb (length (bytes a) =? length (bytes b))%nat then false else ct_eq a b.

Definition verify_secret_token (expected : string) (provided : option string) : bool :=
  match provided with Some p => constant_time_eq expected p | None => false end.

Lemma constant_time_eq_spec a b : constant_time_eq a b = true ↔ a = b.
Proof.
  unfold constant_time_eq. destruct (length (bytes a) =? length (bytes b))%nat eqn:Hl; simpl.
  - apply ct_eq_spec.
  - split; [done|]. intros ->. by rewrite Nat.eqb_refl in Hl.
Qed.
End Verify.

(** ** The Telegram adapter ([adapters/telegram.rs]) *)

Definition SECRET_HEADER : string := "x-telegram-bot-api-secret-token".

Record TgMessage := mkTgMessage {
  tg_text : option string;
  tg_from : option Z;               (** [from.id] *)
  tg_chat : Z;                      (** [chat.id] *)
  tg_reply_to_message : option Z;   (** [reply_to_message.message_id] *)
}.

Record Update := mkUpdate { up_update_id : Z; up_message : option TgMessage }.

(** [update_to_inbound]. *)
Definition update_to_inbound (now : Z) (u : Update) : result GatewayError InboundMessage :=
  message ← ok_or (up_message u) (GwIgnored "update has no message");
  text ← ok_or (t ← tg_text message; if string_eqb (trim t) "" then None else Some t)
           (GwIgnored "message has no text");
  let reply_to_message_id := show_Z <$> tg_reply_to_message message in
  from ← ok_or (tg_from message) (GwIgnored "message has no sender");
  let chat_id := show_Z (tg_chat message) in
  Ok (mkInbound "telegram" (show_Z from) text (mkCorrelation (Some chat_id) chat_id)
        reply_to_message_id now).

Section Telegram.
Context `{ConstantTimeEq}.

(** [TelegramAdapter::verify_and_parse]: the secret first, then the body. *)
Definition verify_and_parse (decode : string → result string Update) (webhook_secret : string)
    (now : Z) (req : InboundHttp) : result GatewayError InboundMessage :=
  if negb (verify_secret_token webhook_secret (header req SECRET_HEADER))
  then Err (GwUnauthorized "telegram secret token mismatch")
  else
    u ← map_err (λ e, GwBadRequest ("telegram update json: " +:+ e)) (decode (ih_body req));
    update_to_inbound now u.

(** A message only comes out of a request that carries the webhook secret, and
    it speaks for the sender the update names, addressed to the chat it came
    from. *)
Lemma verify_and_parse_authentic decode secret now req m :
  verify_and_parse decode secret now req = Ok m →
  header req SECRET_HEADER = Some secret ∧ im_channel m = "telegram" ∧
  ∃ u msg from, decode (ih_body req) = Ok u ∧ up_message u = Some msg ∧
    tg_from msg = Some from ∧ im_platform_handle m = show_Z from ∧
    co_reply_to (im_correlation m) = show_Z (tg_chat msg).
Proof.
  unfold verify_and_parse, verify_secret_token.
  destruct (header req SECRET_HEADER) as [p|]; [|done].
  destruct (constant_time_eq secret p) eqn:He; [|done]. apply constant_time_eq_spec in He as ->.
  simpl. destruct (decode (ih_body req)) as [u|] eqn:Hu; simpl; [|done].
  unfold update_to_inbound, mbind, result_bind.
  destruct (up_message u) as [msg|] eqn:Hm; simpl; [|done].
  destruct (tg_text msg) as [t|]; simpl; [|done]. destruct (string_eqb (trim t) ""); [done|]. simpl.
  destruct (tg_from msg) as [from|] eqn:Hf; simpl; [|done]. intros [= <-].
  split; [done|]. split; [done|]. by exists u, msg, from.
Qed.

End Telegram.

(** ** The batched reply sink ([reply_sink.rs]) *)

Inductive TurnEvent :=
| TokenDelta (session_id content : string)
| ToolUse (session_id tool : string) (params : json)
| ToolResult (session_id tool output : string) (is_error : bool)
| Done (session_id stop_reason : string) (input_tokens output_tokens : Z)
| TurnError (message : string).

(** [BufferSink] over a channel: [sk_sent] are the texts handed to
    [OutboundChannel::send], whose outcome is only logged. *)
Record BufferSink := mkSink {
  sk_buf : string;
  sk_had_error : bool;
  sk_sent : list string;
}.

Definition sink_new : BufferSink := mkSink "" false [].

(** The warning sign of [emit]: U+26A0 U+FE0F. *)
Definition warning_sign : string := utf8 [226; 154; 160; 239; 184; 143]%N.

(** [BufferSink::emit], [BufferSink::finish]. *)
Definition emit (e : TurnEvent) (s : BufferSink) : BufferSink :=
  match e with
  | TokenDelta _ content => mkSink (sk_buf s +:+ content) (sk_had_error s) (sk_sent s)
  | TurnError message =>
      let buf := if string_eqb (sk_buf s) "" then "" else sk_buf s +:+ String "010"%char "" in
      mkSink (buf +:+ warning_sign +:+ " " +:+ message) true (sk_sent s)
  | _ => s
  end.

Definition finish (s : BufferSink) : BufferSink :=
  if string_eqb (trim (sk_buf s)) "" then
    if sk_had_error s then mkSink "" (sk_had_error s) (sk_sent s)
    else mkSink "" (sk_had_error s) (sk_sent s ++ ["(no reply)"])
  else mkSink "" (sk_had_error s) (sk_sent s ++ [sk_buf s]).

(** Whatever a turn emits, a channel gets at most one message per turn, and
    exactly one when no error was emitted. *)
Lemma finish_one_message events :
  let s := finish (fold_left (λ s e, emit e s) events sink_new) in
  (length (sk_sent s) ≤ 1)%nat ∧ (sk_had_error s = false → length (sk_sent s) = 1%nat).
Proof.
  assert (∀ s, sk_sent (fold_left (λ s e, emit e s) events s) = sk_sent s) as Hs.
  { induction events as [|e events IH]; intros s; simpl; [done|]. rewrite IH. by destruct e. }
  specialize (Hs sink_new). unfold finish. destruct (string_eqb _ _); simpl.
  - destruct (sk_had_error _) eqn:He; simpl; rewrite Hs; simpl; split; (lia || congruence || done).
  - rewrite Hs. simpl. split; [lia|done].
Qed.
