(* ===== verification/Channels.v ===== *)
(** * daimon-app: chat approvals and alert routing
    ([daimon-app/src/gw.rs], [alert_router.rs], the queries of [db.rs] they use)

    The human end of the approval gate over a messaging channel. A parked write
    makes the guard publish an envelope; the alert router turns it into a message
    to enrolled recipients; the operator's answer comes back through the inbound
    pipeline, which binds the sender to a user and writes the decision to the
    guard's inbox. Any other message is a chat turn, whose tool calls may park
    further writes: the turn is a parameter of the pipeline here, an arbitrary
    effect on the sink and the application's state, and is modelled in [Chat.v]
    and [Ws.v] ([gateway_turn]). The [uuid] crate's parser, the observer's anomaly
    decoder and the adapters' network calls are parameters too. *)

From stdpp Require Import sorting.
From S2P Require Import Prelude RustStd Json Core KillSwitch Policy Approvals Guard Gateway.
From Stdlib Require Import ZArith Ascii.

Local Open Scope Z_scope.

(** ** The [uuid] crate *)

Definition uuid_byte_ok (a : ascii) : bool := byte_is_hexdigit a || bool_decide (a = "-"%char).

(** A parsed id is kept as its [Display] text, hyphenated lowercase hex, which
    parses to itself. *)
Class UuidParse := {
  uuid_parse : string → option Uuid;
  uuid_parse_display s u : uuid_parse s = Some u →
    uuid_parse u = Some u ∧ u ≠ "" ∧ Forall (λ a, uuid_byte_ok a = true) (bytes u);
}.

(** ** State *)

Record UserAccount := mkUser { us_username : string; us_status : string; us_roles : list string }.

(** A row of [public.alert_deliveries]. *)
Record Delivery := mkDelivery {
  dl_alert_class : string;
  dl_severity : option string;
  dl_signature : string;
  dl_channel : string;
  dl_recipient : string;
  dl_status : string;
  dl_detail : option string;
  dl_provider_message_id : option string;
  dl_created_at : Z;
}.

Section Channels.
Context `{SemVer} `{UuidParse}.

(** The application's tables, with the guard's state. [a_sent] are the alerts
    handed to an adapter and [a_turns] the chat turns started, each as actor,
    session and text. *)
Record aworld := mkAworld {
  a_identities : gmap (string * string) Uuid;   (** [public.gateway_identities] *)
  a_users : gmap Uuid UserAccount;                  (** [public.users] with its role slugs *)
  a_deliveries : list Delivery;
  a_faults : list (option string);              (** outcome of the next calls *)
  a_now : Z;
  a_guard : gworld;
  a_sent : list (AlertRecipient * AlertBody);
  a_turns : list (string * string * string);
}.

Definition set_deliveries d w := mkAworld (a_identities w) (a_users w) d (a_faults w) (a_now w)
  (a_guard w) (a_sent w) (a_turns w).
Definition set_afaults f w := mkAworld (a_identities w) (a_users w) (a_deliveries w) f (a_now w)
  (a_guard w) (a_sent w) (a_turns w).
Definition set_aguard g w := mkAworld (a_identities w) (a_users w) (a_deliveries w) (a_faults w)
  (a_now w) g (a_sent w) (a_turns w).
Definition set_sent l w := mkAworld (a_identities w) (a_users w) (a_deliveries w) (a_faults w)
  (a_now w) (a_guard w) l (a_turns w).
Definition set_turns l w := mkAworld (a_identities w) (a_users w) (a_deliveries w) (a_faults w)
  (a_now w) (a_guard w) (a_sent w) l.

Abbreviation aio := (io aworld string).

Definition adb_call : aio unit := λ w,
  match a_faults w with
  | Some e :: f => (Err e, set_afaults f w)
  | f => (Ok tt, set_afaults (tail f) w)
  end.

(** ** Queries ([db.rs]) *)

Record GatewayActor := mkActor { ga_user_id : Uuid; ga_username : string; ga_roles : list string }.

(** The join of [gateway_identities] and [users], active accounts only. *)
Definition bound_active (w : aworld) (channel handle : string) : option (Uuid * UserAccount) :=
  uid ← a_identities w !! (channel, handle);
  u ← a_users w !! uid;
  if string_eqb (us_status u) "active" then Some (uid, u) else None.

(** [resolve_gateway_identity]. *)
Definition resolve_gateway_identity (channel handle : string) : aio (option GatewayActor) :=
  adb_call ≫= λ _,
  gets (λ w, (λ '(uid, u), mkActor uid (us_username u) (us_roles u))
               <$> bound_active w channel handle).

Definition later (x y : Delivery) : Prop := dl_created_at y ≤ dl_created_at x.
#[export] Instance later_dec : RelDecision later.
Proof. intros x y. unfold later. apply _. Defined.

(** [WHERE channel = $1 AND provider_message_id = $2 AND alert_class =
    'approval']: the recipient is not part of the key. *)
Definition correlates (channel message_id : string) (d : Delivery) : bool :=
  string_eqb (dl_channel d) channel &&
  bool_decide (dl_provider_message_id d = Some message_id) &&
  string_eqb (dl_alert_class d) "approval".

(** [resolve_approval_by_reply]. *)
Definition resolve_approval_by_reply (channel message_id : string) : aio (option Uuid) :=
  adb_call ≫= λ _,
  gets (λ w, d ← hd_error (merge_sort later (List.filter (correlates channel message_id)
                             (a_deliveries w)));
             uuid_parse (dl_signature d)).

(** ** Approving over chat ([gw.rs]) *)

(** [parse_approval_command]. *)
Definition parse_approval_command (text : string) : option (bool * Uuid) :=
  '(verb, rest) ← split_once_whitespace (trim text);
  let v := to_ascii_lowercase verb in
  approved ← (if string_eqb v "approve" || string_eqb v "/approve" then Some true
              else if string_eqb v "deny" || string_eqb v "/deny" then Some false
              else None);
  id ← uuid_parse (trim rest);
  Some (approved, id).

(** [parse_bare_decision]. *)
Definition parse_bare_decision (text : string) : option bool :=
  let cleaned := join " "%char
    (List.filter (λ l, negb (starts_with (trim_start l) ">")) (lines text)) in
  first ← first_word cleaned;
  let v := to_ascii_lowercase first in
  if existsb (string_eqb v) ["approve"; "/approve"; "approved"] then Some true
  else if existsb (string_eqb v) ["deny"; "/deny"; "denied"] then Some false
  else None.

(** [reply]. *)
Definition reply (session text : string) (s : BufferSink) : BufferSink :=
  emit (TokenDelta session text) s.

Definition is_approver (actor : GatewayActor) : bool :=
  existsb (λ r, string_eqb r "approver" || string_eqb r "admin") (ga_roles actor).

(** [decide_over_chat]; [guard_attached] is whether the broker has a guard. *)
Definition decide_over_chat (guard_attached : bool) (actor : GatewayActor) (approved : bool)
    (approval_id : Uuid) (session : string) (s : BufferSink) (w : aworld) :
    BufferSink * aworld :=
  if negb (is_approver actor) then
    (reply session "🚫 Not authorized: approving requires the `approver` or `admin` role." s, w)
  else if negb guard_attached then (reply session "internal error: no guard configured" s, w)
  else
    let status := if approved then Approved else Denied in
    let '(r, g) := decide_approval approval_id (ga_user_id actor) status (a_guard w) in
    (match r with
     | Ok _ =>
         reply session ((if approved then "✅ Approved" else "🛑 Denied") +:+ " approval `" +:+
                        approval_id +:+ "`.") s
     | Err _ =>
         reply session ("No pending approval `" +:+ approval_id +:+
                        "` (already decided, expired, or unknown id).") s
     end, set_aguard g w).

(** The reply-to branch of [handle]: a bare decision that answers an alert. *)
Definition reply_decision (msg : InboundMessage) (w : aworld) : option (bool * Uuid) * aworld :=
  match im_reply_to_message_id msg with
  | None => (None, w)
  | Some reply_id =>
      match parse_bare_decision (im_text msg) with
      | None => (None, w)
      | Some approved =>
          match resolve_approval_by_reply (im_channel msg) reply_id w with
          | (Ok (Some id), w1) => (Some (approved, id), w1)
          | (_, w1) => (None, w1)
          end
      end
  end.

(** [handle_chat_send], for actor, session and text, with the sink it replies to. *)
Abbreviation chat_turn :=
  (string → string → string → BufferSink → aworld → BufferSink * aworld).

(** [AppInboundHandler::handle]. *)
Definition handle (turn : chat_turn) (guard_attached : bool) (msg : InboundMessage) (s : BufferSink) (w : aworld) :
    BufferSink * aworld :=
  match resolve_gateway_identity (im_channel msg) (im_platform_handle msg) w with
  | (Err _, w1) => (finish (emit (TurnError "internal error resolving identity") s), w1)
  | (Ok None, w1) =>
      (finish (emit (TurnError ("Not authorized: your " +:+ im_channel msg +:+
         " identity is not enrolled with daimon. Ask an admin to bind your handle.")) s), w1)
  | (Ok (Some actor), w1) =>
      let session := session_id (im_correlation msg) (im_channel msg) in
      let decide (d : bool * Uuid) (w : aworld) :=
        let '(s1, w2) := decide_over_chat guard_attached actor d.1 d.2 session s w in
        (finish s1, w2) in
      match reply_decision msg w1 with
      | (Some d, w2) => decide d w2
      | (None, w2) =>
          match parse_approval_command (im_text msg) with
          | Some d => decide d w2
          | None =>
              let actor_id := "user:" +:+ ga_username actor in
              turn actor_id session (im_text msg) s
                (set_turns (a_turns w2 ++ [(actor_id, session, im_text msg)]) w2)
          end
      end
  end.

(** ** Who decides *)

(** With no other task acting meanwhile, [decide] changes one pending row or
    none. *)
Lemma decide_approval_effect id by_ st (g : gworld) id' :
  g_sched g = [] →
  let g' := (decide_approval id by_ st g).2 in
  g_table g' !! id' ≠ g_table g !! id' →
  id' = id ∧ ∃ row now, g_table g !! id = Some row ∧ row_status row = "pending" ∧
    g_table g' !! id = Some (row_decide st by_ now row).
Proof.
  intros Hs. unfold decide_approval, io_map_err, db_call, suspend, gets, modify, throw, mbind,
    io_bind, mret, io_ret. rewrite Hs. simpl.
  assert (∀ r : ApprovalRow, string_eqb (row_status r) "pending" = true → row_status r = "pending")
    as Hpend by (intros r; apply string_eqb_eq).
  destruct (g_faults g) as [|[| |] f]; simpl; try done.
  all: destruct (g_table g !! id) as [row|] eqn:Hrow; simpl; [|done].
  all: destruct (string_eqb (row_status row) "pending") eqn:Hp; simpl; [|done].
  all: destruct (decide (id = id')) as [<-|Hne]; [|by rewrite lookup_insert_ne].
  all: intros _; split; [done|]; exists row; eexists; rewrite lookup_insert_eq; eauto.
Qed.

(** The pure part of the application's world that a query leaves alone. *)
Definition same_state (w w' : aworld) : Prop :=
  a_identities w' = a_identities w ∧ a_users w' = a_users w ∧
  a_deliveries w' = a_deliveries w ∧ a_guard w' = a_guard w ∧ a_sent w' = a_sent w ∧
  a_turns w' = a_turns w.

#[export] Instance same_state_refl : Reflexive same_state.
Proof. by intros w. Qed.
#[export] Instance same_state_trans : Transitive same_state.
Proof. intros w1 w2 w3. unfold same_state. intros. destruct_and!. split_and!; congruence. Qed.

Lemma adb_call_same : evolves same_state adb_call.
Proof. intros w. unfold adb_call. by destruct (a_faults w) as [|[e|] f]. Qed.

Lemma resolve_identity_ok channel handle w r w1 :
  resolve_gateway_identity channel handle w = (r, w1) →
  same_state w w1 ∧ ∀ actor, r = Ok (Some actor) →
    ∃ u, bound_active w channel handle = Some (ga_user_id actor, u) ∧
      ga_roles actor = us_roles u ∧ ga_username actor = us_username u.
Proof.
  unfold resolve_gateway_identity, gets, mbind, io_bind. pose proof (adb_call_same w) as Hs.
  destruct (adb_call w) as [[[]|e] w0]; simpl in Hs; intros [= <- <-]; [|by split].
  split; [done|]. intros actor [= Ha]. destruct Hs as (Hi & Hu & _).
  unfold bound_active in *. rewrite Hi, Hu in Ha.
  destruct (_ ≫= _) as [[uid u]|] eqn:Hb; [|done]. simplify_eq/=. by exists u.
Qed.

Lemma reply_decision_ok msg w d w1 :
  reply_decision msg w = (d, w1) →
  same_state w w1 ∧ ∀ approved id, d = Some (approved, id) →
    ∃ mid dl, im_reply_to_message_id msg = Some mid ∧
      parse_bare_decision (im_text msg) = Some approved ∧ dl ∈ a_deliveries w ∧
      correlates (im_channel msg) mid dl = true ∧ uuid_parse (dl_signature dl) = Some id.
Proof.
  unfold reply_decision. destruct (im_reply_to_message_id msg) as [mid|]; [|by intros [= <- <-]].
  destruct (parse_bare_decision (im_text msg)) as [a|]; [|by intros [= <- <-]].
  unfold resolve_approval_by_reply, gets, mbind, io_bind. pose proof (adb_call_same w) as Hs.
  destruct (adb_call w) as [[[]|e] w0]; simpl in Hs; [|by intros [= <- <-]].
  destruct (option_bind _ _ _ _) as [id'|] eqn:Hd; intros [= <- <-]; (split; [done|]); [|done].
  intros approved id [= <- <-]. apply bind_Some in Hd as (dl & Hhd & Hu). exists mid, dl.
  destruct Hs as (_ & _ & Hdl & _). rewrite Hdl in Hhd.
  assert (dl ∈ List.filter (correlates (im_channel msg) mid) (a_deliveries w)) as Hin.
  { rewrite <- (merge_sort_Permutation later).
    destruct (merge_sort _ _) as [|x l]; simplify_eq/=. by left. }
  apply list_elem_of_In, List.filter_In in Hin as [Hin%list_elem_of_In Hc]. done.
Qed.

(** The two ways a message names the approval it decides: by an explicit id, or
    by replying to an alert. *)
Definition asks (w : aworld) (msg : InboundMessage) (approved : bool) (id : Uuid) : Prop :=
  parse_approval_command (im_text msg) = Some (approved, id) ∨
  ∃ mid dl, im_reply_to_message_id msg = Some mid ∧
    parse_bare_decision (im_text msg) = Some approved ∧ dl ∈ a_deliveries w ∧
    correlates (im_channel msg) mid dl = true ∧ uuid_parse (dl_signature dl) = Some id.

Lemma decide_over_chat_effect ga actor approved id session s w s' w' :
  decide_over_chat ga actor approved id session s w = (s', w') →
  w' = w ∨ is_approver actor = true ∧
    w' = set_aguard (decide_approval id (ga_user_id actor)
           (if approved then Approved else Denied) (a_guard w)).2 w.
Proof.
  unfold decide_over_chat. destruct (is_approver actor); simpl; [|intros [= _ <-]; by left].
  destruct ga; simpl; [|intros [= _ <-]; by left].
  destruct (decide_approval _ _ _ _) as [r g]. intros [= _ <-]. by right.
Qed.

(** What handling one message does: nothing but a reply, one decision by the
    bound approver, or one chat turn in the bound user's name. *)
Lemma handle_effect turn ga msg s w s' w' :
  handle turn ga msg s w = (s', w') →
  same_state w w' ∨
  ∃ uid u, bound_active w (im_channel msg) (im_platform_handle msg) = Some (uid, u) ∧
    ((∃ w1, same_state w w1 ∧ parse_approval_command (im_text msg) = None ∧
        let session := session_id (im_correlation msg) (im_channel msg) in
        (s', w') = turn ("user:" +:+ us_username u) session (im_text msg) s
          (set_turns (a_turns w1 ++ [("user:" +:+ us_username u, session, im_text msg)]) w1)) ∨
     ∃ approved id w1, same_state w w1 ∧ asks w msg approved id ∧
       ("approver" ∈ us_roles u ∨ "admin" ∈ us_roles u) ∧
       w' = set_aguard (decide_approval id uid (if approved then Approved else Denied)
              (a_guard w)).2 w1).
Proof.
  unfold handle. destruct (resolve_gateway_identity _ _ w) as [[[actor|]|e] w1] eqn:Hr;
    apply resolve_identity_ok in Hr as [Hs1 Hact]; [|intros [= _ <-]; by left..].
  destruct (Hact actor eq_refl) as (u & Hb & Hroles & Hname).
  destruct (reply_decision msg w1) as [d w2] eqn:Hd.
  apply reply_decision_ok in Hd as [Hs2 Hrd]. pose proof (transitivity Hs1 Hs2) as Hs.
  assert (∀ approved id, asks w msg approved id →
    (let '(s1, w3) := decide_over_chat ga actor approved id
       (session_id (im_correlation msg) (im_channel msg)) s w2 in (finish s1, w3)) = (s', w') →
    same_state w w' ∨ ∃ approved id w1, same_state w w1 ∧ asks w msg approved id ∧
       ("approver" ∈ us_roles u ∨ "admin" ∈ us_roles u) ∧
       w' = set_aguard (decide_approval id (ga_user_id actor)
              (if approved then Approved else Denied) (a_guard w)).2 w1) as Hdec.
  { intros approved id Hask. destruct (decide_over_chat _ _ _ _ _ _ _) as [s1 w3] eqn:Hc.
    intros [= _ <-]. apply decide_over_chat_effect in Hc as [->|[Happ ->]]; [by left|right].
    exists approved, id, w2. destruct Hs as (Hi & Hu & Hdl & Hg & Hrest).
    rewrite Hg. split_and!; try done. unfold is_approver in Happ. rewrite Hroles in Happ.
    apply existsb_elem in Happ as (r & Hin & [->%string_eqb_eq | ->%string_eqb_eq]%orb_true_iff);
      auto. }
  destruct d as [[approved id]|].
  - intros Hrun. destruct (Hdec approved id) as [?|?]; [|exact Hrun|by left|].
    + right. destruct (Hrd approved id eq_refl) as (mid & dl & Hm & Hp & Hin & Hc & Hu').
      exists mid, dl. destruct Hs1 as (_ & _ & <- & _). done.
    + right. exists (ga_user_id actor), u. split; [done|]. by right.
  - destruct (parse_approval_command (im_text msg)) as [[approved id]|] eqn:Hp.
    + intros Hrun. destruct (Hdec approved id) as [?|?]; [by left|exact Hrun|by left|].
      right. exists (ga_user_id actor), u. split; [done|]. by right.
    + intros Hturn. right. exists (ga_user_id actor), u. split; [done|]. left.
      exists w2. split; [done|]. split; [done|]. by rewrite <- Hname, <- Hturn.
Qed.

(** C10: only an approver decides. Whatever chat turns do, a message from a
    channel is treated in one of two ways. Either it is no approval command, its
    platform handle is bound to an active user, and all that happens is the chat
    turn of that user with the message's text (whose tool calls go through the
    guard like any other). Or no turn is started, and whenever handling it changes a
    row of the approval inbox (no other task acting meanwhile), the handle is
    bound to an active user who holds the approver or admin role, the message
    asks for exactly this decision on exactly this approval, whose row was
    pending, and the row now records the decision with that user as the
    decider. *)
Theorem chat_decision_authorized turn ga msg s w s' w' :
  handle turn ga msg s w = (s', w') → g_sched (a_guard w) = [] →
  (∃ uid u w1,
     a_identities w !! (im_channel msg, im_platform_handle msg) = Some uid ∧
     a_users w !! uid = Some u ∧ us_status u = "active" ∧
     parse_approval_command (im_text msg) = None ∧ same_state w w1 ∧
     let session := session_id (im_correlation msg) (im_channel msg) in
     (s', w') = turn ("user:" +:+ us_username u) session (im_text msg) s
       (set_turns (a_turns w1 ++ [("user:" +:+ us_username u, session, im_text msg)]) w1)) ∨
  a_turns w' = a_turns w ∧
  ∀ id, g_table (a_guard w') !! id ≠ g_table (a_guard w) !! id →
  ∃ uid u approved row now,
    a_identities w !! (im_channel msg, im_platform_handle msg) = Some uid ∧
    a_users w !! uid = Some u ∧ us_status u = "active" ∧
    ("approver" ∈ us_roles u ∨ "admin" ∈ us_roles u) ∧ asks w msg approved id ∧
    g_table (a_guard w) !! id = Some row ∧ row_status row = "pending" ∧
    g_table (a_guard w') !! id
      = Some (row_decide (if approved then Approved else Denied) uid now row).
Proof.
  intros Hh Hsched.
  destruct (handle_effect _ _ _ _ _ _ _ Hh) as [(_ & _ & _ & Hg & _ & Ht)|(uid & u & Hb & Hcase)].
  { right. split; [done|]. intros id Hne. by rewrite Hg in Hne. }
  unfold bound_active in Hb. apply bind_Some in Hb as (uid' & Hid & Hb).
  apply bind_Some in Hb as (u' & Hu & Hb). destruct (string_eqb _ _) eqn:Hst; simplify_eq.
  apply string_eqb_eq in Hst.
  destruct Hcase as [(w1 & Hs & Hcmd & Ht)|(approved & id' & w1 & Hs & Hask & Hrole & ->)].
  { left. by exists uid, u, w1. }
  right. split; [apply Hs|]. intros id Hne.
  destruct (decide_approval_effect id' uid (if approved then Approved else Denied) (a_guard w) id
    Hsched Hne) as (-> & row & now & Hrow & Hp & Hrow').
  exists uid, u, approved, row, now. done.
Qed.

(** A handle that is not bound to an active user gets a refusal: no decision, no
    chat turn. *)
Lemma unenrolled_refused turn ga msg s w :
  bound_active w (im_channel msg) (im_platform_handle msg) = None →
  same_state w (handle turn ga msg s w).2.
Proof.
  intros Hb. destruct (handle turn ga msg s w) as [s' w'] eqn:Hh.
  destruct (handle_effect _ _ _ _ _ _ _ Hh) as [?|(uid & u & Hb' & _)]; [done|congruence].
Qed.

(** Reply correlation ignores the conversation: whichever chat the reply comes
    from, it decides the approval of the newest alert on that channel whose
    message has the number replied to. *)
Lemma reply_ignores_chat m1 m2 w :
  im_channel m1 = im_channel m2 → im_text m1 = im_text m2 →
  im_reply_to_message_id m1 = im_reply_to_message_id m2 →
  reply_decision m1 w = reply_decision m2 w.
Proof. unfold reply_decision. by intros -> -> ->. Qed.
End Channels.

(** ** Alert routing ([alert_router.rs]) *)

(** serde's decoder of [AnomalyDetected] ([daimon-observer/src/event.rs]) and the
    [Display] of a float. The anomaly id has no default: an object without it is
    not an anomaly. *)
Class Anomalies := {
  f64 : Type;
  show_f64 : f64 → string;
  AnomalyDetected : Type;
  an_anomaly_id : AnomalyDetected → Uuid;
  an_source_id : AnomalyDetected → string;
  an_severity : AnomalyDetected → string;
  an_title : AnomalyDetected → string;
  an_metric_name : AnomalyDetected → string;
  an_metric_value : AnomalyDetected → f64;
  an_threshold : AnomalyDetected → f64;
  an_target_ref : AnomalyDetected → option string;
  decode_anomaly : json → option AnomalyDetected;
  decode_anomaly_object l : assoc "anomaly_id" l = None → decode_anomaly (JObject l) = None;
}.

Definition DEDUP_TTL : Z := 300000.

Record Alert := mkAlert {
  al_class : string;
  al_severity : string;
  al_signature : string;
  al_body : AlertBody;
}.

Section Router.
Context `{SemVer} `{Anomalies}.

Definition nl : string := String "010"%char EmptyString.

(** The body of an approval alert. *)
Definition approval_text (capability target actor approval_id : string) : string :=
  capability +:+ " on " +:+ target +:+ " (requested by " +:+ actor +:+ ")" +:+ nl +:+
  "Reply `approve " +:+ approval_id +:+ "` or `deny " +:+ approval_id +:+ "` to decide.".

(** [classify_approval]. *)
Definition classify_approval (env : AgentEnvelope) : option Alert :=
  match env_body env with
  | JObject obj =>
      if bool_decide ((assoc "kind" obj ≫= as_str) = Some "awaiting_approval") then
        approval_id ← assoc "approval_id" obj ≫= as_str;
        let capability := default "?" (assoc "capability" obj ≫= as_str) in
        let target := default "-" (assoc "target_ref" obj ≫= as_str) in
        let actor := default "?" (assoc "actor" obj ≫= as_str) in
        Some (mkAlert "approval" "default" approval_id
          (mkAlertBody "🔐 approval required"
             (approval_text capability target actor approval_id)))
      else None
  | _ => None
  end.

(** [classify]. *)
Definition classify (env : AgentEnvelope) : option Alert :=
  match decode_anomaly (env_body env) with
  | Some a =>
      Some (mkAlert "anomaly" (an_severity a) (an_anomaly_id a)
        (mkAlertBody ("⚠ anomaly · " +:+ an_severity a)
           (an_title a +:+ nl +:+ "metric " +:+ an_metric_name a +:+ " = " +:+
            show_f64 (an_metric_value a) +:+ " (threshold " +:+ show_f64 (an_threshold a) +:+
            ")" +:+ nl +:+ "target " +:+ default (an_source_id a) (an_target_ref a))))
  | None => classify_approval env
  end.

(** [DedupCache::admit] at time [now]. *)
Definition dedup_admit (ttl now : Z) (sig : string) (seen : gmap string Z) : bool * gmap string Z :=
  let g := filter (λ kv, now - kv.2 < ttl) seen in
  match g !! sig with
  | Some t => if now - t <? ttl then (false, g) else (true, <[sig := now]> g)
  | None => (true, <[sig := now]> g)
  end.

(** [opt_string] with no environment fallback: an absent, empty or non-string
    value is unset. *)
Definition opt_string (cfg : gmap string json) (key : string) : option string :=
  s ← cfg !! key ≫= as_str; if string_eqb s "" then None else Some s.

(** [is_enrolled_active]. *)
Definition is_enrolled_active (channel handle : string) : io aworld string bool :=
  adb_call ≫= λ _,
  gets (λ w, match bound_active w channel handle with Some _ => true | None => false end).

(** The loop of [resolve_recipients] over the entries of the rule. *)
Fixpoint enrolled (entries : list string) (w : aworld) : list AlertRecipient * aworld :=
  match entries with
  | [] => ([], w)
  | entry :: entries =>
      match split_once ":"%char entry with
      | None => enrolled entries w
      | Some (channel, handle) =>
          let '(r, w1) := is_enrolled_active (trim channel) (trim handle) w in
          let '(rs, w2) := enrolled entries w1 in
          (match r with
           | Ok true => mkAlertRecipient (trim channel) (trim handle) :: rs
           | _ => rs
           end, w2)
      end
  end.

(** [resolve_recipients]. *)
Definition resolve_recipients (cfg : gmap string json) (class severity : string) (w : aworld) :
    list AlertRecipient * aworld :=
  let raw := match opt_string cfg ("channels.alerts." +:+ class +:+ "." +:+ severity) with
             | Some r => Some r
             | None => opt_string cfg "channels.alerts.default"
             end in
  match raw with
  | None => ([], w)
  | Some raw =>
      enrolled (List.filter (λ e, negb (string_eqb e "")) (map trim (split ","%char raw))) w
  end.

(** An adapter's [deliver_alert]: the provider's message id, or an error. *)
Abbreviation Adapter := (AlertRecipient → AlertBody → result GatewayError (option string)).

(** [record_delivery]: best effort. *)
Definition record_delivery (alert : Alert) (r : AlertRecipient) (status : string)
    (detail message_id : option string) (w : aworld) : aworld :=
  match adb_call w with
  | (Err _, w1) => w1
  | (Ok _, w1) =>
      let severity := if string_eqb (al_severity alert) "default" then None
                      else Some (al_severity alert) in
      set_deliveries (a_deliveries w1 ++
        [mkDelivery (al_class alert) severity (al_signature alert) (rc_channel r) (rc_to r)
           status detail message_id (a_now w1)]) w1
  end.

(** The delivery loop of [route]. *)
Fixpoint deliver_all (gateways : gmap string Adapter) (alert : Alert)
    (rs : list AlertRecipient) (w : aworld) : aworld :=
  match rs with
  | [] => w
  | r :: rs =>
      match gateways !! rc_channel r with
      | None => deliver_all gateways alert rs w
      | Some deliver =>
          let w1 := set_sent (a_sent w ++ [(r, al_body alert)]) w in
          deliver_all gateways alert rs
            (match deliver r (al_body alert) with
             | Ok message_id => record_delivery alert r "delivered" None message_id w1
             | Err e => record_delivery alert r "failed" (Some (show_gateway_error e)) None w1
             end)
      end
  end.

(** [route]. *)
Definition route (cfg : gmap string json) (gateways : gmap string Adapter) (alert : Alert)
    (w : aworld) : aworld :=
  let '(rs, w1) := resolve_recipients cfg (al_class alert) (al_severity alert) w in
  deliver_all gateways alert rs w1.

(** One envelope of the router's loop; the cache is the task's local state. *)
Definition router_step (cfg : gmap string json) (gateways : gmap string Adapter)
    (env : AgentEnvelope) (st : gmap string Z * aworld) : gmap string Z * aworld :=
  match classify env with
  | None => st
  | Some alert =>
      let '(ok, seen) := dedup_admit DEDUP_TTL (a_now st.2) (al_signature alert) st.1 in
      (seen, if ok then route cfg gateways alert st.2 else st.2)
  end.

(** ** Who is notified *)

Lemma is_enrolled_active_ok channel handle w r w1 :
  is_enrolled_active channel handle w = (r, w1) →
  same_state w w1 ∧ (r = Ok true → is_Some (bound_active w channel handle)).
Proof.
  unfold is_enrolled_active, gets, mbind, io_bind. pose proof (adb_call_same w) as Hs.
  destruct (adb_call w) as [[[]|e] w0]; simpl in Hs; intros [= <- <-]; (split; [done|]); [|done].
  destruct Hs as (Hi & Hu & _). unfold bound_active. rewrite Hi, Hu.
  by destruct (_ ≫= _).
Qed.

Lemma bound_active_same w w1 : same_state w w1 → bound_active w1 = bound_active w.
Proof. intros (Hi & Hu & _). unfold bound_active. by rewrite Hi, Hu. Qed.

Lemma enrolled_ok entries w rs w1 :
  enrolled entries w = (rs, w1) →
  same_state w w1 ∧ ∀ r, r ∈ rs → is_Some (bound_active w (rc_channel r) (rc_to r)).
Proof.
  revert w rs w1; induction entries as [|e entries IH]; intros w rs w1; simpl.
  { intros [= <- <-]. split; [done|]. by intros r Hr%not_elem_of_nil. }
  destruct (split_once ":"%char e) as [[channel handle]|]; [|apply IH].
  destruct (is_enrolled_active _ _ w) as [b w2] eqn:Hb.
  destruct (is_enrolled_active_ok _ _ _ _ _ Hb) as [Hs2 Hok].
  destruct (enrolled entries w2) as [rs' w3] eqn:He. destruct (IH _ _ _ He) as [Hs3 Hin].
  rewrite (bound_active_same _ _ Hs2) in Hin. intros [= <- <-].
  split; [by etransitivity|]. destruct b as [[]|]; [|done..].
  intros r [->|Hr]%elem_of_cons; [by apply Hok|by apply Hin].
Qed.

(** Delivering touches the log of deliveries and nothing else of the state. *)
Lemma deliver_all_sent gateways alert rs w :
  let w' := deliver_all gateways alert rs w in
  a_guard w' = a_guard w ∧ a_turns w' = a_turns w ∧
  ∃ sent, a_sent w' = a_sent w ++ map (λ r, (r, al_body alert)) sent ∧
    ∀ r, r ∈ sent ↔ r ∈ rs ∧ is_Some (gateways !! rc_channel r).
Proof.
  assert (∀ r st d m w, let w' := record_delivery alert r st d m w in
    a_guard w' = a_guard w ∧ a_turns w' = a_turns w ∧ a_sent w' = a_sent w) as Hrec.
  { intros r st d m w0. unfold record_delivery. pose proof (adb_call_same w0) as Hs.
    destruct (adb_call w0) as [[[]|e] w1]; unfold same_state in Hs; destruct_and!; done. }
  revert w; induction rs as [|r rs IH]; intros w; simpl.
  { do 2 (split; [done|]). exists []. rewrite app_nil_r. split; [done|]. intros r.
    by split; [intros ?%not_elem_of_nil|intros [?%not_elem_of_nil _]]. }
  destruct (gateways !! rc_channel r) as [deliver|] eqn:Hg; last first.
  { destruct (IH w) as (? & ? & sent & ? & Hsent). do 2 (split; [done|]). exists sent.
    split; [done|]. intros r'. rewrite Hsent, elem_of_cons.
    split; [naive_solver|]. intros [[->|?] [? ?]]; [congruence|naive_solver]. }
  match goal with |- context [deliver_all gateways alert rs ?w1] => set (w2 := w1) end.
  assert (a_guard w2 = a_guard w ∧ a_turns w2 = a_turns w ∧
    a_sent w2 = a_sent w ++ [(r, al_body alert)]) as (Hg2 & Ht2 & Hs2).
  { unfold w2. destruct (deliver r (al_body alert)); by edestruct Hrec as (-> & -> & ->). }
  destruct (IH w2) as (-> & -> & sent & -> & Hsent). do 2 (split; [done|]).
  exists (r :: sent). rewrite Hs2, <- app_assoc. split; [done|]. intros r'.
  rewrite !elem_of_cons, Hsent. split; [|naive_solver]. intros [->|?]; naive_solver.
Qed.

(** Alerts only go to enrolled people. Whatever envelope the router sees,
    every alert it sends goes to a handle that is bound to an active user, over
    a channel that is enabled; and routing never changes the approval inbox or
    starts a chat turn. *)
Theorem alert_recipients_enrolled cfg gateways env seen w seen' w' :
  router_step cfg gateways env (seen, w) = (seen', w') →
  a_guard w' = a_guard w ∧ a_turns w' = a_turns w ∧
  ∃ sent, a_sent w' = a_sent w ++ sent ∧
    ∀ r body, (r, body) ∈ sent →
      is_Some (gateways !! rc_channel r) ∧
      ∃ uid u, a_identities w !! (rc_channel r, rc_to r) = Some uid ∧
        a_users w !! uid = Some u ∧ us_status u = "active".
Proof.
  assert (∃ sent, a_sent w = a_sent w ++ sent ∧ ∀ r body, (r, body) ∈ sent →
      is_Some (gateways !! rc_channel r) ∧ ∃ uid u,
        a_identities w !! (rc_channel r, rc_to r) = Some uid ∧ a_users w !! uid = Some u ∧
        us_status u = "active") as Hnone.
  { exists []. rewrite app_nil_r. split; [done|]. by intros r body ?%not_elem_of_nil. }
  unfold router_step. destruct (classify env) as [alert|]; [|by intros [= _ <-]]. simpl.
  destruct (dedup_admit _ _ _ _) as [[] seen1]; [|by intros [= _ <-]]. intros [= _ <-].
  unfold route, resolve_recipients.
  destruct (match match opt_string _ _ with Some _ => _ | None => _ end with Some _ => _ | None => _ end)
    as [rs w1] eqn:Hrs.
  assert (same_state w w1 ∧ ∀ r, r ∈ rs → is_Some (bound_active w (rc_channel r) (rc_to r)))
    as [Hs Hin].
  { revert Hrs. destruct (match opt_string _ _ with Some _ => _ | None => _ end); [apply enrolled_ok|].
    intros [= <- <-]. split; [done|]. by intros r ?%not_elem_of_nil. }
  destruct (deliver_all_sent gateways alert rs w1) as (-> & -> & sent & -> & Hsent).
  destruct Hs as (_ & _ & _ & -> & -> & ->). do 2 (split; [done|]).
  eexists. split; [done|]. intros r body Hr. apply list_elem_of_fmap in Hr as (r' & [= -> ->] & Hr).
  apply Hsent in Hr as [Hr Hg]. split; [done|]. destruct (Hin r' Hr) as [[uid u] Hb].
  unfold bound_active in Hb. apply bind_Some in Hb as (uid' & Hid & Hb).
  apply bind_Some in Hb as (u' & Hu & Hb). destruct (string_eqb _ _) eqn:Hst; simplify_eq.
  apply string_eqb_eq in Hst. by exists uid, u.
Qed.

(** ** At most one alert per window *)

(** The answers of the cache to a series of events. *)
Fixpoint admits (ttl : Z) (seen : gmap string Z) (evs : list (Z * string)) : list bool :=
  match evs with
  | [] => []
  | (now, sig) :: evs => let '(ok, seen) := dedup_admit ttl now sig seen in ok :: admits ttl seen evs
  end.

Lemma admit_remembers ttl now sig sig' t seen :
  seen !! sig = Some t → now - t < ttl →
  (dedup_admit ttl now sig' seen).2 !! sig = Some t ∧ (sig' = sig → (dedup_admit ttl now sig' seen).1 = false).
Proof.
  intros Hs Ht. unfold dedup_admit.
  assert (filter (λ kv : string * Z, now - kv.2 < ttl) seen !! sig = Some t) as Hf
    by (by apply map_lookup_filter_Some).
  destruct (decide (sig' = sig)) as [->|Hne].
  - rewrite Hf, (proj2 (Z.ltb_lt (now - t) ttl) Ht). done.
  - split; [|done]. destruct (_ !! sig') as [t'|]; [destruct (now - t' <? ttl)|]; simpl;
      rewrite ?lookup_insert_ne by done; done.
Qed.

Lemma admits_apart ttl seen evs sig t0 j t2 :
  seen !! sig = Some t0 → StronglySorted Z.le (map fst evs) →
  evs !! j = Some (t2, sig) → admits ttl seen evs !! j = Some true → ttl ≤ t2 - t0.
Proof.
  revert seen j; induction evs as [|[now sig'] evs IH]; intros seen j Hs Hsort Hj Ha; [done|].
  simpl in Hsort. inversion_clear Hsort as [|? ? Hsort' Hall].
  destruct (decide (now - t0 < ttl)) as [Hw|Hw].
  - destruct (admit_remembers ttl now sig sig' t0 seen Hs Hw) as [Hkeep Hno].
    simpl in Ha. destruct (dedup_admit ttl now sig' seen) as [b seen1]. simpl in Hkeep, Hno.
    destruct j as [|j]; simplify_eq/=; [by specialize (Hno eq_refl)|].
    by apply (IH seen1 j).
  - destruct j as [|j]; simplify_eq/=; [lia|].
    assert (now ≤ t2); [|lia]. rewrite Forall_forall in Hall. apply Hall.
    apply list_elem_of_fmap. exists (t2, sig). split; [done|]. by eapply list_elem_of_lookup_2.
Qed.

(** Two alerts with the same signature are at least the window apart, however
    many other events come in between. *)
Lemma dedup_window ttl seen evs sig i j t1 t2 :
  StronglySorted Z.le (map fst evs) → (i < j)%nat →
  evs !! i = Some (t1, sig) → evs !! j = Some (t2, sig) →
  admits ttl seen evs !! i = Some true → admits ttl seen evs !! j = Some true →
  ttl ≤ t2 - t1.
Proof.
  revert seen i j; induction evs as [|[now sig'] evs IH]; intros seen i j Hsort Hlt Hi Hj Ha Hb;
    [done|].
  simpl in Hsort, Ha, Hb. inversion_clear Hsort as [|? ? Hsort' _].
  destruct (dedup_admit ttl now sig' seen) as [b seen1] eqn:Had.
  destruct j as [|j]; [lia|]. destruct i as [|i]; simplify_eq/=; last first.
  { apply (IH seen1 i j); [done|lia|done..]. }
  apply (admits_apart ttl seen1 evs sig t1 j t2); [|done..].
  unfold dedup_admit in Had. repeat case_match; simplify_eq; by rewrite lookup_insert_eq.
Qed.
End Router.

(** ** From the guard to the operator and back *)

Section RoundTrip.
Context `{SemVer} `{UuidParse} `{Anomalies}.

Lemma uuid_byte_plain a :
  uuid_byte_ok a = true → is_continuation a = false ∧ is_whitespace (String a EmptyString) = false.
Proof. destruct a as [[] [] [] [] [] [] [] []]; vm_compute; done. Qed.

(** A command typed with an id is understood. *)
Lemma command_understood verb approved id :
  uuid_parse id = Some id →
  Forall (λ a, is_continuation a = false ∧ is_whitespace (String a EmptyString) = false)
    (bytes verb) →
  verb ≠ "" →
  (to_ascii_lowercase verb = "approve" ∧ approved = true ∨
   to_ascii_lowercase verb = "deny" ∧ approved = false) →
  parse_approval_command (verb +:+ " " +:+ id) = Some (approved, id).
Proof.
  intros Hid Hverb Hne Hcase.
  destruct (uuid_parse_display id id Hid) as (_ & Hid0 & Hbytes).
  assert (Forall (λ a, is_continuation a = false ∧ is_whitespace (String a EmptyString) = false)
    (bytes id)) as Hplain by (eapply Forall_impl; [exact Hbytes|apply uuid_byte_plain]).
  assert (∀ s, s ≠ "" → Forall (λ a, is_continuation a = false ∧
      is_whitespace (String a EmptyString) = false) (bytes s) →
    chars s = map (λ a, String a EmptyString) (bytes s) ∧ Forall (λ c, is_whitespace c = false) (chars s))
    as Hchars.
  { intros s _ Hs. assert (chars s = map (λ a, String a EmptyString) (bytes s)) as Hc.
    { apply chars_ascii. eapply Forall_impl; [exact Hs|]. by intros a [? _]. }
    split; [done|]. rewrite Hc. apply Forall_fmap. eapply Forall_impl; [exact Hs|]. by intros a [_ ?]. }
  destruct (Hchars id Hid0 Hplain) as [Hcid Hwid]. destruct (Hchars verb Hne Hverb) as [Hcv Hwv].
  assert (trim id = id) as Htid.
  { apply trim_fix; intros c Hc; eapply (proj1 (Forall_forall _ _) Hwid).
    - destruct (chars id); simplify_eq/=. by left.
    - by apply last_Some_elem_of. }
  assert (chars (verb +:+ " " +:+ id) = chars verb ++ " " :: chars id) as Hsplit.
  { rewrite Hcv, Hcid, chars_ascii; rewrite !bytes_app; [by rewrite !map_app|].
    apply Forall_app. split; [eapply Forall_impl; [exact Hverb|by intros a [? _]]|].
    simpl. constructor; [done|]. eapply Forall_impl; [exact Hplain|by intros a [? _]]. }
  unfold parse_approval_command. rewrite trim_fix.
  - unfold split_once_whitespace. rewrite Hsplit, split_once_chars_app by done.
    rewrite !chars_concat. simpl. rewrite Htid, Hid.
    destruct Hcase as [[-> ->]|[-> ->]]; done.
  - rewrite Hsplit. intros c Hc. destruct (chars verb) as [|c0 l] eqn:Hv.
    { exfalso. apply Hne. by rewrite <- (chars_concat verb), Hv. }
    simplify_eq/=. by inversion_clear Hwv.
  - rewrite Hsplit. intros c Hc. eapply (proj1 (Forall_forall _ _) Hwid).
    assert (chars id ≠ []) as Hnil.
    { intros Hn. apply Hid0. by rewrite <- (chars_concat id), Hn. }
    rewrite last_app, last_cons in Hc.
    destruct (last (chars id)) as [x|] eqn:Hl; [|by apply last_None in Hl].
    simplify_eq/=. by apply last_Some_elem_of.
Qed.

Lemma contains_skip x s p : contains s p = true → contains (x +:+ s) p = true.
Proof.
  rewrite !contains_spec. intros (u & v & ->). exists (x +:+ u), v. by rewrite string_app_assoc.
Qed.

Lemma contains_here p s : contains (p +:+ s) p = true.
Proof. apply contains_spec. by exists "", s. Qed.

(** The alert names both commands. *)
Lemma approval_text_commands capability target actor id :
  contains (approval_text capability target actor id) ("`approve " +:+ id +:+ "`") = true ∧
  contains (approval_text capability target actor id) ("`deny " +:+ id +:+ "`") = true.
Proof.
  unfold approval_text. split; do 7 apply contains_skip.
  - change ("Reply `approve " +:+ ?r) with ("Reply " +:+ ("`approve " +:+ r)).
    apply contains_skip.
    change ("` or `deny " +:+ ?r) with ("`" +:+ (" or `deny " +:+ r)).
    rewrite (string_app_assoc id "`"), (string_app_assoc "`approve "). apply contains_here.
  - do 2 apply contains_skip.
    change ("` or `deny " +:+ ?r) with ("` or " +:+ ("`deny " +:+ r)). apply contains_skip.
    change ("` to decide.") with ("`" +:+ " to decide.").
    rewrite (string_app_assoc id "`"), (string_app_assoc "`deny "). apply contains_here.
Qed.

(** The approval notification round-trips. The envelope the guard publishes
    for a parked write is classified as an approval alert for exactly that
    inbox row; the message tells the operator what to type; and typing it is
    understood as that decision on that row. *)
Theorem approval_alert_roundtrip corr now id capability target actor env :
  awaiting_approval_envelope corr now id capability target actor = Some env →
  uuid_parse id = Some id →
  ∃ alert, classify env = Some alert ∧ al_class alert = "approval" ∧ al_signature alert = id ∧
    contains (ab_body (al_body alert)) ("`approve " +:+ id +:+ "`") = true ∧
    contains (ab_body (al_body alert)) ("`deny " +:+ id +:+ "`") = true ∧
    parse_approval_command ("approve " +:+ id) = Some (true, id) ∧
    parse_approval_command ("deny " +:+ id) = Some (false, id).
Proof.
  unfold awaiting_approval_envelope. destruct (ok (req_parse "^1")) as [req|]; [|done].
  intros Henv Hid. injection Henv as <-.
  unfold classify, classify_approval, envelope_new, jobj. cbn [env_body].
  rewrite decode_anomaly_object by reflexivity. simpl.
  eexists. split; [done|]. do 2 (split; [done|]). cbn [al_body ab_body].
  match goal with |- context [approval_text ?c ?t ?a ?i] =>
    destruct (approval_text_commands c t a i) as [Ha Hd] end.
  split; [exact Ha|]. split; [exact Hd|]. split.
  - apply (command_understood "approve"); [done| |done|by left].
    by repeat constructor.
  - apply (command_understood "deny"); [done| |done|by right].
    by repeat constructor.
Qed.
End RoundTrip.

(** ** Witnesses *)

Module ChannelsDemo.
Import DemoSemVer.

(** Ids are non-empty texts of hexadecimal digits and hyphens. *)
#[export] Program Instance demo_uuid : UuidParse := {|
  uuid_parse s := if negb (string_eqb s "") && forallb uuid_byte_ok (bytes s) then Some s else None
|}.
Next Obligation.
  intros s u Hs. cbv beta in *. destruct (_ && _) eqn:Hok; simplify_eq. rewrite Hok.
  apply andb_true_iff in Hok as [Hne Hall]. split; [done|]. split.
  - intros ->. done.
  - apply Forall_forall. by apply forallb_elem.
Qed.

(** Anomalies with an id, a title and a severity; numbers are their JSON
    texts. *)
#[export] Program Instance demo_anomalies : Anomalies := {|
  f64 := string; show_f64 := id;
  AnomalyDetected := string * string * string;
  an_anomaly_id a := a.1.1; an_source_id _ := "default"; an_severity a := a.2;
  an_title a := a.1.2; an_metric_name _ := "cpu"; an_metric_value _ := "95";
  an_threshold _ := "90"; an_target_ref _ := None;
  decode_anomaly j := aid ← jget j "anomaly_id" ≫= as_str;
                      title ← jget j "title" ≫= as_str;
                      sev ← jget j "severity" ≫= as_str;
                      Some (aid, title, sev)
|}.
Next Obligation. intros l Hl. cbv beta. unfold jget. by rewrite Hl. Qed.

Definition row : ApprovalRow :=
  mkRow "user:bob" "network.firewall.rule.add" (Some "target://r1") (JObject []) "pending" 0
    None None.

(** Two parked writes [a1] and [b2]; the alert for [a1] went to Ann's chat and the
    one for [b2] to another chat, as messages with the same number. *)
Definition world : aworld :=
  mkAworld (<[("telegram", "77") := "0a"]> ∅)
    (<["0a" := mkUser "ann" "active" ["approver"]]> ∅)
    [mkDelivery "approval" None "a1" "telegram" "77" "delivered" None (Some "42") 1;
     mkDelivery "approval" None "b2" "telegram" "99" "delivered" None (Some "42") 2]
    [] 10 (guard_new kill_new (<["a1" := row]> (<["b2" := row]> ∅)) 0 [] GuardDemo.ids []) [] [].

(** Ann, in her own chat, answers the message numbered 42. *)
Definition answer : InboundMessage :=
  mkInbound "telegram" "77" "approve" (mkCorrelation (Some "77") "77") (Some "42") 11.

Definition command : InboundMessage :=
  mkInbound "telegram" "77" "/APPROVE a1" (mkCorrelation (Some "77") "77") None 11.

(** A turn that parks a write of its own. *)
Definition parking_turn (actor _session _text : string) (s : BufferSink) (w : aworld) :
    BufferSink * aworld :=
  (finish s, set_aguard (enqueue actor "network.firewall.rule.add" None (JObject []) (a_guard w)).2 w).

Definition hello : InboundMessage :=
  mkInbound "telegram" "77" "block port 22" (mkCorrelation (Some "77") "77") None 11.

Definition status (id : Uuid) (r : BufferSink * aworld) : option string :=
  row_status <$> g_table (a_guard r.2) !! id.

Definition gateways : gmap string (AlertRecipient → AlertBody → result GatewayError (option string)) :=
  <["telegram" := λ _ _, Ok (Some "43")]> ∅.
Definition cfg : gmap string json :=
  <["channels.alerts.default" := JString "telegram: 77, telegram:99"]> ∅.
Definition parked : AgentEnvelope :=
  default (envelope_new "" 0 "" (Direct "") JNull)
    (awaiting_approval_envelope "c" 0 "a1" "network.firewall.rule.add" None "user:bob").
End ChannelsDemo.
Import DemoSemVer ChannelsDemo.

Lemma chat_decision_authorized_witness :
  ∃ u, a_users world !! "0a" = Some u ∧ ("approver" ∈ us_roles u ∨ "admin" ∈ us_roles u) ∧
    status "a1" (handle parking_turn true command sink_new world) = Some "approved".
Proof.
  destruct (chat_decision_authorized parking_turn true command sink_new world
    (handle parking_turn true command sink_new world).1
    (handle parking_turn true command sink_new world).2)
    as [(uid & u & w1 & _ & _ & _ & Hc & _)|[_ Hall]].
  - exact (surjective_pairing (handle parking_turn true command sink_new world)).
  - reflexivity.
  - assert (parse_approval_command (im_text command) = Some (true, "a1")) as Hc'
      by (vm_compute; reflexivity). rewrite Hc' in Hc. discriminate Hc.
  - destruct (Hall "a1") as (uid & u & approved & r & now & Hid & Hu & _ & Hrole & _).
    { assert (status "a1" (handle parking_turn true command sink_new world) = Some "approved") as Hs
        by (vm_compute; reflexivity).
      unfold status in Hs. intros Heq. rewrite Heq in Hs. discriminate Hs. }
    assert (a_identities world !! ("telegram", "77") = Some "0a") as Hid'
      by (vm_compute; reflexivity).
    change (a_identities world !! ("telegram", "77") = Some uid) in Hid.
    rewrite Hid' in Hid. injection Hid as <-.
    exists u. split; [exact Hu|]. split; [exact Hrole|]. vm_compute. reflexivity.
Defined.

(** An ordinary message starts a turn, and the turn may park a write. *)
Example hello_parks :
  size (g_table (a_guard (handle parking_turn true hello sink_new world).2)) = 3%nat.
Proof. vm_compute. reflexivity. Qed.

(** Ann approves the write she did not see: her reply is correlated with the
    newest alert of that number on the channel, which went to another chat. *)
Lemma reply_decides_another_approval :
  status "a1" (handle parking_turn true answer sink_new world) = Some "pending" ∧
  status "b2" (handle parking_turn true answer sink_new world) = Some "approved".
Proof. vm_compute. done. Qed.

Lemma alert_recipients_enrolled_witness :
  map fst (a_sent (router_step cfg gateways parked (∅, world)).2)
    = [mkAlertRecipient "telegram" "77"] ∧
  ∃ sent, a_sent (router_step cfg gateways parked (∅, world)).2 = [] ++ sent.
Proof.
  split; [vm_compute; reflexivity|].
  destruct (alert_recipients_enrolled cfg gateways parked ∅ world
    (router_step cfg gateways parked (∅, world)).1
    (router_step cfg gateways parked (∅, world)).2) as (_ & _ & sent & Hs & _).
  - exact (surjective_pairing (router_step cfg gateways parked (∅, world))).
  - exists sent. exact Hs.
Defined.

Lemma approval_alert_roundtrip_witness :
  parse_approval_command "approve a1" = Some (true, "a1").
Proof.
  destruct (approval_alert_roundtrip "c" 0 "a1" "network.firewall.rule.add" None "user:bob" parked)
    as (alert & _ & _ & _ & _ & _ & Hp & _); [reflexivity|reflexivity|exact Hp].
Defined.
