(* ===== verification/Inventory.v ===== *)
(** * References, inventory, vault and transport contracts

    [daimon-inventory/src] (target references, targets, the in-memory
    registry), [daimon-vault/src] (credential references, credentials, the
    client contract and its stub), [daimon-transport/src] (operations, results
    and the transport contract). The [Inventory], [VaultClient] and [Transport]
    traits are type classes or records of operations over a state of their
    own; the broker is verified against them. *)

From S2P Require Import Prelude RustStd Json.
From Stdlib Require Import ZArith Ascii.

(** ** Target references ([daimon-inventory/src/refspec.rs]) *)

Inductive TargetRefParseError := TMissingScheme | TEmptyName | TInvalidShape.

Record TargetRef := mkTargetRef { target_name : string }.

#[export] Instance TargetRef_eq_dec : EqDecision TargetRef.
Proof. solve_decision. Defined.

(** [TargetRef::parse]. *)
Definition target_parse (s : string) : result TargetRefParseError TargetRef :=
  match strip_prefix "target://" s with
  | None => Err TMissingScheme
  | Some rest =>
      if string_eqb rest "" then Err TEmptyName
      else if contains_char "/"%char rest then Err TInvalidShape
      else Ok (mkTargetRef rest)
  end.

(** [Display for TargetRef]. *)
Definition target_show (t : TargetRef) : string := "target://" +:+ target_name t.

(** ** Credential references ([daimon-vault/src/refspec.rs]) *)

Inductive CredRefParseError := CMissingScheme | CInvalidShape.

Inductive CredentialRef :=
| Named (name : string)
| Path (organization collection item : string)
| UuidRef (id : string).

#[export] Instance CredentialRef_eq_dec : EqDecision CredentialRef.
Proof. solve_decision. Defined.

(** [looks_like_uuid]: 36 bytes, dashes at 8, 13, 18 and 23, hex elsewhere. *)
Definition uuid_byte (i : nat) (b : ascii) : bool :=
  if existsb (Nat.eqb i) [8; 13; 18; 23] then bool_decide (b = "-"%char)
  else byte_is_hexdigit b.

Definition looks_like_uuid (s : string) : bool :=
  let bs := bytes s in
  (length bs =? 36)%nat && forallb (λ ib, uuid_byte ib.1 ib.2) (imap pair bs).

(** [CredentialRef::parse]. *)
Definition cred_parse (s : string) : result CredRefParseError CredentialRef :=
  match strip_prefix "vault://" s with
  | None => Err CMissingScheme
  | Some rest =>
      match split "/"%char rest with
      | [single] =>
          if string_eqb single "" then Err CInvalidShape
          else if looks_like_uuid single then Ok (UuidRef single)
          else Ok (Named single)
      | [org; coll; item] =>
          if string_eqb org "" || string_eqb coll "" || string_eqb item ""
          then Err CInvalidShape
          else Ok (Path org coll item)
      | _ => Err CInvalidShape
      end
  end.

(** [CredentialRef::name]. *)
Definition cred_name (c : CredentialRef) : option string :=
  match c with
  | Named n => Some n
  | Path _ _ item => Some item
  | UuidRef _ => None
  end.

(** [Display for CredentialRef]. *)
Definition cred_show (c : CredentialRef) : string :=
  match c with
  | Named n => "vault://" +:+ n
  | Path o c i => "vault://" +:+ o +:+ "/" +:+ c +:+ "/" +:+ i
  | UuidRef i => "vault://" +:+ i
  end.

(** [Display for RefParseError]. *)
Definition show_cred_ref_error (e : CredRefParseError) : string :=
  match e with
  | CMissingScheme => "credential ref must begin with `vault://`"
  | CInvalidShape =>
      "vault:// ref must be `vault://<name>`, `vault://<uuid>`, or `vault://<org>/<collection>/<item>`"
  end.

(** ** Credentials ([daimon-vault/src/credential.rs]) *)

Inductive Credential :=
| SshKey (username private_key_pem : string) (passphrase : option string)
| SshPassword (username password : string)
| ApiToken (token : string)
| Generic (fields : gmap string string).

Inductive CredentialKind := KSshKey | KSshPassword | KApiToken | KGeneric.

(** [Credential::kind]. *)
Definition cred_kind (c : Credential) : CredentialKind :=
  match c with
  | SshKey _ _ _ => KSshKey
  | SshPassword _ _ => KSshPassword
  | ApiToken _ => KApiToken
  | Generic _ => KGeneric
  end.

(** [Debug for Credential]: the struct name and the printed fields; the
    formatter's punctuation around them is not modelled. *)
Definition cred_debug (c : Credential) : string * list (string * string) :=
  match c with
  | SshKey u _ _ =>
      ("SshKey", [("username", u); ("private_key_pem", "<redacted>");
                  ("passphrase", "<redacted>")])
  | SshPassword u _ => ("SshPassword", [("username", u); ("password", "<redacted>")])
  | ApiToken _ => ("ApiToken", [("token", "<redacted>")])
  | Generic fields =>
      ("Generic", map (λ kv, (kv.1, "<redacted>")) (btree_iter fields))
  end.

(** ** The vault contract ([daimon-vault/src/client.rs]) *)

Inductive VaultError :=
| VNotFound (r : string)
| VSessionLocked
| VTransport (msg : string)
| VDecode (msg : string)
| VOther (msg : string).

Definition show_vault_error (e : VaultError) : string :=
  match e with
  | VNotFound r => "credential ref `" +:+ r +:+ "` not found"
  | VSessionLocked => "vault session is locked or expired"
  | VTransport m => "vault transport error: " +:+ m
  | VDecode m => "vault response decode error: " +:+ m
  | VOther m => m
  end.

(** [trait VaultClient], over the client's own state. *)
Class VaultClient (V : Type) := {
  vault_resolve : CredentialRef → io V VaultError Credential;
}.

(** [StubVaultClient]. *)
Record StubVault := mkStubVault { stub_creds : gmap string Credential }.

Definition stub_vault_insert (vref : CredentialRef) (cred : Credential) (v : StubVault) :
    StubVault :=
  mkStubVault (<[cred_show vref := cred]> (stub_creds v)).

Definition stub_vault_resolve (vref : CredentialRef) : io StubVault VaultError Credential :=
  λ v, (ok_or (stub_creds v !! cred_show vref) (VNotFound (cred_show vref)), v).

#[export] Instance stub_vault_client : VaultClient StubVault := {|
  vault_resolve := stub_vault_resolve
|}.

(** ** Managed targets ([daimon-inventory/src/target.rs]) *)

Inductive TargetKind := Platform | Network | Host | App.
Inductive TransportKind := Ssh | Rest | Snmp | Grpc.

#[export] Instance TargetKind_eq_dec : EqDecision TargetKind.
Proof. solve_decision. Defined.
#[export] Instance TransportKind_eq_dec : EqDecision TransportKind.
Proof. solve_decision. Defined.

Record TargetMetadata := mkMetadata {
  tm_ref : TargetRef;
  tm_kind : TargetKind;
  tm_transport : TransportKind;
  tm_host : string;
  tm_port : Z;
  tm_labels : gmap string string;
  tm_capabilities : list string;
}.

Record ManagedTarget := mkManaged {
  mt_ref : TargetRef;
  mt_kind : TargetKind;
  mt_transport : TransportKind;
  mt_host : string;
  mt_port : Z;
  mt_credential_ref : string;
  mt_labels : gmap string string;
  mt_capabilities : list string;
}.

(** [ManagedTarget::metadata]. *)
Definition metadata (t : ManagedTarget) : TargetMetadata :=
  {| tm_ref := mt_ref t; tm_kind := mt_kind t; tm_transport := mt_transport t;
     tm_host := mt_host t; tm_port := mt_port t; tm_labels := mt_labels t;
     tm_capabilities := mt_capabilities t |}.

(** ** The inventory contract ([daimon-inventory/src/registry.rs]) *)

Inductive InventoryError := INotFound (r : string) | IOther (msg : string).

Definition show_inventory_error (e : InventoryError) : string :=
  match e with
  | INotFound r => "target `" +:+ r +:+ "` not found in inventory"
  | IOther m => m
  end.

(** [trait Inventory], over the registry's own state. *)
Class Inventory (S : Type) := {
  get_metadata : TargetRef → io S InventoryError TargetMetadata;
  get_managed : TargetRef → io S InventoryError ManagedTarget;
  inv_list : option TargetKind → S → list TargetMetadata;
  inv_upsert : ManagedTarget → io S InventoryError unit;
  inv_remove : TargetRef → io S InventoryError unit;
}.

(** A target whose reference is one [TargetRef::parse] can return and whose port
    is a [u16]: the values the console and the API can submit. *)
Definition target_wf (t : ManagedTarget) : Prop :=
  target_parse (target_show (mt_ref t)) = Ok (mt_ref t) ∧ (0 ≤ mt_port t < 65536)%Z.

(** What the broker may rely on: lookups do not change the registry, the
    agent-visible view is the metadata of the managed record, and a target that
    was stored is found under its own reference until it is removed. *)
Class InventoryLaws (S : Type) `{Inventory S} := {
  get_managed_state : ∀ r s, (get_managed r s).2 = s;
  get_metadata_view : ∀ r s, get_metadata r s =
    (metadata <$> (get_managed r s).1, s);
  get_after_upsert : ∀ t s s', target_wf t → inv_upsert t s = (Ok tt, s') →
    (get_managed (mt_ref t) s').1 = Ok t ∧
    ∀ r, r ≠ mt_ref t → (get_managed r s').1 = (get_managed r s).1;
  get_after_remove : ∀ r s s', inv_remove r s = (Ok tt, s') →
    is_ok (get_managed r s').1 = false ∧
    ∀ r', r' ≠ r → (get_managed r' s').1 = (get_managed r' s).1;
}.

(** ** The in-memory registry *)

(** [InMemoryRegistry]; the key is the reference's only field. *)
Record InMemoryRegistry := mkRegistry { reg_map : gmap string ManagedTarget }.

Definition registry_new : InMemoryRegistry := mkRegistry ∅.

Section Registry.
Context `{HashOrder ManagedTarget}.

Definition reg_lookup (r : TargetRef) (s : InMemoryRegistry) :
    result InventoryError ManagedTarget :=
  ok_or (reg_map s !! target_name r) (INotFound (target_show r)).

Definition reg_get_metadata (r : TargetRef) : io InMemoryRegistry InventoryError TargetMetadata :=
  λ s, (ok_or (metadata <$> reg_map s !! target_name r) (INotFound (target_show r)), s).

Definition reg_get_managed (r : TargetRef) : io InMemoryRegistry InventoryError ManagedTarget :=
  λ s, (reg_lookup r s, s).

Definition reg_list (kind_filter : option TargetKind) (s : InMemoryRegistry) :
    list TargetMetadata :=
  map metadata
    (List.filter (λ t, match kind_filter with
                       | None => true
                       | Some k => bool_decide (mt_kind t = k)
                       end) (hash_values (reg_map s))).

Definition reg_upsert (t : ManagedTarget) : io InMemoryRegistry InventoryError unit :=
  λ s, (Ok tt, mkRegistry (<[target_name (mt_ref t) := t]> (reg_map s))).

Definition reg_remove (r : TargetRef) : io InMemoryRegistry InventoryError unit :=
  λ s, (ok_or ((λ _, tt) <$> reg_map s !! target_name r) (INotFound (target_show r)),
        mkRegistry (delete (target_name r) (reg_map s))).

#[export] Instance registry_inventory : Inventory InMemoryRegistry := {|
  get_metadata := reg_get_metadata; get_managed := reg_get_managed;
  inv_list := reg_list; inv_upsert := reg_upsert; inv_remove := reg_remove;
|}.

#[export] Instance registry_laws : InventoryLaws InMemoryRegistry.
Proof.
  assert (∀ r r' : TargetRef, r ≠ r' → target_name r ≠ target_name r') as Hname.
  { intros [n] [n'] Hne Heq. simpl in Heq. congruence. }
  split; simpl.
  - done.
  - intros r s. unfold reg_get_metadata, reg_lookup. simpl.
    by destruct (reg_map s !! target_name r).
  - intros t s s' _ [= <-]. unfold reg_lookup. simpl. rewrite lookup_insert_eq.
    split; [done|]. intros r Hr. by rewrite lookup_insert_ne by auto.
  - unfold reg_remove, reg_lookup. intros r s s'.
    destruct (reg_map s !! target_name r); intros; simplify_eq/=.
    rewrite lookup_delete_eq. split; [done|].
    intros r' Hr. by rewrite lookup_delete_ne by auto.
Qed.
End Registry.

(** ** Transport operations ([daimon-transport/src/op.rs]) *)

Inductive HttpMethod := Get | Post | Put | Patch | Delete.

Inductive SnmpValue :=
| SInt (z : Z)
| SUInt (z : Z)
| SString (s : string)
| SOid (s : string).

Inductive AuthScheme :=
| Bearer
| Header (header value : string)
| NoAuth.

Inductive Op :=
| ShellCommand (command : string) (timeout_secs : Z)
| Http (method : HttpMethod) (path : string) (headers : gmap string string)
    (body : option json) (auth : AuthScheme)
| SnmpGet (oid : string)
| SnmpSet (oid : string) (value : SnmpValue)
| SnmpWalk (oid_root : string).

Inductive OpResult :=
| RShell (stdout stderr : string) (exit_status : Z)
| RHttp (status : Z) (body : json) (headers : gmap string string)
| RSnmp (values : gmap string SnmpValue)
| RSnmpSetAck
| RStructured (doc : json).

Inductive TransportError :=
| TNotImplemented (kind : string)
| TAuth (msg : string)
| TConnect (msg : string)
| TTimeout (secs : Z)
| TIo (msg : string)
| TOpMismatch (op transport : string)
| TOther (msg : string).

Definition show_transport_error (e : TransportError) : string :=
  match e with
  | TNotImplemented k => "transport `" +:+ k +:+ "` not implemented yet"
  | TAuth m => "authentication failed: " +:+ m
  | TConnect m => "connection failed: " +:+ m
  | TTimeout s => "operation timed out after " +:+ show_Z s +:+ "s"
  | TIo m => "transport I/O: " +:+ m
  | TOpMismatch o t =>
      "op/transport mismatch: cannot run `" +:+ o +:+ "` over `" +:+ t +:+ "`"
  | TOther m => m
  end.

(** [TransportTarget]. *)
Record TransportTarget := mkTransportTarget { tt_host : string; tt_port : Z }.

(** [trait Transport], over the state of the devices it reaches. *)
Record Transport (D : Type) := mkTransport {
  tr_id : string;
  tr_execute : TransportTarget → Op → Credential → io D TransportError OpResult;
}.
Arguments mkTransport {D} _ _.
Arguments tr_id {D} _.
Arguments tr_execute {D} _ _ _ _.

(** [StubTransport]: it records the call and returns a canned result. *)
Record StubRecord := mkStubRecord {
  sr_host : string;
  sr_port : Z;
  sr_op : Op;
  sr_credential_kind : CredentialKind;
  sr_secret_byte_count : nat;
}.

Definition secret_byte_count (c : Credential) : nat :=
  match c with
  | SshKey _ pem pass =>
      length (bytes pem) + match pass with Some p => length (bytes p) | None => 0 end
  | SshPassword _ p => length (bytes p)
  | ApiToken t => length (bytes t)
  | Generic fields => sum_list (map (λ kv, length (bytes kv.2)) (btree_iter fields))
  end.

Definition stub_result (op : Op) : OpResult :=
  match op with
  | ShellCommand c _ => RShell ("[stub] ran: " +:+ c) "" 0
  | Http _ _ _ _ _ => RHttp 200 (jobj [("stub", JBool true)]) ∅
  | SnmpGet _ | SnmpWalk _ => RSnmp ∅
  | SnmpSet _ _ => RSnmpSetAck
  end.

Definition stub_execute (t : TransportTarget) (op : Op) (c : Credential) :
    io (list StubRecord) TransportError OpResult :=
  λ d, (Ok (stub_result op),
        d ++ [mkStubRecord (tt_host t) (tt_port t) op (cred_kind c) (secret_byte_count c)]).

Definition stub_transport (id : string) : Transport (list StubRecord) :=
  mkTransport id stub_execute.

(** ** Properties *)

(** Target references round-trip. Parsing succeeds exactly on
    [target://name] with a non-empty, slash-free name, and printing the result
    gives back the text. *)
Theorem target_ref_roundtrip s t :
  target_parse s = Ok t ↔
  s = target_show t ∧ target_name t ≠ "" ∧ "/"%char ∉ bytes (target_name t).
Proof.
  unfold target_parse, target_show. split.
  - destruct (strip_prefix "target://" s) as [rest|] eqn:Hp; [|done].
    apply strip_prefix_Some in Hp as ->. unfold contains_char.
    destruct (string_eqb rest "") eqn:He; [done|]. apply string_eqb_neq in He.
    case_bool_decide; [done|]. by intros [= <-].
  - intros (-> & Hne & Hs). rewrite strip_prefix_app. unfold contains_char.
    apply string_eqb_neq in Hne. rewrite Hne, bool_decide_eq_false_2 by done.
    by destruct t.
Qed.

(** The references [CredentialRef::parse] can return. *)
Definition cred_wf (c : CredentialRef) : Prop :=
  match c with
  | Named n => n ≠ "" ∧ ("/"%char ∉ bytes n) ∧ looks_like_uuid n = false
  | Path o c i =>
      (o ≠ "" ∧ "/"%char ∉ bytes o) ∧ (c ≠ "" ∧ "/"%char ∉ bytes c) ∧
      (i ≠ "" ∧ "/"%char ∉ bytes i)
  | UuidRef i => looks_like_uuid i = true
  end.

Lemma uuid_no_slash s : looks_like_uuid s = true → s ≠ "" ∧ "/"%char ∉ bytes s.
Proof.
  unfold looks_like_uuid. rewrite andb_true_iff. intros [Hl Hb]. split.
  { by intros ->. }
  intros [i Hi]%list_elem_of_lookup_1. rewrite forallb_elem in Hb.
  assert ((i, "/"%char) ∈ imap pair (bytes s)) as Hin%Hb.
  { apply list_elem_of_lookup. exists i. by rewrite list_lookup_imap, Hi. }
  unfold uuid_byte in Hin. simpl in Hin. by case_match.
Qed.

Lemma cred_parse_single s r :
  r ≠ "" → "/"%char ∉ bytes r → s = "vault://" +:+ r →
  cred_parse s = Ok (if looks_like_uuid r then UuidRef r else Named r).
Proof.
  intros Hne Hs ->. unfold cred_parse. rewrite strip_prefix_app, split_no_sep by done.
  apply string_eqb_neq in Hne. rewrite Hne. by case_match.
Qed.

(** Credential references round-trip: the parser accepts exactly the printed
    form of the references it can return, so a stored reference resolves to the
    credential it was written for and no two references share a text. *)
Theorem cred_ref_roundtrip s c :
  cred_parse s = Ok c ↔ s = cred_show c ∧ cred_wf c.
Proof.
  split.
  - unfold cred_parse. destruct (strip_prefix "vault://" s) as [r|] eqn:Hp; [|done].
    apply strip_prefix_Some in Hp as ->. pose proof (split_pieces "/"%char r) as Hps.
    pose proof (join_split "/"%char r) as Hj.
    destruct (split "/"%char r) as [|x [|y [|z [|u l]]]]; try done.
    + rewrite Forall_singleton in Hps. simpl in Hj. subst x.
      destruct (string_eqb r "") eqn:He; [done|]. apply string_eqb_neq in He.
      destruct (looks_like_uuid r) eqn:Hu; intros [= <-]; simpl; auto.
    + rewrite !Forall_cons in Hps. destruct Hps as (? & ? & ? & _).
      destruct (string_eqb x "" || string_eqb y "" || string_eqb z "") eqn:He; [done|].
      rewrite !orb_false_iff, !string_eqb_neq in He. intros [= <-]. subst r.
      split; [done|]. simpl. by destruct He as [[? ?] ?].
  - intros [-> Hwf]. destruct c as [n|o c i|i]; simpl in Hwf.
    + destruct Hwf as (? & ? & Hu). erewrite cred_parse_single; [|done..].
      by rewrite Hu.
    + destruct Hwf as ((Ho & ?) & (Hc & ?) & (Hi & ?)).
      unfold cred_parse, cred_show. rewrite strip_prefix_app.
      rewrite !string_app_cons. unfold String.app at 2.
      rewrite split_app_sep by done. rewrite split_app_sep by done.
      rewrite split_no_sep by done. apply string_eqb_neq in Ho, Hc, Hi.
      change ("" +:+ i) with i. by rewrite Ho, Hc, Hi.
    + destruct (uuid_no_slash i Hwf). erewrite cred_parse_single; [|done..].
      by rewrite Hwf.
Qed.

(** Credentials that differ only in secret material: key, passphrase,
    password, token, and the values of generic fields. *)
Definition same_public (c1 c2 : Credential) : Prop :=
  match c1, c2 with
  | SshKey u _ _, SshKey u' _ _ => u = u'
  | SshPassword u _, SshPassword u' _ => u = u'
  | ApiToken _, ApiToken _ => True
  | Generic f, Generic f' => (btree_iter f).*1 = (btree_iter f').*1
  | _, _ => False
  end.

(** The debug rendering of a credential reveals nothing secret: two
    credentials that differ only in secret material render identically. *)
Theorem cred_debug_redacts c1 c2 :
  same_public c1 c2 → cred_debug c1 = cred_debug c2 ∧ cred_kind c1 = cred_kind c2.
Proof.
  destruct c1, c2; simpl; try done; [by intros ->|by intros ->|].
  intros Hk. split; [|done]. f_equal.
  assert (∀ l : list (string * string),
    map (λ kv, (kv.1, "<redacted>")) l = map (λ k, (k, "<redacted>")) l.*1) as Hm.
  { induction l as [|x l IH]; [done|]. exact (f_equal (cons _) IH). }
  by rewrite !Hm, Hk.
Qed.

Lemma cred_debug_redacts_witness :
  cred_debug (SshPassword "root" "hunter2") = cred_debug (SshPassword "root" "other").
Proof.
  apply (cred_debug_redacts (SshPassword "root" "hunter2") (SshPassword "root" "other")).
  reflexivity.
Defined.
