(* ===== verification/PgInventory.v ===== *)
(** * The Postgres inventory ([daimon-inventory/src/postgres_registry.rs])

    The production implementation of the [Inventory] trait: one row of
    [inventory.targets] per target, keyed by the printed reference, with labels
    and capabilities as JSON columns. The state holds the table and whether the
    pool and the server answer; the environment changes the latter between
    calls. The file shows that the implementation meets [InventoryLaws] and that,
    while the database answers, it behaves as the in-memory registry. *)

From stdpp Require Import sorting.
From S2P Require Import Prelude RustStd Json Inventory.
From Stdlib Require Import ZArith.

(** ** Columns *)

(** [kind_to_str], [parse_kind], [transport_to_str], [parse_transport]. *)
Definition target_kind_to_str (k : TargetKind) : string :=
  match k with
  | Platform => "platform" | Network => "network" | Host => "host" | App => "app"
  end.

Definition parse_target_kind (s : string) : result InventoryError TargetKind :=
  if string_eqb s "platform" then Ok Platform
  else if string_eqb s "network" then Ok Network
  else if string_eqb s "host" then Ok Host
  else if string_eqb s "app" then Ok App
  else Err (IOther ("unknown kind: " +:+ s)).

Definition transport_to_str (t : TransportKind) : string :=
  match t with
  | Ssh => "ssh" | Rest => "rest" | Snmp => "snmp" | Grpc => "grpc"
  end.

Definition parse_transport (s : string) : result InventoryError TransportKind :=
  if string_eqb s "ssh" then Ok Ssh
  else if string_eqb s "rest" then Ok Rest
  else if string_eqb s "snmp" then Ok Snmp
  else if string_eqb s "grpc" then Ok Grpc
  else Err (IOther ("unknown transport: " +:+ s)).

(** [serde_json::to_value] and [from_value] at [BTreeMap<String, String>] and
    [Vec<String>]. *)
Definition string_map_to_json (m : gmap string string) : json :=
  JObject (prod_map id JString <$> btree_iter m).

Definition string_map_from_json (j : json) : option (gmap string string) :=
  match j with
  | JObject l => list_to_map <$> mapM (λ kv, (pair kv.1) <$> as_str kv.2) l
  | _ => None
  end.

Definition string_list_to_json (l : list string) : json := JArray (JString <$> l).

Definition string_list_from_json (j : json) : option (list string) :=
  match j with JArray l => mapM as_str l | _ => None end.

(** A row of [inventory.targets] (the columns the registry reads). *)
Record target_row := mkTargetRow {
  trow_ref : string;
  trow_kind : string;
  trow_transport : string;
  trow_host : string;
  trow_port : Z;
  trow_credential_ref : string;
  trow_labels : json;
  trow_capabilities : json;
}.

(** The parameters [upsert] binds; [u16 as i32] is exact. *)
Definition target_to_row (t : ManagedTarget) : target_row := {|
  trow_ref := target_show (mt_ref t);
  trow_kind := target_kind_to_str (mt_kind t);
  trow_transport := transport_to_str (mt_transport t);
  trow_host := mt_host t;
  trow_port := mt_port t;
  trow_credential_ref := mt_credential_ref t;
  trow_labels := string_map_to_json (mt_labels t);
  trow_capabilities := string_list_to_json (mt_capabilities t);
|}.

(** [format!("parse ref: {e}")] with [RefParseError]'s messages. *)
Definition show_target_ref_error (e : TargetRefParseError) : string :=
  match e with
  | TMissingScheme => "target ref must begin with `target://`"
  | TEmptyName => "target ref name is empty"
  | TInvalidShape => "target ref must be a single name segment (no slashes)"
  end.

(** [row_to_managed]. *)
Definition row_to_managed (r : target_row) : result InventoryError ManagedTarget :=
  map_err (λ e, IOther ("parse ref: " +:+ show_target_ref_error e))
    (target_parse (trow_ref r)) ≫= λ ref,
  parse_target_kind (trow_kind r) ≫= λ kind,
  parse_transport (trow_transport r) ≫= λ transport,
  let labels := default ∅ (string_map_from_json (trow_labels r)) in
  let capabilities := default [] (string_list_from_json (trow_capabilities r)) in
  if negb ((0 <=? trow_port r) && (trow_port r <=? 65535))%Z
  then Err (IOther ("port out of range: " +:+ show_Z (trow_port r)))
  else Ok {| mt_ref := ref; mt_kind := kind; mt_transport := transport;
             mt_host := trow_host r; mt_port := trow_port r;
             mt_credential_ref := trow_credential_ref r;
             mt_labels := labels; mt_capabilities := capabilities |}.

(** The table's [CHECK] constraints (migration V004). *)
Definition row_check (r : target_row) : bool :=
  ((0 <? trow_port r)%Z && (trow_port r <=? 65535)%Z)
  && starts_with (trow_ref r) "target://"
  && starts_with (trow_credential_ref r) "vault://".

(** ** The registry *)

(** The table by its unique column, and the errors the pool and the server
    answer with at the moment, if any. *)
Record PgRegistry := mkPgRegistry {
  pg_targets : gmap string target_row;
  pg_pool_error : option string;
  pg_stmt_error : option string;
}.

Definition pg_set_targets (m : gmap string target_row) (s : PgRegistry) : PgRegistry :=
  mkPgRegistry m (pg_pool_error s) (pg_stmt_error s).

(** The pool and the server answer. *)
Definition pg_up (s : PgRegistry) : Prop := pg_pool_error s = None ∧ pg_stmt_error s = None.

(** The text the server answers a violated [CHECK] with. *)
Class CheckMessage := check_message : target_row → string.

Section PgRegistry.
(** [ORDER BY target_ref] follows the database's collation: some enumeration of
    the rows. *)
Context `{HashOrder target_row} `{CheckMessage}.
Abbreviation pgio := (io PgRegistry InventoryError).

(** [self.pool.get().await], then a statement labelled [what] in error messages,
    then [m] on its result. *)
Definition pg_query {A} (what : string) (m : pgio A) : pgio A := λ s,
  match pg_pool_error s, pg_stmt_error s with
  | Some e, _ => (Err (IOther ("pool: " +:+ e)), s)
  | None, Some e => (Err (IOther (what +:+ ": " +:+ e)), s)
  | None, None => m s
  end.

(** [PostgresRegistry::count]; a row count is non-negative, so [i64 as u64] is
    exact. *)
Definition pg_count : pgio Z :=
  pg_query "count" (gets (λ s, Z.of_nat (size (pg_targets s)))).

(** [get_managed], [get_metadata]. *)
Definition pg_get_managed (r : TargetRef) : pgio ManagedTarget :=
  let key := target_show r in
  pg_query "get" (gets (λ s, pg_targets s !! key)) ≫= λ o,
  lift (ok_or o (INotFound key)) ≫= λ row,
  lift (row_to_managed row).

Definition pg_get_metadata (r : TargetRef) : pgio TargetMetadata :=
  pg_get_managed r ≫= λ mt, mret (metadata mt).

(** [list]: an unreachable database and rows that do not decode are skipped. *)
Definition pg_list (kind_filter : option TargetKind) (s : PgRegistry) : list TargetMetadata :=
  match pg_pool_error s, pg_stmt_error s with
  | None, None =>
      omap (λ r, metadata <$> ok (row_to_managed r))
        (List.filter (λ r, match kind_filter with
                           | None => true
                           | Some k => string_eqb (trow_kind r) (target_kind_to_str k)
                           end) (hash_values (pg_targets s)))
  | _, _ => []
  end.

(** [upsert]: [INSERT .. ON CONFLICT (target_ref) DO UPDATE]. *)
Definition pg_upsert (t : ManagedTarget) : pgio unit :=
  let row := target_to_row t in
  pg_query "upsert"
    (if row_check row
     then modify (λ s, pg_set_targets (<[trow_ref row := row]> (pg_targets s)) s)
     else throw (IOther ("upsert: " +:+ check_message row))).

(** [remove]. *)
Definition pg_remove (r : TargetRef) : pgio unit :=
  let key := target_show r in
  pg_query "remove"
    (gets (λ s, pg_targets s !! key) ≫= λ o,
     modify (λ s, pg_set_targets (delete key (pg_targets s)) s) ≫= λ _, mret o) ≫= λ o,
  match o with None => throw (INotFound key) | Some _ => mret tt end.

#[export] Instance pg_inventory : Inventory PgRegistry := {|
  get_metadata := pg_get_metadata; get_managed := pg_get_managed;
  inv_list := pg_list; inv_upsert := pg_upsert; inv_remove := pg_remove;
|}.
End PgRegistry.

(** ** Rows and targets *)

Lemma string_map_json_roundtrip m : string_map_from_json (string_map_to_json m) = Some m.
Proof.
  unfold string_map_from_json, string_map_to_json.
  assert (mapM (λ kv : string * json, (pair kv.1) <$> as_str kv.2)
            (prod_map id JString <$> btree_iter m) = Some (btree_iter m)) as ->.
  { apply mapM_Some. rewrite Forall2_fmap_l. apply Forall2_same_length_lookup.
    split; [done|]. intros i [k v] y Hx Hy. by simplify_eq. }
  simpl. f_equal. rewrite <- (list_to_map_to_list m). unfold btree_iter.
  assert (merge_sort key_le (map_to_list (list_to_map (M:=gmap string string) (map_to_list m)))
            ≡ₚ map_to_list m) as Hp
    by by rewrite merge_sort_Permutation, list_to_map_to_list.
  apply list_to_map_proper; [|done].
  rewrite Hp. apply NoDup_fst_map_to_list.
Qed.

Lemma string_list_json_roundtrip l : string_list_from_json (string_list_to_json l) = Some l.
Proof.
  unfold string_list_from_json, string_list_to_json. apply mapM_Some.
  rewrite Forall2_fmap_l. apply Forall2_same_length_lookup.
  split; [done|]. intros i x y Hx Hy. by simplify_eq.
Qed.

(** A row written by [upsert] decodes to the target it was written for. *)
Lemma row_roundtrip t : target_wf t → row_to_managed (target_to_row t) = Ok t.
Proof.
  intros [Hr Hp]. unfold row_to_managed, target_to_row.
  cbn [trow_ref trow_kind trow_transport trow_host trow_port trow_credential_ref
    trow_labels trow_capabilities].
  rewrite Hr. cbn [map_err mbind result_bind].
  replace (parse_target_kind _) with (Ok (E:=InventoryError) (mt_kind t)) by by destruct (mt_kind t).
  replace (parse_transport _) with (Ok (E:=InventoryError) (mt_transport t))
    by by destruct (mt_transport t).
  cbn [mbind result_bind]. rewrite string_map_json_roundtrip, string_list_json_roundtrip.
  cbn [default].
  replace (negb _) with false by (symmetry; rewrite negb_false_iff, andb_true_iff; lia).
  by destruct t.
Qed.

Lemma target_show_inj r r' : target_show r = target_show r' → r = r'.
Proof. destruct r, r'. unfold target_show. simpl. intros H. by simplify_eq. Qed.

Section PgLaws.
Context `{HashOrder target_row} `{CheckMessage}.

Lemma pg_query_up {A} what (m : io PgRegistry InventoryError A) s :
  pg_up s → pg_query what m s = m s.
Proof. intros [Hp Hs]. unfold pg_query. by rewrite Hp, Hs. Qed.

(** A database that does not answer fails every statement and changes nothing. *)
Lemma pg_query_down {A} what (m : io PgRegistry InventoryError A) s :
  ¬ pg_up s → ∃ e, pg_query what m s = (Err (IOther e), s).
Proof.
  intros Hup. unfold pg_query. destruct (pg_pool_error s) eqn:?; [by eexists|].
  destruct (pg_stmt_error s) eqn:?; [by eexists|]. by destruct Hup.
Qed.

#[export] Instance pg_up_dec s : Decision (pg_up s).
Proof. unfold pg_up. apply _. Defined.

(** While the database answers, each operation acts on the table alone. *)
Lemma pg_get_up r s : pg_up s →
  pg_get_managed r s =
    (ok_or (pg_targets s !! target_show r) (INotFound (target_show r)) ≫= row_to_managed, s).
Proof.
  intros Hup. unfold pg_get_managed, mbind, io_bind. rewrite pg_query_up by done.
  unfold gets, lift. by destruct (pg_targets s !! target_show r).
Qed.

Lemma pg_upsert_up t s : pg_up s →
  pg_upsert t s =
    (if row_check (target_to_row t)
     then (Ok tt, pg_set_targets (<[target_show (mt_ref t) := target_to_row t]> (pg_targets s)) s)
     else (Err (IOther ("upsert: " +:+ check_message (target_to_row t))), s)).
Proof. intros Hup. unfold pg_upsert. rewrite pg_query_up by done. by destruct (row_check _). Qed.

Lemma pg_remove_up r s : pg_up s →
  pg_remove r s =
    (ok_or ((λ _, tt) <$> pg_targets s !! target_show r) (INotFound (target_show r)),
     pg_set_targets (delete (target_show r) (pg_targets s)) s).
Proof.
  intros Hup. unfold pg_remove, mbind, io_bind. rewrite pg_query_up by done.
  unfold gets, modify. simpl. by destruct (pg_targets s !! target_show r).
Qed.

(** A successful change happened on an answering database, which still answers. *)
Lemma pg_upsert_ok t s s' : pg_upsert t s = (Ok tt, s') → pg_up s ∧ pg_up s' ∧
  pg_targets s' = <[target_show (mt_ref t) := target_to_row t]> (pg_targets s).
Proof.
  destruct (decide (pg_up s)) as [Hup|Hup].
  - rewrite pg_upsert_up by done. destruct (row_check _); [|done]. by intros [= <-].
  - unfold pg_upsert. destruct (pg_query_down "upsert"
      (if row_check (target_to_row t)
       then modify (λ s, pg_set_targets (<[trow_ref (target_to_row t) := target_to_row t]> (pg_targets s)) s)
       else throw (IOther ("upsert: " +:+ check_message (target_to_row t)))) s Hup) as [e He].
    by rewrite He.
Qed.

Lemma pg_remove_ok r s s' : pg_remove r s = (Ok tt, s') → pg_up s ∧ pg_up s' ∧
  pg_targets s' = delete (target_show r) (pg_targets s).
Proof.
  destruct (decide (pg_up s)) as [Hup|Hup].
  - rewrite pg_remove_up by done. intros [=]. by subst.
  - unfold pg_remove. intros (o & w & Hq & _)%io_bind_ok.
    destruct (pg_query_down "remove" (gets (λ s, pg_targets s !! target_show r) ≫= λ o,
      modify (λ s, pg_set_targets (delete (target_show r) (pg_targets s)) s) ≫= λ _, mret o)
      s Hup) as [e He]. congruence.
Qed.

Lemma pg_get_state r s : (pg_get_managed r s).2 = s.
Proof.
  destruct (decide (pg_up s)) as [Hup|Hup]; [by rewrite pg_get_up|].
  unfold pg_get_managed, mbind, io_bind.
  by destruct (pg_query_down "get" (gets (λ s, pg_targets s !! target_show r)) s Hup) as [e ->].
Qed.

(** The Postgres registry is an inventory the broker can rely on, whatever the
    table holds and whether or not the database answers. *)
#[export] Instance pg_inventory_laws : InventoryLaws PgRegistry.
Proof.
  split; cbn.
  - apply pg_get_state.
  - intros r s. unfold pg_get_metadata, mbind, io_bind. pose proof (pg_get_state r s) as Hs.
    destruct (pg_get_managed r s) as [[t|e] s']; simpl in *; by subst.
  - intros t s s' Hwf (Hup & Hup' & Hm)%pg_upsert_ok. rewrite !pg_get_up, Hm by done.
    rewrite lookup_insert_eq. split; [by apply row_roundtrip|].
    intros r Hr. rewrite !pg_get_up by done.
    rewrite Hm, lookup_insert_ne by (intros ?%target_show_inj; congruence). done.
  - intros r s s' (Hup & Hup' & Hm)%pg_remove_ok. rewrite !pg_get_up, Hm by done.
    rewrite lookup_delete_eq. split; [done|].
    intros r' Hr. rewrite !pg_get_up by done.
    rewrite Hm, lookup_delete_ne by (intros ?%target_show_inj; congruence). done.
Qed.
End PgLaws.

(** ** Refinement of the in-memory registry *)

(** A call of the [Inventory] trait and its answer. *)
Inductive inv_op :=
| OpMetadata (r : TargetRef)
| OpManaged (r : TargetRef)
| OpList (k : option TargetKind)
| OpUpsert (t : ManagedTarget)
| OpRemove (r : TargetRef).

Inductive inv_reply :=
| ReMetadata (r : result InventoryError TargetMetadata)
| ReManaged (r : result InventoryError ManagedTarget)
| ReList (l : list TargetMetadata)
| ReUnit (r : result InventoryError unit).

Definition run_op {I : Type} `{Inventory I} (op : inv_op) (s : I) : inv_reply * I :=
  match op with
  | OpMetadata r => prod_map ReMetadata id (get_metadata r s)
  | OpManaged r => prod_map ReManaged id (get_managed r s)
  | OpList k => (ReList (inv_list k s), s)
  | OpUpsert t => prod_map ReUnit id (inv_upsert t s)
  | OpRemove r => prod_map ReUnit id (inv_remove r s)
  end.

Fixpoint run_ops {I : Type} `{Inventory I} (ops : list inv_op) (s : I) : list inv_reply :=
  match ops with
  | [] => []
  | op :: ops => let '(r, s') := run_op op s in r :: run_ops ops s'
  end.

(** Answers are equal, listings up to their order. *)
Definition same_reply (x y : inv_reply) : Prop :=
  match x, y with
  | ReList l, ReList l' => l ≡ₚ l'
  | _, _ => x = y
  end.

(** The stored targets are well formed and within the table's constraints. *)
Definition op_storable (op : inv_op) : Prop :=
  match op with
  | OpUpsert t => target_wf t ∧ row_check (target_to_row t) = true
  | _ => True
  end.

Lemma omap_filter {A B} (f : A → option B) p l :
  omap f (List.filter p l) = omap (λ x, if p x then f x else None) l.
Proof. induction l as [|x l IH]; [done|]. csimpl. destruct (p x); csimpl; by rewrite IH. Qed.

Section Refinement.
Context `{HashOrder target_row} `{HashOrder ManagedTarget} `{CheckMessage}.

Abbreviation ref_key := (λ n : string, "target://" +:+ n).

#[local] Instance ref_key_inj : Inj (=) (=) ref_key.
Proof. intros x y Hxy. by simplify_eq. Qed.

(** The table holds exactly the encodings of the registry's targets. *)
Definition pg_rel (s : PgRegistry) (m : InMemoryRegistry) : Prop :=
  pg_up s ∧
  pg_targets s = kmap ref_key (target_to_row <$> reg_map m) ∧
  map_Forall (λ n t, target_wf t ∧ target_name (mt_ref t) = n) (reg_map m).

Lemma pg_rel_lookup s m r : pg_rel s m →
  pg_targets s !! target_show r = target_to_row <$> reg_map m !! target_name r.
Proof.
  intros (_ & -> & _). unfold target_show.
  by rewrite (lookup_kmap ref_key), lookup_fmap.
Qed.

Lemma pg_rel_get s m r : pg_rel s m →
  pg_get_managed r s = (reg_lookup r m, s).
Proof.
  intros Hr. rewrite pg_get_up by apply Hr. rewrite (pg_rel_lookup s m r Hr).
  unfold reg_lookup. destruct (reg_map m !! target_name r) as [t|] eqn:E; simpl; [|done].
  destruct Hr as (_ & _ & Hf). destruct (Hf _ _ E) as [Hwf _]. by rewrite row_roundtrip.
Qed.

Lemma pg_rel_list s m k : pg_rel s m → pg_list k s ≡ₚ reg_list k m.
Proof.
  intros ([Hp Hs] & Hm & Hf). unfold pg_list, reg_list. rewrite Hp, Hs, Hm.
  assert (hash_values (kmap ref_key (target_to_row <$> reg_map m) : gmap string target_row)
            ≡ₚ target_to_row <$> hash_values (reg_map m)) as Hperm.
  { rewrite !hash_values_perm, map_to_list_kmap by apply _.
    rewrite map_to_list_fmap, <- !list_fmap_compose. done. }
  assert (Forall target_wf (hash_values (reg_map m))) as Hall.
  { apply Forall_forall. intros t [n Hn]%elem_of_hash_values. by apply (Hf n t). }
  rewrite omap_filter, Hperm. clear Hperm Hm Hf. revert Hall.
  generalize (hash_values (reg_map m)). intros l Hall.
  induction Hall as [|t l Ht _ IH]; [done|]. simpl. rewrite row_roundtrip by done.
  assert (match k with
          | Some k0 => string_eqb (target_kind_to_str (mt_kind t)) (target_kind_to_str k0)
          | None => true
          end = match k with Some k0 => bool_decide (mt_kind t = k0) | None => true end) as ->.
  { destruct k as [k|]; [|done]. by destruct (mt_kind t), k. }
  destruct (match k with Some _ => _ | None => _ end); simpl; [by constructor|exact IH].
Qed.

Lemma pg_rel_upsert s m t : pg_rel s m → op_storable (OpUpsert t) →
  ∃ s', pg_upsert t s = (Ok tt, s') ∧ pg_rel s' (reg_upsert t m).2.
Proof.
  intros (Hup & Hm & Hf) [Hwf Hc]. rewrite pg_upsert_up by done. rewrite Hc.
  eexists. split; [done|]. split; [done|]. simpl. split.
  - rewrite fmap_insert, kmap_insert by apply _. by rewrite Hm.
  - apply map_Forall_insert_2; [|done]. done.
Qed.

Lemma pg_rel_remove s m r : pg_rel s m →
  ∃ s', pg_remove r s = ((reg_remove r m).1, s') ∧ pg_rel s' (reg_remove r m).2.
Proof.
  intros Hr. rewrite pg_remove_up by apply Hr. rewrite (pg_rel_lookup s m r Hr).
  destruct Hr as (Hup & Hm & Hf). eexists. split.
  { unfold reg_remove. simpl. by destruct (reg_map m !! target_name r). }
  split; [done|]. simpl. split.
  - rewrite fmap_delete, kmap_delete by apply _. by rewrite Hm.
  - by apply map_Forall_delete.
Qed.

(** One call keeps the relation and gets the same answer. *)
Lemma pg_rel_step s m op : pg_rel s m → op_storable op →
  same_reply (run_op op s).1 (run_op op m).1 ∧ pg_rel (run_op op s).2 (run_op op m).2.
Proof.
  intros Hr Hop. destruct op as [r|r|k|t|r]; cbn [run_op].
  - rewrite !get_metadata_view. cbn. rewrite (pg_rel_get s m r Hr). split; [done|exact Hr].
  - cbn. rewrite (pg_rel_get s m r Hr). split; [done|exact Hr].
  - split; [by apply pg_rel_list|exact Hr].
  - destruct (pg_rel_upsert s m t Hr Hop) as (s' & Hs & Hr'). cbn. rewrite Hs. done.
  - destruct (pg_rel_remove s m r Hr) as (s' & Hs & Hr'). cbn. rewrite Hs. done.
Qed.

(** Starting from an empty table on a database that answers, any sequence of
    calls that stores well-formed targets within the table's constraints gets
    from the Postgres registry the answers the in-memory registry gives
    (listings up to order). *)
Theorem pg_refines_registry ops s :
  pg_up s → pg_targets s = ∅ → Forall op_storable ops →
  Forall2 same_reply (run_ops ops s) (run_ops ops registry_new).
Proof.
  intros Hup Hs Hops.
  assert (pg_rel s registry_new) as Hr.
  { split; [done|]. split; [by rewrite Hs|]. apply map_Forall_empty. }
  clear Hup Hs. revert s Hr. generalize registry_new.
  induction Hops as [|op ops Hop _ IH]; intros m s Hr; [constructor|].
  destruct (pg_rel_step s m op Hr Hop) as [Hrep Hr']. cbn [run_ops].
  destruct (run_op op s), (run_op op m). constructor; [done|]. by apply IH.
Qed.
End Refinement.

#[local] Instance demo_check_message : CheckMessage := λ _, "violates check constraint".

Definition demo_target : ManagedTarget :=
  mkManaged (mkTargetRef "edge") Network Ssh "10.0.0.1" 22 "vault://edge"
    {["site" := "lab"]} ["net.read"].

Lemma pg_refines_registry_witness :
  let ops := [OpUpsert demo_target; OpManaged (mkTargetRef "edge"); OpList (Some Network);
              OpRemove (mkTargetRef "edge"); OpRemove (mkTargetRef "edge")] in
  Forall2 same_reply (run_ops ops (mkPgRegistry ∅ None None)) (run_ops ops registry_new).
Proof.
  apply pg_refines_registry; [done|done|].
  repeat constructor; vm_compute; done.
Defined.

(** A reference built with [TargetRef::new] may contain a slash. The table takes
    it, but the row no longer decodes: the target is stored and cannot be read
    back, and the listing omits it. *)
Theorem slash_target_unreadable :
  let t := mkManaged (mkTargetRef "dc1/edge") Network Ssh "10.0.0.1" 22 "vault://edge" ∅ [] in
  let s := (pg_upsert t (mkPgRegistry ∅ None None)).2 in
  (pg_upsert t (mkPgRegistry ∅ None None)).1 = Ok tt ∧
  is_ok (pg_get_managed (mt_ref t) s).1 = false ∧ pg_list None s = [] ∧
  (pg_count s).1 = Ok 1%Z.
Proof. vm_compute. done. Qed.
