(* ===== verification/AuditLog.v ===== *)
(** * daimon-audit: events ([daimon-audit/src/event.rs], [sink.rs])

    The structured audit event and its string codecs, and the append contract of
    the sink. The sink is modelled by the events it has accepted; an append that
    the storage refuses leaves the log as it is. *)

From S2P Require Import Prelude RustStd.
From Stdlib Require Import ZArith.

Inductive ActionKind :=
| BrokerExecute | VaultResolve | VaultReveal | VaultCreate | VaultUpdate
| VaultRename | VaultDelete | InventoryUpsert | InventoryRemove | InventoryResolve
| TransportDispatch | GuardApprove | GuardDeny | MemoryIngest | MemoryRetrieve
| MemoryWrite | ActionOther.

#[export] Instance ActionKind_eq_dec : EqDecision ActionKind.
Proof. solve_decision. Defined.

(** [ActionKind::as_str], [ActionKind::from_str]. *)
Definition action_as_str (a : ActionKind) : string :=
  match a with
  | BrokerExecute => "broker.execute"
  | VaultResolve => "vault.resolve"
  | VaultReveal => "vault.reveal"
  | VaultCreate => "vault.create"
  | VaultUpdate => "vault.update"
  | VaultRename => "vault.rename"
  | VaultDelete => "vault.delete"
  | InventoryUpsert => "inventory.upsert"
  | InventoryRemove => "inventory.remove"
  | InventoryResolve => "inventory.resolve"
  | TransportDispatch => "transport.dispatch"
  | GuardApprove => "guard.approve"
  | GuardDeny => "guard.deny"
  | MemoryIngest => "memory.ingest"
  | MemoryRetrieve => "memory.retrieve"
  | MemoryWrite => "memory.write"
  | ActionOther => "other"
  end.

Definition action_from_str (s : string) : ActionKind :=
  if string_eqb s "broker.execute" then BrokerExecute
  else if string_eqb s "vault.resolve" then VaultResolve
  else if string_eqb s "vault.reveal" then VaultReveal
  else if string_eqb s "vault.create" then VaultCreate
  else if string_eqb s "vault.update" then VaultUpdate
  else if string_eqb s "vault.rename" then VaultRename
  else if string_eqb s "vault.delete" then VaultDelete
  else if string_eqb s "inventory.upsert" then InventoryUpsert
  else if string_eqb s "inventory.remove" then InventoryRemove
  else if string_eqb s "inventory.resolve" then InventoryResolve
  else if string_eqb s "transport.dispatch" then TransportDispatch
  else if string_eqb s "guard.approve" then GuardApprove
  else if string_eqb s "guard.deny" then GuardDeny
  else if string_eqb s "memory.ingest" then MemoryIngest
  else if string_eqb s "memory.retrieve" then MemoryRetrieve
  else if string_eqb s "memory.write" then MemoryWrite
  else ActionOther.

Inductive AuditResult := ASuccess | AError | ADenied.

(** [AuditResult::as_str], [AuditResult::from_str]. *)
Definition audit_result_as_str (r : AuditResult) : string :=
  match r with ASuccess => "success" | AError => "error" | ADenied => "denied" end.

Definition audit_result_from_str (s : string) : AuditResult :=
  if string_eqb s "success" then ASuccess
  else if string_eqb s "error" then AError
  else if string_eqb s "denied" then ADenied
  else AError.

(** [NewAuditEvent] and its builders. *)
Record NewAuditEvent := mkAuditEvent {
  ev_actor_id : string;
  ev_action : ActionKind;
  ev_target_ref : option string;
  ev_credential_ref : option string;
  ev_op_summary : option string;
  ev_result : AuditResult;
  ev_latency_ms : option Z;
  ev_metadata : gmap string string;
}.

Definition audit_event_new (actor : string) (action : ActionKind) (res : AuditResult) :
    NewAuditEvent :=
  mkAuditEvent actor action None None None res None ∅.

Definition with_target (t : string) (e : NewAuditEvent) : NewAuditEvent :=
  mkAuditEvent (ev_actor_id e) (ev_action e) (Some t) (ev_credential_ref e)
    (ev_op_summary e) (ev_result e) (ev_latency_ms e) (ev_metadata e).

Definition with_credential (c : string) (e : NewAuditEvent) : NewAuditEvent :=
  mkAuditEvent (ev_actor_id e) (ev_action e) (ev_target_ref e) (Some c)
    (ev_op_summary e) (ev_result e) (ev_latency_ms e) (ev_metadata e).

Definition with_op_summary (s : string) (e : NewAuditEvent) : NewAuditEvent :=
  mkAuditEvent (ev_actor_id e) (ev_action e) (ev_target_ref e) (ev_credential_ref e)
    (Some s) (ev_result e) (ev_latency_ms e) (ev_metadata e).

Definition with_latency_ms (ms : Z) (e : NewAuditEvent) : NewAuditEvent :=
  mkAuditEvent (ev_actor_id e) (ev_action e) (ev_target_ref e) (ev_credential_ref e)
    (ev_op_summary e) (ev_result e) (Some ms) (ev_metadata e).

Definition with_metadata (k v : string) (e : NewAuditEvent) : NewAuditEvent :=
  mkAuditEvent (ev_actor_id e) (ev_action e) (ev_target_ref e) (ev_credential_ref e)
    (ev_op_summary e) (ev_result e) (ev_latency_ms e) (<[k := v]> (ev_metadata e)).

(** [if let Some(x) = o { ev = ev.with_..(x) }]. *)
Definition with_opt {A} (f : A → NewAuditEvent → NewAuditEvent) (o : option A)
    (e : NewAuditEvent) : NewAuditEvent :=
  match o with Some a => f a e | None => e end.

Lemma action_roundtrip a : action_from_str (action_as_str a) = a.
Proof. by destruct a. Qed.

Lemma audit_result_roundtrip r : audit_result_from_str (audit_result_as_str r) = r.
Proof. by destruct r. Qed.
