(* ===== verification/Broker.v ===== *)
(** * daimon-broker: the action broker ([daimon-broker/src])

    [Broker::execute] and what it is made of, the boot lint over the live
    capability set, and the admin proxy. The inventory and the vault are used
    through their contracts ({!Inventory}, {!VaultClient}); the guard is the
    model of [Guard.v]. The world logs every [transport.execute] call and every
    audit event the sink accepted. *)

From S2P Require Import Prelude RustStd Json Core KillSwitch Policy Approvals Guard.
From S2P Require Import Inventory AuditLog.
From Stdlib Require Import ZArith Ascii.

Local Open Scope Z_scope.

(** ** Requests ([request.rs]) *)

Section Request.
Context `{SemVer}.

Record ExecRequest := mkExec {
  rq_target_ref : TargetRef;
  rq_op : Op;
  rq_actor_id : string;
  rq_capability : option string;
  rq_is_read_only : bool;
  rq_capability_meta : option Capability;
}.

(** [ExecRequest::new]. *)
Definition exec_new (actor : string) (t : TargetRef) (op : Op) : ExecRequest :=
  mkExec t op actor None false None.

(** [ExecRequest::with_capability]. *)
Definition with_capability (cap : string) (ro : bool) (r : ExecRequest) : ExecRequest :=
  mkExec (rq_target_ref r) (rq_op r) (rq_actor_id r) (Some cap) ro (rq_capability_meta r).

(** [ExecRequest::with_capability_meta]. *)
Definition with_capability_meta (c : Capability) (r : ExecRequest) : ExecRequest :=
  mkExec (rq_target_ref r) (rq_op r) (rq_actor_id r) (Some (cap_name c)) (is_read c) (Some c).
End Request.

(** ** Errors *)

Inductive BrokerError :=
| BInventory (e : InventoryError)
| BVault (e : VaultError)
| BTransport (e : TransportError)
| BGuard (e : GuardError)
| BCredentialRefParse (e : CredRefParseError)
| BNoTransport (k : TransportKind)
| BAdminBackendNotAvailable (what : string)
| BAudit (msg : string).

Definition show_transport_kind (k : TransportKind) : string :=
  match k with Ssh => "Ssh" | Rest => "Rest" | Snmp => "Snmp" | Grpc => "Grpc" end.

Definition show_broker_error (e : BrokerError) : string :=
  match e with
  | BInventory e => "inventory: " +:+ show_inventory_error e
  | BVault e => "vault: " +:+ show_vault_error e
  | BTransport e => "transport: " +:+ show_transport_error e
  | BGuard e => "guard: " +:+ show_guard_error e
  | BCredentialRefParse e =>
      "invalid credential_ref in inventory entry: " +:+ show_cred_ref_error e
  | BNoTransport k => "no transport registered for kind `" +:+ show_transport_kind k +:+ "`"
  | BAdminBackendNotAvailable w =>
      "admin backend `" +:+ w +:+
      "` not available — broker constructed without production admin wiring"
  | BAudit m => "audit: " +:+ m
  end.

Definition show_method (m : HttpMethod) : string :=
  match m with
  | Get => "Get" | Post => "Post" | Put => "Put" | Patch => "Patch" | Delete => "Delete"
  end.

(** [op_summary_for]. *)
Definition op_summary_for (op : Op) : string :=
  match op with
  | ShellCommand command _ => "ssh:exec:" +:+ chars_take 80 command
  | Http m path _ _ _ => "http:" +:+ show_method m +:+ ":" +:+ path
  | SnmpGet oid => "snmp:get:" +:+ oid
  | SnmpSet oid _ => "snmp:set:" +:+ oid
  | SnmpWalk oid => "snmp:walk:" +:+ oid
  end.

(** ** The broker *)

Section Broker.
Context `{SemVer} {I V D : Type} `{Inventory I} `{VaultClient V}.

Record Broker := mkBroker {
  br_audit : bool;                                   (** an audit sink is attached *)
  br_vault_admin : bool;                             (** the vault's admin handle is *)
  br_transports : TransportKind → option (Transport D);
  br_guard : option PolicyEngine;                    (** the attached guard's policy *)
}.

(** [Broker::new], [Broker::with_production_admin], [Broker::with_guard]. *)
Definition broker_new (ts : TransportKind → option (Transport D)) : Broker :=
  mkBroker false false ts None.
Definition with_production_admin (ts : TransportKind → option (Transport D)) : Broker :=
  mkBroker true true ts None.
Definition with_guard (p : PolicyEngine) (b : Broker) : Broker :=
  mkBroker (br_audit b) (br_vault_admin b) (br_transports b) (Some p).

Record bworld := mkBworld {
  b_guard : gworld;
  b_inv : I;
  b_vault : V;
  b_dev : D;
  b_calls : list (TransportTarget * Op * Credential);  (** transport.execute calls *)
  b_audit : list NewAuditEvent;                        (** events the sink accepted *)
  b_audit_faults : list (option string);               (** outcome of coming appends *)
}.

Definition set_guard g w :=
  mkBworld g (b_inv w) (b_vault w) (b_dev w) (b_calls w) (b_audit w) (b_audit_faults w).
Definition set_inv i w :=
  mkBworld (b_guard w) i (b_vault w) (b_dev w) (b_calls w) (b_audit w) (b_audit_faults w).
Definition set_vault v w :=
  mkBworld (b_guard w) (b_inv w) v (b_dev w) (b_calls w) (b_audit w) (b_audit_faults w).
Definition set_dev d c w :=
  mkBworld (b_guard w) (b_inv w) (b_vault w) d c (b_audit w) (b_audit_faults w).
Definition set_audit a f w :=
  mkBworld (b_guard w) (b_inv w) (b_vault w) (b_dev w) (b_calls w) a f.

Abbreviation bio := (io bworld BrokerError).

Definition on_guard {A} (m : io gworld GuardError A) : bio A :=
  io_map_err BGuard (zoom b_guard set_guard m).
Definition on_inv {A} (m : io I InventoryError A) : io bworld InventoryError A :=
  zoom b_inv set_inv m.
Definition on_vault {A} (m : io V VaultError A) : io bworld VaultError A :=
  zoom b_vault set_vault m.

(** [transport.execute(..)], logged. *)
Definition transport_execute (t : Transport D) (target : TransportTarget) (op : Op)
    (cred : Credential) : io bworld TransportError OpResult := λ w,
  let '(r, d) := tr_execute t target op cred (b_dev w) in
  (r, set_dev d (b_calls w ++ [(target, op, cred)]) w).

(** [sink.append(ev)]. *)
Definition sink_append (ev : NewAuditEvent) : io bworld string unit := λ w,
  match b_audit_faults w with
  | Some e :: f => (Err e, set_audit (b_audit w) f w)
  | f => (Ok tt, set_audit (b_audit w ++ [ev]) (tail f) w)
  end.

(** [Broker::derive_read_only]. *)
Definition derive_read_only (req : ExecRequest) : bool :=
  match rq_capability_meta req with Some c => is_read c | None => false end.

(** The guard call of [execute_inner]. *)
Definition gate_capability (req : ExecRequest) : string :=
  default "broker.execute" (rq_capability req).
Definition gate_params (req : ExecRequest) : json :=
  jobj [("target_ref", JString (target_show (rq_target_ref req)));
        ("op_summary", JString (op_summary_for (rq_op req)))].
Definition gate (policy : PolicyEngine) (req : ExecRequest) : io gworld GuardError unit :=
  pre_flight policy (rq_actor_id req) (gate_capability req)
    (Some (target_show (rq_target_ref req))) (gate_params req) (derive_read_only req).

(** Step 0 of [execute_inner]. *)
Definition guard_step (b : Broker) (req : ExecRequest) : bio unit :=
  match br_guard b with
  | Some policy => on_guard (gate policy req)
  | None => mret tt
  end.

(** [Broker::execute_inner]. *)
Definition execute_inner (b : Broker) (req : ExecRequest) : bio OpResult :=
  guard_step b req ≫= λ _,
  io_map_err BInventory (on_inv (get_managed (rq_target_ref req))) ≫= λ managed,
  lift (map_err BCredentialRefParse (cred_parse (mt_credential_ref managed))) ≫= λ vref,
  io_map_err BVault (on_vault (vault_resolve vref)) ≫= λ credential,
  lift (ok_or (br_transports b (mt_transport managed))
          (BNoTransport (mt_transport managed))) ≫= λ transport,
  let target := mkTransportTarget (mt_host managed) (mt_port managed) in
  io_map_err BTransport (transport_execute transport target (rq_op req) credential).

(** The event [audit_execute] emits. *)
Definition execute_event (req : ExecRequest) (credential_ref : option string)
    (r : result BrokerError OpResult) (latency : Z) : NewAuditEvent :=
  let ev := with_latency_ms latency
              (with_op_summary (op_summary_for (rq_op req))
                 (with_target (target_show (rq_target_ref req))
                    (audit_event_new (rq_actor_id req) BrokerExecute
                       (match r with Ok _ => ASuccess | Err _ => AError end)))) in
  let ev := with_opt with_credential credential_ref ev in
  match r with
  | Ok _ => ev
  | Err e => with_metadata "error" (show_broker_error e) ev
  end.

(** [Broker::audit_execute]; a failed append is only logged. *)
Definition audit_execute (b : Broker) (req : ExecRequest) (r : result BrokerError OpResult)
    (start : Z) : bio unit :=
  if negb (br_audit b) then mret tt
  else
    attempt (on_inv (get_managed (rq_target_ref req))) ≫= λ m,
    gets (λ w, g_now (b_guard w)) ≫= λ now,
    attempt (sink_append (execute_event req (mt_credential_ref <$> ok m) r (now - start)))
      ≫= λ _, mret tt.

(** [Broker::execute]. *)
Definition execute (b : Broker) (req : ExecRequest) : bio OpResult := λ w,
  let start := g_now (b_guard w) in
  let '(r, w1) := execute_inner b req w in
  let '(_, w2) := audit_execute b req r start w1 in
  (r, w2).

(** [Broker::target_metadata], [Broker::list_targets]. *)
Definition target_metadata (t : TargetRef) : bio TargetMetadata :=
  io_map_err BInventory (on_inv (get_metadata t)).
Definition list_targets (k : option TargetKind) (w : bworld) : list TargetMetadata :=
  inv_list k (b_inv w).

(** ** The boot lint *)

Definition dangling_msg (cap comp : string) : string :=
  "capability `" +:+ cap +:+ "` names compensator `" +:+ comp +:+
  "` which is not present in the registered capability set — saga rollback would have nothing to dispatch".
Definition allowed_msg (cap : string) : string :=
  "write capability `" +:+ cap +:+
  "` resolves to Allow under the shipped policy — must be deny or require_approval".

(** The checks of one iteration of the loop. *)
Definition lint_one (guard : option PolicyEngine) (present : list string) (cap : Capability) :
    result string unit :=
  match cap_compensating cap with
  | Some comp =>
      if existsb (string_eqb (comp_name comp)) present then Ok tt
      else Err (dangling_msg (cap_name cap) (comp_name comp))
  | None => Ok tt
  end ≫= λ _,
  if is_read cap then Ok tt
  else match guard with
       | Some policy =>
           if bool_decide (verdict_decision (evaluate policy (cap_name cap)) = Allow)
           then Err (allowed_msg (cap_name cap))
           else Ok tt
       | None => Ok tt
       end.

Fixpoint lint_loop (guard : option PolicyEngine) (present : list string)
    (caps : list Capability) : result string unit :=
  match caps with
  | [] => Ok tt
  | cap :: caps => lint_one guard present cap ≫= λ _, lint_loop guard present caps
  end.

(** [Broker::lint_write_capabilities]. *)
Definition lint_write_capabilities (b : Broker) (caps : list Capability) :
    result string unit :=
  lint_loop (br_guard b) (map cap_name caps) caps.
(** ** Properties *)

(** What a dispatch presupposes: the guard let the request through, the
    inventory knows the target, its credential reference parses and resolves,
    and a transport is registered for its kind. *)
Definition dispatchable (b : Broker) (req : ExecRequest) (w : bworld)
    (call : TransportTarget * Op * Credential) : Prop :=
  ∃ managed vref cred transport,
    (∀ policy, br_guard b = Some policy → (gate policy req (b_guard w)).1 = Ok tt) ∧
    (get_managed (rq_target_ref req) (b_inv w)).1 = Ok managed ∧
    cred_parse (mt_credential_ref managed) = Ok vref ∧
    (vault_resolve vref (b_vault w)).1 = Ok cred ∧
    br_transports b (mt_transport managed) = Some transport ∧
    call = (mkTransportTarget (mt_host managed) (mt_port managed), rq_op req, cred).

Lemma on_guard_run {A} (m : io gworld GuardError A) w :
  on_guard m w = (map_err BGuard (m (b_guard w)).1, set_guard (m (b_guard w)).2 w).
Proof. unfold on_guard, io_map_err, zoom. by destruct (m (b_guard w)). Qed.

Lemma guard_step_run b req w r w' :
  guard_step b req w = (r, w') →
  b_calls w' = b_calls w ∧ b_inv w' = b_inv w ∧ b_vault w' = b_vault w ∧
  b_audit w' = b_audit w ∧ b_audit_faults w' = b_audit_faults w ∧ b_dev w' = b_dev w ∧
  (r = Ok tt → ∀ policy, br_guard b = Some policy →
     gate policy req (b_guard w) = (Ok tt, b_guard w')).
Proof.
  unfold guard_step. destruct (br_guard b) as [policy|]; [|by intros [= <- <-]].
  rewrite on_guard_run. intros [= <- <-]. do 6 (split; [done|]).
  intros Hr policy' [= <-]. destruct (gate policy req (b_guard w)) as [[[]|e] g];
    by simplify_eq/=.
Qed.

(** [execute_inner] makes at most one transport call and touches neither the
    audit log nor its storage. *)
Lemma execute_inner_calls b req w r w' :
  execute_inner b req w = (r, w') →
  b_audit w' = b_audit w ∧ b_audit_faults w' = b_audit_faults w ∧
  (b_calls w' = b_calls w ∧ is_ok r = false ∨
   ∃ call, b_calls w' = b_calls w ++ [call] ∧ dispatchable b req w call).
Proof.
  unfold execute_inner. destruct (guard_step b req w) as [[[]|e] w1] eqn:E1;
    pose proof (guard_step_run _ _ _ _ _ E1) as (Hc & Hi & Hv & Ha & Hf & _ & Hok);
    last first.
  { rewrite (io_bind_run_err _ _ _ _ _ E1). intros. simplify_eq. rewrite Hc. auto. }
  rewrite (io_bind_run_ok _ _ _ _ _ E1). clear E1.
  unfold on_inv, on_vault, io_map_err, zoom, transport_execute, mbind, io_bind, lift.
  rewrite Hi. destruct (get_managed (rq_target_ref req) (b_inv w)) as [[m|e] i] eqn:Em;
    simpl; [|intros; simplify_eq/=; rewrite Hc; auto].
  destruct (cred_parse (mt_credential_ref m)) as [vref|e] eqn:Ep;
    simpl; [|intros; simplify_eq/=; rewrite Hc; auto].
  rewrite Hv. destruct (vault_resolve vref (b_vault w)) as [[c|e] v] eqn:Ev;
    simpl; [|intros; simplify_eq/=; rewrite Hc; auto].
  destruct (br_transports b (mt_transport m)) as [t|] eqn:Et;
    simpl; [|intros; simplify_eq/=; rewrite Hc; auto].
  destruct (tr_execute t _ _ _ _) as [x d]. intros. simplify_eq/=. rewrite Hc.
  split; [done|]. split; [done|]. right. eexists. split; [done|].
  exists m, vref, c, t. rewrite Em, Ev. split; [|done].
  intros policy Hp. by rewrite (Hok eq_refl policy Hp).
Qed.

Lemma audit_execute_calls b req r start w :
  let w' := (audit_execute b req r start w).2 in
  b_calls w' = b_calls w ∧ b_guard w' = b_guard w ∧ b_dev w' = b_dev w ∧
  b_vault w' = b_vault w.
Proof.
  unfold audit_execute, on_inv, attempt, zoom, sink_append, gets, mbind, io_bind, mret, io_ret.
  destruct (negb (br_audit b)); [done|].
  destruct (get_managed _ _) as [r1 i1]; simpl.
  by destruct (b_audit_faults w) as [|[?|] ?].
Qed.

(** C2: nothing reaches a device except through the gate. A call of
    [Broker::execute] makes at most one transport call; if it makes one, the
    guard (when attached) had let exactly this request through, the credential
    came from the vault under the reference stored in the inventory, and the
    call is the requested operation on the inventory's host and port. *)
Theorem execute_dispatch_gated b req w r w' :
  execute b req w = (r, w') →
  b_calls w' = b_calls w ∧ is_ok r = false ∨
  ∃ call, b_calls w' = b_calls w ++ [call] ∧ dispatchable b req w call.
Proof.
  unfold execute. destruct (execute_inner b req w) as [r1 w1] eqn:E.
  pose proof (audit_execute_calls b req r1 (g_now (b_guard w)) w1) as (Hc & _).
  destruct (audit_execute b req r1 _ w1) as [? w2]. simpl in Hc.
  intros. simplify_eq. rewrite Hc. by apply execute_inner_calls in E as (_ & _ & ?).
Qed.

(** The operation of the call is the request's. *)
Lemma execute_calls b req w :
  b_calls (execute b req w).2 = b_calls w ∨
  ∃ call, b_calls (execute b req w).2 = b_calls w ++ [call] ∧ call.1.2 = rq_op req.
Proof.
  unfold execute. destruct (execute_inner b req w) as [r1 w1] eqn:E.
  pose proof (audit_execute_calls b req r1 (g_now (b_guard w)) w1) as (Hc & _).
  destruct (audit_execute b req r1 _ w1) as [? w2]. simpl in Hc |- *. rewrite Hc.
  apply execute_inner_calls in E as (_ & _ & [[? _]|(call & Hl & Hd)]); [by left|right].
  destruct Hd as (m & vref & cred & t & _ & _ & _ & _ & _ & ->). by eexists.
Qed.

(** C4: the KILL switch stops the broker. With a guard attached and the switch
    engaged, every request, a read included, fails with the switch's reason,
    no credential is resolved, no transport is called and the approval inbox is
    not touched. *)
Theorem execute_killed b req w policy :
  br_guard b = Some policy → engaged (g_kill (b_guard w)) = true →
  ∃ w', execute b req w = (Err (BGuard (GKillEngaged (reason (g_kill (b_guard w))))), w') ∧
    b_calls w' = b_calls w ∧ b_dev w' = b_dev w ∧ b_vault w' = b_vault w ∧
    b_guard w' = b_guard w.
Proof.
  intros Hb Hk. unfold execute.
  assert (execute_inner b req w =
    (Err (BGuard (GKillEngaged (reason (g_kill (b_guard w))))), w)) as ->.
  { unfold execute_inner. apply io_bind_run_err. unfold guard_step. rewrite Hb, on_guard_run.
    assert (gate policy req (b_guard w) =
      (Err (GKillEngaged (reason (g_kill (b_guard w)))), b_guard w)) as ->.
    { unfold gate, pre_flight. rewrite (io_bind_run_ok _ _ _ (g_kill (b_guard w)) (b_guard w))
        by done. by rewrite Hk. }
    by destruct w. }
  pose proof (audit_execute_calls b req
    (Err (BGuard (GKillEngaged (reason (g_kill (b_guard w)))))) (g_now (b_guard w)) w)
    as (Hc & Hg & Hd & Hv).
  match goal with |- context [audit_execute ?b ?q ?r ?n ?w] =>
    exists (audit_execute b q r n w).2; split;
      [by destruct (audit_execute b q r n w)|done] end.
Qed.

(** C3: one execute call, one audit event. With a sink attached and its storage
    up, [Broker::execute] appends exactly one event, with the caller's actor id,
    target and operation summary, tagged success exactly when the caller gets a
    result and carrying the error text otherwise; the inventory lookup in
    between cannot make it drop the event. *)
Theorem execute_audited b req w r w' :
  br_audit b = true → b_audit_faults w = [] → execute b req w = (r, w') →
  ∃ ev, b_audit w' = b_audit w ++ [ev] ∧
    ev_actor_id ev = rq_actor_id req ∧ ev_action ev = BrokerExecute ∧
    ev_target_ref ev = Some (target_show (rq_target_ref req)) ∧
    ev_op_summary ev = Some (op_summary_for (rq_op req)) ∧
    ev_result ev = (if is_ok r then ASuccess else AError) ∧
    ev_metadata ev !! "error" = match r with
                                | Ok _ => None
                                | Err e => Some (show_broker_error e)
                                end.
Proof.
  intros Hb Hf. unfold execute. destruct (execute_inner b req w) as [r1 w1] eqn:E.
  apply execute_inner_calls in E as (Ha & Hf1 & _). rewrite Hf in Hf1.
  unfold audit_execute, on_inv, attempt, zoom, sink_append, gets, mbind, io_bind, mret, io_ret.
  rewrite Hb. simpl. destruct (get_managed _ (b_inv w1)) as [m i]. simpl. rewrite Hf1.
  intros. simplify_eq/=. rewrite Ha. eexists. split; [done|].
  unfold execute_event. destruct r, m; by repeat split.
Qed.

Lemma execute_inner_guard b req w r w1 policy :
  execute_inner b req w = (r, w1) → br_guard b = Some policy → b_calls w1 ≠ b_calls w →
  gate policy req (b_guard w) = (Ok tt, b_guard w1).
Proof.
  intros E Hb Hne. unfold execute_inner in E.
  destruct (guard_step b req w) as [[[]|e] w0] eqn:E1;
    pose proof (guard_step_run _ _ _ _ _ E1) as (Hc & _ & _ & _ & _ & _ & Hok); last first.
  { rewrite (io_bind_run_err _ _ _ _ _ E1) in E. by simplify_eq. }
  rewrite (io_bind_run_ok _ _ _ _ _ E1) in E. rewrite (Hok eq_refl policy Hb). f_equal.
  revert E. unfold on_inv, on_vault, io_map_err, zoom, transport_execute, mbind, io_bind, lift.
  repeat (case_match; simplify_eq/=); intros; by simplify_eq/=.
Qed.

Lemma execute_cleared b req w r w' policy :
  br_guard b = Some policy → deciders (b_guard w) →
  execute b req w = (r, w') → b_calls w' ≠ b_calls w →
  engaged (g_kill (b_guard w)) = false ∧
  cleared policy (rq_actor_id req) (gate_capability req)
    (Some (target_show (rq_target_ref req))) (gate_params req) (derive_read_only req)
    (b_guard w) (b_guard w').
Proof.
  intros Hb Hd. unfold execute. destruct (execute_inner b req w) as [r1 w1] eqn:E.
  pose proof (audit_execute_calls b req r1 (g_now (b_guard w)) w1) as (Hc & Hg & _).
  destruct (audit_execute b req r1 _ w1) as [? w2]. simpl in Hc, Hg.
  intros Heq Hne. simplify_eq. rewrite Hc in Hne. rewrite Hg.
  eapply execute_inner_guard in E; [|done..]. by apply pre_flight_cleared in E.
Qed.

(** What the operator sees is a summary: of a shell command only the first
    eighty characters, of an HTTP request neither headers nor body. Requests
    that differ elsewhere park as identical inbox rows. *)
Lemma gate_params_summary req1 req2 c1 c2 t1 t2 :
  rq_target_ref req1 = rq_target_ref req2 →
  rq_op req1 = ShellCommand c1 t1 → rq_op req2 = ShellCommand c2 t2 →
  chars_take 80 c1 = chars_take 80 c2 → gate_params req1 = gate_params req2.
Proof.
  intros Ht Ho1 Ho2 Hc. unfold gate_params. rewrite Ht, Ho1, Ho2. simpl. by rewrite Hc.
Qed.

(** A request cannot talk its way past the policy. Whatever the caller's
    [is_read_only] flag says, a request that carries no capability descriptor,
    or the descriptor of a write, reaches a device only if the policy allows
    the capability it names ([broker.execute] when it names none) or an operator
    approved a fresh inbox row for exactly this request. *)
Theorem execute_write_gated b req w r w' policy :
  br_guard b = Some policy → deciders (b_guard w) →
  (∀ c, rq_capability_meta req = Some c → is_read c = false) →
  execute b req w = (r, w') → b_calls w' ≠ b_calls w →
  verdict_decision (evaluate policy (default "broker.execute" (rq_capability req))) = Allow ∨
  ∃ id row, g_table (b_guard w) !! id = None ∧ g_table (b_guard w') !! id = Some row ∧
    row_actor_id row = rq_actor_id req ∧ row_params row = gate_params req ∧
    row_capability row = default "broker.execute" (rq_capability req) ∧
    row_target_ref row = Some (target_show (rq_target_ref req)) ∧
    row_status row = "approved" ∧ row_decided_by row ≠ None.
Proof.
  intros Hb Hd Hm He Hne.
  destruct (execute_cleared b req w r w' policy Hb Hd He Hne) as (_ & [Hro|[Ha|Hrow]]).
  - unfold derive_read_only in Hro. destruct (rq_capability_meta req) as [c|]; [|done].
    by rewrite Hm in Hro.
  - by left.
  - right. destruct Hrow as (_ & id & row & ? & ? & ? & ? & ? & ? & ? & ?).
    by exists id, row.
Qed.

(** ** The boot lint *)

Lemma lint_one_ok guard present cap :
  lint_one guard present cap = Ok tt ↔
  (∀ comp, cap_compensating cap = Some comp → comp_name comp ∈ present) ∧
  (is_read cap = false → ∀ policy, guard = Some policy →
     verdict_decision (evaluate policy (cap_name cap)) ≠ Allow).
Proof.
  unfold lint_one. destruct (cap_compensating cap) as [comp|] eqn:Hc.
  - destruct (existsb _ present) eqn:He.
    + apply existsb_elem in He as (x & Hx & <-%string_eqb_eq).
      assert ((∀ comp0, Some comp = Some comp0 → comp_name comp0 ∈ present) ↔ True) as ->
        by naive_solver.
      unfold mbind, result_bind. destruct (is_read cap), guard; [naive_solver..| |naive_solver].
      case_bool_decide; naive_solver.
    + split; [done|]. intros [Hp _]. specialize (Hp comp eq_refl).
      assert (existsb (string_eqb (comp_name comp)) present = true); [|congruence].
      apply existsb_elem. exists (comp_name comp). by rewrite string_eqb_eq.
  - unfold mbind, result_bind. destruct (is_read cap), guard; [naive_solver..| |naive_solver].
    case_bool_decide; naive_solver.
Qed.

Lemma lint_loop_ok guard present caps :
  lint_loop guard present caps = Ok tt ↔
  ∀ cap, cap ∈ caps → lint_one guard present cap = Ok tt.
Proof.
  induction caps as [|c caps IH]; simpl.
  - split; [intros _ c Hc; by apply not_elem_of_nil in Hc|done].
  - unfold mbind, result_bind. destruct (lint_one guard present c) as [[]|e] eqn:E.
    + rewrite IH. split; [|intros Hall cap Hcap; apply Hall; by right].
      intros Hall cap [->|Hcap]%elem_of_cons; auto.
    + split; [done|]. intros Hall. specialize (Hall c ltac:(left)). congruence.
Qed.

(** The boot lint decides policy coherence: it passes exactly when every
    compensator a capability names is itself registered and, with a guard
    attached, no write capability resolves to [Allow]. *)
Theorem lint_write_capabilities_spec b caps :
  lint_write_capabilities b caps = Ok tt ↔
  (∀ cap comp, cap ∈ caps → cap_compensating cap = Some comp →
     ∃ cap', cap' ∈ caps ∧ cap_name cap' = comp_name comp) ∧
  (∀ cap policy, cap ∈ caps → is_read cap = false → br_guard b = Some policy →
     verdict_decision (evaluate policy (cap_name cap)) ≠ Allow).
Proof.
  unfold lint_write_capabilities. rewrite lint_loop_ok. setoid_rewrite lint_one_ok.
  split.
  - intros Hall. split.
    + intros cap comp Hcap Hc. destruct (Hall cap Hcap) as [Hp _].
      specialize (Hp comp Hc). apply list_elem_of_fmap in Hp as (cap' & ? & ?).
      by exists cap'.
    + intros cap policy Hcap. destruct (Hall cap Hcap) as [_ Hw]. eauto.
  - intros [Hp Hw] cap Hcap. split; [|eauto].
    intros comp Hc. destruct (Hp cap comp Hcap Hc) as (cap' & Hc' & <-).
    by apply list_elem_of_fmap_2.
Qed.

(** C5: after a passing lint no write reaches a device without a human. If the
    lint accepted the capability set and a request carries one of its write
    capabilities, then a transport call is made only when the inbox holds a
    fresh row for this actor, capability, target and operation summary that a
    named operator approved. *)
Theorem linted_write_needs_approval b caps policy cap t op actor w r w' :
  lint_write_capabilities b caps = Ok tt → br_guard b = Some policy →
  cap ∈ caps → is_read cap = false → deciders (b_guard w) →
  let req := with_capability_meta cap (exec_new actor t op) in
  execute b req w = (r, w') → b_calls w' ≠ b_calls w →
  ∃ id row, g_table (b_guard w) !! id = None ∧ g_table (b_guard w') !! id = Some row ∧
    row_actor_id row = actor ∧ row_capability row = cap_name cap ∧
    row_target_ref row = Some (target_show t) ∧ row_params row = gate_params req ∧
    row_status row = "approved" ∧ row_decided_by row ≠ None.
Proof.
  intros Hl Hb Hcap Hw Hd req. unfold lint_write_capabilities in Hl.
  rewrite lint_loop_ok in Hl. specialize (Hl cap Hcap).
  apply lint_one_ok in Hl as [_ Hna]. specialize (Hna Hw policy Hb).
  intros He Hne.
  destruct (execute_cleared b req w r w' policy Hb Hd He Hne)
    as (_ & [Hro|[Ha|(_ & id & row & Hrow)]]).
  - unfold derive_read_only in Hro. simpl in Hro. congruence.
  - done.
  - by exists id, row.
Qed.
End Broker.

Arguments bworld {_} _ _ _.

(** ** Witnesses: the stub wiring of the crate's tests *)

Module BrokerDemo.
Import DemoSemVer.

Definition router : TargetRef := mkTargetRef "mikrotik-edge".
Definition cred : Credential := SshPassword "admin" "s3cret".
Definition managed : ManagedTarget :=
  mkManaged router Network Ssh "10.0.0.1" 22 "vault://mikrotik" ∅ [].
Definition inv : InMemoryRegistry := (reg_upsert managed registry_new).2.
Definition vault : StubVault := stub_vault_insert (Named "mikrotik") cred (mkStubVault ∅).
Definition transports (k : TransportKind) : option (Transport (list StubRecord)) :=
  match k with Ssh => Some (stub_transport "ssh") | _ => None end.

Definition broker (policy : PolicyEngine) : Broker (D := list StubRecord) :=
  with_guard policy (with_production_admin transports).

Definition policy : PolicyEngine := policy_new GuardDemo.rules.

Definition world (kill : KillState) (sched : list (Z * list env_action)) :
    bworld InMemoryRegistry StubVault (list StubRecord) :=
  mkBworld (GuardDemo.fresh kill sched) inv vault [] [] [] [].

Definition cap_add : Capability :=
  mkCapability "network.firewall.rule.add" (version_new 1 0 0) None None
    (Some (mkCompensating "network.firewall.rule.remove" None)) false.
Definition cap_remove : Capability :=
  mkCapability "network.firewall.rule.remove" (version_new 1 0 0) None None None true.

Definition op : Op := ShellCommand "/ip firewall filter add chain=forward" 30.
Definition req : ExecRequest := with_capability_meta cap_add (exec_new "alice" router op).

Definition run kill sched := execute (broker policy) req (world kill sched).

Lemma world_deciders kill sched : deciders (b_guard (world kill sched)).
Proof. intros id row Hr. discriminate Hr. Qed.
End BrokerDemo.
Import BrokerDemo.

Lemma execute_dispatch_gated_witness :
  ∃ call, b_calls (run kill_new GuardDemo.approving).2 = [] ++ [call] ∧
    dispatchable (broker policy) req (world kill_new GuardDemo.approving) call.
Proof.
  destruct (execute_dispatch_gated (broker policy) req (world kill_new GuardDemo.approving)
    (run kill_new GuardDemo.approving).1 (run kill_new GuardDemo.approving).2)
    as [[_ Hr]|Hcall]; [exact (surjective_pairing (run kill_new GuardDemo.approving))| |exact Hcall].
  exfalso. revert Hr. vm_compute. discriminate.
Defined.

Lemma execute_killed_witness :
  ∃ w', run (engage "drill" kill_new) [] = (Err (BGuard (GKillEngaged "drill")), w') ∧
    b_calls w' = [].
Proof.
  destruct (execute_killed (broker policy) req (world (engage "drill" kill_new) []) policy)
    as (w' & Hr & Hc & _); [reflexivity|reflexivity|].
  exists w'. split; [exact Hr|exact Hc].
Defined.

Lemma execute_audited_witness :
  ∃ ev, b_audit (run kill_new GuardDemo.approving).2 = [] ++ [ev] ∧ ev_actor_id ev = "alice".
Proof.
  destruct (execute_audited (broker policy) req (world kill_new GuardDemo.approving)
    (run kill_new GuardDemo.approving).1 (run kill_new GuardDemo.approving).2)
    as (ev & Ha & Hactor & _); [reflexivity|reflexivity|exact (surjective_pairing (run kill_new GuardDemo.approving))|].
  exists ev. split; [exact Ha|exact Hactor].
Defined.

Lemma execute_write_gated_witness :
  let w' := (run kill_new GuardDemo.approving).2 in
  ∃ id row, g_table (b_guard w') !! id = Some row ∧ row_status row = "approved".
Proof.
  intros w'.
  destruct (execute_write_gated (broker policy) req (world kill_new GuardDemo.approving)
    (run kill_new GuardDemo.approving).1 w' policy) as [Ha|(id & row & _ & Hr & H)].
  - reflexivity.
  - apply world_deciders.
  - intros c [= <-]. reflexivity.
  - exact (surjective_pairing (run kill_new GuardDemo.approving)).
  - assert (length (b_calls w') = 1%nat) as Hl by (vm_compute; reflexivity).
    intros Heq. rewrite Heq in Hl. discriminate Hl.
  - exfalso. revert Ha. vm_compute. discriminate.
  - exists id, row. split; [exact Hr|]. apply H.
Defined.

Lemma linted_write_needs_approval_witness :
  let w' := (run kill_new GuardDemo.approving).2 in
  ∃ id row, g_table (b_guard w') !! id = Some row ∧ row_status row = "approved".
Proof.
  intros w'.
  destruct (linted_write_needs_approval (broker policy) [cap_add; cap_remove] policy cap_add
    router op "alice" (world kill_new GuardDemo.approving)
    (run kill_new GuardDemo.approving).1 w') as (id & row & _ & Hr & H).
  - reflexivity.
  - reflexivity.
  - left.
  - reflexivity.
  - apply world_deciders.
  - exact (surjective_pairing (run kill_new GuardDemo.approving)).
  - assert (length (b_calls w') = 1%nat) as Hl by (vm_compute; reflexivity).
    intros Heq. rewrite Heq in Hl. discriminate Hl.
  - exists id, row. split; [exact Hr|]. apply H.
Defined.
