(* ===== verification/Admin.v ===== *)
(** * daimon-broker: the admin proxy ([daimon-broker/src/admin.rs])

    The operations the console calls on vault, inventory, audit log and approval
    inbox. Each proxied call runs the backend operation, appends an audit event
    about its outcome and returns the outcome. The vault's admin handle is the
    [PostgresVaultClient]; its methods are used through {!VaultAdmin}. *)

From S2P Require Import Prelude RustStd Json Core KillSwitch Policy Approvals Guard.
From S2P Require Import Inventory AuditLog Broker.
From Stdlib Require Import ZArith.

Local Open Scope Z_scope.

(** [CredentialMetadata]. *)
Record CredentialMetadata := mkCredMeta {
  cm_id : Uuid;
  cm_name : string;
  cm_kind : CredentialKind;
  cm_created_at : Z;
  cm_updated_at : Z;
}.

(** The methods of [PostgresVaultClient] the proxy calls. *)
Class VaultAdmin (V : Type) := {
  va_list_metadata : io V VaultError (list CredentialMetadata);
  va_reveal : Uuid → io V VaultError Credential;
  va_create : string → Credential → io V VaultError Uuid;
  va_update : Uuid → Credential → io V VaultError unit;
  va_rename : Uuid → string → io V VaultError unit;
  va_delete : Uuid → io V VaultError unit;
}.

(** What the console relies on: a vault that works holds a table of named
    credentials. Listing shows exactly its ids and names, revealing answers with the
    stored credential, and a successful create or update stores the one given. *)
Class VaultStore (V : Type) `{VaultAdmin V} := {
  vs_holds : V → gmap Uuid (string * Credential) → Prop;
  vs_names v m i j n c d : vs_holds v m → m !! i = Some (n, c) → m !! j = Some (n, d) → i = j;
  vs_list v m : vs_holds v m → ∃ l v', va_list_metadata v = (Ok l, v') ∧ vs_holds v' m ∧
    ∀ i n, (∃ k c u, mkCredMeta i n k c u ∈ l) ↔ fst <$> m !! i = Some n;
  vs_reveal v m i n c : vs_holds v m → m !! i = Some (n, c) →
    ∃ v', va_reveal i v = (Ok c, v') ∧ vs_holds v' m;
  vs_create v m n c i v' : vs_holds v m → va_create n c v = (Ok i, v') →
    vs_holds v' (<[i := (n, c)]> m);
  vs_update v m i n c c' v' : vs_holds v m → m !! i = Some (n, c) →
    va_update i c' v = (Ok tt, v') → vs_holds v' (<[i := (n, c')]> m);
}.

Definition show_cred_kind (k : CredentialKind) : string :=
  match k with
  | KSshKey => "SshKey" | KSshPassword => "SshPassword"
  | KApiToken => "ApiToken" | KGeneric => "Generic"
  end.

Section Admin.
Context `{SemVer} {I V D : Type} `{Inventory I} `{VaultAdmin V}.
Abbreviation bw := (@bworld _ I V D).
Abbreviation bio := (io bw BrokerError).

(** The event [audit_action] emits. *)
Definition action_event {A E} (show : E → string) (actor_id : string) (action : ActionKind)
    (target credential summary : option string) (r : result E A) (latency : Z) :
    NewAuditEvent :=
  let ev := with_latency_ms latency
    (audit_event_new actor_id action (match r with Ok _ => ASuccess | Err _ => AError end)) in
  let ev := with_opt with_target target ev in
  let ev := with_opt with_credential credential ev in
  let ev := with_opt with_op_summary summary ev in
  match r with Ok _ => ev | Err e => with_metadata "error" (show e) ev end.

(** [Broker::audit_action]. *)
Definition audit_action {A E} (b : Broker) (show : E → string) (actor_id : string)
    (action : ActionKind) (target credential summary : option string) (r : result E A)
    (start : Z) : bio unit :=
  if negb (br_audit (D := D) b) then mret tt
  else
    gets (λ w, g_now (b_guard w)) ≫= λ now,
    attempt (sink_append
      (action_event show actor_id action target credential summary r (now - start)))
      ≫= λ _, mret tt.

(** Run a backend call, audit its outcome, return it: the shape the proxies
    share. [cred] and the rest may depend on the outcome. *)
Definition proxied {A E} (b : Broker) (show : E → string) (wrap : E → BrokerError)
    (actor_id : string) (action : ActionKind) (target : option string)
    (credential : result E A → option string) (summary : option string)
    (m : io bw E A) : bio A :=
  gets (λ w, g_now (b_guard w)) ≫= λ start,
  attempt m ≫= λ r,
  audit_action b show actor_id action target (credential r) summary r start ≫= λ _,
  lift (map_err wrap r).

(** [require_vault_admin], [require_audit_sink], [require_guard]. *)
Definition require_vault_admin (b : Broker (D := D)) : bio unit :=
  if br_vault_admin b then mret tt else throw (BAdminBackendNotAvailable "vault").
Definition require_audit_sink (b : Broker (D := D)) : bio unit :=
  if br_audit b then mret tt else throw (BAdminBackendNotAvailable "audit").
Definition require_guard (b : Broker (D := D)) : bio PolicyEngine :=
  lift (ok_or (br_guard b) (BAdminBackendNotAvailable "guard")).

Definition on_vault_admin {A} (m : io V VaultError A) : io bw VaultError A :=
  zoom b_vault set_vault m.

Definition vault_call {A} (b : Broker) (actor_id : string) (action : ActionKind)
    (credential summary : option string) (m : io V VaultError A) : bio A :=
  require_vault_admin b ≫= λ _,
  proxied b show_vault_error BVault actor_id action None (λ _, credential) summary
    (on_vault_admin m).

(** The vault proxies. *)
Definition vault_list_metadata (b : Broker) (actor_id : string) :
    bio (list CredentialMetadata) :=
  vault_call b actor_id VaultResolve None (Some "vault list") va_list_metadata.

Definition vault_reveal (b : Broker) (actor_id : string) (id : Uuid) : bio Credential :=
  vault_call b actor_id VaultReveal (Some ("id=" +:+ id))
    (Some ("revealed credential id=" +:+ id)) (va_reveal id).

Definition vault_create (b : Broker) (actor_id name : string) (cred : Credential) :
    bio Uuid :=
  vault_call b actor_id VaultCreate (Some ("vault://" +:+ name))
    (Some ("created credential kind=" +:+ show_cred_kind (cred_kind cred)))
    (va_create name cred).

Definition vault_update (b : Broker) (actor_id : string) (id : Uuid) (cred : Credential) :
    bio unit :=
  vault_call b actor_id VaultUpdate (Some ("id=" +:+ id))
    (Some ("updated credential id=" +:+ id)) (va_update id cred).

Definition vault_rename (b : Broker) (actor_id : string) (id : Uuid) (new_name : string) :
    bio unit :=
  vault_call b actor_id VaultRename (Some ("vault://" +:+ new_name))
    (Some ("renamed credential id=" +:+ id +:+ " to " +:+ new_name)) (va_rename id new_name).

Definition vault_delete (b : Broker) (actor_id : string) (id : Uuid) : bio unit :=
  vault_call b actor_id VaultDelete (Some ("id=" +:+ id))
    (Some ("deleted credential id=" +:+ id)) (va_delete id).

(** The inventory proxies. *)
Definition inventory_list (k : option TargetKind) (w : bw) : list TargetMetadata :=
  inv_list k (b_inv w).

Definition inventory_get_metadata (t : TargetRef) : bio TargetMetadata :=
  io_map_err BInventory (on_inv (get_metadata t)).

Definition inventory_get_managed (b : Broker) (actor_id : string) (t : TargetRef) :
    bio ManagedTarget :=
  proxied b show_inventory_error BInventory actor_id InventoryResolve (Some (target_show t))
    (λ r, mt_credential_ref <$> ok r) (Some "inventory get_managed") (on_inv (get_managed t)).

Definition inventory_upsert (b : Broker) (actor_id : string) (t : ManagedTarget) : bio unit :=
  proxied b show_inventory_error BInventory actor_id InventoryUpsert
    (Some (target_show (mt_ref t))) (λ _, None) (Some "inventory upsert")
    (on_inv (inv_upsert t)).

Definition inventory_remove (b : Broker) (actor_id : string) (t : TargetRef) : bio unit :=
  proxied b show_inventory_error BInventory actor_id InventoryRemove (Some (target_show t))
    (λ _, None) (Some "inventory remove") (on_inv (inv_remove t)).

(** [audit_memory_op], [audit_admin_action]: here a refused append is the
    caller's error. *)
Definition with_all (kvs : list (string * string)) (e : NewAuditEvent) : NewAuditEvent :=
  fold_left (λ e kv, with_metadata kv.1 kv.2 e) kvs e.

Definition audit_memory_op (b : Broker) (actor_id : string) (action : ActionKind)
    (target summary : option string) (latency : Z) (success : bool)
    (kvs : list (string * string)) : bio unit :=
  require_audit_sink b ≫= λ _,
  let ev := with_latency_ms latency
    (audit_event_new actor_id action (if success then ASuccess else AError)) in
  io_map_err BAudit (sink_append
    (with_all kvs (with_opt with_op_summary summary (with_opt with_target target ev)))).

Definition audit_admin_action (b : Broker) (actor_id : string) (action : ActionKind)
    (target credential summary : option string) (kvs : gmap string string) : bio unit :=
  require_audit_sink b ≫= λ _,
  let ev := audit_event_new actor_id action ASuccess in
  let ev := with_opt with_op_summary summary
              (with_opt with_credential credential (with_opt with_target target ev)) in
  io_map_err BAudit (sink_append (with_all (btree_iter kvs) ev)).

(** [approvals_pending], [approvals_decide]. *)
Definition on_inbox {A} (m : io gworld GuardError A) : bio A :=
  io_map_err (λ e, BAudit (show_guard_error e)) (zoom b_guard set_guard m).

Definition approvals_pending (b : Broker) (limit : Z) : bio (list ApprovalRecord) :=
  require_guard b ≫= λ _, on_inbox (list_pending limit).

Definition approvals_decide (b : Broker) (id decided_by : Uuid) (st : ApprovalStatus) :
    bio ApprovalRecord :=
  require_guard b ≫= λ _, on_inbox (decide_approval id decided_by st).

(** ** Properties *)

(** A backend call that does not reach the audit log. *)
Definition no_audit {A E} (m : io bw E A) : Prop :=
  ∀ w, b_audit (m w).2 = b_audit w ∧ b_audit_faults (m w).2 = b_audit_faults w.

Lemma no_audit_inv {A} (m : io I InventoryError A) : no_audit (on_inv (V:=V) (D:=D) m).
Proof. intros w. unfold on_inv, zoom. by destruct (m (b_inv w)). Qed.

Lemma no_audit_vault {A} (m : io V VaultError A) : no_audit (on_vault_admin m).
Proof. intros w. unfold on_vault_admin, zoom. by destruct (m (b_vault w)). Qed.

(** What a vault proxy does to the vault and answers, whatever the audit sink does. *)
Lemma vault_call_run {A} b actor action cred summary (m : io V VaultError A) w :
  br_vault_admin b = true →
  ∃ w', vault_call b actor action cred summary m w = (map_err BVault (m (b_vault w)).1, w') ∧
    b_vault w' = (m (b_vault w)).2 ∧ b_guard w' = b_guard w.
Proof.
  intros Hb. unfold vault_call, require_vault_admin, proxied, on_vault_admin, zoom, audit_action,
    attempt, sink_append, gets, mbind, io_bind, lift, mret, io_ret. rewrite Hb.
  destruct (m (b_vault w)) as [r v]. simpl. destruct (br_audit b); simpl; [|eauto].
  destruct (b_audit_faults w) as [|[e|] f]; simpl; eauto.
Qed.

Lemma proxied_audited {A E} b show wrap actor action target cred summary (m : io bw E A) w :
  br_audit b = true → b_audit_faults w = [] → no_audit m →
  ∃ ev latency, let '(r, w1) := m w in
    (proxied b show wrap actor action target cred summary m w).1 = map_err wrap r ∧
    b_audit (proxied b show wrap actor action target cred summary m w).2
      = b_audit w ++ [ev] ∧
    ev = action_event show actor action target (cred r) summary r latency.
Proof.
  intros Hb Hf Hm. destruct (Hm w) as [Ha Hf1].
  unfold proxied, audit_action, attempt, sink_append, gets, mbind, io_bind, lift, mret, io_ret.
  destruct (m w) as [r w1]. simpl in *. rewrite Hb. simpl. rewrite Hf1, Hf, Ha. simpl.
  by do 2 eexists.
Qed.

(** Every state-changing vault and inventory operation leaves exactly one
    audit record: with the admin wiring in place and the sink's storage up, each
    of the calls below appends one event with the caller's actor id and the
    call's own action, whose tag is success exactly when the caller gets a
    result. *)
Theorem admin_calls_audited b actor w :
  br_audit b = true → br_vault_admin b = true → b_audit_faults w = [] →
  let audited {A} (action : ActionKind) (m : bio A) : Prop :=
    ∃ ev, b_audit (m w).2 = b_audit w ++ [ev] ∧ ev_actor_id ev = actor ∧
      ev_action ev = action ∧ ev_result ev = (if is_ok (m w).1 then ASuccess else AError) in
  (∀ name cred, audited VaultCreate (vault_create b actor name cred)) ∧
  (∀ id cred, audited VaultUpdate (vault_update b actor id cred)) ∧
  (∀ id name, audited VaultRename (vault_rename b actor id name)) ∧
  (∀ id, audited VaultDelete (vault_delete b actor id)) ∧
  (∀ id, audited VaultReveal (vault_reveal b actor id)) ∧
  (∀ t, audited InventoryUpsert (inventory_upsert b actor t)) ∧
  (∀ t, audited InventoryRemove (inventory_remove b actor t)) ∧
  (∀ t, audited InventoryResolve (inventory_get_managed b actor t)).
Proof.
  intros Hb Hv Hf audited.
  assert (∀ A E show wrap action target cred summary (m : io bw E A), no_audit m →
    audited A action (proxied b show wrap actor action target cred summary m)) as Hp.
  { intros A E show wrap action target cred summary m Hm.
    destruct (proxied_audited b show wrap actor action target cred summary m w Hb Hf Hm)
      as (ev & lat & Hr). destruct (m w) as [r w1]. destruct Hr as (Hr & Ha & Hev).
    exists ev. rewrite Hr. split; [done|]. rewrite Hev. unfold action_event.
    destruct r, target, (cred _), summary; by simpl. }
  assert (∀ A action cred summary (m : io V VaultError A),
    audited A action (vault_call b actor action cred summary m)) as Hvc.
  { intros. unfold vault_call, require_vault_admin. rewrite Hv.
    apply Hp, no_audit_vault. }
  repeat split; intros; try apply Hvc; apply Hp, no_audit_inv.
Qed.

(** Deciding an approval is not audited by the broker: [approvals_decide]
    never appends an audit event, whatever its outcome. *)
Theorem approvals_decide_unaudited b id by_ st w :
  b_audit (approvals_decide b id by_ st w).2 = b_audit w.
Proof.
  unfold approvals_decide, require_guard, on_inbox, io_map_err, zoom, lift, mbind, io_bind.
  destruct (ok_or _ _); [|done].
  by destruct (decide_approval id by_ st (b_guard w)).
Qed.

(** Revealing a credential is only best-effort audited: when the sink
    refuses the append the secret is still returned and no event is recorded. *)
Theorem vault_reveal_despite_audit_failure b actor id w cred v e f :
  br_audit b = true → br_vault_admin b = true → b_audit_faults w = Some e :: f →
  va_reveal id (b_vault w) = (Ok cred, v) →
  (vault_reveal b actor id w).1 = Ok cred ∧
  b_audit (vault_reveal b actor id w).2 = b_audit w.
Proof.
  intros Hb Hv Hf Hr. unfold vault_reveal, vault_call, require_vault_admin, proxied,
    audit_action, on_vault_admin, attempt, zoom, sink_append, gets, mbind, io_bind, lift,
    mret, io_ret. rewrite Hv. simpl. rewrite Hr, Hb. simpl. by rewrite Hf.
Qed.
End Admin.

(** ** Witnesses *)

Module AdminDemo.
Import DemoSemVer.
(** An admin handle over the stub store: credentials are revealed by name, the
    writes are refused. *)
#[export] Instance demo_vault_admin : VaultAdmin StubVault := {|
  va_list_metadata := λ v, (Ok [], v);
  va_reveal := λ id v, (ok_or (stub_creds v !! id) (VNotFound id), v);
  va_create := λ _ _ v, (Err VSessionLocked, v);
  va_update := λ _ _ v, (Err VSessionLocked, v);
  va_rename := λ _ _ v, (Err VSessionLocked, v);
  va_delete := λ _ v, (Err VSessionLocked, v);
|}.

Definition broker := BrokerDemo.broker BrokerDemo.policy.
Definition world faults :=
  mkBworld (I := InMemoryRegistry) (D := list StubRecord)
    (GuardDemo.fresh kill_new []) BrokerDemo.inv BrokerDemo.vault [] [] [] faults.
End AdminDemo.
Import AdminDemo.

Lemma admin_calls_audited_witness :
  ∃ ev, b_audit (inventory_remove broker "user:root" BrokerDemo.router (world [])).2
          = [] ++ [ev] ∧ ev_actor_id ev = "user:root" ∧ ev_action ev = InventoryRemove.
Proof.
  destruct (admin_calls_audited broker "user:root" (world []) eq_refl eq_refl eq_refl)
    as (_ & _ & _ & _ & _ & _ & Hrm & _).
  destruct (Hrm BrokerDemo.router) as (ev & Ha & Hactor & Hact & _). by exists ev.
Defined.

Lemma vault_reveal_despite_audit_failure_witness :
  (vault_reveal broker "user:root" "vault://mikrotik" (world [Some "disk full"])).1
    = Ok BrokerDemo.cred.
Proof.
  apply (vault_reveal_despite_audit_failure broker "user:root" "vault://mikrotik"
    (world [Some "disk full"]) BrokerDemo.cred BrokerDemo.vault "disk full" []);
    reflexivity.
Defined.
