(* ===== verification/Vault.v ===== *)
(** * The Postgres vault ([daimon-vault/src/{sealed,master_key,postgres_client}.rs])

    Sealing of credential payloads, loading of the master key, and the production
    vault: one sealed row of [vault.credentials] per credential and a cache of
    resolved credentials with a five-minute lifetime. The cipher, the hex codec,
    the LRU map and serde's JSON codec are classes with their documented laws.
    The vault's world contains the other tasks: each statement carries what
    others did to the table and the cache between the server's answer and the
    moment the task runs again. *)

From S2P Require Import Prelude RustStd Json Core Inventory.
From S2P Require Import KillSwitch Policy Approvals Guard AuditLog Broker Admin.
From Stdlib Require Import ZArith Ascii.

Local Open Scope Z_scope.

(** [Vec<u8>]. *)
Abbreviation blob := (list ascii) (only parsing).

(** ** Third-party codecs *)

(** [chacha20poly1305]: what was encrypted under a key and nonce decrypts under
    them. *)
Class Aead := {
  aead_encrypt : blob → blob → blob → result string blob;
  aead_decrypt : blob → blob → blob → result string blob;
  aead_correct : ∀ k n p c, aead_encrypt k n p = Ok c → aead_decrypt k n c = Ok p;
}.

(** [hex::decode] and [hex::encode]. *)
Class Hex := {
  hex_decode : string → option blob;
  hex_encode : blob → string;
  hex_roundtrip : ∀ b, hex_decode (hex_encode b) = Some b;
  hex_no_space : ∀ b, trim (hex_encode b) = hex_encode b;
}.

(** [serde_json::to_vec] and [from_slice] at [Credential]. *)
Class CredentialCodec := {
  cred_to_vec : Credential → result string blob;
  cred_from_slice : blob → result string Credential;
  cred_codec_roundtrip : ∀ c b, cred_to_vec c = Ok b → cred_from_slice b = Ok c;
}.

(** [lru::LruCache<String, _>]: a bounded map. A lookup refreshes an entry and
    drops none; an insertion may evict other entries. *)
Class LruCache (C : Type → Type) := {
  lru_new : ∀ {E}, C E;
  lru_peek : ∀ {E}, C E → string → option E;
  lru_get : ∀ {E}, string → C E → option E * C E;
  lru_put : ∀ {E}, string → E → C E → C E;
  lru_pop : ∀ {E}, string → C E → C E;
  lru_clear : ∀ {E}, C E → C E;
  lru_peek_new : ∀ E k, lru_peek (lru_new (E:=E)) k = None;
  lru_get_peek : ∀ E k (c : C E), (lru_get k c).1 = lru_peek c k;
  lru_peek_get : ∀ E k k' (c : C E), lru_peek (lru_get k c).2 k' = lru_peek c k';
  lru_peek_put_eq : ∀ E k (e : E) c, lru_peek (lru_put k e c) k = Some e;
  lru_peek_put_ne : ∀ E k k' (e : E) c, k ≠ k' →
    lru_peek (lru_put k e c) k' = lru_peek c k' ∨ lru_peek (lru_put k e c) k' = None;
  lru_peek_pop_eq : ∀ E k (c : C E), lru_peek (lru_pop k c) k = None;
  lru_peek_pop_ne : ∀ E k k' (c : C E), k ≠ k' →
    lru_peek (lru_pop k c) k' = lru_peek c k';
  lru_peek_clear : ∀ E k (c : C E), lru_peek (lru_clear c) k = None;
}.

(** ** Sealing ([sealed.rs]) *)

Definition SEAL_KEY_LEN : nat := 32.
Definition SEAL_NONCE_LEN : nat := 24.

Inductive SealError :=
| EnvKeyMissing
| InvalidHex
| InvalidKeyLength (n : nat)
| TruncatedPayload
| SealEncrypt (msg : string)
| SealDecrypt (msg : string).

(** [Display for SealError]. *)
Definition show_seal_error (e : SealError) : string :=
  match e with
  | EnvKeyMissing => "DAIMON_VAULT_SEAL_KEY env var is not set"
  | InvalidHex => "seal key is not valid hex"
  | InvalidKeyLength n =>
      "seal key must be exactly 32 bytes (64 hex chars), got " +:+ show_Z (Z.of_nat n)
  | TruncatedPayload => "sealed payload truncated below nonce length"
  | SealEncrypt m => "encryption failed: " +:+ m
  | SealDecrypt m => "decryption failed (wrong key or tampered payload): " +:+ m
  end.

(** [SealedSession]: the cipher state is the key. *)
Record SealedSession := mkSealed { seal_key : blob }.

(** An environment variable: absent, text, or not Unicode. *)
Inductive env_value := EnvText (s : string) | EnvNotUnicode.

(** [std::env::var]: [None] stands for both of its errors. *)
Definition env_var (env : gmap string env_value) (k : string) : option string :=
  match env !! k with Some (EnvText s) => Some s | _ => None end.

Section Sealed.
Context `{Aead} `{Hex}.

Definition sealed_from_key (key : blob) : SealedSession := mkSealed key.

Definition sealed_from_hex (hex_key : string) : result SealError SealedSession :=
  match hex_decode (trim hex_key) with
  | None => Err InvalidHex
  | Some bs =>
      if negb (length bs =? SEAL_KEY_LEN)%nat then Err (InvalidKeyLength (length bs))
      else Ok (mkSealed bs)
  end.

Definition sealed_from_env (env : gmap string env_value) : result SealError SealedSession :=
  ok_or (env_var env "DAIMON_VAULT_SEAL_KEY") EnvKeyMissing ≫= sealed_from_hex.

(** [SealedSession::seal]. *)
Definition seal (s : SealedSession) (plaintext : blob) (r : rng) :
    result SealError blob * rng :=
  let '(nonce_bytes, r) := fill_bytes SEAL_NONCE_LEN r in
  (match aead_encrypt (seal_key s) nonce_bytes plaintext with
   | Ok ciphertext => Ok (nonce_bytes ++ ciphertext)
   | Err e => Err (SealEncrypt e)
   end, r).

(** [SealedSession::unseal]. *)
Definition unseal (s : SealedSession) (sealed : blob) : result SealError blob :=
  if (length sealed <? SEAL_NONCE_LEN)%nat then Err TruncatedPayload
  else
    let nonce_bytes := take SEAL_NONCE_LEN sealed in
    let ciphertext := drop SEAL_NONCE_LEN sealed in
    map_err SealDecrypt (aead_decrypt (seal_key s) nonce_bytes ciphertext).

(** [SealedSession::generate_key_hex]. *)
Definition generate_key_hex (r : rng) : string * rng :=
  let '(key, r) := fill_bytes SEAL_KEY_LEN r in (hex_encode key, r).

(** A sealed payload starts with its nonce and unseals to the plaintext. *)
Lemma unseal_seal s p r b r' : seal s p r = (Ok b, r') → unseal s b = Ok p.
Proof.
  unfold seal, unseal. pose proof (fill_bytes_length SEAL_NONCE_LEN r) as Hl.
  destruct (fill_bytes SEAL_NONCE_LEN r) as [n r1]. simpl in Hl.
  destruct (aead_encrypt (seal_key s) n p) as [c|] eqn:Hc; intros; simplify_eq.
  rewrite length_app, Hl. replace (_ <? _)%nat with false
    by (symmetry; apply Nat.ltb_ge; lia).
  rewrite take_app_length', drop_app_length' by done.
  by rewrite (aead_correct _ _ _ _ Hc).
Qed.

(** A generated key is one [from_hex] accepts. *)
Lemma generated_key_accepted r :
  ∃ k, length k = SEAL_KEY_LEN ∧
    sealed_from_hex (generate_key_hex r).1 = Ok (sealed_from_key k).
Proof.
  unfold generate_key_hex, sealed_from_hex.
  pose proof (fill_bytes_length SEAL_KEY_LEN r) as Hl.
  destruct (fill_bytes SEAL_KEY_LEN r) as [k r']. simpl in *.
  exists k. split; [done|]. by rewrite hex_no_space, hex_roundtrip, Hl.
Qed.
End Sealed.

(** ** The master key ([master_key.rs]) *)

Inductive MasterKeyError :=
| KeyIo (path source : string)
| KeyInvalidLength (expected actual : nat)
| KeyBootstrap (msg : string).

Record MasterKey := mkMasterKey { mk_bytes : blob }.

(** The host at boot: environment variables and [std::fs::read]. *)
Record host := mkHost {
  host_env : gmap string env_value;
  host_read : string → result string blob;
}.

(** [PathBuf::join] with a relative component. *)
Definition path_join (dir name : string) : string :=
  match dir with
  | EmptyString => name
  | _ => match strip_suffix "/" dir with
         | Some _ => dir +:+ name
         | None => dir +:+ "/" +:+ name
         end
  end.

(** [MasterKey::from_path]. *)
Definition key_from_path (h : host) (path : string) : result MasterKeyError MasterKey :=
  match host_read h path with
  | Err e => Err (KeyIo path e)
  | Ok bs =>
      if negb (length bs =? SEAL_KEY_LEN)%nat
      then Err (KeyInvalidLength SEAL_KEY_LEN (length bs))
      else Ok (mkMasterKey bs)
  end.

(** [MasterKey::from_systemd_credential]. *)
Definition from_systemd_credential (h : host) : result MasterKeyError MasterKey :=
  key_from_path h
    match env_var (host_env h) "CREDENTIALS_DIRECTORY" with
    | Some dir => path_join dir "vault-master"
    | None => "/run/credentials/daimon.service/vault-master"
    end.

Definition no_key_source : string :=
  "no CREDENTIALS_DIRECTORY (systemd) and no DAIMON_MASTER_KEY_FILE (development fallback) — master key cannot be loaded".

(** [MasterKey::from_systemd_or_dev_env]; [var_os] sees a variable whatever its
    encoding. *)
Definition from_systemd_or_dev_env (h : host) : result MasterKeyError MasterKey :=
  if decide (is_Some (host_env h !! "CREDENTIALS_DIRECTORY"))
  then from_systemd_credential h
  else match env_var (host_env h) "DAIMON_MASTER_KEY_FILE" with
       | Some path => key_from_path h path
       | None => Err (KeyBootstrap no_key_source)
       end.

(** ** The vault client ([postgres_client.rs]) *)

Definition DEFAULT_CACHE_TTL : Z := 300 * 1000.

(** [kind_to_str], [parse_kind]. *)
Definition cred_kind_to_str (k : CredentialKind) : string :=
  match k with
  | KSshKey => "SshKey" | KSshPassword => "SshPassword"
  | KApiToken => "ApiToken" | KGeneric => "Generic"
  end.

Definition parse_cred_kind (s : string) : result VaultError CredentialKind :=
  if string_eqb s "SshKey" then Ok KSshKey
  else if string_eqb s "SshPassword" then Ok KSshPassword
  else if string_eqb s "ApiToken" then Ok KApiToken
  else if string_eqb s "Generic" then Ok KGeneric
  else Err (VDecode ("unknown kind: " +:+ s)).

(** A row of [vault.credentials]. *)
Record vault_row := mkVaultRow {
  vr_name : string;
  vr_kind : string;
  vr_sealed : blob;
  vr_version : Z;
  vr_created : Z;
  vr_updated : Z;
}.

Abbreviation vault_table := (gmap Uuid vault_row) (only parsing).

Record CacheEntry := mkCacheEntry { ce_cred : Credential; ce_inserted_at : Z }.

(** What happens while the task is suspended: time passes, others change the
    table, and another task of this process clears the shared cache. *)
Record others := mkOthers {
  ot_delay : Z;
  ot_rows : vault_table → vault_table;
  ot_clear : bool;
}.

(** One statement: others before it runs, the error of the pool or the server if
    it fails, others before the task resumes. *)
Inductive vfault := NoFault | PoolFault (e : string) | StmtFault (e : string).
Record vstep := mkVStep { vs_before : others; vs_fault : vfault; vs_after : others }.

Definition quiet_others : others := mkOthers 0 id false.
Definition quiet_step : vstep := mkVStep quiet_others NoFault quiet_others.

(** The row a unique text column selects. *)
Definition by_name {R} (column : R → string) (name : string) (m : gmap Uuid R) :
    option (Uuid * R) :=
  find (λ r, string_eqb (column r.2) name) (map_to_list m).

(** The unique index would refuse [name] for the row [except]. *)
Definition name_taken {R} (column : R → string) (name : string) (except : option Uuid)
    (m : gmap Uuid R) : bool :=
  match by_name column name m with
  | Some (id, _) => negb (bool_decide (except = Some id))
  | None => false
  end.

(** The text of a violated uniqueness constraint. *)
Class UniqueMessage := unique_message : string → string.

Section Vault.
Context `{Aead} `{CredentialCodec} {C : Type → Type} `{LruCache C} `{UniqueMessage}.
(** [ORDER BY name] follows the database's collation. *)
Context (name_order : vault_table → list (Uuid * vault_row)).

(** [PostgresVaultClient] with the world around it. [pv_uuids] are the ids
    [gen_random_uuid()] will draw. *)
Record PgVault := mkPgVault {
  pv_sealer : SealedSession;
  pv_rows : vault_table;
  pv_cache : C CacheEntry;
  pv_now : Z;
  pv_rng : rng;
  pv_uuids : nat → Uuid;
  pv_drawn : nat;
  pv_steps : list vstep;
}.

Definition set_pv_rows (x : vault_table) (w : PgVault) : PgVault :=
  mkPgVault (pv_sealer w) x (pv_cache w) (pv_now w) (pv_rng w) (pv_uuids w) (pv_drawn w)
    (pv_steps w).
Definition set_pv_cache (x : C CacheEntry) (w : PgVault) : PgVault :=
  mkPgVault (pv_sealer w) (pv_rows w) x (pv_now w) (pv_rng w) (pv_uuids w) (pv_drawn w)
    (pv_steps w).
Definition set_pv_now (x : Z) (w : PgVault) : PgVault :=
  mkPgVault (pv_sealer w) (pv_rows w) (pv_cache w) x (pv_rng w) (pv_uuids w) (pv_drawn w)
    (pv_steps w).
Definition set_pv_rng (x : rng) (w : PgVault) : PgVault :=
  mkPgVault (pv_sealer w) (pv_rows w) (pv_cache w) (pv_now w) x (pv_uuids w) (pv_drawn w)
    (pv_steps w).
Definition set_pv_drawn (x : nat) (w : PgVault) : PgVault :=
  mkPgVault (pv_sealer w) (pv_rows w) (pv_cache w) (pv_now w) (pv_rng w) (pv_uuids w) x
    (pv_steps w).
Definition set_pv_steps (x : list vstep) (w : PgVault) : PgVault :=
  mkPgVault (pv_sealer w) (pv_rows w) (pv_cache w) (pv_now w) (pv_rng w) (pv_uuids w)
    (pv_drawn w) x.

(** [PostgresVaultClient::new]: an empty cache over the existing table. *)
Definition pg_vault_new (key : MasterKey) (rows : vault_table) (now : Z) (r : rng)
    (uuids : nat → Uuid) (drawn : nat) (steps : list vstep) : PgVault :=
  mkPgVault (sealed_from_key (mk_bytes key)) rows lru_new now r uuids drawn steps.

Abbreviation vio := (io PgVault VaultError).

Definition run_others (o : others) (w : PgVault) : PgVault :=
  let w := set_pv_now (pv_now w + Z.max 0 (ot_delay o)) w in
  let w := set_pv_rows (ot_rows o (pv_rows w)) w in
  if ot_clear o then set_pv_cache (lru_clear (pv_cache w)) w else w.

(** [pool.get().await] and a statement, labelled [what] in error messages. *)
Definition vquery {A} (what : string) (stmt : PgVault → result string A * PgVault) : vio A :=
  λ w,
    let step := default quiet_step (head (pv_steps w)) in
    let w := run_others (vs_before step) (set_pv_steps (tail (pv_steps w)) w) in
    match vs_fault step with
    | PoolFault e => (Err (VTransport ("pool: " +:+ e)), w)
    | StmtFault e =>
        (Err (VTransport (what +:+ ": " +:+ e)), run_others (vs_after step) w)
    | NoFault =>
        let '(r, w) := stmt w in
        (map_err (λ e, VTransport (what +:+ ": " +:+ e)) r, run_others (vs_after step) w)
    end.

(** The [INSERT], [UPDATE] and [DELETE] statements; [UPDATE] touches
    [updated_at] by trigger and answers with the number of rows. *)
Definition stmt_insert (name kind : string) (sealed : blob) (w : PgVault) :
    result string Uuid * PgVault :=
  let id := pv_uuids w (pv_drawn w) in
  let w := set_pv_drawn (S (pv_drawn w)) w in
  if bool_decide (is_Some (pv_rows w !! id)) then (Err (unique_message "id"), w)
  else if name_taken vr_name name None (pv_rows w) then (Err (unique_message "name"), w)
  else (Ok id, set_pv_rows
          (<[id := mkVaultRow name kind sealed 1 (pv_now w) (pv_now w)]> (pv_rows w)) w).

Definition stmt_update (id : Uuid) (kind : string) (sealed : blob) (w : PgVault) :
    result string bool * PgVault :=
  match pv_rows w !! id with
  | None => (Ok false, w)
  | Some r =>
      (Ok true, set_pv_rows
        (<[id := mkVaultRow (vr_name r) kind sealed (vr_version r) (vr_created r) (pv_now w)]>
           (pv_rows w)) w)
  end.

Definition stmt_rename (id : Uuid) (name : string) (w : PgVault) :
    result string bool * PgVault :=
  match pv_rows w !! id with
  | None => (Ok false, w)
  | Some r =>
      if name_taken vr_name name (Some id) (pv_rows w) then (Err (unique_message "name"), w)
      else (Ok true, set_pv_rows
        (<[id := mkVaultRow name (vr_kind r) (vr_sealed r) (vr_version r) (vr_created r)
                   (pv_now w)]> (pv_rows w)) w)
  end.

Definition stmt_delete (id : Uuid) (w : PgVault) : result string bool * PgVault :=
  (Ok (bool_decide (is_Some (pv_rows w !! id))), set_pv_rows (delete id (pv_rows w)) w).

(** Serialize and seal a credential. *)
Definition seal_credential (cred : Credential) : vio blob := λ w,
  match cred_to_vec cred with
  | Err e => (Err (VOther ("serialize: " +:+ e)), w)
  | Ok b =>
      let '(r, g) := seal (pv_sealer w) b (pv_rng w) in
      (map_err (λ e, VOther ("seal: " +:+ show_seal_error e)) r, set_pv_rng g w)
  end.

(** Unseal and decode a payload. *)
Definition open_payload (s : SealedSession) (sealed : blob) : result VaultError Credential :=
  map_err (λ e, VOther ("unseal: " +:+ show_seal_error e)) (unseal s sealed) ≫= λ b,
  map_err (λ e, VOther ("decode: " +:+ e)) (cred_from_slice b).

(** [invalidate_cache_for_id]: the whole cache is cleared. *)
Definition invalidate_cache_for_id (id : Uuid) : vio unit :=
  modify (λ w, set_pv_cache (lru_clear (pv_cache w)) w).

(** [list_metadata]. *)
Definition vault_list : vio (list CredentialMetadata) :=
  vquery "list" (λ w, (Ok (name_order (pv_rows w)), w)) ≫= λ rows,
  lift (foldr (λ r acc, parse_cred_kind (vr_kind r.2) ≫= λ k, acc ≫= λ l,
                 Ok (mkCredMeta r.1 (vr_name r.2) k (vr_created r.2) (vr_updated r.2) :: l))
          (Ok []) rows).

(** [create]. *)
Definition pg_vault_create (name : string) (cred : Credential) : vio Uuid :=
  let kind := cred_kind cred in
  seal_credential cred ≫= λ sealed,
  vquery "insert" (stmt_insert name (cred_kind_to_str kind) sealed).

(** The row count of a statement on [id]: none is [NotFound], one invalidates the
    cache. *)
Definition touched (id : Uuid) (n : bool) : vio unit :=
  if n then invalidate_cache_for_id id else throw (VNotFound id).

(** [update], [rename], [delete]. *)
Definition pg_vault_update (id : Uuid) (cred : Credential) : vio unit :=
  let kind := cred_kind cred in
  seal_credential cred ≫= λ sealed,
  vquery "update" (stmt_update id (cred_kind_to_str kind) sealed) ≫= touched id.

Definition pg_vault_rename (id : Uuid) (new_name : string) : vio unit :=
  vquery "rename" (stmt_rename id new_name) ≫= touched id.

Definition pg_vault_delete (id : Uuid) : vio unit :=
  vquery "delete" (stmt_delete id) ≫= touched id.

(** [reveal]. *)
Definition pg_vault_reveal (id : Uuid) : vio Credential :=
  vquery "reveal" (λ w, (Ok (vr_sealed <$> pv_rows w !! id), w)) ≫= λ o,
  lift (ok_or o (VNotFound id)) ≫= λ sealed,
  gets pv_sealer ≫= λ s, lift (open_payload s sealed).

(** The cache part of [resolve]: a live entry, or none after dropping an expired
    one. *)
Definition cache_lookup (name : string) : vio (option Credential) := λ w,
  let '(o, c) := lru_get name (pv_cache w) in
  let w := set_pv_cache c w in
  match o with
  | Some e =>
      if pv_now w - ce_inserted_at e <? DEFAULT_CACHE_TTL then (Ok (Some (ce_cred e)), w)
      else (Ok None, set_pv_cache (lru_pop name (pv_cache w)) w)
  | None => (Ok None, w)
  end.

(** The rest of [resolve]: read, open, cache. *)
Definition resolve_miss (name shown : string) : vio Credential :=
  vquery "resolve" (λ w, (Ok (vr_sealed ∘ snd <$> by_name vr_name name (pv_rows w)), w)) ≫= λ o,
  lift (ok_or o (VNotFound shown)) ≫= λ sealed,
  gets pv_sealer ≫= λ s, lift (open_payload s sealed) ≫= λ cred,
  modify (λ w, set_pv_cache (lru_put name (mkCacheEntry cred (pv_now w)) (pv_cache w)) w)
    ≫= λ _, mret cred.

(** [VaultClient::resolve]. *)
Definition pg_vault_resolve (vref : CredentialRef) : vio Credential :=
  match cred_name vref with
  | None => throw (VNotFound (cred_show vref))
  | Some name =>
      cache_lookup name ≫= λ o,
      match o with
      | Some cred => mret cred
      | None => resolve_miss name (cred_show vref)
      end
  end.

#[export] Instance pg_vault_client : VaultClient PgVault := {|
  vault_resolve := pg_vault_resolve
|}.

#[export] Instance pg_vault_admin : VaultAdmin PgVault := {|
  va_list_metadata := vault_list; va_reveal := pg_vault_reveal;
  va_create := pg_vault_create; va_update := pg_vault_update;
  va_rename := pg_vault_rename; va_delete := pg_vault_delete;
|}.
End Vault.

Arguments PgVault C : clear implicits.
Arguments mkPgVault {C}.

(** ** Lookup by a unique column *)

Definition unique_column {R} (column : R → string) (m : gmap Uuid R) : Prop :=
  ∀ i j r s, m !! i = Some r → m !! j = Some s → column r = column s → i = j.

Lemma by_name_Some {R} (column : R → string) name m i r :
  by_name column name m = Some (i, r) → m !! i = Some r ∧ column r = name.
Proof.
  intros [Hin Hn]%find_Some_elem. apply elem_of_map_to_list in Hin.
  by apply string_eqb_eq in Hn.
Qed.

Lemma by_name_None {R} (column : R → string) name m :
  by_name column name m = None ↔ ∀ i r, m !! i = Some r → column r ≠ name.
Proof.
  unfold by_name, find. split.
  - intros Hf i r Hi Hn. eapply List.find_none in Hf; [|apply list_elem_of_In;
      by apply (elem_of_map_to_list m i r)]. by apply string_eqb_neq in Hf.
  - intros Hn. destruct (List.find _ _) as [[i r]|] eqn:E; [|done].
    apply (by_name_Some column name m) in E as [Hi Hr]. by destruct (Hn i r).
Qed.

Lemma by_name_unique {R} (column : R → string) name m i r :
  unique_column column m → m !! i = Some r → column r = name →
  by_name column name m = Some (i, r).
Proof.
  intros Hu Hi Hr. destruct (by_name column name m) as [[j s]|] eqn:E.
  - apply by_name_Some in E as [Hj Hs].
    assert (i = j) as -> by (eapply Hu; [done|done|congruence]). congruence.
  - by destruct (proj1 (by_name_None column name m) E i r Hi).
Qed.

Lemma unique_column_insert {R} (column : R → string) m i r :
  unique_column column m → name_taken column (column r) (Some i) m = false →
  unique_column column (<[i := r]> m).
Proof.
  intros Hu Hn j k s t.
  assert (∀ j s, m !! j = Some s → column s = column r → j = i) as Hi.
  { intros l u Hl Hc. unfold name_taken in Hn.
    rewrite (by_name_unique column (column r) m l u) in Hn by done.
    apply negb_false_iff, bool_decide_eq_true in Hn. congruence. }
  rewrite !lookup_insert_Some. intros [[<- <-]|[? Hj]] [[<- <-]|[? Hk]] Hc; try done.
  - symmetry. by eapply Hi.
  - by eapply Hi.
  - by eapply Hu.
Qed.

Lemma unique_column_delete {R} (column : R → string) m i :
  unique_column column m → unique_column column (delete i m).
Proof. intros Hu j k s t [_ Hj]%lookup_delete_Some [_ Hk]%lookup_delete_Some. by eapply Hu. Qed.

(** ** What the vault promises: a table of credentials

    The abstract vault has no ciphers, no randomness and no cache. *)
Record avault := mkAvault { av_rows : gmap Uuid (string * Credential); av_drawn : nat }.

Inductive vop :=
| VCreate (name : string) (c : Credential)
| VUpdate (id : Uuid) (c : Credential)
| VRename (id : Uuid) (name : string)
| VDelete (id : Uuid)
| VReveal (id : Uuid)
| VResolve (r : CredentialRef).

Inductive vreply :=
| VRId (r : result VaultError Uuid)
| VRUnit (r : result VaultError unit)
| VRCred (r : result VaultError Credential).

Section AbstractVault.
Context `{UniqueMessage} (uuids : nat → Uuid).

Definition avault_step (op : vop) (a : avault) : vreply * avault :=
  match op with
  | VCreate name c =>
      let id := uuids (av_drawn a) in
      let a' := mkAvault (av_rows a) (S (av_drawn a)) in
      if bool_decide (is_Some (av_rows a !! id))
      then (VRId (Err (VTransport ("insert: " +:+ unique_message "id"))), a')
      else if name_taken fst name None (av_rows a)
      then (VRId (Err (VTransport ("insert: " +:+ unique_message "name"))), a')
      else (VRId (Ok id), mkAvault (<[id := (name, c)]> (av_rows a)) (S (av_drawn a)))
  | VUpdate id c =>
      match av_rows a !! id with
      | None => (VRUnit (Err (VNotFound id)), a)
      | Some (name, _) => (VRUnit (Ok tt), mkAvault (<[id := (name, c)]> (av_rows a)) (av_drawn a))
      end
  | VRename id name =>
      match av_rows a !! id with
      | None => (VRUnit (Err (VNotFound id)), a)
      | Some (_, c) =>
          if name_taken fst name (Some id) (av_rows a)
          then (VRUnit (Err (VTransport ("rename: " +:+ unique_message "name"))), a)
          else (VRUnit (Ok tt), mkAvault (<[id := (name, c)]> (av_rows a)) (av_drawn a))
      end
  | VDelete id =>
      (VRUnit (ok_or ((λ _, tt) <$> av_rows a !! id) (VNotFound id)),
       mkAvault (delete id (av_rows a)) (av_drawn a))
  | VReveal id => (VRCred (ok_or (snd <$> av_rows a !! id) (VNotFound id)), a)
  | VResolve r =>
      (VRCred (ok_or (name ← cred_name r; snd ∘ snd <$> by_name fst name (av_rows a))
                 (VNotFound (cred_show r))), a)
  end.

Fixpoint avault_run (ops : list vop) (a : avault) : list vreply :=
  match ops with
  | [] => []
  | op :: ops => let '(r, a) := avault_step op a in r :: avault_run ops a
  end.
End AbstractVault.

(** ** Refinement *)

Section VaultRefinement.
Context `{Aead} `{CredentialCodec} {C : Type → Type} `{LruCache C} `{UniqueMessage}.
Context (uuids : nat → Uuid).

(** Serialization and encryption succeed (they fail only on absurdly long
    input). *)
Hypothesis to_vec_total : ∀ c, ∃ b, cred_to_vec c = Ok b.
Hypothesis encrypt_total : ∀ k n p, ∃ c, aead_encrypt k n p = Ok c.

Definition pg_vault_step (op : vop) (w : PgVault C) : vreply * PgVault C :=
  match op with
  | VCreate n c => prod_map VRId id (pg_vault_create n c w)
  | VUpdate i c => prod_map VRUnit id (pg_vault_update i c w)
  | VRename i n => prod_map VRUnit id (pg_vault_rename i n w)
  | VDelete i => prod_map VRUnit id (pg_vault_delete i w)
  | VReveal i => prod_map VRCred id (pg_vault_reveal i w)
  | VResolve r => prod_map VRCred id (pg_vault_resolve r w)
  end.

Fixpoint pg_vault_run (ops : list vop) (w : PgVault C) : list vreply :=
  match ops with
  | [] => []
  | op :: ops => let '(r, w) := pg_vault_step op w in r :: pg_vault_run ops w
  end.

(** Nobody else changes the table and no statement fails; time may pass and the
    cache may be cleared. *)
Definition calm (o : others) : Prop := ∀ m, ot_rows o m = m.
Definition calm_step (s : vstep) : Prop :=
  calm (vs_before s) ∧ vs_fault s = NoFault ∧ calm (vs_after s).

(** A sealed row holds a name and a credential. *)
Definition row_holds (s : SealedSession) (r : vault_row) (nc : string * Credential) : Prop :=
  vr_name r = nc.1 ∧ open_payload s (vr_sealed r) = Ok nc.2 ∧
  vr_kind r = cred_kind_to_str (cred_kind nc.2).

(** Every cached credential is the stored one. *)
Definition cache_ok (c : C CacheEntry) (a : avault) : Prop :=
  ∀ n e, lru_peek c n = Some e → ∃ i, av_rows a !! i = Some (n, ce_cred e).

(** The table agrees with the abstract one. *)
Record vtab (w : PgVault C) (a : avault) : Prop := {
  vtab_steps : Forall calm_step (pv_steps w);
  vtab_uuids : pv_uuids w = uuids;
  vtab_drawn : pv_drawn w = av_drawn a;
  vtab_rows : ∀ i, option_Forall2 (row_holds (pv_sealer w)) (pv_rows w !! i) (av_rows a !! i);
  vtab_unique : unique_column fst (av_rows a);
}.

Definition vrel (w : PgVault C) (a : avault) : Prop := vtab w a ∧ cache_ok (pv_cache w) a.

(** Same answer, related worlds. *)
Definition sim (x : vreply * PgVault C) (y : vreply * avault) : Prop :=
  x.1 = y.1 ∧ vrel x.2 y.2.

(** Suspension keeps the relations, and clearing the cache restores its part. *)
Lemma vtab_others w a o : calm o → vtab w a → vtab (run_others o w) a.
Proof.
  intros Ho []. unfold run_others. destruct (ot_clear o); split; simpl; try done;
    intros i; by rewrite Ho.
Qed.

Lemma vrel_others w a o : calm o → vrel w a → vrel (run_others o w) a.
Proof.
  intros Ho [Ht Hc]. split; [by apply vtab_others|].
  unfold run_others. destruct (ot_clear o); [|done].
  intros n e. simpl. by rewrite lru_peek_clear.
Qed.

Lemma vrel_clear w a : vtab w a → vrel (set_pv_cache (lru_clear (pv_cache w)) w) a.
Proof. intros []. split; [by split|]. intros n e. simpl. by rewrite lru_peek_clear. Qed.

Lemma sealer_others o (w : PgVault C) : pv_sealer (run_others o w) = pv_sealer w.
Proof. unfold run_others. by destruct (ot_clear o). Qed.

(** A statement runs in a related world; what follows it starts in one. *)
Lemma vquery_calm {A} what (stmt : PgVault C → result string A * PgVault C) w a :
  vrel w a → ∃ w1 o, vrel w1 a ∧ pv_sealer w1 = pv_sealer w ∧ calm o ∧
    vquery what stmt w =
      (map_err (λ e, VTransport (what +:+ ": " +:+ e)) (stmt w1).1,
       run_others o (stmt w1).2).
Proof.
  intros Hr. set (st := default quiet_step (head (pv_steps w))).
  assert (calm_step st) as (Hb & Hf & Ha).
  { unfold st. pose proof (vtab_steps w a (proj1 Hr)) as Hs. destruct (pv_steps w); [done|].
    by inversion_clear Hs. }
  exists (run_others (vs_before st) (set_pv_steps (tail (pv_steps w)) w)), (vs_after st).
  split; [|split; [by rewrite sealer_others|split; [done|]]].
  - apply vrel_others; [done|]. destruct Hr as [[] Hc]. split; [|done].
    split; try done. simpl. by apply Forall_tail.
  - unfold vquery. fold st. rewrite Hf. by destruct (stmt _).
Qed.

Lemma seal_credential_ok cred (w : PgVault C) : ∃ b g,
  seal_credential cred w = (Ok b, set_pv_rng g w) ∧
  open_payload (pv_sealer w) b = Ok cred.
Proof.
  destruct (to_vec_total cred) as [v Hv]. unfold seal_credential. rewrite Hv.
  destruct (seal (pv_sealer w) v (pv_rng w)) as [[b|e] g] eqn:E.
  - exists b, g. split; [done|]. unfold open_payload.
    rewrite (unseal_seal _ _ _ _ _ E). simpl. by rewrite (cred_codec_roundtrip _ _ Hv).
  - exfalso. unfold seal in E. destruct (fill_bytes _ _) as [n r].
    destruct (encrypt_total (seal_key (pv_sealer w)) n v) as [c Hc]. by rewrite Hc in E.
Qed.

Lemma vrel_rng w a g : vrel w a → vrel (set_pv_rng g w) a.
Proof. intros [[] ?]. by split. Qed.

(** The relation on single rows. *)
Lemma vtab_row w a i nc : vtab w a → av_rows a !! i = Some nc →
  ∃ r, pv_rows w !! i = Some r ∧ row_holds (pv_sealer w) r nc.
Proof.
  intros Hr Hi. pose proof (vtab_rows w a Hr i) as Hf. rewrite Hi in Hf.
  inversion Hf as [r ? Hh Hrow|]; subst. eauto.
Qed.

Lemma vtab_no_row w a i : vtab w a → av_rows a !! i = None → pv_rows w !! i = None.
Proof.
  intros Hr Hi. pose proof (vtab_rows w a Hr i) as Hf. rewrite Hi in Hf.
  by inversion Hf.
Qed.

Lemma vtab_row_inv w a i r : vtab w a → pv_rows w !! i = Some r →
  ∃ nc, av_rows a !! i = Some nc ∧ row_holds (pv_sealer w) r nc.
Proof.
  intros Hr Hi. destruct (av_rows a !! i) as [nc|] eqn:E.
  - destruct (vtab_row w a i nc Hr E) as (r' & ? & ?). simplify_eq. eauto.
  - rewrite (vtab_no_row w a i Hr E) in Hi. done.
Qed.

Lemma vtab_unique_rows w a : vtab w a → unique_column vr_name (pv_rows w).
Proof.
  intros Hr i j r s Hi Hj Hn.
  destruct (vtab_row_inv w a i r Hr Hi) as ([n c] & Ha & Hh1 & _).
  destruct (vtab_row_inv w a j s Hr Hj) as ([n' c'] & Hb & Hh2 & _).
  simpl in *. eapply (vtab_unique w a Hr); [done|done|]. simpl. congruence.
Qed.

Lemma vtab_by_name w a n : vtab w a →
  match by_name fst n (av_rows a) with
  | Some (i, nc) => ∃ r, by_name vr_name n (pv_rows w) = Some (i, r) ∧
      row_holds (pv_sealer w) r nc
  | None => by_name vr_name n (pv_rows w) = None
  end.
Proof.
  intros Hr. destruct (by_name fst n (av_rows a)) as [[i nc]|] eqn:E.
  - apply by_name_Some in E as [Hi Hn]. destruct (vtab_row w a i nc Hr Hi) as (r & Hrow & Hh).
    exists r. split; [|done]. apply by_name_unique; [by eapply vtab_unique_rows|done|].
    destruct Hh as [-> _]. done.
  - apply by_name_None. intros i r Hi Hn.
    destruct (vtab_row_inv w a i r Hr Hi) as (nc & Ha & Hh & _).
    apply (proj1 (by_name_None fst n (av_rows a)) E i nc Ha). congruence.
Qed.

Lemma vtab_name_taken w a n ex : vtab w a →
  name_taken vr_name n ex (pv_rows w) = name_taken fst n ex (av_rows a).
Proof.
  intros Hr. unfold name_taken. pose proof (vtab_by_name w a n Hr) as Hb.
  destruct (by_name fst n (av_rows a)) as [[i nc]|].
  - by destruct Hb as (r & -> & _).
  - by rewrite Hb.
Qed.

(** Storing a row whose name the index accepts, and deleting one. *)
Lemma vtab_store w a i r nc d : vtab w a →
  row_holds (pv_sealer w) r nc →
  name_taken fst nc.1 (Some i) (av_rows a) = false →
  vtab (set_pv_rows (<[i := r]> (pv_rows w)) (set_pv_drawn d w))
    (mkAvault (<[i := nc]> (av_rows a)) d).
Proof.
  intros [] Hh Hn. split; simpl; try done.
  - intros j. destruct (decide (i = j)) as [->|Hne].
    + rewrite !lookup_insert_eq. by constructor.
    + by rewrite !lookup_insert_ne.
  - by apply unique_column_insert.
Qed.

Lemma vtab_delete w a i : vtab w a →
  vtab (set_pv_rows (delete i (pv_rows w)) w) (mkAvault (delete i (av_rows a)) (av_drawn a)).
Proof.
  intros []. split; simpl; try done.
  - intros j. destruct (decide (i = j)) as [->|Hne].
    + rewrite !lookup_delete_eq. constructor.
    + by rewrite !lookup_delete_ne.
  - by apply unique_column_delete.
Qed.

(** A row keeps its own name. *)
Lemma name_not_taken_self a i n (c : Credential) :
  unique_column fst (av_rows a) → av_rows a !! i = Some (n, c) →
  name_taken fst n (Some i) (av_rows a) = false.
Proof.
  intros Hu Hi. unfold name_taken. rewrite (by_name_unique fst n _ i (n, c)) by done.
  by rewrite bool_decide_true.
Qed.

Lemma vtab_store_same w a i r nc : vtab w a →
  row_holds (pv_sealer w) r nc →
  name_taken fst nc.1 (Some i) (av_rows a) = false →
  vtab (set_pv_rows (<[i := r]> (pv_rows w)) w)
    (mkAvault (<[i := nc]> (av_rows a)) (av_drawn a)).
Proof.
  intros Ht Hh Hn. pose proof (vtab_store w a i r nc (av_drawn a) Ht Hh Hn) as Hs.
  destruct Ht. destruct w; simpl in *. by rewrite <- vtab_drawn0 in Hs at 1.
Qed.

(** A statement that counts rows, followed by the check of the count and the
    invalidation of the cache. *)
Lemma touched_refines what stmt id w a (y : vreply * avault) :
  vrel w a →
  (∀ w1, vrel w1 a → pv_sealer w1 = pv_sealer w →
    ∃ w2, (stmt w1 = (Ok true, w2) ∧ y.1 = VRUnit (Ok tt) ∧ vtab w2 y.2) ∨
    (stmt w1 = (Ok false, w2) ∧ y.1 = VRUnit (Err (VNotFound id)) ∧ vrel w2 y.2) ∨
    ∃ e, stmt w1 = (Err e, w2) ∧ y.1 = VRUnit (Err (VTransport (what +:+ ": " +:+ e))) ∧
         vrel w2 y.2) →
  sim (prod_map VRUnit Datatypes.id ((vquery what stmt ≫= touched id) w)) y.
Proof.
  intros Hr Hstmt. destruct (vquery_calm what stmt w a Hr) as (w1 & o & Hr1 & Hs & Ho & Hq).
  destruct (Hstmt w1 Hr1 Hs) as (w2 & [(E & Hy & Ht)|[(E & Hy & Ht)|(e & E & Hy & Ht)]]);
    rewrite E in Hq; simpl in Hq; unfold mbind, io_bind; rewrite Hq; unfold sim; simpl.
  - split; [done|]. by apply vrel_clear, vtab_others.
  - split; [done|]. by apply vrel_others.
  - split; [done|]. by apply vrel_others.
Qed.

Lemma create_refines name c w a : vrel w a →
  sim (pg_vault_step (VCreate name c) w) (avault_step uuids (VCreate name c) a).
Proof.
  intros Hr. unfold pg_vault_step, pg_vault_create.
  destruct (seal_credential_ok c w) as (b & g & Hs & Ho).
  rewrite (io_bind_run_ok _ _ _ _ _ Hs).
  destruct (vquery_calm "insert" (stmt_insert name (cred_kind_to_str (cred_kind c)) b)
    (set_pv_rng g w) a (vrel_rng w a g Hr)) as (w1 & o & Hr1 & Hse & Hcalm & ->).
  change (pv_sealer (set_pv_rng g w)) with (pv_sealer w) in Hse.
  unfold stmt_insert, avault_step. destruct Hr1 as [Ht Hc].
  cbn [pv_rows set_pv_drawn]. rewrite (vtab_uuids w1 a Ht), (vtab_drawn w1 a Ht).
  rewrite (vtab_name_taken w1 a name None Ht).
  assert (∀ x, vrel (set_pv_drawn x w1) (mkAvault (av_rows a) x)) as Hdr.
  { intros x. split; [|done]. destruct Ht. by split. }
  destruct (av_rows a !! uuids (av_drawn a)) as [nc|] eqn:E.
  { destruct (vtab_row w1 a _ nc Ht E) as (r & -> & _).
    rewrite !bool_decide_true by done. split; [done|]. apply vrel_others; [done|apply Hdr]. }
  rewrite (vtab_no_row w1 a _ Ht E). rewrite !bool_decide_false by by intros [? ?].
  destruct (name_taken fst name None (av_rows a)) eqn:En.
  { split; [done|]. apply vrel_others; [done|apply Hdr]. }
  split; [done|]. apply vrel_others; [done|]. split.
  - apply vtab_store; [done| |].
    + split; [done|]. simpl. by rewrite Hse.
    + simpl. unfold name_taken in *. destruct (by_name _ _ _) as [[j s]|]; [|done].
      by rewrite bool_decide_false in En.
  - intros n e He. destruct (Hc n e He) as [j Hj]. exists j. simpl.
    rewrite lookup_insert_ne; [done|]. congruence.
Qed.

Lemma update_refines i c w a : vrel w a →
  sim (pg_vault_step (VUpdate i c) w) (avault_step uuids (VUpdate i c) a).
Proof.
  intros Hr. unfold pg_vault_step, pg_vault_update.
  destruct (seal_credential_ok c w) as (b & g & Hs & Ho).
  rewrite (io_bind_run_ok _ _ _ _ _ Hs). apply (touched_refines _ _ _ _ a).
  { by apply vrel_rng. }
  intros w1 [Ht Hc] Hse. unfold stmt_update, avault_step.
  destruct (av_rows a !! i) as [[n c0]|] eqn:E.
  - destruct (vtab_row w1 a i (n, c0) Ht E) as (r & Hrow & Hn & _). rewrite Hrow.
    eexists. left. split; [done|]. split; [done|]. simpl. apply vtab_store_same; [done| |].
    + split; [done|]. simpl. by rewrite Hse.
    + simpl. eapply name_not_taken_self; [apply Ht|done].
  - rewrite (vtab_no_row w1 a i Ht E). exists w1. right. left. done.
Qed.

Lemma rename_refines i n w a : vrel w a →
  sim (pg_vault_step (VRename i n) w) (avault_step uuids (VRename i n) a).
Proof.
  intros Hr. unfold pg_vault_step, pg_vault_rename. apply (touched_refines _ _ _ _ a); [done|].
  intros w1 [Ht Hc] Hse. unfold stmt_rename, avault_step.
  destruct (av_rows a !! i) as [[n0 c0]|] eqn:E.
  - destruct (vtab_row w1 a i (n0, c0) Ht E) as (r & Hrow & Hn & Hop). rewrite Hrow.
    rewrite (vtab_name_taken w1 a n (Some i) Ht).
    destruct (name_taken fst n (Some i) (av_rows a)) eqn:Ent.
    + exists w1. right. right. eexists. done.
    + eexists. left. split; [done|]. split; [done|]. simpl. by apply vtab_store_same.
  - rewrite (vtab_no_row w1 a i Ht E). exists w1. right. left. done.
Qed.

Lemma delete_refines i w a : vrel w a →
  sim (pg_vault_step (VDelete i) w) (avault_step uuids (VDelete i) a).
Proof.
  intros Hr. unfold pg_vault_step, pg_vault_delete. apply (touched_refines _ _ _ _ a); [done|].
  intros w1 [Ht Hc] Hse. unfold stmt_delete, avault_step.
  eexists. destruct (av_rows a !! i) as [[n0 c0]|] eqn:E.
  - destruct (vtab_row w1 a i (n0, c0) Ht E) as (r & Hrow & _). left.
    rewrite bool_decide_true by by rewrite Hrow.
    split; [done|]. split; [done|]. by apply vtab_delete.
  - right. left. rewrite (vtab_no_row w1 a i Ht E), bool_decide_false by by intros [? ?].
    split; [done|]. split; [done|]. split; [by apply vtab_delete|].
    intros n e He. simpl. rewrite delete_id by done. by apply Hc.
Qed.

Lemma reveal_refines i w a : vrel w a →
  sim (pg_vault_step (VReveal i) w) (avault_step uuids (VReveal i) a).
Proof.
  intros Hr. unfold pg_vault_step, pg_vault_reveal, mbind, io_bind.
  destruct (vquery_calm "reveal" (λ w, (Ok (vr_sealed <$> pv_rows w !! i), w)) w a Hr)
    as (w1 & o & Hr1 & Hse & Ho & ->).
  simpl. destruct Hr1 as [Ht Hc]. destruct (av_rows a !! i) as [[n c]|] eqn:E.
  - destruct (vtab_row w1 a i (n, c) Ht E) as (r & -> & _ & Hop & _). simpl.
    unfold lift. simpl. rewrite sealer_others, Hop. split; [done|]. by apply vrel_others.
  - rewrite (vtab_no_row w1 a i Ht E). split; [done|]. by apply vrel_others.
Qed.

Lemma vrel_cache_sub w a c : vrel w a →
  (∀ n e, lru_peek c n = Some e → lru_peek (pv_cache w) n = Some e) →
  vrel (set_pv_cache c w) a.
Proof. intros [[] Hc] Hs. split; [by split|]. intros n e He. by apply Hc, Hs. Qed.

(** A cache hit is the stored credential. *)
Lemma cache_lookup_refines name w a : vrel w a → ∃ o w',
  cache_lookup name w = (Ok o, w') ∧ vrel w' a ∧ pv_sealer w' = pv_sealer w ∧
  ∀ c, o = Some c → ∃ i, by_name fst name (av_rows a) = Some (i, (name, c)).
Proof.
  intros Hr. unfold cache_lookup. pose proof (lru_get_peek _ name (pv_cache w)) as Hg.
  pose proof (λ k, lru_peek_get _ name k (pv_cache w)) as Hp.
  destruct (lru_get name (pv_cache w)) as [o c]. simpl in *. subst o.
  assert (vrel (set_pv_cache c w) a) as Hr'.
  { apply vrel_cache_sub; [done|]. intros n e. by rewrite Hp. }
  destruct (lru_peek (pv_cache w) name) as [e|] eqn:E; [|by eexists _, _].
  destruct (_ <? _).
  - eexists _, _. split; [done|]. split; [done|]. split; [done|].
    intros c0 [= <-]. destruct Hr as [Ht Hc]. destruct (Hc name e E) as [i Hi].
    exists i. by apply by_name_unique; [apply Ht| |].
  - eexists _, _. split; [done|]. split; [|done].
    apply (vrel_cache_sub (set_pv_cache c w)); [done|]. intros n e'. simpl.
    destruct (decide (name = n)) as [->|Hne].
    + by rewrite lru_peek_pop_eq.
    + by rewrite lru_peek_pop_ne.
Qed.

Lemma resolve_refines r w a : vrel w a →
  sim (pg_vault_step (VResolve r) w) (avault_step uuids (VResolve r) a).
Proof.
  intros Hr. unfold pg_vault_step, pg_vault_resolve, avault_step.
  destruct (cred_name r) as [name|]; [|done].
  destruct (cache_lookup_refines name w a Hr) as (o & w1 & Hl & Hr1 & Hse1 & Hhit).
  rewrite (io_bind_run_ok _ _ _ _ _ Hl). destruct o as [c|].
  { destruct (Hhit c eq_refl) as [i Hi]. simpl. rewrite Hi. done. }
  clear Hhit. unfold resolve_miss, mbind at 1, io_bind at 1.
  destruct (vquery_calm "resolve"
    (λ w, (Ok (vr_sealed ∘ snd <$> by_name vr_name name (pv_rows w)), w)) w1 a Hr1)
    as (w2 & ot & Hr2 & Hse2 & Ho & ->).
  cbn [fst snd map_err]. pose proof (vtab_by_name w2 a name (proj1 Hr2)) as Hb.
  apply (vrel_others w2 a ot Ho) in Hr2.
  destruct (by_name fst name (av_rows a)) as [[i nc]|] eqn:E.
  - destruct Hb as (row & -> & _ & Hop & _). unfold mbind, io_bind, lift, gets, modify. simpl.
    rewrite sealer_others, Hop. split; [simpl; by rewrite E|]. simpl. destruct Hr2 as [[] Hc]. split; [by split|].
    intros n e. simpl. destruct (decide (name = n)) as [->|Hne].
    + rewrite lru_peek_put_eq. intros [= <-]. exists i. simpl.
      apply by_name_Some in E as [Hi Hn]. destruct nc; simpl in *; by subst.
    + destruct (lru_peek_put_ne _ name n
        (mkCacheEntry nc.2 (pv_now (run_others ot w2))) (pv_cache (run_others ot w2)) Hne)
        as [-> | ->]; [|done]. apply Hc.
  - rewrite Hb. split; [simpl; by rewrite E|exact Hr2].
Qed.

Lemma pg_vault_step_refines op w a : vrel w a →
  sim (pg_vault_step op w) (avault_step uuids op a).
Proof.
  destruct op; auto using create_refines, update_refines, rename_refines, delete_refines,
    reveal_refines, resolve_refines.
Qed.

Lemma pg_vault_run_refines ops w a : vrel w a →
  pg_vault_run ops w = avault_run uuids ops a.
Proof.
  revert w a; induction ops as [|op ops IH]; intros w a Hr; [done|]. simpl.
  destruct (pg_vault_step_refines op w a Hr) as [Hrep Hr'].
  destruct (pg_vault_step op w), (avault_step uuids op a). simpl in *. subst.
  f_equal. by apply IH.
Qed.

Lemma new_vault_rel key now r steps :
  Forall calm_step steps → vrel (pg_vault_new key ∅ now r uuids 0 steps) (mkAvault ∅ 0).
Proof.
  intros Hs. split.
  - split; try done. intros i. simpl. rewrite !lookup_empty. constructor.
  - intros n e. simpl. by rewrite lru_peek_new.
Qed.

(** C16: the Postgres vault behaves as a table of credentials under unique names: any
    sequence of calls on an empty table, with no database fault and no other
    writer, gets the answers of the abstract vault, whatever the cache evicts or
    another task clears and however long each call takes. Sealing, randomness
    and caching are invisible. *)
Theorem pg_vault_refines key now r steps ops :
  Forall calm_step steps →
  pg_vault_run ops (pg_vault_new key ∅ now r uuids 0 steps) =
  avault_run uuids ops (mkAvault ∅ 0).
Proof.
  intros Hs. by apply pg_vault_run_refines, new_vault_rel.
Qed.

(** *** The console's view of it *)

(** [ORDER BY name] lists every row once. *)
Context (name_order : gmap Uuid vault_row → list (Uuid * vault_row)).
Hypothesis name_order_perm : ∀ m, name_order m ≡ₚ map_to_list m.

Definition meta_of (p : Uuid * vault_row) (k : CredentialKind) : CredentialMetadata :=
  mkCredMeta p.1 (vr_name p.2) k (vr_created p.2) (vr_updated p.2).

Lemma parse_kind_to_str k : parse_cred_kind (cred_kind_to_str k) = Ok k.
Proof. by destruct k. Qed.

Lemma list_rows_ok (kind : Uuid * vault_row → CredentialKind) rows :
  (∀ p, p ∈ rows → vr_kind p.2 = cred_kind_to_str (kind p)) →
  foldr (λ r acc, parse_cred_kind (vr_kind r.2) ≫= λ k, acc ≫= λ l,
           Ok (mkCredMeta r.1 (vr_name r.2) k (vr_created r.2) (vr_updated r.2) :: l))
    (Ok []) rows = Ok ((λ p, meta_of p (kind p)) <$> rows).
Proof.
  induction rows as [|p rows IH]; intros Hk; [done|]. simpl.
  rewrite Hk, parse_kind_to_str by set_solver. simpl. rewrite IH by set_solver. done.
Qed.

Lemma list_refines w a : vrel w a →
  ∃ l w', vault_list name_order w = (Ok l, w') ∧ vrel w' a ∧
    ∀ i n, (∃ k c u, mkCredMeta i n k c u ∈ l) ↔ fst <$> av_rows a !! i = Some n.
Proof.
  intros Hr. unfold vault_list, mbind, io_bind.
  destruct (vquery_calm "list" (λ w, (Ok (name_order (pv_rows w)), w)) w a Hr)
    as (w1 & o & Hr1 & Hse & Ho & ->). simpl. destruct Hr1 as [Ht Hc].
  set (kind := λ p : Uuid * vault_row, from_option (cred_kind ∘ snd) KGeneric (av_rows a !! p.1)).
  assert (∀ p, p ∈ name_order (pv_rows w1) ↔ pv_rows w1 !! p.1 = Some p.2) as Hin.
  { intros [i r]. by rewrite name_order_perm, elem_of_map_to_list. }
  unfold lift. rewrite (list_rows_ok kind).
  2:{ intros p Hp%Hin. destruct (vtab_row_inv w1 a _ _ Ht Hp) as (nc & Ha & _ & _ & ->).
      unfold kind. by rewrite Ha. }
  eexists _, _. split; [done|]. split; [by apply vrel_others|]. intros i n. split.
  - intros (k & c & u & Hel). apply list_elem_of_fmap in Hel as (p & Hm & Hp%Hin).
    destruct (vtab_row_inv w1 a _ _ Ht Hp) as (nc & Ha & Hn & _). unfold meta_of in Hm.
    simplify_eq/=. rewrite Ha, Hn. done.
  - intros (nc & Ha & ->)%fmap_Some. destruct (vtab_row w1 a i nc Ht Ha) as (r & Hrow & Hn & _).
    eexists _, _, _. apply list_elem_of_fmap. exists (i, r). rewrite <-Hn.
    split; [done|]. by apply Hin.
Qed.

(** [PostgresVaultClient] is such a store, while nobody else writes the table and
    its statements succeed. *)
Program Definition pg_vault_store : VaultStore (H := pg_vault_admin name_order) (PgVault C) :=
  {| vs_holds w m := ∃ d, vrel w (mkAvault m d) |}.
Next Obligation.
  intros w m i j n c c' [d [Ht _]] Hi Hj. by eapply (vtab_unique _ _ Ht i j).
Qed.
Next Obligation.
  intros w m [d Hr]. destruct (list_refines w _ Hr) as (l & w' & ? & ? & ?). eauto 10.
Qed.
Next Obligation.
  intros w m i n c [d Hr] Hi. pose proof (reveal_refines i w _ Hr) as [Hrep Hr'].
  simpl in *. destruct (pg_vault_reveal i w) as [r w']. simpl in *. rewrite Hi in *.
  simplify_eq/=. eauto.
Qed.
Next Obligation.
  intros w m n c i w' [d Hr] Hrun. pose proof (create_refines n c w _ Hr) as [Hrep Hr'].
  simpl in *. rewrite Hrun in *. unfold avault_step in *. simpl in *.
  repeat case_match; simplify_eq/=. eauto.
Qed.
Next Obligation.
  intros w m i n c c' w' [d Hr] Hi Hrun. pose proof (update_refines i c' w _ Hr) as [Hrep Hr'].
  simpl in *. rewrite Hrun, Hi in *. simpl in *. eauto.
Qed.
End VaultRefinement.

(** ** A concrete cache, cipher and codec

    They show that the classes have instances; nothing depends on them. *)

Lemma string_eqb_refl k : string_eqb k k = true.
Proof. by apply string_eqb_eq. Qed.

Lemma assoc_remove {V} k k' (l : list (string * V)) :
  assoc k' (List.filter (λ x, negb (string_eqb k x.1)) l) =
  if string_eqb k k' then None else assoc k' l.
Proof.
  induction l as [|[j v] l IH]; simpl; [by destruct (string_eqb k k')|].
  destruct (string_eqb k j) eqn:Ej; simpl; rewrite IH.
  - apply string_eqb_eq in Ej as <-. destruct (string_eqb k k') eqn:E; [done|].
    apply string_eqb_neq in E.
    by rewrite (proj2 (string_eqb_neq k' k) (not_eq_sym E)).
  - destruct (string_eqb k' j) eqn:E'; [|done]. apply string_eqb_eq in E' as <-.
    by rewrite Ej.
Qed.

Lemma assoc_take {V} k n (l : list (string * V)) :
  assoc k (take n l) = assoc k l ∨ assoc k (take n l) = None.
Proof.
  revert l; induction n as [|n IH]; intros [|[j v] l]; simpl; auto.
  destruct (string_eqb k j); auto.
Qed.

Definition demo_lru_capacity : nat := 64.

#[local] Obligation Tactic := try done.

#[export] Program Instance demo_lru : LruCache (λ E, list (string * E)) | 100 := {|
  lru_new E := [];
  lru_peek E c k := assoc k c;
  lru_get E k c :=
    (assoc k c, match assoc k c with
                | Some e => (k, e) :: List.filter (λ x, negb (string_eqb k x.1)) c
                | None => c
                end);
  lru_put E k e c :=
    (k, e) :: take (demo_lru_capacity - 1) (List.filter (λ x, negb (string_eqb k x.1)) c);
  lru_pop E k c := List.filter (λ x, negb (string_eqb k x.1)) c;
  lru_clear E c := [];
|}.
Next Obligation.
  intros E k k' c. simpl. destruct (assoc k c) as [e|] eqn:He; [|done]. simpl.
  rewrite assoc_remove. destruct (string_eqb k' k) eqn:E1.
  - by apply string_eqb_eq in E1 as ->.
  - apply string_eqb_neq in E1. by rewrite (proj2 (string_eqb_neq k k') (not_eq_sym E1)).
Qed.
Next Obligation. intros E k e c. simpl. by rewrite string_eqb_refl. Qed.
Next Obligation.
  intros E k k' e c Hne. cbn [assoc].
  rewrite (proj2 (string_eqb_neq k' k) (not_eq_sym Hne)).
  destruct (assoc_take k' (demo_lru_capacity - 1)
    (List.filter (λ x, negb (string_eqb k x.1)) c)) as [-> | ->]; [left|by right].
  rewrite assoc_remove. by rewrite (proj2 (string_eqb_neq k k') Hne).
Qed.
Next Obligation. intros E k c. simpl. by rewrite assoc_remove, string_eqb_refl. Qed.
Next Obligation.
  intros E k k' c Hne. simpl. rewrite assoc_remove.
  by rewrite (proj2 (string_eqb_neq k k') Hne).
Qed.

(** A cipher that tags the plaintext with key and nonce. *)
#[local] Program Instance demo_aead : Aead := {|
  aead_encrypt k n p := Ok (k ++ n ++ p);
  aead_decrypt k n c :=
    if bool_decide (take (length (k ++ n)) c = k ++ n)
    then Ok (drop (length (k ++ n)) c) else Err "aead::Error";
|}.
Next Obligation.
  intros k n p c [= <-]. rewrite app_assoc, take_app_length, drop_app_length.
  by rewrite bool_decide_true.
Qed.

Definition cred_sum (c : Credential) :
    (string * string * option string) + (string * string) + string + gmap string string :=
  match c with
  | SshKey u k p => inl (inl (inl (u, k, p)))
  | SshPassword u p => inl (inl (inr (u, p)))
  | ApiToken t => inl (inr t)
  | Generic f => inr f
  end.

Definition cred_unsum
    (x : (string * string * option string) + (string * string) + string + gmap string string) :
    Credential :=
  match x with
  | inl (inl (inl (u, k, p))) => SshKey u k p
  | inl (inl (inr (u, p))) => SshPassword u p
  | inl (inr t) => ApiToken t
  | inr f => Generic f
  end.

Fixpoint pos_blob (p : positive) : list ascii :=
  match p with
  | xH => []
  | xO p => "0"%char :: pos_blob p
  | xI p => "1"%char :: pos_blob p
  end.

Fixpoint blob_pos (b : list ascii) : positive :=
  match b with
  | [] => xH
  | a :: b => if bool_decide (a = "0"%char) then xO (blob_pos b) else xI (blob_pos b)
  end.

Lemma blob_pos_blob p : blob_pos (pos_blob p) = p.
Proof. induction p as [p IH|p IH|]; simpl; by rewrite ?IH. Qed.

#[local] Program Instance demo_codec : CredentialCodec := {|
  cred_to_vec c := Ok (pos_blob (encode (cred_sum c)));
  cred_from_slice b := ok_or (cred_unsum <$> decode (blob_pos b)) "invalid";
|}.
Next Obligation.
  intros c b [= <-]. rewrite blob_pos_blob, decode_encode. by destruct c.
Qed.

#[local] Instance demo_unique : UniqueMessage := λ c, "duplicate key value: " +:+ c.

Definition demo_rng : rng := mkRng (λ _, "x"%char) 0.
Definition demo_uuids (n : nat) : Uuid := "id-" +:+ show_Z (Z.of_nat n).
Definition demo_key : MasterKey := mkMasterKey (replicate 32 "k"%char).

Lemma pg_vault_refines_witness :
  let ops := [VCreate "edge" (ApiToken "t1"); VResolve (Named "edge");
              VUpdate (demo_uuids 0) (ApiToken "t2"); VResolve (Named "edge");
              VCreate "edge" (ApiToken "t3"); VRename (demo_uuids 0) "core";
              VResolve (Named "edge"); VDelete (demo_uuids 0)] in
  pg_vault_run ops
    (pg_vault_new demo_key ∅ 0 demo_rng demo_uuids 0 [mkVStep (mkOthers 5 id true) NoFault quiet_others]) =
  avault_run demo_uuids ops (mkAvault ∅ 0).
Proof.
  apply (pg_vault_refines demo_uuids).
  - intros c. by eexists.
  - intros k n p. by eexists.
  - by repeat constructor.
Defined.

(** ** Staleness *)

(** A lookup answers from the cache only within the entry's five minutes. *)
Theorem cache_hit_fresh {C : Type → Type} `{LruCache C} name (w w' : PgVault C) c :
  cache_lookup name w = (Ok (Some c), w') →
  ∃ e, lru_peek (pv_cache w) name = Some e ∧ ce_cred e = c ∧
    pv_now w - ce_inserted_at e < 300000.
Proof.
  unfold cache_lookup. pose proof (lru_get_peek _ name (pv_cache w)) as Hg.
  destruct (lru_get name (pv_cache w)) as [o cc]. simpl in *. subst o.
  destruct (lru_peek (pv_cache w) name) as [e|]; [|done]. unfold DEFAULT_CACHE_TTL.
  destruct (Z.ltb_spec (pv_now w - ce_inserted_at e) (300 * 1000)); [|done].
  intros [= <- _]. exists e. done.
Qed.

(** Invalidation does not cover a [resolve] in flight: if another task updates the
    credential (and clears the cache) between the server's answer to [resolve]
    and the insertion into the cache, the old secret is cached and later calls
    get it although the table holds the new one. *)
Theorem resolve_race_stale :
  let old := ApiToken "revoked" in let new := ApiToken "rotated" in
  let w0 := pg_vault_new (C := λ E, list (string * E)) demo_key ∅ 0 demo_rng demo_uuids 0 [] in
  let w1 := (pg_vault_create "edge" old w0).2 in
  let rotated := pv_rows (pg_vault_update (demo_uuids 0) new w1).2 in
  let race := mkVStep quiet_others NoFault (mkOthers 1 (λ _, rotated) true) in
  let w2 := (pg_vault_resolve (Named "edge") (set_pv_steps [race] w1)).2 in
  (pg_vault_resolve (Named "edge") w2).1 = Ok old ∧
  (pg_vault_reveal (demo_uuids 0) w2).1 = Ok new.
Proof. vm_compute. done. Qed.

(** ** The master key *)

(** A loaded key has 32 bytes. When systemd provides a credentials directory the
    key comes from there and never from the development file; the development
    file is read only without one. *)
Theorem master_key_sources h k :
  from_systemd_or_dev_env h = Ok k ↔
  length (mk_bytes k) = SEAL_KEY_LEN ∧
  match host_env h !! "CREDENTIALS_DIRECTORY", host_env h !! "DAIMON_MASTER_KEY_FILE" with
  | Some (EnvText dir), _ => host_read h (path_join dir "vault-master") = Ok (mk_bytes k)
  | Some EnvNotUnicode, _ =>
      host_read h "/run/credentials/daimon.service/vault-master" = Ok (mk_bytes k)
  | None, Some (EnvText path) => host_read h path = Ok (mk_bytes k)
  | None, _ => False
  end.
Proof.
  assert (∀ p, key_from_path h p = Ok k ↔
    length (mk_bytes k) = SEAL_KEY_LEN ∧ host_read h p = Ok (mk_bytes k)) as Hp.
  { intros p. unfold key_from_path. destruct (host_read h p) as [bs|e]; [|naive_solver].
    destruct (length bs =? SEAL_KEY_LEN)%nat eqn:E; simpl.
    - apply Nat.eqb_eq in E. split; [by intros [= <-]|]. intros [_ [= ->]]. by destruct k.
    - apply Nat.eqb_neq in E. naive_solver. }
  unfold from_systemd_or_dev_env, from_systemd_credential, env_var.
  destruct (host_env h !! "CREDENTIALS_DIRECTORY") as [[dir|]|].
  - rewrite decide_True by done. apply Hp.
  - rewrite decide_True by done. apply Hp.
  - rewrite decide_False by by intros [? ?].
    destruct (host_env h !! "DAIMON_MASTER_KEY_FILE") as [[p|]|]; [apply Hp| |]; naive_solver.
Qed.
