(* ===== verification/Kms.v ===== *)
(** * The KMS adapters ([daimon-kms/src])

    Providers that wrap and unwrap the vault's data-encryption key: the
    passthrough for single-host deployments, HashiCorp Vault Transit over HTTP,
    and the two providers that are not implemented yet. [base64], the HTTP client
    and the Transit server are parameters. *)

From S2P Require Import Prelude RustStd Json Vault.
From Stdlib Require Import ZArith Ascii.

Local Open Scope Z_scope.

Inductive KmsError :=
| KmsNotImplemented (provider : string)
| KmsConfig (msg : string)
| KmsTransport (msg : string)
| KmsCrypto (msg : string)
| KmsIo (msg : string).

(** [base64::engine::general_purpose::STANDARD]. *)
Class Base64 := {
  b64_encode : blob → string;
  b64_decode : string → result string blob;
  b64_roundtrip : ∀ b, b64_decode (b64_encode b) = Ok b;
}.

(** [trait KmsClient], over the world it talks to. *)
Class KmsClient (K W : Type) := {
  unwrap_dek : K → blob → io W KmsError blob;
  wrap_dek : K → blob → io W KmsError blob;
  kms_id : K → string;
}.

(** What the vault relies on: a wrapped key unwraps to itself. *)
Definition kms_sound {K W} `{KmsClient K W} (k : K) : Prop :=
  ∀ dek w c w', wrap_dek k dek w = (Ok c, w') →
  ∃ w'', unwrap_dek k c w' = (Ok dek, w'').

(** ** The envelope on disk ([lib.rs]) *)

Record WrappedDekEnvelope := mkEnvelope {
  we_provider : string;
  we_kek_ref : string;
  we_version : Z;
  we_ciphertext_b64 : string;
}.

Definition wrapped_new `{Base64} (provider kek_ref : string) (ciphertext : blob) :
    WrappedDekEnvelope :=
  mkEnvelope provider kek_ref 1 (b64_encode ciphertext).

Definition wrapped_ciphertext `{Base64} (e : WrappedDekEnvelope) : result KmsError blob :=
  map_err (λ m, KmsCrypto ("base64: " +:+ m)) (b64_decode (we_ciphertext_b64 e)).

(** ** Passthrough ([local_file.rs]) *)

Inductive LocalFileKms := localFileKms.

#[export] Instance local_file_kms W : KmsClient LocalFileKms W := {|
  unwrap_dek _ wrapped := mret wrapped;
  wrap_dek _ plaintext := mret plaintext;
  kms_id _ := "local_file";
|}.

(** ** Not implemented yet ([aws_kms.rs], [pkcs11.rs]) *)

Record AwsKms := mkAwsKms { aws_key_id : string }.
Record Pkcs11Kms := mkPkcs11 { p11_module_path : string; p11_slot_id : Z; p11_key_label : string }.

Definition aws_kms_new (key_id : string) : result KmsError AwsKms :=
  Err (KmsNotImplemented "aws_kms").

Definition pkcs11_new (module_path : string) (slot_id : Z) (key_label : string) :
    result KmsError Pkcs11Kms :=
  Err (KmsNotImplemented "pkcs11").

#[export] Instance aws_kms W : KmsClient AwsKms W := {|
  unwrap_dek _ _ := throw (KmsNotImplemented "aws_kms");
  wrap_dek _ _ := throw (KmsNotImplemented "aws_kms");
  kms_id _ := "aws_kms";
|}.

#[export] Instance pkcs11_kms W : KmsClient Pkcs11Kms W := {|
  unwrap_dek _ _ := throw (KmsNotImplemented "pkcs11");
  wrap_dek _ _ := throw (KmsNotImplemented "pkcs11");
  kms_id _ := "pkcs11";
|}.

(** ** Vault Transit ([vault_transit.rs]) *)

Record VaultTransitKms := mkTransit {
  vt_url : string;
  vt_mount : string;
  vt_key_name : string;
  vt_token : string;
}.

(** [WrappedData]. *)
Record WrappedData := mkWrapped { wd_ciphertext : option string; wd_plaintext : option string }.

(** [POST] of a JSON body with a token: a status code and the body, which may not
    be JSON. *)
Class TransitHttp (W : Type) := {
  http_post : string → string → json → io W string (Z * result string json);
}.

Section Transit.
Context `{Base64} {W : Type} `{TransitHttp W}.
(** The messages of serde for a body of another shape and of [Utf8Error]. *)
Context (shape_error : string) (utf8_error : blob → string).
Abbreviation kio := (io W KmsError).

(** [new]: the HTTP client's builder may fail. *)
Definition transit_new (builder : result string unit) (url mount key_name token : string) :
    result KmsError VaultTransitKms :=
  map_err (λ e, KmsConfig ("http builder: " +:+ e)) builder ≫= λ _,
  Ok (mkTransit url mount key_name token).

Definition transit_url (k : VaultTransitKms) (verb : string) : string :=
  trim_end_matches "/" (vt_url k) +:+ "/v1/" +:+ vt_mount k +:+ "/" +:+ verb +:+ "/"
    +:+ vt_key_name k.

Definition encrypt_url (k : VaultTransitKms) : string := transit_url k "encrypt".
Definition decrypt_url (k : VaultTransitKms) : string := transit_url k "decrypt".

(** serde's decoder of an [Option<String>] field: absent and [null] are [None]. *)
Definition opt_text_field (j : json) (k : string) : result string (option string) :=
  match jget j k with
  | None | Some JNull => Ok None
  | Some (JString s) => Ok (Some s)
  | Some _ => Err shape_error
  end.

Definition decode_wrapped (j : json) : result string WrappedData :=
  match jget j "data" with
  | Some (JObject l) =>
      opt_text_field (JObject l) "ciphertext" ≫= λ c,
      opt_text_field (JObject l) "plaintext" ≫= λ p, Ok (mkWrapped c p)
  | _ => Err shape_error
  end.

(** A Transit call: send, check the status, decode. *)
Definition transit_call (k : VaultTransitKms) (url verb : string) (body : json) :
    kio WrappedData :=
  io_map_err (λ e, KmsTransport (verb +:+ ": " +:+ e)) (http_post url (vt_token k) body)
    ≫= λ '(status, resp),
  if negb (is_success status)
  then throw (KmsCrypto ("vault transit " +:+ verb +:+ " status " +:+ show_Z status))
  else lift (map_err (λ e, KmsCrypto (verb +:+ " body: " +:+ e)) (resp ≫= decode_wrapped)).

Definition transit_unwrap (k : VaultTransitKms) (wrapped : blob) : kio blob :=
  match from_utf8 wrapped with
  | None =>
      throw (KmsCrypto ("vault ciphertext not utf-8: " +:+ utf8_error wrapped))
  | Some s =>
      transit_call k (decrypt_url k) "decrypt" (jobj [("ciphertext", JString (trim s))]) ≫= λ d,
      lift (ok_or (wd_plaintext d) (KmsCrypto "vault decrypt: no plaintext")) ≫= λ b64,
      lift (map_err (λ e, KmsCrypto ("decrypt b64: " +:+ e)) (b64_decode b64))
  end.

Definition transit_wrap (k : VaultTransitKms) (plaintext : blob) : kio blob :=
  transit_call k (encrypt_url k) "encrypt"
    (jobj [("plaintext", JString (b64_encode plaintext))]) ≫= λ d,
  lift (ok_or (wd_ciphertext d) (KmsCrypto "vault encrypt: no ciphertext")) ≫= λ c,
  mret (bytes c).

#[export] Instance transit_kms : KmsClient VaultTransitKms W := {|
  unwrap_dek := transit_unwrap; wrap_dek := transit_wrap; kms_id _ := "vault_transit";
|}.

(** What Transit documents: the text [encrypt] answers with is printable, and
    posting it to [decrypt] on the same key answers with the plaintext that was
    posted. *)
Definition transit_server (k : VaultTransitKms) : Prop :=
  ∀ p w status body w' c,
    http_post (encrypt_url k) (vt_token k) (jobj [("plaintext", JString p)]) w =
      (Ok (status, Ok body), w') →
    is_success status = true → wd_ciphertext <$> decode_wrapped body = Ok (Some c) →
    (utf8_valid (bytes c) = true ∧ trim c = c) ∧
    ∃ w'', http_post (decrypt_url k) (vt_token k) (jobj [("ciphertext", JString c)]) w' =
      (Ok (200, Ok (jobj [("data", jobj [("plaintext", JString p)])])), w'').

Lemma transit_call_ok k url verb body w d w' :
  transit_call k url verb body w = (Ok d, w') →
  ∃ status resp, http_post url (vt_token k) body w = (Ok (status, Ok resp), w') ∧
    is_success status = true ∧ decode_wrapped resp = Ok d.
Proof.
  unfold transit_call, mbind, io_bind, io_map_err.
  destruct (http_post url (vt_token k) body w) as [[[st [resp|e]]|e] w1]; simpl; [| |done].
  - destruct (is_success st) eqn:Hst; [|done]. simpl. unfold lift. intros [= Hd <-].
    destruct (decode_wrapped resp) eqn:Hdec; simplify_eq/=. eauto.
  - by destruct (is_success st).
Qed.

(** A key wrapped by Transit unwraps to itself. *)
Theorem transit_sound k : transit_server k → kms_sound k.
Proof.
  intros Hsrv dek w c w' Hw. cbn in Hw |- *. unfold transit_wrap in Hw.
  apply io_bind_ok in Hw as (d & w1 & Hcall & Hw).
  destruct (wd_ciphertext d) as [ct|] eqn:Hct; [|done].
  unfold mbind, io_bind, lift, mret, io_ret in Hw. simpl in Hw. injection Hw as <- <-.
  apply transit_call_ok in Hcall as (st & resp & Hpost & Hst & Hdec).
  destruct (Hsrv _ _ _ _ _ ct Hpost Hst) as ((Hu & Ht) & w'' & Hd).
  { rewrite Hdec. simpl. by rewrite Hct. }
  exists w''. unfold transit_unwrap, from_utf8. rewrite Hu, string_of_bytes_bytes, Ht.
  unfold transit_call, mbind, io_bind, io_map_err. rewrite Hd. simpl.
  unfold lift. simpl. by rewrite b64_roundtrip.
Qed.
End Transit.

(** The passthrough provider is sound, and an envelope gives back what was put in. *)
Lemma local_file_sound W : kms_sound (W := W) localFileKms.
Proof. intros dek w c w' [= <- <-]. by eexists. Qed.

Lemma envelope_roundtrip `{Base64} p k c : wrapped_ciphertext (wrapped_new p k c) = Ok c.
Proof. unfold wrapped_ciphertext, wrapped_new. simpl. by rewrite b64_roundtrip. Qed.
