(* ===== verification/AuditChain.v ===== *)
(** * The audit log in Postgres and its hash chain

    [daimon-audit/src/postgres_sink.rs] (append, query, count), the trigger of
    migration V020 that links each event to the previous one, and
    [daimon-anchor/src] (the independent recomputation of the chain, its
    verification and the anchoring of its head). SHA-256, the renderings of
    timestamps and of [jsonb], and [ILIKE] are parameters. *)

From stdpp Require Import sorting.
From S2P Require Import Prelude RustStd Json Core Inventory PgInventory AuditLog Vault.
From Stdlib Require Import ZArith Ascii.

Local Open Scope Z_scope.

(** ** Parameters *)

(** [sha2::Sha256] and pgcrypto's [digest(_, 'sha256')]. *)
Class Sha256 := {
  sha256 : blob → blob;
  sha256_length : ∀ b, length (sha256 b) = 32%nat;
}.

(** The texts of a timestamp in microseconds ([to_rfc3339_opts(Micros, true)] in
    chrono, [to_char] with microseconds in Postgres) and of a [jsonb] value, and the
    pattern match of [ILIKE]. The two timestamp renderings agree, as the comment
    of [canonical.rs] demands; a rendered object is not empty. *)
Class PgText := {
  rfc3339_micros : Z → string;
  to_char_micros : Z → string;
  jsonb_text : json → string;
  ilike : string → string → bool;
  ts_text_agree : ∀ t, to_char_micros t = rfc3339_micros t;
  jsonb_nonempty : ∀ j, jsonb_text j ≠ "";
}.

(** ** Rows of [audit.events] *)

Record audit_row := mkAuditRow {
  ar_id : Uuid;
  ar_ts : Z;
  ar_actor_id : string;
  ar_action : string;
  ar_target_ref : option string;
  ar_credential_ref : option string;
  ar_op_summary : option string;
  ar_result : string;
  ar_latency_ms : option Z;
  ar_metadata : json;
  ar_prev_hash : blob;
  ar_row_hash : blob;
}.

(** [ORDER BY ts, id]. *)
Definition row_le (x y : audit_row) : Prop :=
  ar_ts x < ar_ts y ∨ ar_ts x = ar_ts y ∧ String.le (ar_id x) (ar_id y).

#[export] Instance row_le_dec : RelDecision row_le.
Proof. intros x y. unfold row_le. apply _. Defined.

Fixpoint insert_ordered (r : audit_row) (l : list audit_row) : list audit_row :=
  match l with
  | [] => [r]
  | x :: l' => if decide (row_le x r) then x :: insert_ordered r l' else r :: l
  end.

Definition oldest_first (rows : list audit_row) : list audit_row :=
  foldl (λ acc r, insert_ordered r acc) [] rows.

(** [ORDER BY ts DESC, id DESC LIMIT 1]. *)
Definition chain_head (rows : list audit_row) : option audit_row := last (oldest_first rows).

(** Rust's [n as i32] and [n as u64]. *)
Definition as_i32 (n : Z) : Z := (n + 2^31) mod 2^32 - 2^31.
Definition i32_as_u64 (n : Z) : Z := n mod 2^64.

Definition GENESIS_PREV_HASH : blob := replicate 32 "000"%char.

(** [parts.join("|")]. *)
Definition join_bar (l : list string) : string := join "|"%char l.

Section Chain.
Context `{Sha256} `{PgText}.

(** [canonicalize] in [canonical.rs], on the columns [verify] reads. *)
Definition canonicalize (r : audit_row) : blob :=
  let metadata_json := jsonb_text (ar_metadata r) in
  bytes (join_bar
    [rfc3339_micros (ar_ts r); ar_actor_id r; ar_action r;
     default "" (ar_target_ref r); default "" (ar_credential_ref r);
     default "" (ar_op_summary r); ar_result r;
     default "" (show_Z <$> ar_latency_ms r);
     if string_eqb metadata_json "" then "{}" else metadata_json]).

(** [compute_row_hash] in [canonical.rs]. *)
Definition compute_row_hash (canonical prev_hash : blob) : blob := sha256 (canonical ++ prev_hash).

(** The trigger [audit.compute_row_hash] of migration V020, which runs under an
    advisory lock before each insertion. *)
Definition trigger_canonical (r : audit_row) : blob :=
  bytes (join_bar
    [to_char_micros (ar_ts r); ar_actor_id r; ar_action r;
     default "" (ar_target_ref r); default "" (ar_credential_ref r);
     default "" (ar_op_summary r); ar_result r;
     default "" (show_Z <$> ar_latency_ms r); jsonb_text (ar_metadata r)]).

Definition set_hashes (prev hash : blob) (r : audit_row) : audit_row :=
  mkAuditRow (ar_id r) (ar_ts r) (ar_actor_id r) (ar_action r) (ar_target_ref r)
    (ar_credential_ref r) (ar_op_summary r) (ar_result r) (ar_latency_ms r)
    (ar_metadata r) prev hash.

Definition insert_row (r : audit_row) (rows : list audit_row) : list audit_row :=
  let prev := default GENESIS_PREV_HASH (ar_row_hash <$> chain_head rows) in
  rows ++ [set_hashes prev (sha256 (trigger_canonical r ++ prev)) r].

(** ** Verification ([verify.rs]) *)

Record ChainBreak := mkBreak {
  br_event_id : Uuid;
  br_ts : Z;
  br_expected : blob;
  br_stored : blob;
}.

Record VerifyReport := mkReport { rows_checked : nat; breaks : list ChainBreak }.

(** The loop of [verify]; [None] is the panic of [copy_from_slice] on a stored hash
    that is not 32 bytes long. *)
Fixpoint verify_loop (expected_prev : blob) (rows : list audit_row) : option (list ChainBreak) :=
  match rows with
  | [] => Some []
  | r :: rows =>
      let computed := compute_row_hash (canonicalize r) expected_prev in
      let here :=
        if bool_decide (computed = ar_row_hash r) then []
        else [mkBreak (ar_id r) (ar_ts r) computed (ar_row_hash r)] in
      if (length (ar_row_hash r) =? 32)%nat
      then app here <$> verify_loop (ar_row_hash r) rows
      else None
  end.

Definition verify (rows : list audit_row) : option VerifyReport :=
  mkReport (length rows) <$> verify_loop GENESIS_PREV_HASH (oldest_first rows).

(** ** What the chain promises *)

Definition field (o : option string) : string := match o with Some s => s | None => "" end.

(** The text a row's hash covers, written out. *)
Definition record_text (r : audit_row) : string :=
  rfc3339_micros (ar_ts r) +:+ "|" +:+ ar_actor_id r +:+ "|" +:+ ar_action r +:+ "|" +:+
  field (ar_target_ref r) +:+ "|" +:+ field (ar_credential_ref r) +:+ "|" +:+
  field (ar_op_summary r) +:+ "|" +:+ ar_result r +:+ "|" +:+
  match ar_latency_ms r with Some n => show_Z n | None => "" end +:+ "|" +:+
  jsonb_text (ar_metadata r).

(** The digest of a row that follows a row with hash [prev]. *)
Definition digest (r : audit_row) (prev : blob) : blob := sha256 (bytes (record_text r) ++ prev).

(** The hash before the [i]-th row. *)
Definition hash_before (prev : blob) (l : list audit_row) (i : nat) : blob :=
  match i with
  | O => prev
  | S j => match l !! j with Some r => ar_row_hash r | None => prev end
  end.

(** The rows of a table in the order of time, ids breaking ties. *)
Definition in_order (l rows : list audit_row) : Prop :=
  l ≡ₚ rows ∧ StronglySorted row_le l.

(** Every row's hash is the digest of the row and of the hash before it, the
    first after 32 zero bytes. *)
Definition chained (l : list audit_row) : Prop :=
  ∀ i r, l !! i = Some r →
    ar_row_hash r = digest r (hash_before (replicate 32 "000"%char) l i).

(** The same from a given hash on, along the list. *)
Fixpoint linked (prev : blob) (rows : list audit_row) : Prop :=
  match rows with
  | [] => True
  | r :: rows => ar_row_hash r = digest r prev ∧ linked (ar_row_hash r) rows
  end.

(** The hash the next row would be linked to. *)
Definition end_hash (prev : blob) (rows : list audit_row) : blob :=
  default prev (ar_row_hash <$> last rows).

(** Two different inputs that rows of the two logs, at the same place, feed to the
    hash function, with the same digest. *)
Definition clash (prev prev' : blob) (l l' : list audit_row) : Prop :=
  ∃ i r r', l !! i = Some r ∧ l' !! i = Some r' ∧
    bytes (record_text r) ++ hash_before prev l i ≠ bytes (record_text r') ++ hash_before prev' l' i ∧
    digest r (hash_before prev l i) = digest r' (hash_before prev' l' i).

(** The trigger and the verifier agree on the canonical text. *)
Lemma trigger_canonicalize r : trigger_canonical r = canonicalize r.
Proof.
  unfold trigger_canonical, canonicalize. rewrite ts_text_agree.
  by rewrite (proj2 (string_eqb_neq _ _) (jsonb_nonempty (ar_metadata r))).
Qed.

Lemma canonicalize_text r : canonicalize r = bytes (record_text r).
Proof.
  rewrite <- trigger_canonicalize. unfold trigger_canonical, record_text, join_bar.
  rewrite ts_text_agree. unfold field.
  destruct (ar_target_ref r), (ar_credential_ref r), (ar_op_summary r), (ar_latency_ms r); simpl;
    by rewrite <- ?string_app_assoc.
Qed.

Lemma computed_digest r prev : compute_row_hash (canonicalize r) prev = digest r prev.
Proof. unfold compute_row_hash, digest. by rewrite canonicalize_text. Qed.

Lemma digest_length r prev : length (digest r prev) = 32%nat.
Proof. apply sha256_length. Qed.

Lemma digest_set_hashes p h r : digest (set_hashes p h r) = digest r.
Proof. done. Qed.

Lemma linked_app prev l r :
  linked prev (l ++ [r]) ↔
  linked prev l ∧ ar_row_hash r = digest r (end_hash prev l).
Proof.
  revert prev; induction l as [|x l IH]; intros prev; simpl; [naive_solver|].
  rewrite IH. unfold end_hash. destruct l as [|y l]; simpl; [naive_solver|].
  destruct (last (y :: l)) eqn:E; simpl in *; rewrite ?E; [naive_solver|].
  by apply last_None in E.
Qed.

Lemma linked_hash_length prev l r : linked prev l → r ∈ l → length (ar_row_hash r) = 32%nat.
Proof.
  revert prev; induction l as [|x l IH]; intros prev Hl Hr; [by apply not_elem_of_nil in Hr|].
  destruct Hl as [Hx Hl]. apply elem_of_cons in Hr as [->|Hr]; [|by eapply IH].
  rewrite Hx. apply sha256_length.
Qed.

(** A linked list, by position. *)
Lemma linked_lookup prev l :
  linked prev l ↔ ∀ i r, l !! i = Some r → ar_row_hash r = digest r (hash_before prev l i).
Proof.
  revert prev; induction l as [|x l IH]; intros prev; simpl; [done|]. rewrite IH. split.
  - intros [Hx Hl] [|i] r Hi; simpl in *; [by simplify_eq|]. rewrite (Hl i r Hi).
    destruct i as [|j]; simpl; [done|]. apply lookup_lt_Some in Hi.
    destruct (lookup_lt_is_Some_2 l j) as [y Hy]; [lia|]. by rewrite Hy.
  - intros Hall. split; [exact (Hall 0%nat x eq_refl)|]. intros i r Hi. rewrite (Hall (S i) r Hi).
    destruct i as [|j]; simpl; [done|]. apply lookup_lt_Some in Hi.
    destruct (lookup_lt_is_Some_2 l j) as [y Hy]; [lia|]. by rewrite Hy.
Qed.

Lemma end_hash_length prev l :
  length prev = 32%nat → linked prev l → length (end_hash prev l) = 32%nat.
Proof.
  intros Hp Hl. unfold end_hash. destruct (last l) as [r|] eqn:E; simpl; [|done].
  eapply linked_hash_length; [done|]. by apply last_Some_elem_of.
Qed.

(** The verifier's loop finds nothing exactly on linked rows. *)
Lemma verify_loop_linked prev l : verify_loop prev l = Some [] ↔ linked prev l.
Proof.
  revert prev; induction l as [|r l IH]; intros prev; simpl; [done|].
  rewrite computed_digest. case_bool_decide as Hh.
  - destruct (Nat.eqb_spec (length (ar_row_hash r)) 32) as [Hl|Hl].
    + rewrite <- IH. destruct (verify_loop (ar_row_hash r) l) as [bs|]; simpl.
      * split; [by intros [= ->]|by intros [_ ->]].
      * split; [done|by intros [_ ?]].
    + split; [done|]. intros [Hr _]. destruct Hl. rewrite Hr. apply sha256_length.
  - split; [|intros [Hr _]; congruence].
    destruct (length _ =? 32)%nat; [|done]. by destruct (verify_loop _ l).
Qed.

Lemma verify_linked rows :
  verify rows = Some (mkReport (length rows) []) ↔
  linked GENESIS_PREV_HASH (oldest_first rows).
Proof.
  rewrite <- verify_loop_linked. unfold verify.
  destruct (verify_loop _ _); simpl; naive_solver.
Qed.

Lemma insert_ordered_last r l : Forall (λ x, row_le x r) l → insert_ordered r l = l ++ [r].
Proof. induction 1 as [|x l Hx _ IH]; simpl; [done|]. by rewrite decide_True, IH. Qed.

Lemma insert_ordered_elem r l x : x ∈ insert_ordered r l ↔ x = r ∨ x ∈ l.
Proof.
  induction l as [|y l IH]; simpl; [set_solver|].
  destruct (decide (row_le y r)); rewrite !elem_of_cons, ?IH; tauto.
Qed.

Lemma oldest_first_app rows r : oldest_first (rows ++ [r]) = insert_ordered r (oldest_first rows).
Proof. unfold oldest_first. by rewrite foldl_app. Qed.

Lemma oldest_first_elem rows x : x ∈ oldest_first rows ↔ x ∈ rows.
Proof.
  induction rows as [|r rows IH] using rev_ind; [done|].
  rewrite oldest_first_app, insert_ordered_elem, IH, elem_of_app, list_elem_of_singleton. tauto.
Qed.

Lemma insert_ordered_length r l : length (insert_ordered r l) = S (length l).
Proof. induction l as [|x l IH]; simpl; [done|]. destruct (decide _); simpl; by rewrite ?IH. Qed.

Lemma oldest_first_length rows : length (oldest_first rows) = length rows.
Proof.
  induction rows as [|r rows IH] using rev_ind; [done|].
  rewrite oldest_first_app, insert_ordered_length, IH, length_app. simpl. lia.
Qed.

Lemma insert_ordered_perm r l : insert_ordered r l ≡ₚ r :: l.
Proof.
  induction l as [|x l IH]; simpl; [done|]. destruct (decide _); [|done].
  rewrite IH. by apply Permutation_swap.
Qed.

Lemma oldest_first_perm rows : oldest_first rows ≡ₚ rows.
Proof.
  induction rows as [|r rows IH] using rev_ind; [done|].
  by rewrite oldest_first_app, insert_ordered_perm, IH, Permutation_cons_append.
Qed.

Lemma row_le_total x y : ¬ row_le x y → row_le y x.
Proof.
  unfold row_le. intros Hn. destruct (Z.lt_trichotomy (ar_ts x) (ar_ts y)) as [?|[Ht|?]]; [tauto| |tauto].
  right. split; [done|]. destruct (total String.le (ar_id x) (ar_id y)); tauto.
Qed.

#[local] Instance row_le_trans : Transitive row_le.
Proof.
  intros x y z. unfold row_le. intros [?|[? ?]] [?|[? ?]]; [left; lia..|].
  right. split; [lia|]. by etrans.
Qed.

Lemma insert_ordered_sorted r l :
  StronglySorted row_le l → StronglySorted row_le (insert_ordered r l).
Proof.
  induction 1 as [|x l Hl IH Hx]; simpl; [by repeat constructor|].
  destruct (decide (row_le x r)) as [Hr|Hr].
  - constructor; [done|]. rewrite insert_ordered_perm. by constructor.
  - apply row_le_total in Hr. constructor; [by constructor|]. constructor; [done|].
    eapply Forall_impl; [exact Hx|]. intros y Hy. by etrans.
Qed.

(** The query's order is the order of time, and the only one when no two rows
    have the same id. *)
Lemma oldest_first_in_order rows : in_order (oldest_first rows) rows.
Proof.
  split; [apply oldest_first_perm|]. induction rows as [|r rows IH] using rev_ind; [constructor|].
  rewrite oldest_first_app. by apply insert_ordered_sorted.
Qed.

Lemma in_order_unique l rows :
  NoDup (map ar_id rows) → in_order l rows → l = oldest_first rows.
Proof.
  intros Hn [Hp Hs]. destruct (oldest_first_in_order rows) as [Hp' Hs'].
  apply (StronglySorted_unique_strong row_le); [|done|done|by rewrite Hp, Hp'].
  intros x y Hx Hy Hxy Hyx. rewrite Hp in Hx. rewrite Hp' in Hy.
  assert (ar_id x = ar_id y) as Hid.
  { unfold row_le in *. destruct Hxy as [?|[? Hle]], Hyx as [?|[? Hle']]; try lia.
    by apply (anti_symm String.le). }
  apply list_elem_of_lookup_1 in Hx as [i Hi]. apply list_elem_of_lookup_1 in Hy as [j Hj].
  assert (i = j) as ->; [|congruence].
  apply (NoDup_lookup _ i j (ar_id x) Hn); rewrite list_lookup_fmap; [by rewrite Hi|].
  rewrite Hj. simpl. by rewrite Hid.
Qed.

(** C17: the verifier finds nothing exactly when the log is a chain: taken in the
    order of time, ids breaking ties, every row stores the SHA-256 of its nine
    columns, in this order with a bar between them, followed by the hash of the row
    before it, or by 32 zero bytes for the first. No two rows have the same id, the
    table's primary key. *)
Theorem verify_clean_iff rows :
  NoDup (map ar_id rows) →
  verify rows = Some (mkReport (length rows) []) ↔ ∃ l, in_order l rows ∧ chained l.
Proof.
  intros Hn. rewrite verify_linked, linked_lookup. split.
  - intros Hc. exists (oldest_first rows). split; [apply oldest_first_in_order|exact Hc].
  - intros (l & Hl & Hc). by rewrite <- (in_order_unique l rows).
Qed.

(** Appending an event that is newest in the chain's order keeps the chain
    verifiable. *)
Lemma insert_row_linked r rows :
  linked GENESIS_PREV_HASH (oldest_first rows) →
  Forall (λ x, row_le x r) rows →
  linked GENESIS_PREV_HASH (oldest_first (insert_row r rows)).
Proof.
  intros Hl Hf. unfold insert_row. rewrite oldest_first_app, insert_ordered_last.
  - apply linked_app. split; [done|]. simpl.
    by rewrite digest_set_hashes, trigger_canonicalize, canonicalize_text.
  - apply Forall_forall. intros x Hx. rewrite oldest_first_elem in Hx.
    rewrite Forall_forall in Hf. exact (Hf x Hx).
Qed.

Lemma hash_before_app prev l k i : (i ≤ length l)%nat → hash_before prev (l ++ k) i = hash_before prev l i.
Proof. intros Hi. destruct i as [|j]; [done|]. simpl. by rewrite lookup_app_l by lia. Qed.

Lemma hash_before_end prev l : hash_before prev l (length l) = end_hash prev l.
Proof.
  unfold end_hash. destruct l as [|r l _] using rev_ind; [done|].
  rewrite last_snoc, length_app, Nat.add_comm. simpl.
  by rewrite lookup_app_r, Nat.sub_diag by lia.
Qed.

Lemma clash_app prev prev' l l' k k' :
  length l = length l' → clash prev prev' l l' → clash prev prev' (l ++ k) (l' ++ k').
Proof.
  intros Hlen (i & r & r' & Hi & Hi' & Hne & Heq). exists i, r, r'.
  pose proof (lookup_lt_Some _ _ _ Hi) as Hlt.
  rewrite !hash_before_app by lia. split; [by apply lookup_app_l_Some|].
  split; [by apply lookup_app_l_Some|done].
Qed.

(** Equal chain ends: by induction from the newest row, either the rows say the same
    or two different inputs hash alike. *)
Lemma linked_determined prev prev' l l' :
  length prev = 32%nat → length prev' = 32%nat →
  linked prev l → linked prev' l' → length l = length l' →
  end_hash prev l = end_hash prev' l' →
  (prev = prev' ∧ map record_text l = map record_text l') ∨ clash prev prev' l l'.
Proof.
  intros Hp Hp'. revert l'.
  induction l as [|r l IH] using rev_ind; intros l' Hl Hl' Hlen He.
  { destruct l'; [by left|done]. }
  destruct l' as [|r' l' _] using rev_ind; [by rewrite length_app, Nat.add_comm in Hlen|].
  rewrite !length_app in Hlen. simpl in Hlen. assert (length l = length l') as Hlen' by lia.
  apply linked_app in Hl as [Hl Hr]. apply linked_app in Hl' as [Hl' Hr'].
  unfold end_hash in He. rewrite !last_snoc in He. simpl in He. rewrite Hr, Hr' in He.
  destruct (decide (bytes (record_text r) ++ end_hash prev l =
                    bytes (record_text r') ++ end_hash prev' l')) as [Heq|Hne].
  - apply app_inj_2 in Heq as [Hc Hend]; [|by rewrite !end_hash_length].
    destruct (IH l' Hl Hl' Hlen' Hend) as [[-> Hm]|?]; [left|right; by apply clash_app].
    split; [done|]. rewrite !map_app, Hm. simpl. apply bytes_inj in Hc. by rewrite Hc.
  - right. exists (length l), r, r'. rewrite !hash_before_app by lia.
    rewrite hash_before_end, Hlen', hash_before_end, <- Hlen'.
    rewrite lookup_app_r, Nat.sub_diag by lia. split; [done|].
    by rewrite Hlen', lookup_app_r, Nat.sub_diag by lia.
Qed.

(** Two logs that both verify, with as many rows and the same head hash, record
    the same texts in the same order, or two rows at the same place of the two logs
    exhibit a SHA-256 collision: an anchored head and count fix the log's content. *)
Theorem anchored_log_fixed rows rows' :
  verify rows = Some (mkReport (length rows) []) →
  verify rows' = Some (mkReport (length rows') []) →
  length rows = length rows' →
  ar_row_hash <$> chain_head rows = ar_row_hash <$> chain_head rows' →
  map record_text (oldest_first rows) = map record_text (oldest_first rows') ∨
  clash GENESIS_PREV_HASH GENESIS_PREV_HASH (oldest_first rows) (oldest_first rows').
Proof.
  rewrite !verify_linked. intros Hl Hl' Hlen Hh.
  destruct (linked_determined GENESIS_PREV_HASH GENESIS_PREV_HASH
    (oldest_first rows) (oldest_first rows')) as [[_ ?]|?]; auto.
  - by rewrite !oldest_first_length.
  - unfold end_hash, chain_head in *. by rewrite Hh.
Qed.

(** ** Editing a row *)

(** [UPDATE audit.events SET .. WHERE id = $1]. *)
Definition edit_row (id : Uuid) (g : audit_row → audit_row) (rows : list audit_row) :
    list audit_row := map (λ r, if string_eqb (ar_id r) id then g r else r) rows.

(** An edit of columns other than the id, the timestamp and the stored hash. *)
Definition edits_columns (g : audit_row → audit_row) : Prop :=
  ∀ r, ar_id (g r) = ar_id r ∧ ar_ts (g r) = ar_ts r ∧ ar_row_hash (g r) = ar_row_hash r.

Lemma oldest_first_map f rows :
  (∀ r, ar_id (f r) = ar_id r ∧ ar_ts (f r) = ar_ts r) →
  oldest_first (map f rows) = map f (oldest_first rows).
Proof.
  intros Hf. assert (∀ r l, insert_ordered (f r) (map f l) = map f (insert_ordered r l)) as Hins.
  { intros r l. induction l as [|x l IH]; simpl; [done|].
    assert (row_le (f x) (f r) ↔ row_le x r) as Hle.
    { unfold row_le. destruct (Hf x) as [-> ->], (Hf r) as [-> ->]. done. }
    destruct (decide (row_le x r)); [rewrite decide_True by tauto|rewrite decide_False by tauto]; simpl;
      by rewrite ?IH. }
  induction rows as [|r rows IH] using rev_ind; [done|].
  by rewrite map_app; simpl; rewrite !oldest_first_app, IH, Hins.
Qed.

(** The loop over a linked list in which one row was edited. *)
Lemma verify_loop_edited prev l1 r r' l2 :
  length prev = 32%nat → linked prev (l1 ++ r :: l2) → ar_row_hash r' = ar_row_hash r →
  verify_loop prev (l1 ++ r' :: l2) =
    Some (if bool_decide (digest r' (end_hash prev l1) = ar_row_hash r) then []
          else [mkBreak (ar_id r') (ar_ts r') (digest r' (end_hash prev l1)) (ar_row_hash r)]).
Proof.
  intros Hp. revert prev Hp. induction l1 as [|x l1 IH]; intros prev Hp Hl Hh; simpl in *;
    rewrite computed_digest.
  - destruct Hl as [Hr Hl]. rewrite Hh.
    assert (length (ar_row_hash r) = 32%nat) as -> by (rewrite Hr; apply digest_length).
    rewrite (proj2 (verify_loop_linked _ _) Hl). simpl. by rewrite app_nil_r.
  - destruct Hl as [Hx Hl].
    assert (length (ar_row_hash x) = 32%nat) as Hlen by (rewrite Hx; apply digest_length).
    rewrite Hlen, bool_decide_true by done. simpl. rewrite (IH _ Hlen Hl Hh). simpl.
    assert (end_hash (ar_row_hash x) l1 = end_hash prev (x :: l1)) as ->; [|done].
    unfold end_hash. destruct l1 as [|y l1]; [done|]. rewrite last_cons_cons.
    destruct (last (y :: l1)) eqn:E; [done|by apply last_None in E].
Qed.

Lemma edit_row_split id g l1 r l2 :
  NoDup (map ar_id (l1 ++ r :: l2)) → ar_id r = id →
  edit_row id g (l1 ++ r :: l2) = l1 ++ g r :: l2.
Proof.
  intros Hn Hid. rewrite map_app in Hn. simpl in Hn.
  apply NoDup_app in Hn as (_ & H1 & [H2 _]%NoDup_cons).
  unfold edit_row. rewrite map_app. simpl. rewrite (proj2 (string_eqb_eq _ _) Hid).
  assert (∀ l, (∀ x, x ∈ l → ar_id x ≠ id) →
    map (λ r, if string_eqb (ar_id r) id then g r else r) l = l) as Hid'.
  { intros l Hl. induction l as [|x l IH]; simpl; [done|].
    rewrite (proj2 (string_eqb_neq _ _)) by (apply Hl; left). rewrite IH; [done|].
    intros y Hy. apply Hl. by right. }
  rewrite !Hid'; [done|..]; intros x Hx Heq; subst id.
  - apply H2. rewrite <- Heq. by apply list_elem_of_fmap_2.
  - apply (H1 (ar_id x)); [by apply list_elem_of_fmap_2|]. rewrite Heq. left.
Qed.

(** C18: an edited row is found. Take a log the verifier is content with and
    change columns of the [i]-th row in the order of time, leaving its id, its
    timestamp and its stored hash. The verifier then reports this row, with what
    it computed and what it found, and no other; unless SHA-256 maps the new text
    of the row and its old text, each followed by the hash of the row before, to
    the same digest, as it does when the two texts are the same
    ({!canonical_ambiguous}). *)
Theorem edit_detected rows l i r g :
  NoDup (map ar_id rows) → verify rows = Some (mkReport (length rows) []) →
  in_order l rows → l !! i = Some r → edits_columns g →
  let prev := hash_before GENESIS_PREV_HASH l i in
  let h := sha256 (bytes (record_text r) ++ prev) in
  let h' := sha256 (bytes (record_text (g r)) ++ prev) in
  verify (edit_row (ar_id r) g rows) =
    Some (mkReport (length rows) (if bool_decide (h' = h) then [] else [mkBreak (ar_id r) (ar_ts r) h' h])).
Proof.
  intros Hn Hv Hl Hi Hg prev h h'. apply in_order_unique in Hl as Ho; [|done].
  rewrite verify_linked, <- Ho in Hv.
  assert (ar_row_hash r = h) as Hh by exact (proj1 (linked_lookup _ _) Hv i r Hi).
  apply list_elem_of_split_length in Hi as (l1 & l2 & -> & ->).
  assert (prev = end_hash GENESIS_PREV_HASH l1) as Hprev.
  { unfold prev. by rewrite hash_before_app, hash_before_end by lia. }
  unfold verify, edit_row. rewrite length_map, oldest_first_map.
  2: { intros x. destruct (string_eqb _ _); [|done]. by destruct (Hg x) as (-> & -> & _). }
  rewrite <- Ho. change (map _ ?x) with (edit_row (ar_id r) g x).
  assert (NoDup (map ar_id (l1 ++ r :: l2))) as Hn'.
  { assert (map ar_id (l1 ++ r :: l2) ≡ₚ map ar_id rows) as Hp by apply Permutation_map, Hl.
    by rewrite Hp. }
  rewrite edit_row_split by done.
  destruct (Hg r) as (Hid & Hts & Hhash).
  rewrite (verify_loop_edited _ _ r) by done. rewrite Hid, Hts, <- Hprev, Hh. done.
Qed.

(** An event whose timestamp (the start of its transaction) precedes the head's,
    although its insertion got the lock later, makes an untampered log fail
    verification: the lock orders insertions, verification orders timestamps. The
    hypothesis tells the two digests apart: one after the genesis hash, one after
    the other row's. *)
Theorem late_insert_breaks r1 r2 :
  ar_ts r2 < ar_ts r1 →
  digest r2 (digest r1 GENESIS_PREV_HASH) ≠ digest r2 GENESIS_PREV_HASH →
  verify (insert_row r2 (insert_row r1 [])) ≠ Some (mkReport 2 []).
Proof.
  intros Hts Hne Hv. set (rows := insert_row r2 (insert_row r1 [])) in *.
  change 2%nat with (length rows) in Hv. apply verify_linked in Hv.
  set (h1 := sha256 (trigger_canonical r1 ++ GENESIS_PREV_HASH)) in *.
  set (r1' := set_hashes GENESIS_PREV_HASH h1 r1).
  set (r2' := set_hashes h1 (sha256 (trigger_canonical r2 ++ h1)) r2).
  assert (oldest_first rows = [r2'; r1']) as Ho.
  { unfold rows. change (insert_row r1 []) with [r1'].
    change (insert_row r2 [r1']) with [r1'; r2'].
    unfold oldest_first. cbn [foldl insert_ordered].
    rewrite decide_False; [done|]. unfold row_le. cbn. lia. }
  rewrite Ho in Hv. destruct Hv as [Hh _]. apply Hne. unfold r2', h1 in Hh.
  rewrite digest_set_hashes in Hh. cbn [ar_row_hash set_hashes] in Hh.
  by rewrite !trigger_canonicalize, !canonicalize_text in Hh.
Qed.
End Chain.

(** ** The sink ([postgres_sink.rs]) *)

Inductive AuditError := AStorage (msg : string) | ASerde (msg : string) | AOther (msg : string).

(** [AuditEvent], [AuditFilter]. *)
Record AuditEvent := mkEvent {
  ae_id : Uuid;
  ae_ts : Z;
  ae_actor_id : string;
  ae_action : ActionKind;
  ae_target_ref : option string;
  ae_credential_ref : option string;
  ae_op_summary : option string;
  ae_result : AuditResult;
  ae_latency_ms : option Z;
  ae_metadata : gmap string string;
}.

Record AuditFilter := mkFilter {
  af_actor_id : option string;
  af_action : option ActionKind;
  af_target_ref : option string;
  af_result : option AuditResult;
  af_since : option Z;
  af_until : option Z;
}.

(** A bound parameter. *)
Inductive Param := PText (s : string) | PTime (t : Z) | PInt (n : Z).

(** The pieces the builder pushes onto the statement text: literal text, a test
    with the number of its placeholder, the page. *)
Inductive column_test := TActor | TAction | TTarget | TResult | TSince | TUntil.

Inductive frag :=
| FText (s : string)
| FTest (t : column_test) (n : nat)
| FPage (limit offset : nat).

Definition test_text (t : column_test) : string :=
  match t with
  | TActor => " AND actor_id = $"
  | TAction => " AND action = $"
  | TTarget => " AND target_ref ILIKE $"
  | TResult => " AND result = $"
  | TSince => " AND ts >= $"
  | TUntil => " AND ts < $"
  end.

Definition frag_text (f : frag) : string :=
  match f with
  | FText s => s
  | FTest t n => test_text t +:+ show_Z (Z.of_nat n)
  | FPage l o => " LIMIT $" +:+ show_Z (Z.of_nat l) +:+ " OFFSET $" +:+ show_Z (Z.of_nat o)
  end.

(** The statement text. *)
Definition sql_text (l : list frag) : string := string_concat (map frag_text l).

(** [sql.push_str(&format!(" AND .. ${}", params.len() + 1)); params.push(..)]. *)
Definition push_clause (t : column_test) (p : option Param) (acc : list frag * list Param) :
    list frag * list Param :=
  match p with
  | None => acc
  | Some p => (acc.1 ++ [FTest t (length acc.2 + 1)], acc.2 ++ [p])
  end.

(** [push_filter_clauses]. *)
Definition push_filter_clauses (f : AuditFilter) (acc : list frag * list Param) :
    list frag * list Param :=
  let acc := push_clause TActor (PText <$> af_actor_id f) acc in
  let acc := push_clause TAction (PText ∘ action_as_str <$> af_action f) acc in
  let acc := push_clause TTarget
    ((λ t, PText ("%" +:+ t +:+ "%")) <$> af_target_ref f) acc in
  let acc := push_clause TResult (PText ∘ audit_result_as_str <$> af_result f) acc in
  let acc := push_clause TSince (PTime <$> af_since f) acc in
  push_clause TUntil (PTime <$> af_until f) acc.

Definition select_events : string :=
  "SELECT id, ts, actor_id, action, target_ref, credential_ref,
                op_summary, result, latency_ms, metadata
         FROM audit.events
         WHERE 1=1".

(** [build_query], [build_count]. *)
Definition build_query (f : AuditFilter) (paging : option (Z * Z)) : list frag * list Param :=
  let '(sql, params) := push_filter_clauses f ([FText select_events], []) in
  let sql := sql ++ [FText " ORDER BY ts DESC, id DESC"] in
  match paging with
  | None => (sql, params)
  | Some (limit, offset) =>
      (sql ++ [FPage (length params + 1) (length params + 2)],
       params ++ [PInt limit; PInt offset])
  end.

Definition build_count (f : AuditFilter) : list frag * list Param :=
  push_filter_clauses f ([FText "SELECT COUNT(*) FROM audit.events WHERE 1=1"], []).

(** [row_to_event]. *)
Definition row_to_event (r : audit_row) : AuditEvent := {|
  ae_id := ar_id r; ae_ts := ar_ts r; ae_actor_id := ar_actor_id r;
  ae_action := action_from_str (ar_action r);
  ae_target_ref := ar_target_ref r; ae_credential_ref := ar_credential_ref r;
  ae_op_summary := ar_op_summary r;
  ae_result := audit_result_from_str (ar_result r);
  ae_latency_ms := i32_as_u64 <$> ar_latency_ms r;
  ae_metadata := default ∅ (string_map_from_json (ar_metadata r));
|}.

(** The table with its clock, id supply and faults. *)
Record pgaudit := mkPgAudit {
  pa_rows : list audit_row;
  pa_now : Z;
  pa_uuids : nat → Uuid;
  pa_drawn : nat;
  pa_faults : list (option (bool * string));
}.

Section Sink.
Context `{Sha256} `{PgText}.
Abbreviation paio := (io pgaudit AuditError).

Definition set_pa_faults (f : list (option (bool * string))) (w : pgaudit) : pgaudit :=
  mkPgAudit (pa_rows w) (pa_now w) (pa_uuids w) (pa_drawn w) f.

(** The pool ([true]) or the statement fails, or neither. *)
Definition pa_query {A} (what : string) (stmt : pgaudit → A * pgaudit) : paio A := λ w,
  let w' := set_pa_faults (tail (pa_faults w)) w in
  match pa_faults w with
  | Some (true, e) :: _ => (Err (AStorage ("pool: " +:+ e)), w')
  | Some (false, e) :: _ => (Err (AStorage (what +:+ ": " +:+ e)), w')
  | _ => let '(a, w2) := stmt w' in (Ok a, w2)
  end.

(** The row [append] inserts, before the trigger runs. *)
Definition event_row (id : Uuid) (now : Z) (e : NewAuditEvent) : audit_row := {|
  ar_id := id; ar_ts := now; ar_actor_id := ev_actor_id e;
  ar_action := action_as_str (ev_action e);
  ar_target_ref := ev_target_ref e; ar_credential_ref := ev_credential_ref e;
  ar_op_summary := ev_op_summary e; ar_result := audit_result_as_str (ev_result e);
  ar_latency_ms := as_i32 <$> ev_latency_ms e;
  ar_metadata := string_map_to_json (ev_metadata e);
  ar_prev_hash := []; ar_row_hash := [];
|}.

(** [AuditSink::append]. *)
Definition pg_append (e : NewAuditEvent) : paio Uuid :=
  pa_query "append" (λ w,
    let id := pa_uuids w (pa_drawn w) in
    (id, mkPgAudit (insert_row (event_row id (pa_now w) e) (pa_rows w)) (pa_now w)
           (pa_uuids w) (S (pa_drawn w)) (pa_faults w))).

(** How the server evaluates a test on a row with the parameter bound to its
    placeholder, and a statement on the table. *)
Definition eval_test (t : column_test) (p : option Param) (r : audit_row) : bool :=
  match t, p with
  | TActor, Some (PText s) => string_eqb (ar_actor_id r) s
  | TAction, Some (PText s) => string_eqb (ar_action r) s
  | TTarget, Some (PText s) =>
      match ar_target_ref r with Some x => ilike x s | None => false end
  | TResult, Some (PText s) => string_eqb (ar_result r) s
  | TSince, Some (PTime t) => t <=? ar_ts r
  | TUntil, Some (PTime t) => ar_ts r <? t
  | _, _ => false
  end.

Definition eval_frag (params : list Param) (r : audit_row) (f : frag) : bool :=
  match f with
  | FTest t n => eval_test t (params !! (n - 1)%nat) r
  | _ => true
  end.

Definition page_of (params : list Param) (l : list frag) (rows : list audit_row) :
    list audit_row :=
  match last l with
  | Some (FPage i j) =>
      match params !! (i - 1)%nat, params !! (j - 1)%nat with
      | Some (PInt limit), Some (PInt offset) =>
          take (Z.to_nat limit) (drop (Z.to_nat offset) rows)
      | _, _ => []
      end
  | _ => rows
  end.

Definition selected (stmt : list frag * list Param) (rows : list audit_row) : list audit_row :=
  List.filter (λ r, forallb (eval_frag stmt.2 r) stmt.1) rows.

(** [AuditSink::query], [AuditSink::count]. *)
Definition pg_audit_query (f : AuditFilter) (limit offset : Z) : paio (list AuditEvent) :=
  let stmt := build_query f (Some (limit, offset)) in
  pa_query "query" (λ w,
    (page_of stmt.2 stmt.1 (selected stmt (reverse (oldest_first (pa_rows w)))), w))
  ≫= λ rows, mret (row_to_event <$> rows).

Definition pg_audit_count (f : AuditFilter) : paio Z :=
  pa_query "count" (λ w, (Z.of_nat (length (selected (build_count f) (pa_rows w))), w)).

(** ** Anchors ([snapshot.rs]) *)

Record anchor_row := mkAnchor {
  an_as_of_ts : Z;
  an_row_hash : blob;
  an_row_count : Z;
  an_instance : Uuid;
}.

(** [snapshot] up to the file mirror: the head's time and hash with the number of
    rows, or the present and the genesis hash for an empty log. *)
Definition snapshot_anchor (w : pgaudit) (instance_id : Uuid) : anchor_row :=
  match chain_head (pa_rows w) with
  | Some r => mkAnchor (ar_ts r) (ar_row_hash r) (Z.of_nat (length (pa_rows w))) instance_id
  | None => mkAnchor (pa_now w) (replicate 32 "000"%char) 0 instance_id
  end.

(** What a filter means: every field that is set agrees. *)
Definition opt_matches {A} (o : option A) (p : A → bool) : bool :=
  match o with Some a => p a | None => true end.

Definition filter_matches (f : AuditFilter) (r : audit_row) : bool :=
  opt_matches (af_actor_id f) (λ a, string_eqb (ar_actor_id r) a)
  && opt_matches (af_action f) (λ a, string_eqb (ar_action r) (action_as_str a))
  && opt_matches (af_target_ref f)
       (λ t, match ar_target_ref r with
             | Some x => ilike x ("%" +:+ t +:+ "%")
             | None => false
             end)
  && opt_matches (af_result f) (λ x, string_eqb (ar_result r) (audit_result_as_str x))
  && opt_matches (af_since f) (λ t, t <=? ar_ts r)
  && opt_matches (af_until f) (λ t, ar_ts r <? t).

(** Every placeholder pushed so far is bound by an existing parameter. *)
Definition bound_frags (acc : list frag * list Param) : Prop :=
  Forall (λ f, match f with FTest _ n => 1 ≤ n ≤ length acc.2 | _ => True end)%nat acc.1.

Lemma eval_frag_more r params more f :
  match f with FTest _ n => 1 ≤ n ≤ length params | _ => True end%nat →
  eval_frag (params ++ more) r f = eval_frag params r f.
Proof. destruct f as [| |]; simpl; intros; [done| |done]. by rewrite lookup_app_l by lia. Qed.

Lemma eval_frags_more r acc more :
  bound_frags acc →
  forallb (eval_frag (acc.2 ++ more) r) acc.1 = forallb (eval_frag acc.2 r) acc.1.
Proof.
  intros Hb. unfold bound_frags in Hb.
  induction Hb as [|f l Hf _ IH]; simpl; [done|]. rewrite IH. f_equal. by apply eval_frag_more.
Qed.

Lemma push_clause_eval r t p acc :
  bound_frags acc →
  bound_frags (push_clause t p acc) ∧
  forallb (eval_frag (push_clause t p acc).2 r) (push_clause t p acc).1 =
    forallb (eval_frag acc.2 r) acc.1 && opt_matches p (λ p, eval_test t (Some p) r).
Proof.
  intros Hb. destruct p as [p|]; simpl; [|by rewrite andb_true_r]. split.
  - unfold bound_frags. simpl. apply Forall_app. split.
    + eapply Forall_impl; [exact Hb|]. intros [| |]; try done. rewrite length_app. simpl. lia.
    + constructor; [|constructor]. rewrite length_app. simpl. lia.
  - rewrite forallb_app, eval_frags_more by done. simpl. rewrite andb_true_r.
    replace (length acc.2 + 1 - 1)%nat with (length acc.2) by lia.
    by rewrite lookup_app_r, Nat.sub_diag by lia.
Qed.

Lemma opt_matches_fmap {A B} (f : A → B) (p : B → bool) o :
  opt_matches (f <$> o) p = opt_matches o (p ∘ f).
Proof. by destruct o. Qed.

(** The pushed tests select what the filter means. *)
Lemma filter_clauses_eval r f head :
  bound_frags (push_filter_clauses f ([FText head], [])) ∧
  forallb (eval_frag (push_filter_clauses f ([FText head], [])).2 r)
    (push_filter_clauses f ([FText head], [])).1 = filter_matches f r.
Proof.
  unfold push_filter_clauses, filter_matches.
  assert (bound_frags ([FText head], [])) as Hb by by repeat constructor.
  repeat (match goal with |- context [push_clause ?t ?p ?acc] =>
    lazymatch acc with
    | context [push_clause] => fail
    | _ => let acc' := fresh "acc" in
           destruct (push_clause_eval r t p acc Hb) as [?Hb ?He];
           remember (push_clause t p acc) as acc' eqn:Hacc; clear Hacc;
           clear Hb; rename Hb0 into Hb
    end end).
  split; [done|]. rewrite He4, He3, He2, He1, He0, He, !opt_matches_fmap. done.
Qed.

Lemma selected_spec f head rows :
  selected (push_filter_clauses f ([FText head], [])) rows = List.filter (filter_matches f) rows.
Proof.
  unfold selected. apply List.filter_ext. intros r. apply filter_clauses_eval.
Qed.

(** A page of the log: the rows that match the filter, newest first, [offset]
    skipped and at most [limit] returned, each placeholder bound to its own
    value. *)
Theorem audit_query_spec f limit offset w :
  mjoin (head (pa_faults w)) = None →
  (pg_audit_query f limit offset w).1 =
  Ok (row_to_event <$> take (Z.to_nat limit) (drop (Z.to_nat offset)
       (List.filter (filter_matches f) (reverse (oldest_first (pa_rows w)))))).
Proof.
  intros Hf. unfold pg_audit_query, mbind, io_bind, pa_query.
  replace (match pa_faults w with _ => _ end) with
    (Ok (E := AuditError) (let stmt := build_query f (Some (limit, offset)) in
       page_of stmt.2 stmt.1 (selected stmt (reverse (oldest_first (pa_rows w))))),
     set_pa_faults (tail (pa_faults w)) w)
    by by destruct (pa_faults w) as [|[[[] e]|] fs].
  unfold build_query.
  assert (∀ rows, selected (push_filter_clauses f ([FText select_events], [])) rows =
    List.filter (filter_matches f) rows) as Hsel by (intros; apply selected_spec).
  destruct (filter_clauses_eval (mkAuditRow "" 0 "" "" None None None "" None JNull [] [])
    f select_events) as [Hb _].
  destruct (push_filter_clauses f ([FText select_events], [])) as [sql params].
  simpl. unfold page_of. rewrite last_snoc.
  rewrite lookup_app_r, lookup_app_r by lia.
  replace (length params + 1 - 1 - length params)%nat with 0%nat by lia.
  replace (length params + 2 - 1 - length params)%nat with 1%nat by lia. simpl.
  do 4 f_equal. rewrite <- Hsel. unfold selected. simpl. apply List.filter_ext. intros r.
  rewrite !forallb_app. simpl. rewrite !andb_true_r.
  exact (eval_frags_more r (sql, params) [PInt limit; PInt offset] Hb).
Qed.

(** The statement text depends only on which fields of the filter are set: no
    value of the filter reaches it. *)
Definition filter_shape (f : AuditFilter) : list bool :=
  [bool_decide (is_Some (af_actor_id f)); bool_decide (is_Some (af_action f));
   bool_decide (is_Some (af_target_ref f)); bool_decide (is_Some (af_result f));
   bool_decide (is_Some (af_since f)); bool_decide (is_Some (af_until f))].

Lemma push_clause_shape t p p' acc acc' :
  bool_decide (is_Some p) = bool_decide (is_Some p') →
  acc.1 = acc'.1 ∧ length acc.2 = length acc'.2 →
  (push_clause t p acc).1 = (push_clause t p' acc').1 ∧
  length (push_clause t p acc).2 = length (push_clause t p' acc').2.
Proof.
  intros Hp [H1 H2]. destruct p, p'; try done; simpl.
  by rewrite H1, H2, !length_app, H2.
Qed.

Lemma bool_decide_is_Some_fmap {A B} (g : A → B) o :
  bool_decide (is_Some (g <$> o)) = bool_decide (is_Some o).
Proof. apply bool_decide_ext. by rewrite fmap_is_Some. Qed.

Theorem query_text_static f f' limit offset limit' offset' :
  filter_shape f = filter_shape f' →
  sql_text (build_query f (Some (limit, offset))).1 =
  sql_text (build_query f' (Some (limit', offset'))).1.
Proof.
  unfold filter_shape. intros [=].
  assert ((push_filter_clauses f ([FText select_events], [])).1 =
          (push_filter_clauses f' ([FText select_events], [])).1 ∧
          length (push_filter_clauses f ([FText select_events], [])).2 =
          length (push_filter_clauses f' ([FText select_events], [])).2) as [H1' H2'].
  { unfold push_filter_clauses.
    repeat apply push_clause_shape; rewrite ?bool_decide_is_Some_fmap; done. }
  unfold build_query.
  destruct (push_filter_clauses f _) as [sql ps], (push_filter_clauses f' _) as [sql' ps'].
  simpl in *. by rewrite H1', H2'.
Qed.

Lemma latency_roundtrip lat :
  0 ≤ lat < 2^64 → i32_as_u64 (as_i32 lat) = lat ↔ lat < 2^31 ∨ 2^64 - 2^31 ≤ lat.
Proof.
  unfold as_i32, i32_as_u64.
  change (2^31) with 2147483648. change (2^32) with 4294967296.
  change (2^64) with 18446744073709551616. intros Hl.
  Z.to_euclidean_division_equations. lia.
Qed.

(** An appended event reads back as it was written. Its latency, a [u64] stored in
    an [i32] column, survives below 2^31 milliseconds (and, by sign extension, in
    the topmost 2^31 values), and is altered otherwise. *)
Theorem audit_event_roundtrip id now e lat :
  ev_latency_ms e = Some lat → 0 ≤ lat < 2^64 →
  let r := row_to_event (event_row id now e) in
  (ae_actor_id r = ev_actor_id e ∧ ae_action r = ev_action e ∧
   ae_target_ref r = ev_target_ref e ∧ ae_credential_ref r = ev_credential_ref e ∧
   ae_op_summary r = ev_op_summary e ∧ ae_result r = ev_result e ∧
   ae_metadata r = ev_metadata e) ∧
  (ae_latency_ms r = Some lat ↔ lat < 2^31 ∨ 2^64 - 2^31 ≤ lat).
Proof.
  intros Hl Hr. cbn -[string_map_from_json string_map_to_json Z.pow i32_as_u64 as_i32].
  rewrite action_roundtrip, audit_result_roundtrip, string_map_json_roundtrip, Hl.
  split; [done|]. rewrite <- latency_roundtrip by done.
  change (Some (i32_as_u64 (as_i32 lat)) = Some lat ↔ i32_as_u64 (as_i32 lat) = lat).
  split; [congruence|by intros ->].
Qed.

(** Appending through the sink, with a timestamp and id not before the rows
    already there, keeps the log verifiable. *)
Theorem append_keeps_chain e w id w' :
  verify (pa_rows w) = Some (mkReport (length (pa_rows w)) []) →
  Forall (λ x, row_le x (event_row (pa_uuids w (pa_drawn w)) (pa_now w) e)) (pa_rows w) →
  pg_append e w = (Ok id, w') →
  verify (pa_rows w') = Some (mkReport (length (pa_rows w')) []).
Proof.
  rewrite !verify_linked. intros Hv Hf Ha. unfold pg_append, pa_query in Ha.
  destruct (pa_faults w) as [|[[[] er]|] fs]; simplify_eq/=; by apply insert_row_linked.
Qed.

(** Two rows that differ in target, credential and summary with one canonical
    text: the separator is not escaped. *)
Theorem canonical_ambiguous r t c s :
  let mk target cred sum :=
    mkAuditRow (ar_id r) (ar_ts r) (ar_actor_id r) (ar_action r) target cred sum
      (ar_result r) (ar_latency_ms r) (ar_metadata r) (ar_prev_hash r) (ar_row_hash r) in
  canonicalize (mk (Some (t +:+ "|" +:+ c)) None (Some s)) =
  canonicalize (mk (Some t) (Some c) (Some ("|" +:+ s))).
Proof.
  intros mk. unfold canonicalize. f_equal. unfold join_bar. simpl.
  rewrite <- !string_app_assoc. done.
Qed.

(** The anchor of a verifying log fixes its content: a later log with this head
    and count records the same texts, or two of its rows and the first's exhibit a
    SHA-256 collision. *)
Theorem anchor_fixes_log w w' i i' :
  verify (pa_rows w) = Some (mkReport (length (pa_rows w)) []) →
  verify (pa_rows w') = Some (mkReport (length (pa_rows w')) []) →
  pa_rows w ≠ [] → an_row_count (snapshot_anchor w i) = an_row_count (snapshot_anchor w' i') →
  an_row_hash (snapshot_anchor w i) = an_row_hash (snapshot_anchor w' i') →
  map record_text (oldest_first (pa_rows w)) = map record_text (oldest_first (pa_rows w')) ∨
  clash GENESIS_PREV_HASH GENESIS_PREV_HASH
    (oldest_first (pa_rows w)) (oldest_first (pa_rows w')).
Proof.
  intros Hv Hv' Hne. unfold snapshot_anchor.
  assert (∀ rows, chain_head rows = None → rows = []) as Hh.
  { intros rows. unfold chain_head. rewrite last_None. intros Ho.
    apply length_zero_iff_nil. by rewrite <- oldest_first_length, Ho. }
  destruct (chain_head (pa_rows w)) as [r|] eqn:E; [|by apply Hh in E].
  destruct (chain_head (pa_rows w')) as [r'|] eqn:E'; simpl.
  - intros Hc Hr. apply anchored_log_fixed; [done|done|lia|].
    by rewrite E, E'; simpl; rewrite Hr.
  - intros Hc _. destruct (pa_rows w); [done|]. simpl in Hc. lia.
Qed.
End Sink.

(** [Manifest], [Snapshot]. *)
Record Manifest := mkManifest {
  mf_as_of_ts : Z;
  mf_row_hash_hex : string;
  mf_row_count : Z;
  mf_daimon_instance_id : Uuid;
}.

Record Snapshot := mkSnapshot { sn_manifest : Manifest; sn_written_to : option string }.

(** The log, [audit.anchors], the mirror's files, and the outcome of each I/O call in
    turn ([true]: it fails). *)
Record anchor_world := mkAnchorWorld {
  aw_log : pgaudit;
  aw_anchors : list anchor_row;
  aw_files : gmap string string;
  aw_faults : list bool;
}.

Section Anchor.
Context `{Sha256} `{PgText} `{Hex}.
(** [serde_json::to_vec_pretty] and chrono's file-name format. *)
Context (pretty : Manifest → string) (file_stamp : Z → string).
Abbreviation awio := (io anchor_world string).

Definition aw_io (context : string) (f : anchor_world → anchor_world) : awio unit := λ w,
  let w' := mkAnchorWorld (aw_log w) (aw_anchors w) (aw_files w) (tail (aw_faults w)) in
  match aw_faults w with
  | true :: _ => (Err context, w')
  | _ => (Ok tt, f w')
  end.

(** [snapshot::snapshot]. *)
Definition snapshot (instance_id : Uuid) (anchor_dir : option string) : awio Snapshot :=
  aw_io "get pg client" id ≫= λ _,
  aw_io "chain head lookup" id ≫= λ _,
  gets (λ w, snapshot_anchor (aw_log w) instance_id) ≫= λ anchor,
  aw_io "anchor insert" (λ w,
    mkAnchorWorld (aw_log w) (aw_anchors w ++ [anchor]) (aw_files w) (aw_faults w)) ≫= λ _,
  let manifest := mkManifest (an_as_of_ts anchor) (hex_encode (an_row_hash anchor))
                    (an_row_count anchor) instance_id in
  match anchor_dir with
  | None => mret (mkSnapshot manifest None)
  | Some dir =>
      aw_io ("create " +:+ dir) id ≫= λ _,
      let path := path_join dir (file_stamp (an_as_of_ts anchor) +:+ ".json") in
      aw_io "write manifest" (λ w,
        mkAnchorWorld (aw_log w) (aw_anchors w) (<[path := pretty manifest]> (aw_files w))
          (aw_faults w)) ≫= λ _,
      mret (mkSnapshot manifest (Some path))
  end.

(** The [verify] command of [main]: it fails on a break. *)
Definition main_verify (rows : list audit_row) : option (result string VerifyReport) :=
  (λ report, match breaks report with
             | [] => Ok report
             | bs => Err ("chain verification failed: " +:+ show_Z (Z.of_nat (length bs))
                            +:+ " break(s)")
             end) <$> verify rows.

(** A snapshot that succeeds has recorded the head and the count of the log in
    [audit.anchors], and mirrors them in the manifest. *)
Lemma snapshot_records instance_id dir w s w' :
  snapshot instance_id dir w = (Ok s, w') →
  let a := snapshot_anchor (aw_log w) instance_id in
  aw_log w' = aw_log w ∧ aw_anchors w' = aw_anchors w ++ [a] ∧
  sn_manifest s = mkManifest (an_as_of_ts a) (hex_encode (an_row_hash a)) (an_row_count a)
                    instance_id ∧
  (∀ d, dir = Some d → ∃ p, sn_written_to s = Some p ∧
     aw_files w' !! p = Some (pretty (sn_manifest s))).
Proof.
  unfold snapshot, aw_io, mbind, io_bind, gets, mret, io_ret. simpl.
  destruct w as [log an files [|[] [|[] [|[] fs]]]]; simpl; try done;
    (destruct dir as [d|];
      [try (destruct fs as [|[] [|[] fs]]; simpl; try done)|]);
    intros; simplify_eq/=; repeat split; try done; intros ? [= <-]; eexists;
    (split; [done|]); by rewrite lookup_insert_eq.
Qed.
End Anchor.

(** [resolve_pg_url], [resolve_anchor_dir] of the command line. *)
Definition resolve_pg_url (arg : option string) (env : gmap string env_value) : string :=
  match arg with
  | Some u => u
  | None =>
      match env_var env "DAIMON_PG_URL" with
      | Some u => u
      | None => "postgres://" +:+ default "postgres" (env_var env "USER")
                  +:+ "@localhost:5432/daimon"
      end
  end.

Definition resolve_anchor_dir (arg : option string) (env : gmap string env_value) : string :=
  match arg with
  | Some p => p
  | None =>
      match env_var env "DAIMON_ANCHOR_DIR" with
      | Some p => p
      | None =>
          match env_var env "DAIMON_DATA_DIR" with
          | Some p => path_join p "anchors"
          | None => "./daimon-data/anchors"
          end
      end
  end.

(** ** A concrete digest and texts, for the witnesses *)

Definition demo_digest (b : blob) : blob :=
  let n := foldl (λ acc a, (acc * 257 + byte_val a + 1) mod 2^256) 7 b in
  (λ i, ascii_of_N (Z.to_N (n / 2^(8 * Z.of_nat i) mod 256))) <$> seq 0 32.

#[local] Program Instance demo_sha256 : Sha256 := {| sha256 := demo_digest |}.
Next Obligation. intros b. unfold demo_digest. by rewrite length_fmap, length_seq. Qed.

#[local] Program Instance demo_pg_text : PgText := {|
  rfc3339_micros t := show_Z t; to_char_micros t := show_Z t;
  jsonb_text j := "{}"; ilike s p := contains p s;
|}.
Solve Obligations with done.

Definition demo_log : pgaudit :=
  (pg_append (audit_event_new "ops" VaultReveal ASuccess)
    (mkPgAudit [] 10 demo_uuids 0 [])).2.

Lemma append_keeps_chain_witness :
  let e := audit_event_new "ops" VaultDelete AError in
  verify (pa_rows (pg_append e demo_log).2) =
  Some (mkReport (length (pa_rows (pg_append e demo_log).2)) []).
Proof.
  intros e. apply (append_keeps_chain e demo_log (demo_uuids 1)).
  - vm_compute. reflexivity.
  - constructor; [|constructor]. eapply (bool_decide_unpack (row_le _ _)). vm_compute. exact I.
  - apply run_split. vm_compute. reflexivity.
Defined.

Lemma audit_query_spec_witness :
  let f := mkFilter (Some "ops") None None None None None in
  (pg_audit_query f 10 0 demo_log).1 =
  Ok (row_to_event <$> take 10 (drop 0 (List.filter (filter_matches f)
        (reverse (oldest_first (pa_rows demo_log)))))).
Proof. apply (audit_query_spec (mkFilter (Some "ops") None None None None None) 10 0). done. Defined.

Lemma audit_event_roundtrip_witness :
  let e := with_latency_ms 1500 (audit_event_new "ops" VaultReveal ASuccess) in
  (ae_latency_ms (row_to_event (event_row "id" 0 e)) = Some 1500 ↔
   1500 < 2^31 ∨ 2^64 - 2^31 ≤ 1500).
Proof.
  intros e. apply (audit_event_roundtrip "id" 0 e 1500); [reflexivity|lia].
Defined.

Lemma query_text_static_witness :
  let f := mkFilter (Some "ops") None (Some "edge") None None None in
  let f' := mkFilter (Some "x' OR 1=1 --") None (Some "%") None None None in
  sql_text (build_query f (Some (50, 0))).1 = sql_text (build_query f' (Some (1, 9))).1.
Proof. intros f f'. apply (query_text_static f f'). reflexivity. Defined.

Lemma verify_clean_iff_witness :
  ∃ l, in_order l (pa_rows demo_log) ∧ chained l.
Proof.
  apply (verify_clean_iff (pa_rows demo_log)).
  - apply (bool_decide_unpack _). vm_compute. exact I.
  - vm_compute. reflexivity.
Defined.

(** The only row of the log, and the edit that names another actor. *)
Definition demo_row : audit_row :=
  default (event_row "" 0 (audit_event_new "" ActionOther AError)) (head (pa_rows demo_log)).

Definition blame (r : audit_row) : audit_row :=
  mkAuditRow (ar_id r) (ar_ts r) "someone else" (ar_action r) (ar_target_ref r)
    (ar_credential_ref r) (ar_op_summary r) (ar_result r) (ar_latency_ms r)
    (ar_metadata r) (ar_prev_hash r) (ar_row_hash r).

Lemma edit_detected_witness :
  ∃ h h', verify (edit_row (ar_id demo_row) blame (pa_rows demo_log)) =
    Some (mkReport 1 [mkBreak (ar_id demo_row) (ar_ts demo_row) h' h]).
Proof.
  assert (in_order (pa_rows demo_log) (pa_rows demo_log)) as Ho
    by (split; [reflexivity|apply (bool_decide_unpack _); vm_compute; exact I]).
  pose proof (edit_detected (pa_rows demo_log) (pa_rows demo_log) 0 demo_row blame) as Hd.
  cbv zeta in Hd. rewrite Hd; clear Hd.
  - match goal with |- context [if ?b then _ else _] =>
      assert (b = false) as -> by (vm_compute; reflexivity) end.
    eexists _, _. reflexivity.
  - apply (bool_decide_unpack _). vm_compute. exact I.
  - vm_compute. reflexivity.
  - exact Ho.
  - vm_compute. reflexivity.
  - intros r. split; [reflexivity|split; reflexivity].
Defined.

Lemma anchor_fixes_log_witness :
  map record_text (oldest_first (pa_rows demo_log)) =
    map record_text (oldest_first (pa_rows demo_log)) ∨
  clash GENESIS_PREV_HASH GENESIS_PREV_HASH
    (oldest_first (pa_rows demo_log)) (oldest_first (pa_rows demo_log)).
Proof.
  apply (anchor_fixes_log demo_log demo_log "i" "j"); try (vm_compute; reflexivity).
  vm_compute. discriminate.
Defined.

Lemma late_insert_breaks_witness :
  let r1 := event_row "id-1" 20 (audit_event_new "a" VaultReveal ASuccess) in
  let r2 := event_row "id-2" 10 (audit_event_new "b" VaultReveal ASuccess) in
  verify (insert_row r2 (insert_row r1 [])) ≠ Some (mkReport 2 []).
Proof.
  intros r1 r2. apply (late_insert_breaks r1 r2); [reflexivity|].
  vm_compute. discriminate.
Defined.
