(* ===== verification/Llm.v ===== *)
(** * daimon-llm: the model providers
    ([daimon-llm/src/types.rs], [error.rs], [lib.rs], [anthropic.rs], [openai.rs],
    [local.rs], [chatgpt.rs])

    The provider-neutral messages and deltas, and the four clients: what each puts
    into a request and how it turns a response, streamed or not, into deltas. HTTP,
    the file system and the splitting of a byte stream into server-sent events are
    operations of the host ({!LlmHost}); serde's derived decoders are written out for
    JSON objects, its messages are a parameter. A stream is the list of the items it
    yields. *)

From S2P Require Import Prelude RustStd Json.
From Stdlib Require Import ZArith Ascii.

Local Open Scope Z_scope.

(** ** [types.rs] *)

Inductive Role := RoleSystem | RoleUser | RoleAssistant | RoleTool.

Record ToolCall := mkToolCall {
  tc_id : string;
  tc_name : string;
  tc_arguments : json;
}.

Record ChatMessage := mkChat {
  ms_role : Role;
  ms_content : string;
  ms_tool_use_id : option string;
  ms_tool_calls : list ToolCall;
}.

Definition msg_system (content : string) : ChatMessage := mkChat RoleSystem content None [].
Definition msg_user (content : string) : ChatMessage := mkChat RoleUser content None [].
Definition msg_assistant (content : string) : ChatMessage := mkChat RoleAssistant content None [].
Definition msg_tool_result (tool_use_id content : string) : ChatMessage :=
  mkChat RoleTool content (Some tool_use_id) [].

Record ToolDefinition := mkToolDef {
  td_name : string;
  td_description : string;
  td_input_schema : json;
}.

(** [temperature] is an [f32]: the decimal text it prints as. *)
Record CompletionRequest := mkCompletion {
  cr_model : string;
  cr_messages : list ChatMessage;
  cr_system : option string;
  cr_max_tokens : Z;
  cr_temperature : option string;
  cr_tools : list ToolDefinition;
  cr_request_id : option string;
}.

Inductive StopReason := EndTurn | MaxTokens | StopSequence | StopToolUse | StopError.

#[export] Instance stop_reason_eq_dec : EqDecision StopReason.
Proof. solve_decision. Defined.

Record Usage := mkUsage {
  us_input_tokens : Z;
  us_output_tokens : Z;
  us_cache_read_input_tokens : Z;
  us_cache_creation_input_tokens : Z;
}.
Definition usage_default : Usage := mkUsage 0 0 0 0.

Inductive AssistantContent :=
| ACText (text : string)
| ACToolUse (id name : string) (input : json).

Record CompletionResponse := mkCompletionResp {
  cp_id : string;
  cp_model : string;
  cp_content : list AssistantContent;
  cp_stop_reason : StopReason;
  cp_usage : Usage;
}.

Inductive ContentDelta :=
| TextDelta (text : string)
| ToolUseStart (id name : string)
| ToolUseInputDelta (partial_json : string)
| ToolUseStop (id : string)
| MessageStop (stop_reason : StopReason) (usage : Usage).

(** [daimon_llm::Error]; [LPanic] is not a value of it: the task unwinds. *)
Inductive LlmError :=
| LMissingApiKey (provider : string)
| LHttp (e : string)
| LApiError (status : Z) (body : string)
| LDecode (e : string)
| LStream (e : string)
| LOther (e : string)
| LPanic.

(** The dash of [MissingApiKey]'s message: U+2014. *)
Definition em_dash : string := utf8 [226; 128; 148]%N.

Definition show_llm_error (e : LlmError) : string :=
  match e with
  | LMissingApiKey p =>
      "missing API key for provider `" +:+ p +:+ "` " +:+ em_dash +:+ " set the matching env var"
  | LHttp e => "http error: " +:+ e
  | LApiError status body => "provider returned " +:+ show_Z status +:+ ": " +:+ body
  | LDecode e => "decode response: " +:+ e
  | LStream e => "stream error: " +:+ e
  | LOther e => e
  | LPanic => ""
  end.

(** One event of a server-sent stream. *)
Record SseEvent := mkSse { ev_event : string; ev_data : string }.

(** What the clients need from outside: [reqwest] (a POST with headers and a JSON
    body; a response has a status, a text, a JSON body and chunks of bytes),
    [eventsource_stream], and files. *)
Class LlmHost (W : Type) := {
  response : Type;
  rs_status : response → Z;
  rs_text : response → result string string;
  rs_json : response → result string json;
  rs_chunks : response → list (result string (list ascii));
  eventsource : list (result string (list ascii)) → list (result string SseEvent);
  http_post : string → list (string * string) → json → io W string response;
  host_exists : string → W → bool;
  host_read : string → io W string string;
  host_write : string → string → io W string unit;
  host_rename : string → string → io W string unit;
  now_rfc3339 : W → string;
  new_uuid : W → string * W;
}.

(** Files: a read shows the file and changes nothing, a write and a rename put one
    file in place, and a request leaves them alone. *)
Class LlmFiles (W : Type) `{LlmHost W} := {
  host_file : W → string → option string;
  host_read_law p w s w' : host_read p w = (Ok s, w') →
    host_file w p = Some s ∧ ∀ q, host_file w' q = host_file w q;
  host_write_law p s w w' : host_write p s w = (Ok tt, w') → host_file w' p = Some s;
  host_rename_law p q w w' : host_rename p q w = (Ok tt, w') → host_file w' q = host_file w p;
  http_post_law url headers body w r w' : http_post url headers body w = (r, w') →
    ∀ q, host_file w' q = host_file w q;
}.

(** The trait. *)
Class LlmClient (C W : Type) := {
  llm_provider : C → string;
  llm_default_model : C → string;
  complete : C → CompletionRequest → io W LlmError CompletionResponse;
  complete_stream : C → CompletionRequest → io W LlmError (list (result LlmError ContentDelta));
}.

(** ** Decoding

    Field decoders of derived [Deserialize] instances; [None] is a type error.
    [#[serde(default)]] covers an absent field, not a null one. *)

Definition req_str (j : json) (k : string) : option string := jget j k ≫= as_str.

Definition opt_str (j : json) (k : string) : option (option string) :=
  match jget j k with
  | None | Some JNull => Some None
  | Some (JString s) => Some (Some s)
  | Some _ => None
  end.

Definition as_u32 (j : json) : option Z :=
  match j with JInt z => if (0 <=? z) && (z <? 2^32) then Some z else None | _ => None end.

Definition default_u32 (j : json) (k : string) : option Z :=
  match jget j k with None => Some 0 | Some v => as_u32 v end.

Definition req_array (j : json) (k : string) : option (list json) :=
  match jget j k with Some (JArray l) => Some l | _ => None end.

Definition default_array (j : json) (k : string) : option (list json) :=
  match jget j k with None => Some [] | Some (JArray l) => Some l | Some _ => None end.

(** [Option<T>] of a struct. *)
Definition opt_object {A} (f : json → option A) (j : json) (k : string) : option (option A) :=
  match jget j k with
  | None | Some JNull => Some None
  | Some v => Some <$> f v
  end.

(** A struct is decoded from an object. *)
Definition of_object {A} (f : json → option A) (j : json) : option A :=
  match j with JObject _ => f j | _ => None end.

Definition req_struct {A} (f : json → option A) (j : json) (k : string) : option A :=
  jget j k ≫= of_object f.

Definition req_u32 (j : json) (k : string) : option Z := jget j k ≫= as_u32.

(** [req.model] when given, else the client's. *)
Definition with_default_model (m : string) (r : CompletionRequest) : CompletionRequest :=
  mkCompletion (if string_eqb (cr_model r) "" then m else cr_model r) (cr_messages r) (cr_system r)
    (cr_max_tokens r) (cr_temperature r) (cr_tools r) (cr_request_id r).

(** [body[k] = v] on an object. *)
Definition jset (k : string) (v : json) (j : json) : json :=
  match j with JObject l => JObject (assoc_insert k v l) | _ => j end.

Definition jset_opt (k : string) (v : option json) (j : json) : json :=
  match v with Some v => jset k v j | None => j end.

(** [filter_map] of the mapped stream: nothing for an ignored event. *)
Definition flatten_item {A} (r : result LlmError (option A)) : list (result LlmError A) :=
  match r with Ok (Some d) => [Ok d] | Ok None => [] | Err e => [Err e] end.

Section Clients.
Context {W : Type} `{LlmHost W} `{JsonText}.
(** serde's message for a value of another shape, by the type wanted. *)
Context (serde_error : string → json → string).
Abbreviation lio := (io W LlmError).
Abbreviation stream := (list (result LlmError ContentDelta)).

(** [serde_json::from_str::<T>] of an event's data. *)
Definition de_str {A} (ty : string) (f : json → option A) (text : string) : result string A :=
  json_from_str text ≫= λ j, ok_or (of_object f j) (serde_error ty j).

(** [send().await?], then the status check every client makes. *)
Definition post (url : string) (headers : list (string * string)) (body : json) : lio response :=
  io_map_err LHttp (http_post url headers body).

Definition check_status (r : response) : result LlmError response :=
  if is_success (rs_status r) then Ok r
  else Err (LApiError (rs_status r) (default "" (ok (rs_text r)))).

(** [resp.json().await.map_err(..)] into a struct. *)
Definition body_as {A} (what ty : string) (f : json → option A) (r : response) :
    result LlmError A :=
  map_err (λ e, LDecode (what +:+ ": " +:+ e))
    (rs_json r ≫= λ j, ok_or (of_object f j) (serde_error ty j)).

(** ** Anthropic ([anthropic.rs]) *)

Definition API_URL : string := "https://api.anthropic.com/v1/messages".
Definition API_VERSION : string := "2023-06-01".
Definition ANTHROPIC_MODEL : string := "claude-sonnet-4-6".

Record AnthropicClient := mkAnthropic { an_api_key : string; an_default_model : string }.

(** [builder] is the outcome of building the HTTP client, here and below. *)
Definition anthropic_new (builder : result string unit) (api_key default_model : string) :
    result LlmError AnthropicClient :=
  map_err LHttp builder ≫= λ _, Ok (mkAnthropic api_key default_model).

Definition anthropic_from_env (builder : result string unit) (env : string → option string) :
    result LlmError AnthropicClient :=
  ok_or (env "ANTHROPIC_API_KEY") (LMissingApiKey "ANTHROPIC_API_KEY") ≫= λ k,
  anthropic_new builder k ANTHROPIC_MODEL.

Definition text_block (text : string) : json :=
  jobj [("type", JString "text"); ("text", JString text)].

Definition tool_use_block (tc : ToolCall) : json :=
  jobj [("type", JString "tool_use"); ("id", JString (tc_id tc)); ("name", JString (tc_name tc));
        ("input", tc_arguments tc)].

Definition role_content (role : string) (content : json) : json :=
  jobj [("role", JString role); ("content", content)].

(** One message; a system message has none. *)
Definition anthropic_message (m : ChatMessage) : option json :=
  match ms_role m with
  | RoleSystem => None
  | RoleUser => Some (role_content "user" (JString (ms_content m)))
  | RoleAssistant =>
      if bool_decide (ms_tool_calls m = []) then
        Some (role_content "assistant" (JString (ms_content m)))
      else
        Some (role_content "assistant" (JArray
          ((if string_eqb (ms_content m) "" then [] else [text_block (ms_content m)]) ++
           map tool_use_block (ms_tool_calls m))))
  | RoleTool =>
      Some (role_content "user" (JArray [jobj
        [("type", JString "tool_result");
         ("tool_use_id", JString (default "" (ms_tool_use_id m)));
         ("content", JString (ms_content m))]]))
  end.

Definition map_messages (l : list ChatMessage) : list json := omap anthropic_message l.

Definition anthropic_tool (t : ToolDefinition) : json :=
  jobj [("name", JString (td_name t)); ("description", JString (td_description t));
        ("input_schema", td_input_schema t)].

(** The value of [body[k]] for a list that is left out when empty. *)
Definition nonempty_array (l : list json) : option json :=
  match l with [] => None | _ => Some (JArray l) end.

Definition anthropic_body (r : CompletionRequest) (streaming : bool) : json :=
  jset_opt "tools" (nonempty_array (map anthropic_tool (cr_tools r)))
    (jset_opt "temperature" (JFloat <$> cr_temperature r)
      (jset_opt "system" (JString <$> cr_system r)
        (jobj [("model", JString (cr_model r)); ("max_tokens", JInt (cr_max_tokens r));
               ("messages", JArray (map_messages (cr_messages r)));
               ("stream", JBool streaming)]))).

Inductive RawContentBlock :=
| RawText (text : string)
| RawToolUse (id name : string) (input : json).

Definition decode_block (j : json) : option RawContentBlock :=
  req_str j "type" ≫= λ ty,
  if string_eqb ty "text" then RawText <$> req_str j "text"
  else if string_eqb ty "tool_use" then
    req_str j "id" ≫= λ id, req_str j "name" ≫= λ name,
    jget j "input" ≫= λ input, Some (RawToolUse id name input)
  else None.

Definition decode_raw_usage (j : json) : option Usage :=
  default_u32 j "input_tokens" ≫= λ i, default_u32 j "output_tokens" ≫= λ o,
  default_u32 j "cache_read_input_tokens" ≫= λ r,
  default_u32 j "cache_creation_input_tokens" ≫= λ c, Some (mkUsage i o r c).

Definition anthropic_stop_reason (s : option string) : StopReason :=
  match s with
  | Some s =>
      if string_eqb s "end_turn" then EndTurn
      else if string_eqb s "max_tokens" then MaxTokens
      else if string_eqb s "stop_sequence" then StopSequence
      else if string_eqb s "tool_use" then StopToolUse
      else StopError
  | None => StopError
  end.

Definition block_content (b : RawContentBlock) : AssistantContent :=
  match b with
  | RawText text => ACText text
  | RawToolUse id name input => ACToolUse id name input
  end.

(** [RawMessageResponse] and [into_completion_response]. *)
Definition decode_message (j : json) : option CompletionResponse :=
  req_str j "id" ≫= λ id, req_str j "model" ≫= λ model,
  req_array j "content" ≫= λ blocks, mapM (of_object decode_block) blocks ≫= λ content,
  opt_str j "stop_reason" ≫= λ stop, req_struct decode_raw_usage j "usage" ≫= λ usage,
  Some (mkCompletionResp id model (map block_content content) (anthropic_stop_reason stop) usage).

(** The stream events and their [into_delta]. *)
Definition block_start_delta (j : json) : option (option ContentDelta) :=
  req_u32 j "index" ≫= λ _, req_struct decode_block j "content_block" ≫= λ b,
  Some (match b with RawText _ => None | RawToolUse id name _ => Some (ToolUseStart id name) end).

Definition block_delta (j : json) : option (option ContentDelta) :=
  req_struct (λ d,
    req_str d "type" ≫= λ ty,
    if string_eqb ty "text_delta" then (λ t, Some (TextDelta t)) <$> req_str d "text"
    else if string_eqb ty "input_json_delta" then
      (λ p, Some (ToolUseInputDelta p)) <$> req_str d "partial_json"
    else None) j "delta".

Definition block_stop_delta (j : json) : option (option ContentDelta) :=
  req_u32 j "index" ≫= λ _, Some (Some (ToolUseStop "")).

Definition message_delta (j : json) : option (option ContentDelta) :=
  req_struct (λ d, opt_str d "stop_reason") j "delta" ≫= λ stop,
  opt_object (of_object decode_raw_usage) j "usage" ≫= λ usage,
  Some (Some (MessageStop (anthropic_stop_reason stop) (default usage_default usage))).

Definition anthropic_event (item : result string SseEvent) : result LlmError (option ContentDelta) :=
  map_err (λ e, LStream ("sse: " +:+ e)) item ≫= λ ev,
  let decode (f : json → option (option ContentDelta)) :=
    map_err (λ e, LDecode (ev_event ev +:+ ": " +:+ e)) (de_str (ev_event ev) f (ev_data ev)) in
  if string_eqb (ev_event ev) "content_block_start" then decode block_start_delta
  else if string_eqb (ev_event ev) "content_block_delta" then decode block_delta
  else if string_eqb (ev_event ev) "content_block_stop" then decode block_stop_delta
  else if string_eqb (ev_event ev) "message_delta" then decode message_delta
  else Ok None.

Definition anthropic_stream (events : list (result string SseEvent)) : stream :=
  mbind (λ e, flatten_item (anthropic_event e)) events.

Definition anthropic_headers (c : AnthropicClient) (streaming : bool) : list (string * string) :=
  [("x-api-key", an_api_key c); ("anthropic-version", API_VERSION);
   ("content-type", "application/json")] ++
  (if streaming then [("accept", "text/event-stream")] else []).

Definition anthropic_complete (c : AnthropicClient) (r : CompletionRequest) :
    lio CompletionResponse :=
  let r := with_default_model (an_default_model c) r in
  post API_URL (anthropic_headers c false) (anthropic_body r false) ≫= λ resp,
  lift (check_status resp) ≫= λ resp,
  lift (body_as "messages body" "RawMessageResponse" decode_message resp).

Definition anthropic_complete_stream (c : AnthropicClient) (r : CompletionRequest) : lio stream :=
  let r := with_default_model (an_default_model c) r in
  post API_URL (anthropic_headers c true) (anthropic_body r true) ≫= λ resp,
  lift (check_status resp) ≫= λ resp,
  mret (anthropic_stream (eventsource (rs_chunks resp))).

#[export] Instance anthropic_client : LlmClient AnthropicClient W := {|
  llm_provider _ := "anthropic";
  llm_default_model := an_default_model;
  complete := anthropic_complete;
  complete_stream := anthropic_complete_stream;
|}.

(** ** OpenAI ([openai.rs]) *)

Definition DEFAULT_BASE : string := "https://api.openai.com/v1".
Definition OPENAI_MODEL : string := "gpt-4o".

Record OpenAiClient := mkOpenAi { oa_api_key : string; oa_url : string; oa_default_model : string }.

Definition with_base (builder : result string unit) (api_key base_url default_model : string) :
    result LlmError OpenAiClient :=
  map_err LHttp builder ≫= λ _,
  Ok (mkOpenAi api_key (trim_end_matches "/" base_url +:+ "/chat/completions") default_model).

Definition openai_new (builder : result string unit) (api_key default_model : string) :
    result LlmError OpenAiClient :=
  with_base builder api_key DEFAULT_BASE default_model.

Definition openai_from_env (builder : result string unit) (env : string → option string) :
    result LlmError OpenAiClient :=
  let base := default DEFAULT_BASE (env "OPENAI_BASE_URL") in
  ok_or (env "OPENAI_API_KEY") (LMissingApiKey "OPENAI_API_KEY") ≫= λ k,
  with_base builder k base (default OPENAI_MODEL (env "OPENAI_MODEL")).

Definition function_call (tc : ToolCall) : json :=
  jobj [("id", JString (tc_id tc)); ("type", JString "function");
        ("function", jobj [("name", JString (tc_name tc));
                           ("arguments", JString (json_to_string (tc_arguments tc)))])].

Definition map_message (m : ChatMessage) : json :=
  match ms_role m with
  | RoleSystem => role_content "system" (JString (ms_content m))
  | RoleUser => role_content "user" (JString (ms_content m))
  | RoleAssistant =>
      if bool_decide (ms_tool_calls m = []) then role_content "assistant" (JString (ms_content m))
      else
        let o := jobj [("role", JString "assistant");
                       ("tool_calls", JArray (map function_call (ms_tool_calls m)))] in
        if string_eqb (ms_content m) "" then o else jset "content" (JString (ms_content m)) o
  | RoleTool =>
      jobj [("role", JString "tool"); ("tool_call_id", JString (default "" (ms_tool_use_id m)));
            ("content", JString (ms_content m))]
  end.

Definition system_message (s : option string) : list json :=
  match s with Some sys => [role_content "system" (JString sys)] | None => [] end.

Definition openai_tool (t : ToolDefinition) : json :=
  jobj [("type", JString "function");
        ("function", jobj [("name", JString (td_name t));
                           ("description", JString (td_description t));
                           ("parameters", td_input_schema t)])].

Definition openai_body (r : CompletionRequest) (streaming : bool) : json :=
  let body := jset_opt "tools" (nonempty_array (map openai_tool (cr_tools r)))
    (jset_opt "temperature" (JFloat <$> cr_temperature r)
      (jobj [("model", JString (cr_model r)); ("max_tokens", JInt (cr_max_tokens r));
             ("messages", JArray (system_message (cr_system r) ++
                                  map map_message (cr_messages r)));
             ("stream", JBool streaming)])) in
  if streaming then jset "stream_options" (jobj [("include_usage", JBool true)]) body else body.

Definition decode_chat_usage (j : json) : option Usage :=
  default_u32 j "prompt_tokens" ≫= λ i, default_u32 j "completion_tokens" ≫= λ o,
  Some (mkUsage i o 0 0).

(** [ChoiceToolCall]: id, name and the text of the arguments. *)
Definition decode_choice_tool (j : json) : option (string * string * string) :=
  req_str j "id" ≫= λ id,
  req_struct (λ f, req_str f "name" ≫= λ n, req_str f "arguments" ≫= λ a, Some (id, n, a))
    j "function".

(** [ChatChoice]: text, tool calls, finish reason. *)
Definition decode_choice (j : json) :
    option (option string * list (string * string * string) * option string) :=
  req_struct (λ m, opt_str m "content" ≫= λ c, default_array m "tool_calls" ≫= λ l,
                   mapM (of_object decode_choice_tool) l ≫= λ l, Some (c, l)) j "message"
    ≫= λ '(c, l), opt_str j "finish_reason" ≫= λ f, Some (c, l, f).

(** [ChatCompletion]. *)
Record ChatCompletion := mkChatCompletion {
  cc_id : string;
  cc_model : string;
  cc_choices : list (option string * list (string * string * string) * option string);
  cc_usage : option Usage;
}.

Definition decode_completion (j : json) : option ChatCompletion :=
  req_str j "id" ≫= λ id, req_str j "model" ≫= λ model,
  req_array j "choices" ≫= λ l, mapM (of_object decode_choice) l ≫= λ choices,
  opt_object (of_object decode_chat_usage) j "usage" ≫= λ usage,
  Some (mkChatCompletion id model choices usage).

Definition openai_stop_reason (s : option string) : StopReason :=
  match s with
  | Some s =>
      if string_eqb s "stop" then EndTurn
      else if string_eqb s "length" then MaxTokens
      else if string_eqb s "tool_calls" then StopToolUse
      else StopError
  | None => StopError
  end.

Definition tool_content (t : string * string * string) : result LlmError AssistantContent :=
  let '(id, name, args) := t in
  map_err (λ e, LDecode ("openai tool args: " +:+ e)) (json_from_str args) ≫= λ input,
  Ok (ACToolUse id name input).

Fixpoint tool_contents (l : list (string * string * string)) :
    result LlmError (list AssistantContent) :=
  match l with
  | [] => Ok []
  | t :: l => tool_content t ≫= λ c, tool_contents l ≫= λ cs, Ok (c :: cs)
  end.

Definition openai_response (c : ChatCompletion) : result LlmError CompletionResponse :=
  match cc_choices c with
  | [] => Err (LDecode "openai: no choices in response")
  | (text, tools, finish) :: _ =>
      tool_contents tools ≫= λ tools,
      Ok (mkCompletionResp (cc_id c) (cc_model c)
        (match text with
         | Some t => if string_eqb t "" then [] else [ACText t]
         | None => []
         end ++ tools)
        (openai_stop_reason finish) (default usage_default (cc_usage c)))
  end.

(** [StreamChunk]: of each choice the text and the finish reason. *)
Definition decode_stream_chunk (j : json) :
    option (list (option string * option string) * option Usage) :=
  req_array j "choices" ≫= λ l,
  mapM (of_object (λ c,
    req_struct (λ d, opt_str d "content") c "delta" ≫= λ t,
    opt_str c "finish_reason" ≫= λ f, Some (t, f))) l ≫= λ choices,
  opt_object (of_object decode_chat_usage) j "usage" ≫= λ usage, Some (choices, usage).

Definition chunk_delta (c : list (option string * option string) * option Usage) :
    option ContentDelta :=
  let '(choices, usage) := c in
  match choices with
  | [] => (λ u, MessageStop EndTurn u) <$> usage
  | (text, finish) :: _ =>
      match text with
      | Some t =>
          if string_eqb t "" then
            (λ r, MessageStop (openai_stop_reason (Some r)) (default usage_default usage)) <$> finish
          else Some (TextDelta t)
      | None =>
          (λ r, MessageStop (openai_stop_reason (Some r)) (default usage_default usage)) <$> finish
      end
  end.

Definition openai_event (item : result string SseEvent) : result LlmError (option ContentDelta) :=
  map_err (λ e, LStream ("sse: " +:+ e)) item ≫= λ ev,
  if string_eqb (ev_data ev) "[DONE]" then Ok None
  else
    map_err (λ e, LDecode ("chat stream chunk: " +:+ e))
      (de_str "StreamChunk" decode_stream_chunk (ev_data ev)) ≫= λ c,
    Ok (chunk_delta c).

Definition openai_stream (events : list (result string SseEvent)) : stream :=
  mbind (λ e, flatten_item (openai_event e)) events.

Definition bearer (token : string) : string * string := ("authorization", "Bearer " +:+ token).

Definition openai_headers (c : OpenAiClient) (streaming : bool) : list (string * string) :=
  [bearer (oa_api_key c); ("content-type", "application/json")] ++
  (if streaming then [("accept", "text/event-stream")] else []).

Definition openai_complete (c : OpenAiClient) (r : CompletionRequest) : lio CompletionResponse :=
  let r := with_default_model (oa_default_model c) r in
  post (oa_url c) (openai_headers c false) (openai_body r false) ≫= λ resp,
  lift (check_status resp) ≫= λ resp,
  lift (body_as "chat body" "ChatCompletion" decode_completion resp) ≫= λ c,
  lift (openai_response c).

Definition openai_complete_stream (c : OpenAiClient) (r : CompletionRequest) : lio stream :=
  let r := with_default_model (oa_default_model c) r in
  post (oa_url c) (openai_headers c true) (openai_body r true) ≫= λ resp,
  lift (check_status resp) ≫= λ resp,
  mret (openai_stream (eventsource (rs_chunks resp))).

#[export] Instance openai_client : LlmClient OpenAiClient W := {|
  llm_provider _ := "openai";
  llm_default_model := oa_default_model;
  complete := openai_complete;
  complete_stream := openai_complete_stream;
|}.

(** ** Ollama ([local.rs]) *)

Definition LOCAL_BASE : string := "http://localhost:11434".
Definition LOCAL_MODEL : string := "llama3.2".

Record LocalClient := mkLocal { lc_base_url : string; lc_default_model : string }.

Definition local_new (builder : result string unit) (base_url default_model : string) :
    result LlmError LocalClient :=
  map_err LHttp builder ≫= λ _, Ok (mkLocal base_url default_model).

Definition local_from_env (builder : result string unit) (env : string → option string) :
    result LlmError LocalClient :=
  local_new builder (default LOCAL_BASE (env "DAIMON_LLM_LOCAL_URL")) LOCAL_MODEL.

Definition chat_url (c : LocalClient) : string := trim_end_matches "/" (lc_base_url c) +:+ "/api/chat".

Definition role_name (r : Role) : string :=
  match r with
  | RoleSystem => "system" | RoleUser => "user"
  | RoleAssistant => "assistant" | RoleTool => "tool"
  end.

Definition local_body (r : CompletionRequest) (streaming : bool) : json :=
  jobj [("model", JString (cr_model r));
        ("messages", JArray (system_message (cr_system r) ++
           map (λ m, role_content (role_name (ms_role m)) (JString (ms_content m))) (cr_messages r)));
        ("stream", JBool streaming);
        ("options", jset_opt "temperature" (JFloat <$> cr_temperature r)
                      (jobj [("num_predict", JInt (cr_max_tokens r))]))].

Definition local_stop_reason (s : option string) : StopReason :=
  match s with
  | Some s =>
      if string_eqb s "stop" then EndTurn
      else if string_eqb s "length" then MaxTokens
      else StopError
  | None => StopError
  end.

Definition decode_counts (j : json) : option Usage :=
  default_u32 j "prompt_eval_count" ≫= λ i, default_u32 j "eval_count" ≫= λ o,
  Some (mkUsage i o 0 0).

(** [OllamaChatResponse] and [into_completion_response]. *)
Definition decode_ollama (j : json) : option (string → CompletionResponse) :=
  req_str j "model" ≫= λ model, req_struct (λ m, req_str m "content") j "message" ≫= λ text,
  opt_str j "done_reason" ≫= λ stop, decode_counts j ≫= λ usage,
  Some (λ uuid,
    mkCompletionResp ("ollama-" +:+ uuid) model [ACText text] (local_stop_reason stop) usage).

(** [OllamaStreamChunk] and [into_delta]. *)
Definition ollama_delta (j : json) : option (option ContentDelta) :=
  opt_object (of_object (λ m, req_str m "content")) j "message" ≫= λ text,
  (jget j "done" ≫= as_bool) ≫= λ fin : bool, opt_str j "done_reason" ≫= λ stop,
  decode_counts j ≫= λ usage,
  Some (if fin then Some (MessageStop (local_stop_reason stop) usage)
        else match text with
             | Some t => if string_eqb t "" then None else Some (TextDelta t)
             | None => None
             end).

Definition ollama_line (line : string) : result LlmError (option ContentDelta) :=
  map_err (λ e, LDecode ("ollama line: " +:+ e +:+ ": line=`" +:+ line +:+ "`"))
    (de_str "OllamaStreamChunk" ollama_delta line).

Fixpoint ollama_lines (l : list string) : result LlmError (list ContentDelta) :=
  match l with
  | [] => Ok []
  | line :: l =>
      ollama_line line ≫= λ d, ollama_lines l ≫= λ ds,
      Ok (match d with Some d => d :: ds | None => ds end)
  end.

Definition nonblank (s : string) : bool := negb (string_eqb (trim s) "").

(** The messages of [str::from_utf8]. *)
Context (utf8_error : list ascii → string).

Definition newline_free (s : string) : Prop := "010"%char ∉ bytes s.

(** One chunk of the response. *)
Definition ollama_chunk (chunk : result string (list ascii)) : result LlmError (list ContentDelta) :=
  map_err (λ e, LStream ("ollama bytes: " +:+ e)) chunk ≫= λ b,
  ok_or (from_utf8 b) (LDecode ("ollama bytes utf8: " +:+ utf8_error b)) ≫= λ text,
  ollama_lines (filter (λ l, nonblank l = true) (split "010"%char text)).

Definition chunk_items (r : result LlmError (list ContentDelta)) : stream :=
  match r with Ok l => map Ok l | Err e => [Err e] end.

Definition local_stream (chunks : list (result string (list ascii))) : stream :=
  mbind (λ c, chunk_items (ollama_chunk c)) chunks.

Definition fresh_uuid : lio string := λ w, let '(u, w) := new_uuid w in (Ok u, w).

Definition local_headers : list (string * string) := [("content-type", "application/json")].

Definition local_complete (c : LocalClient) (r : CompletionRequest) : lio CompletionResponse :=
  let r := with_default_model (lc_default_model c) r in
  post (chat_url c) local_headers (local_body r false) ≫= λ resp,
  lift (check_status resp) ≫= λ resp,
  lift (body_as "ollama body" "OllamaChatResponse" decode_ollama resp) ≫= λ f,
  fresh_uuid ≫= λ uuid, mret (f uuid).

Definition local_complete_stream (c : LocalClient) (r : CompletionRequest) : lio stream :=
  let r := with_default_model (lc_default_model c) r in
  post (chat_url c) local_headers (local_body r true) ≫= λ resp,
  lift (check_status resp) ≫= λ resp,
  mret (local_stream (rs_chunks resp)).

#[export] Instance local_client : LlmClient LocalClient W := {|
  llm_provider _ := "local";
  llm_default_model := lc_default_model;
  complete := local_complete;
  complete_stream := local_complete_stream;
|}.

(** ** ChatGPT ([chatgpt.rs]) *)

Definition RESPONSES_URL : string := "https://chatgpt.com/backend-api/codex/responses".
Definition TOKEN_URL : string := "https://auth.openai.com/oauth/token".
Definition CLIENT_ID : string := "app_EMoamEEZ73f0CkXaXp7hrann".
Definition CHATGPT_MODEL : string := "gpt-5.5".

Record ChatGptOAuthClient := mkChatGpt {
  cg_auth_path : string;
  cg_default_model : string;
  cg_effort : string;
}.

Record AuthTokens := mkTokens {
  at_access_token : string;
  at_refresh_token : string;
  at_account_id : string;
}.

(** [PathBuf::from(home).join(..)]. *)
Definition default_auth_path (env : string → option string) : string :=
  let home := match env "HOME" with Some h => h | None => default "" (env "USERPROFILE") end in
  (if string_eqb home "" then "" else
   if bool_decide (strip_suffix "/" home = None) then home +:+ "/" else home)
  +:+ ".codex/auth.json".

Definition chatgpt_from_env (builder : result string unit) (env : string → option string) :
    lio ChatGptOAuthClient :=
  let path := default (default_auth_path env) (env "CODEX_AUTH_FILE") in
  gets (host_exists path) ≫= λ here,
  if negb here then throw (LMissingApiKey "CODEX_AUTH_FILE (~/.codex/auth.json)")
  else
    lift (map_err LHttp builder) ≫= λ _,
    mret (mkChatGpt path (default CHATGPT_MODEL (env "DAIMON_CHATGPT_MODEL"))
            (default "low" (env "DAIMON_CHATGPT_EFFORT"))).

Definition nonempty_opt (o : option string) : option string :=
  o ≫= λ s, if string_eqb s "" then None else Some s.

Definition with_model (m : option string) (c : ChatGptOAuthClient) : ChatGptOAuthClient :=
  mkChatGpt (cg_auth_path c) (default (cg_default_model c) (nonempty_opt m)) (cg_effort c).

Definition with_effort (e : option string) (c : ChatGptOAuthClient) : ChatGptOAuthClient :=
  mkChatGpt (cg_auth_path c) (cg_default_model c) (default (cg_effort c) (nonempty_opt e)).

(** A [String] field with a default. *)
Definition default_str (j : json) (k : string) : option string :=
  match jget j k with None => Some "" | Some v => as_str v end.

Definition decode_auth (j : json) : option AuthTokens :=
  req_struct (λ t, req_str t "access_token" ≫= λ a, default_str t "refresh_token" ≫= λ r,
                   default_str t "account_id" ≫= λ i, Some (mkTokens a r i)) j "tokens".

Definition load_tokens (c : ChatGptOAuthClient) : lio AuthTokens :=
  io_map_err (λ e, LOther ("read " +:+ cg_auth_path c +:+ ": " +:+ e)) (host_read (cg_auth_path c))
    ≫= λ raw,
  lift (map_err (λ e, LOther ("parse auth.json: " +:+ e)) (de_str "AuthFile" decode_auth raw)).

(** [RefreshResp]. *)
Definition decode_refresh (j : json) : option (string * option string * option string) :=
  req_str j "access_token" ≫= λ a, opt_str j "refresh_token" ≫= λ r, opt_str j "id_token" ≫= λ i,
  Some (a, r, i).

(** [value[k] = v] on any value: null becomes an object, anything else that is not
    an object panics. *)
Definition index_set (k : string) (v : json) (j : json) : option json :=
  match j with
  | JObject l => Some (JObject (assoc_insert k v l))
  | JNull => Some (JObject [(k, v)])
  | _ => None
  end.

(** [root["tokens"][k] = v]. *)
Definition set_token (k v : string) (root : json) : option json :=
  match root with
  | JObject _ | JNull =>
      index_set k (JString v) (jindex root "tokens") ≫= λ t, index_set "tokens" t root
  | _ => None
  end.

Definition set_token_opt (k : string) (v : option string) (root : json) : option json :=
  match v with Some v => set_token k v root | None => Some root end.

(** The file as [refresh] rewrites it. *)
Definition rotate (r : string * option string * option string) (now : string) (root : json) :
    option json :=
  let '(access, refresh, id) := r in
  set_token "access_token" access root ≫= λ root,
  set_token_opt "refresh_token" refresh root ≫= λ root,
  set_token_opt "id_token" id root ≫= λ root,
  index_set "last_refresh" (JString now) root.

(** [with_extension]: the path up to the last dot of its file name. *)
Context (with_extension : string → string → string).

Definition refresh (c : ChatGptOAuthClient) : lio AuthTokens :=
  load_tokens c ≫= λ cur,
  post TOKEN_URL [] (jobj [("client_id", JString CLIENT_ID);
                           ("grant_type", JString "refresh_token");
                           ("refresh_token", JString (at_refresh_token cur));
                           ("scope", JString "openid profile email")]) ≫= λ resp,
  lift (check_status resp) ≫= λ resp,
  lift (body_as "oauth refresh" "RefreshResp" decode_refresh resp) ≫= λ r,
  io_map_err (λ e, LOther ("read auth.json: " +:+ e)) (host_read (cg_auth_path c)) ≫= λ raw,
  lift (map_err (λ e, LOther ("parse auth.json: " +:+ e)) (json_from_str raw)) ≫= λ root,
  gets now_rfc3339 ≫= λ now,
  lift (ok_or (rotate r now root) LPanic) ≫= λ root,
  let tmp := with_extension (cg_auth_path c) "json.tmp" in
  io_map_err (λ e, LOther ("write auth.json: " +:+ e)) (host_write tmp (json_to_string root)) ≫= λ _,
  io_map_err (λ e, LOther ("swap auth.json: " +:+ e)) (host_rename tmp (cg_auth_path c)) ≫= λ _,
  mret (mkTokens r.1.1 (default (at_refresh_token cur) r.1.2) (at_account_id cur)).

(** The name of a function as OpenAI wants it. *)
Definition sanitize_char (c : char) : char :=
  if is_ascii_alphanumeric c || string_eqb c "-" || string_eqb c "_" then c else "_".

Definition sanitize_tool_name (name : string) : string :=
  string_concat (map sanitize_char (chars name)).

Definition typed_text (role ty text : string) : json :=
  jobj [("type", JString "message"); ("role", JString role);
        ("content", JArray [jobj [("type", JString ty); ("text", JString text)]])].

Definition function_call_item (tc : ToolCall) : json :=
  jobj [("type", JString "function_call"); ("call_id", JString (tc_id tc));
        ("name", JString (sanitize_tool_name (tc_name tc)));
        ("arguments", JString (json_to_string (tc_arguments tc)))].

Definition input_items (m : ChatMessage) : list json :=
  match ms_role m with
  | RoleUser | RoleSystem => [typed_text "user" "input_text" (ms_content m)]
  | RoleAssistant =>
      (if string_eqb (ms_content m) "" then []
       else [typed_text "assistant" "output_text" (ms_content m)]) ++
      map function_call_item (ms_tool_calls m)
  | RoleTool =>
      [jobj [("type", JString "function_call_output");
             ("call_id", JString (default "" (ms_tool_use_id m)));
             ("output", JString (ms_content m))]]
  end.

Definition chatgpt_tool (t : ToolDefinition) : json :=
  jobj [("type", JString "function"); ("name", JString (sanitize_tool_name (td_name t)));
        ("description", JString (td_description t)); ("parameters", td_input_schema t)].

Definition build_body (c : ChatGptOAuthClient) (r : CompletionRequest) (streaming : bool) : json :=
  let body := jset_opt "instructions" (JString <$> cr_system r)
    (jobj [("model", JString (if string_eqb (cr_model r) "" then cg_default_model c
                              else cr_model r));
           ("input", JArray (mbind input_items (cr_messages r)));
           ("stream", JBool streaming);
           ("store", JBool false);
           ("parallel_tool_calls", JBool false);
           ("reasoning", jobj [("effort", JString (cg_effort c))])]) in
  match cr_tools r with
  | [] => body
  | tools => jset "tool_choice" (JString "auto") (jset "tools" (JArray (map chatgpt_tool tools)) body)
  end.

Definition post_responses (access_token account_id : string) (body : json) : lio response :=
  post RESPONSES_URL
    [bearer access_token; ("chatgpt-account-id", account_id);
     ("OpenAI-Beta", "responses=experimental"); ("originator", "codex_cli_rs");
     ("content-type", "application/json"); ("accept", "text/event-stream")] body.

Definition send_with_refresh (c : ChatGptOAuthClient) (body : json) : lio response :=
  load_tokens c ≫= λ t,
  post_responses (at_access_token t) (at_account_id t) body ≫= λ resp,
  if rs_status resp =? 401 then
    refresh c ≫= λ fresh, post_responses (at_access_token fresh) (at_account_id fresh) body
  else mret resp.

(** [call_id]. *)
Definition call_id (item : json) : string :=
  match jget item "call_id" ≫= as_str with
  | Some c => c
  | None => default "" (jget item "id" ≫= as_str)
  end.

Definition str_field (j : json) (k : string) : string := default "" (jget j k ≫= as_str).

Definition is_function_call (item : json) : bool :=
  bool_decide (jget item "type" ≫= as_str = Some "function_call").

(** [as u32]. *)
Definition token_count (u : json) (k : string) : Z := default 0 (jget u k ≫= as_u64) mod 2^32.

Definition event_value (v : json) (name_map : gmap string string) :
    list (result LlmError ContentDelta) :=
  let ty := str_field v "type" in
  let item := jindex v "item" in
  if string_eqb ty "response.output_text.delta" then [Ok (TextDelta (str_field v "delta"))]
  else if string_eqb ty "response.output_item.added" then
    if is_function_call item then
      let raw := str_field item "name" in
      [Ok (ToolUseStart (call_id item) (default raw (name_map !! raw)))]
    else []
  else if string_eqb ty "response.function_call_arguments.delta" then
    [Ok (ToolUseInputDelta (str_field v "delta"))]
  else if string_eqb ty "response.output_item.done" then
    if is_function_call item then [Ok (ToolUseStop (call_id item))] else []
  else if string_eqb ty "response.completed" then
    let resp := jindex v "response" in
    let saw_tool := existsb is_function_call (as_array (jindex resp "output")) in
    let u := jindex resp "usage" in
    [Ok (MessageStop (if saw_tool then StopToolUse else EndTurn)
           (mkUsage (token_count u "input_tokens") (token_count u "output_tokens") 0 0))]
  else if string_eqb ty "response.failed" || string_eqb ty "response.incomplete"
          || string_eqb ty "error" then
    let msg :=
      match as_str (jindex (jindex (jindex v "response") "error") "message") with
      | Some m => m
      | None =>
          match as_str (jindex (jindex v "error") "message") with
          | Some m => m
          | None => default "responses stream failed" (as_str (jindex v "message"))
          end
      end in
    [Err (LStream msg)]
  else [].

Definition parse_event (data : string) (name_map : gmap string string) :
    list (result LlmError ContentDelta) :=
  if string_eqb (trim data) "" || string_eqb data "[DONE]" then []
  else
    match json_from_str data with
    | Err e => [Err (LDecode ("responses event: " +:+ e))]
    | Ok v => event_value v name_map
    end.

(** [.map(|t| (sanitize(..), name)).collect::<HashMap>()]: a later tool wins. *)
Definition name_map_of (tools : list ToolDefinition) : gmap string string :=
  fold_left (λ m t, <[sanitize_tool_name (td_name t) := td_name t]> m) tools ∅.

Definition chatgpt_stream (tools : list ToolDefinition) (events : list (result string SseEvent)) :
    stream :=
  mbind (λ item : result string SseEvent,
    match item with
    | Ok ev => parse_event (ev_data ev) (name_map_of tools)
    | Err e => [Err (LStream ("sse: " +:+ e))]
    end) events.

Definition chatgpt_complete_stream (c : ChatGptOAuthClient) (r : CompletionRequest) : lio stream :=
  send_with_refresh c (build_body c r true) ≫= λ resp,
  lift (check_status resp) ≫= λ resp,
  mret (chatgpt_stream (cr_tools r) (eventsource (rs_chunks resp))).

(** The state of [complete]'s loop over its own stream. *)
Record aggregate := mkAgg {
  ag_text : string;
  ag_tool : option (string * string * string);
  ag_tools : list AssistantContent;
  ag_stop : StopReason;
  ag_usage : Usage;
}.

Definition aggregate_new : aggregate := mkAgg "" None [] EndTurn usage_default.

(** [serde_json::from_str(args).unwrap_or_else(|_| json!({}))]. *)
Definition tool_input (args : string) : json := default (JObject []) (ok (json_from_str args)).

Definition aggregate_delta (a : aggregate) (d : ContentDelta) : aggregate :=
  match d with
  | TextDelta t => mkAgg (ag_text a +:+ t) (ag_tool a) (ag_tools a) (ag_stop a) (ag_usage a)
  | ToolUseStart id name =>
      mkAgg (ag_text a) (Some (id, name, "")) (ag_tools a) (ag_stop a) (ag_usage a)
  | ToolUseInputDelta p =>
      mkAgg (ag_text a) ((λ '(id, name, args), (id, name, args +:+ p)) <$> ag_tool a) (ag_tools a)
        (ag_stop a) (ag_usage a)
  | ToolUseStop _ =>
      match ag_tool a with
      | Some (id, name, args) =>
          mkAgg (ag_text a) None (ag_tools a ++ [ACToolUse id name (tool_input args)]) (ag_stop a)
            (ag_usage a)
      | None => a
      end
  | MessageStop stop usage => mkAgg (ag_text a) (ag_tool a) (ag_tools a) stop usage
  end.

Fixpoint aggregate_stream (a : aggregate) (l : stream) : result LlmError aggregate :=
  match l with
  | [] => Ok a
  | Ok d :: l => aggregate_stream (aggregate_delta a d) l
  | Err e :: _ => Err e
  end.

Definition aggregate_content (a : aggregate) : list AssistantContent :=
  (if string_eqb (ag_text a) "" then [] else [ACText (ag_text a)]) ++ ag_tools a.

Definition chatgpt_complete (c : ChatGptOAuthClient) (r : CompletionRequest) :
    lio CompletionResponse :=
  let model := if string_eqb (cr_model r) "" then cg_default_model c else cr_model r in
  chatgpt_complete_stream c r ≫= λ s,
  lift (aggregate_stream aggregate_new s) ≫= λ a,
  mret (mkCompletionResp "" model (aggregate_content a) (ag_stop a) (ag_usage a)).

#[export] Instance chatgpt_client : LlmClient ChatGptOAuthClient W := {|
  llm_provider _ := "chatgpt";
  llm_default_model := cg_default_model;
  complete := chatgpt_complete;
  complete_stream := chatgpt_complete_stream;
|}.

(** ** A message in pieces

    A message as the Anthropic API streams it: blocks of text or of tool use, each in
    any number of pieces. The number of input tokens comes with the first event, the
    number of output tokens and the stop reason with the last but one. *)

Inductive sent_block :=
| SentText (pieces : list string)
| SentTool (id name : string) (input : json) (pieces : list string).

(** The pieces of a tool's input make up its JSON text; none are sent for [{}]. *)
Definition sent_ok (b : sent_block) : Prop :=
  match b with
  | SentText _ => True
  | SentTool _ _ input pieces =>
      json_plain MAX_DEPTH input = true ∧ string_concat pieces = json_to_string input ∨
      (pieces = [] ∧ input = JObject [])
  end.

Definition sse (event : string) (data : json) : result string SseEvent :=
  Ok (mkSse event (json_to_string data)).

Definition block_json (b : sent_block) : json :=
  match b with
  | SentText _ => text_block ""
  | SentTool id name _ _ => tool_use_block (mkToolCall id name (JObject []))
  end.

Definition piece_json (b : sent_block) (p : string) : json :=
  match b with
  | SentText _ => jobj [("type", JString "text_delta"); ("text", JString p)]
  | SentTool _ _ _ _ => jobj [("type", JString "input_json_delta"); ("partial_json", JString p)]
  end.

Definition block_pieces (b : sent_block) : list string :=
  match b with SentText l => l | SentTool _ _ _ l => l end.

Definition block_events (i : Z) (b : sent_block) : list (result string SseEvent) :=
  sse "content_block_start"
    (jobj [("type", JString "content_block_start"); ("index", JInt i);
           ("content_block", block_json b)]) ::
  map (λ p, sse "content_block_delta"
    (jobj [("type", JString "content_block_delta"); ("index", JInt i);
           ("delta", piece_json b p)])) (block_pieces b) ++
  [sse "content_block_stop" (jobj [("type", JString "content_block_stop"); ("index", JInt i)])].

Fixpoint blocks_events (i : Z) (l : list sent_block) : list (result string SseEvent) :=
  match l with [] => [] | b :: l => block_events i b ++ blocks_events (i + 1) l end.

Definition message_events (l : list sent_block) (stop : string) (input output : Z) :
    list (result string SseEvent) :=
  sse "message_start"
    (jobj [("type", JString "message_start");
           ("message", jobj [("role", JString "assistant"); ("content", JArray []);
              ("stop_reason", JNull);
              ("usage", jobj [("input_tokens", JInt input); ("output_tokens", JInt 1)])])]) ::
  blocks_events 0 l ++
  [sse "message_delta"
     (jobj [("type", JString "message_delta");
            ("delta", jobj [("stop_reason", JString stop); ("stop_sequence", JNull)]);
            ("usage", jobj [("output_tokens", JInt output)])]);
   sse "message_stop" (jobj [("type", JString "message_stop")])].

(** The same message sent whole. *)
Definition whole_block (b : sent_block) : json :=
  match b with
  | SentText l => text_block (string_concat l)
  | SentTool id name input _ => tool_use_block (mkToolCall id name input)
  end.

Definition message_json (id model : string) (l : list sent_block) (stop : string) (input output : Z) :
    json :=
  jobj [("id", JString id); ("model", JString model); ("content", JArray (map whole_block l));
        ("stop_reason", JString stop);
        ("usage", jobj [("input_tokens", JInt input); ("output_tokens", JInt output)])].

Definition content_text (l : list AssistantContent) : string :=
  string_concat (omap (λ c, match c with ACText t => Some t | _ => None end) l).

Definition sent_content (b : sent_block) : AssistantContent :=
  match b with
  | SentText l => ACText (string_concat l)
  | SentTool id name input _ => ACToolUse id name input
  end.

Context `{!JsonTextLaws}.

Lemma aggregate_stream_app a l1 l2 :
  aggregate_stream a (l1 ++ l2) = aggregate_stream a l1 ≫= λ a, aggregate_stream a l2.
Proof. revert a. induction l1 as [|[d|e] l1 IH]; intros a; simpl; auto. Qed.

Lemma anthropic_stream_app l1 l2 :
  anthropic_stream (l1 ++ l2) = anthropic_stream l1 ++ anthropic_stream l2.
Proof. apply bind_app. Qed.

Lemma as_u32_ok i : 0 ≤ i < 2^32 → as_u32 (JInt i) = Some i.
Proof.
  intros Hi. unfold as_u32. by rewrite (proj2 (Z.leb_le 0 i)), (proj2 (Z.ltb_lt i (2^32))) by lia.
Qed.

(** An event whose data is the text of an object of strings, small numbers and objects
    of these. *)
Ltac plain_tac :=
  unfold MAX_DEPTH, block_json, piece_json, text_block, tool_use_block;
  cbn [tc_id tc_name tc_arguments];
  repeat match goal with
  | |- _ && _ = true => apply andb_true_iff; split
  | |- json_plain _ (JInt _) = true => apply plain_int; lia
  | |- json_plain _ (jobj _) = true => apply plain_jobj; cbn [forallb snd]
  | |- json_plain _ (JString _) = true => reflexivity
  | |- json_plain _ JNull = true => reflexivity
  | |- json_plain _ (JObject []) = true => reflexivity
  | |- json_plain _ (JArray _) = true => reflexivity
  | |- true = true => reflexivity
  end.

(** What is decoded of a printed object. *)
Lemma de_str_plain {A} ty (f : json → option A) (l : list (string * json)) :
  json_plain MAX_DEPTH (jobj l) = true →
  de_str ty f (json_to_string (jobj l)) = ok_or (f (jobj l)) (serde_error ty (jobj l)).
Proof. intros Hp. unfold de_str. by rewrite json_text_roundtrip. Qed.

Ltac run_event :=
  unfold anthropic_event, sse; cbn [map_err mbind result_bind ev_data ev_event];
  rewrite !de_str_plain by plain_tac; lazy -[as_u32]; rewrite ?as_u32_ok by lia;
  try reflexivity.

(** The deltas of each event of a block. *)
Lemma start_delta i b : 0 ≤ i < 2^32 →
  anthropic_event (sse "content_block_start"
    (jobj [("type", JString "content_block_start"); ("index", JInt i);
           ("content_block", block_json b)])) =
  Ok (match b with SentText _ => None | SentTool id name _ _ => Some (ToolUseStart id name) end).
Proof. intros Hi. destruct b; run_event. Qed.

Lemma piece_delta i b p : 0 ≤ i < 2^32 →
  anthropic_event (sse "content_block_delta"
    (jobj [("type", JString "content_block_delta"); ("index", JInt i);
           ("delta", piece_json b p)])) =
  Ok (Some (match b with SentText _ => TextDelta p | SentTool _ _ _ _ => ToolUseInputDelta p end)).
Proof. intros Hi. destruct b; run_event. Qed.

Lemma stop_delta i : 0 ≤ i < 2^32 →
  anthropic_event (sse "content_block_stop"
    (jobj [("type", JString "content_block_stop"); ("index", JInt i)])) =
  Ok (Some (ToolUseStop "")).
Proof. intros Hi. run_event. Qed.

Lemma end_delta stop o : 0 ≤ o < 2^32 →
  anthropic_event (sse "message_delta"
    (jobj [("type", JString "message_delta");
           ("delta", jobj [("stop_reason", JString stop); ("stop_sequence", JNull)]);
           ("usage", jobj [("output_tokens", JInt o)])])) =
  Ok (Some (MessageStop (anthropic_stop_reason (Some stop)) (mkUsage 0 o 0 0))).
Proof. intros Ho. run_event. Qed.

Lemma anthropic_stream_cons e l :
  anthropic_stream (e :: l) = flatten_item (anthropic_event e) ++ anthropic_stream l.
Proof. done. Qed.

Lemma pieces_stream i b l : 0 ≤ i < 2^32 →
  anthropic_stream (map (λ p, sse "content_block_delta"
    (jobj [("type", JString "content_block_delta"); ("index", JInt i);
           ("delta", piece_json b p)])) l) =
  map (λ p, Ok (match b with
                | SentText _ => TextDelta p | SentTool _ _ _ _ => ToolUseInputDelta p end)) l.
Proof.
  intros Hi. induction l as [|p l IH]; [done|]. cbn [map].
  by rewrite anthropic_stream_cons, piece_delta, IH.
Qed.

(** The deltas of a message. *)
Definition block_deltas (b : sent_block) : list ContentDelta :=
  match b with
  | SentText l => map TextDelta l
  | SentTool id name _ l => ToolUseStart id name :: map ToolUseInputDelta l
  end ++ [ToolUseStop ""].

Lemma block_stream i b : 0 ≤ i < 2^32 →
  anthropic_stream (block_events i b) = map Ok (block_deltas b).
Proof.
  intros Hi. unfold block_events.
  rewrite anthropic_stream_cons, start_delta, anthropic_stream_app, pieces_stream by done.
  rewrite anthropic_stream_cons, stop_delta by done.
  unfold block_deltas. rewrite List.map_app.
  destruct b as [l|id name input l]; cbn [block_pieces map]; by rewrite List.map_map.
Qed.

Lemma blocks_stream i l :
  0 ≤ i → i + Z.of_nat (length l) ≤ 2^32 →
  anthropic_stream (blocks_events i l) = map Ok (l ≫= block_deltas).
Proof.
  revert i. induction l as [|b l IH]; intros i Hi Hn; [done|]. cbn [blocks_events length] in *.
  rewrite anthropic_stream_app, block_stream, IH by lia. by rewrite <- map_app.
Qed.

(** The stream the client yields for a message: the first event and the last are
    skipped. *)
Lemma message_stream l stop i o :
  Z.of_nat (length l) ≤ 2^32 → 0 ≤ o < 2^32 →
  anthropic_stream (message_events l stop i o) =
  map Ok ((l ≫= block_deltas) ++ [MessageStop (anthropic_stop_reason (Some stop)) (mkUsage 0 o 0 0)]).
Proof.
  intros Hn Ho. unfold message_events. rewrite anthropic_stream_cons. simpl.
  rewrite anthropic_stream_app, blocks_stream, map_app by lia.
  by rewrite anthropic_stream_cons, end_delta.
Qed.

Lemma aggregate_input text id name args tools stop usage l :
  aggregate_stream (mkAgg text (Some (id, name, args)) tools stop usage)
    (map (λ p, Ok (ToolUseInputDelta p)) l) =
  Ok (mkAgg text (Some (id, name, args +:+ string_concat l)) tools stop usage).
Proof.
  revert args. induction l as [|p l IH]; intros args; simpl.
  - by rewrite string_app_nil_r.
  - rewrite IH. by rewrite string_app_assoc.
Qed.

Lemma tool_input_sent id name input pieces :
  sent_ok (SentTool id name input pieces) → is_ok (json_from_str "") = false →
  tool_input (string_concat pieces) = input.
Proof.
  unfold tool_input. intros [[Hp ->]|[-> ->]] He; [by rewrite json_text_roundtrip|].
  simpl. by destruct (json_from_str "").
Qed.

Lemma content_text_app l1 l2 :
  content_text (l1 ++ l2) = content_text l1 +:+ content_text l2.
Proof.
  unfold content_text. rewrite omap_app.
  induction (omap _ l1) as [|x l IH]; simpl; [done|]. by rewrite IH, string_app_assoc.
Qed.

(** The message sent whole. *)
Lemma whole_message id model l stop i o :
  0 ≤ i < 2^32 → 0 ≤ o < 2^32 →
  decode_message (message_json id model l stop i o) =
  Some (mkCompletionResp id model (map sent_content l) (anthropic_stop_reason (Some stop))
          (mkUsage i o 0 0)).
Proof.
  intros Hi Ho. assert (mapM (of_object decode_block) (map whole_block l) =
            Some (map (λ b, match b with
                            | SentText l => RawText (string_concat l)
                            | SentTool id name input _ => RawToolUse id name input end) l)) as Hb.
  { clear. induction l as [|[p|t n j p] l IH]; [done| |]; cbn [map mapM]; by rewrite IH. }
  assert (req_struct decode_raw_usage (message_json id model l stop i o) "usage" =
          Some (mkUsage i o 0 0)) as Hu.
  { lazy -[as_u32]. by rewrite !as_u32_ok. }
  unfold decode_message. rewrite Hu. set (j := message_json _ _ _ _ _ _).
  change (req_str j "id") with (Some id). change (req_str j "model") with (Some model).
  change (req_array j "content") with (Some (map whole_block l)).
  change (opt_str j "stop_reason") with (Some (Some stop)).
  cbn [mbind option_bind]. rewrite Hb. cbn [mbind option_bind]. do 2 f_equal.
  rewrite map_map. apply map_ext. by intros [].
Qed.

(** ** ChatGPT's tool names *)

Lemma name_map_fold tools (m : gmap string string) k :
  fold_left (λ m t, <[sanitize_tool_name (td_name t) := td_name t]> m) tools m !! k =
  match last (filter (λ t, sanitize_tool_name (td_name t) = k) tools) with
  | Some t => Some (td_name t)
  | None => m !! k
  end.
Proof.
  revert m. induction tools as [|t tools IH]; intros m; [done|]. simpl. rewrite IH.
  rewrite filter_cons. destruct (decide (sanitize_tool_name (td_name t) = k)) as [<-|Hne].
  - rewrite last_cons. destruct (last _); [done|]. by rewrite lookup_insert_eq.
  - destruct (last _); [done|]. by rewrite lookup_insert_ne.
Qed.

(** A later tool of the same sanitized name hides an earlier one. *)
Lemma name_map_last tools1 t tools2 :
  (∀ t', t' ∈ tools2 → sanitize_tool_name (td_name t') ≠ sanitize_tool_name (td_name t)) →
  name_map_of (tools1 ++ t :: tools2) !! sanitize_tool_name (td_name t) = Some (td_name t).
Proof.
  intros Hd. unfold name_map_of. rewrite name_map_fold, filter_app, filter_cons_True by done.
  assert (filter (λ t', sanitize_tool_name (td_name t') = sanitize_tool_name (td_name t)) tools2 = [])
    as ->.
  { destruct (filter _ tools2) as [|x l] eqn:E; [done|].
    assert (x ∈ x :: l) as Hx by left. rewrite <- E in Hx. apply list_elem_of_filter in Hx as [Hx Hin].
    by destruct (Hd x). }
  by rewrite last_snoc.
Qed.

(** A function call as the Responses API streams it. *)
Definition call_json (id name : string) : json :=
  jobj [("type", JString "function_call"); ("call_id", JString id); ("name", JString name)].

Definition call_events (id name : string) (pieces : list string) (i o : Z) :
    list (result string SseEvent) :=
  sse "" (jobj [("type", JString "response.output_item.added"); ("item", call_json id name)]) ::
  map (λ p, sse "" (jobj [("type", JString "response.function_call_arguments.delta");
                          ("delta", JString p)])) pieces ++
  [sse "" (jobj [("type", JString "response.output_item.done"); ("item", call_json id name)]);
   sse "" (jobj [("type", JString "response.completed");
                 ("response", jobj [("output", JArray [call_json id name]);
                    ("usage", jobj [("input_tokens", JInt i); ("output_tokens", JInt o)])])])].

(** A text of [serde_json] is neither blank nor the end marker. *)
Definition json_texts_solid : Prop :=
  ∀ j, string_eqb (trim (json_to_string j)) "" = false ∧ json_to_string j ≠ "[DONE]".

Lemma parse_event_text j m :
  json_texts_solid → json_plain MAX_DEPTH j = true →
  parse_event (json_to_string j) m = event_value j m.
Proof.
  intros Hs Hp. destruct (Hs j) as [Ht Hd]. unfold parse_event.
  by rewrite Ht, (proj2 (string_eqb_neq _ _) Hd), json_text_roundtrip.
Qed.

Lemma chatgpt_stream_cons tools j l :
  json_texts_solid → json_plain MAX_DEPTH j = true →
  chatgpt_stream tools (sse "" j :: l) = event_value j (name_map_of tools) ++ chatgpt_stream tools l.
Proof. intros Hs Hp. unfold chatgpt_stream. simpl. by rewrite parse_event_text. Qed.

Lemma chatgpt_stream_app tools l1 l2 :
  chatgpt_stream tools (l1 ++ l2) = chatgpt_stream tools l1 ++ chatgpt_stream tools l2.
Proof. apply bind_app. Qed.

Lemma chatgpt_pieces tools l : json_texts_solid →
  chatgpt_stream tools (map (λ p, sse "" (jobj
    [("type", JString "response.function_call_arguments.delta"); ("delta", JString p)])) l) =
  map (λ p, Ok (ToolUseInputDelta p)) l.
Proof.
  intros Hs. induction l as [|p l IH]; [done|]. cbn [map].
  by rewrite chatgpt_stream_cons, IH by (done || plain_tac).
Qed.

(** What a stream of one call, made under [name], aggregates to. *)
Lemma chatgpt_call_run tools id name pieces i o :
  json_texts_solid → 0 ≤ i < 2^64 → 0 ≤ o < 2^64 →
  aggregate_stream aggregate_new (chatgpt_stream tools (call_events id name pieces i o)) =
  Ok (mkAgg "" None
        [ACToolUse id (default name (name_map_of tools !! name)) (tool_input (string_concat pieces))]
        StopToolUse (mkUsage (i mod 2^32) (o mod 2^32) 0 0)).
Proof.
  intros Hs Hi Ho. unfold call_events.
  rewrite chatgpt_stream_cons, chatgpt_stream_app, chatgpt_pieces by done.
  rewrite !chatgpt_stream_cons by (done || plain_tac).
  change (event_value (jobj [_; ("item", call_json id name)]) (name_map_of tools)) with
    [Ok (E := LlmError) (ToolUseStart id (default name (name_map_of tools !! name)))] at 1.
  cbn [app aggregate_stream]. rewrite aggregate_stream_app. unfold aggregate_delta at 1.
  cbn [ag_text ag_tools ag_stop ag_usage aggregate_new]. rewrite aggregate_input.
  cbn [mbind result_bind].
  change (event_value (jobj [_; ("item", call_json id name)]) (name_map_of tools)) with
    [Ok (E := LlmError) (ToolUseStop id)].
  set (u := jobj [("input_tokens", JInt i); ("output_tokens", JInt o)]).
  change (event_value (jobj [_; ("response", _)]) (name_map_of tools)) with
    [Ok (E := LlmError) (MessageStop StopToolUse
      (mkUsage (token_count u "input_tokens") (token_count u "output_tokens") 0 0))].
  assert (token_count u "input_tokens" = i mod 2^32) as ->.
  { unfold token_count. change (jget u "input_tokens") with (Some (JInt i)). simpl.
    by rewrite (proj2 (Z.leb_le 0 i)) by lia. }
  assert (token_count u "output_tokens" = o mod 2^32) as ->.
  { unfold token_count. change (jget u "output_tokens") with (Some (JInt o)). simpl.
    by rewrite (proj2 (Z.leb_le 0 o)) by lia. }
  done.
Qed.

(** Every name offered has only the characters OpenAI takes. *)
Lemma sanitized_chars name :
  Forall (λ c, is_ascii_alphanumeric c = true ∨ c = "-" ∨ c = "_") (map sanitize_char (chars name)).
Proof.
  apply Forall_map, Forall_true. intros c. unfold compose, sanitize_char.
  destruct (is_ascii_alphanumeric c) eqn:E; simpl; [auto|].
  destruct (string_eqb c "-") eqn:E1; simpl; [apply string_eqb_eq in E1; auto|].
  destruct (string_eqb c "_") eqn:E2; [apply string_eqb_eq in E2; auto|auto].
Qed.

(** When no two tools have one sanitized name, a call the model makes under the name
    it was offered comes back as a call of the capability, with the arguments sent,
    in whatever pieces they arrived. *)
Theorem chatgpt_call_roundtrip tools t id input pieces i o :
  json_texts_solid → NoDup (map (λ t, sanitize_tool_name (td_name t)) tools) → t ∈ tools →
  json_plain MAX_DEPTH input = true → string_concat pieces = json_to_string input →
  0 ≤ i < 2^64 → 0 ≤ o < 2^64 →
  jget (chatgpt_tool t) "name" = Some (JString (sanitize_tool_name (td_name t))) ∧
  ag_tools <$> aggregate_stream aggregate_new
    (chatgpt_stream tools (call_events id (sanitize_tool_name (td_name t)) pieces i o)) =
  Ok [ACToolUse id (td_name t) input].
Proof.
  intros Hs Hnd Ht Hpl Hp Hi Ho. split; [reflexivity|]. rewrite chatgpt_call_run by done. simpl.
  apply list_elem_of_split in Ht as (l1 & l2 & ->). rewrite map_app in Hnd. simpl in Hnd.
  apply NoDup_app in Hnd as (_ & _ & [Hni _]%NoDup_cons). rewrite name_map_last.
  - simpl. unfold tool_input. by rewrite Hp, json_text_roundtrip.
  - intros t' Ht' E. apply Hni. rewrite <- E. by apply (list_elem_of_fmap_2 (λ t, sanitize_tool_name (td_name t))).
Qed.

(** When two do, a call of the earlier one is dispatched to the later. *)
Theorem chatgpt_tool_shadowed l1 t l2 t' l3 id pieces i o :
  json_texts_solid → sanitize_tool_name (td_name t) = sanitize_tool_name (td_name t') →
  (∀ x, x ∈ l3 → sanitize_tool_name (td_name x) ≠ sanitize_tool_name (td_name t')) →
  0 ≤ i < 2^64 → 0 ≤ o < 2^64 →
  ag_tools <$> aggregate_stream aggregate_new (chatgpt_stream (l1 ++ t :: l2 ++ t' :: l3)
    (call_events id (sanitize_tool_name (td_name t)) pieces i o)) =
  Ok [ACToolUse id (td_name t') (tool_input (string_concat pieces))].
Proof.
  intros Hs He Hl Hi Ho. rewrite chatgpt_call_run by done. simpl.
  change (l1 ++ t :: l2 ++ t' :: l3) with (l1 ++ (t :: l2) ++ t' :: l3).
  by rewrite app_assoc, He, name_map_last.
Qed.

(** ** OpenAI's stream *)

Lemma openai_event_kinds e d :
  openai_event e = Ok (Some d) →
  (∃ t, d = TextDelta t) ∨ (∃ r u, d = MessageStop r u).
Proof.
  unfold openai_event. destruct e as [ev|]; cbn [map_err mbind result_bind]; [|done].
  destruct (string_eqb _ _); [done|].
  destruct (de_str "StreamChunk" decode_stream_chunk (ev_data ev)) as [[choices usage]|];
    simpl; [|done]. intros [= Hd]. revert Hd.
  destruct choices as [|[text finish] l]; simpl.
  - destruct usage; simpl; [|done]. intros [= <-]. eauto.
  - destruct text as [t|]; [destruct (string_eqb t "")|]; try destruct finish; simpl;
      intros [= <-]; eauto.
Qed.

Lemma aggregate_openai a events b :
  ag_tool a = None → aggregate_stream a (openai_stream events) = Ok b →
  ag_tool b = None ∧ ag_tools b = ag_tools a.
Proof.
  revert a. induction events as [|e events IH]; intros a Ha; simpl; [by intros [= <-]|].
  rewrite aggregate_stream_app. destruct (openai_event e) as [[d|]|] eqn:E; simpl; [| |done].
  - apply openai_event_kinds in E as [[t ->]|(r & u & ->)]; intros Hb; by apply IH in Hb.
  - by apply IH.
Qed.

(** The streaming client does not look at [tool_calls]: no stream yields a tool call,
    and a reply that ends with its usage chunk, as asked for in the request, counts as
    an ordinary end of turn, whatever reason the provider gave. *)
Theorem openai_tools_lost events u a :
  de_str "StreamChunk" decode_stream_chunk u = Ok ([], Some usage_default) → u ≠ "[DONE]" →
  aggregate_stream aggregate_new (openai_stream (events ++ [Ok (mkSse "" u); Ok (mkSse "" "[DONE]")]))
    = Ok a →
  ag_tools a = [] ∧ ag_stop a = EndTurn.
Proof.
  intros Hu Hd Ha. split; [by apply (aggregate_openai aggregate_new _ a) in Ha as [_ ->]|].
  revert Ha. unfold openai_stream. rewrite bind_app, aggregate_stream_app.
  destruct (aggregate_stream aggregate_new _) as [b|]; [|done].
  unfold openai_event. cbn [mbind list_bind map_err result_bind ev_data].
  rewrite (proj2 (string_eqb_neq u "[DONE]") Hd), Hu. simpl. by intros [= <-].
Qed.

(** ** Ollama's stream *)

(** The client decodes each chunk of bytes by itself: a line that arrives in two
    chunks fails, although its text is whole. *)
Theorem ollama_split_line p q e :
  from_utf8 (bytes p) = Some p → newline_free p → nonblank p = true → json_from_str p = Err e →
  ∃ m, head (local_stream [Ok (bytes p); Ok (bytes q)]) = Some (Err (LDecode m)).
Proof.
  intros Hv Hn Hb Hp. unfold local_stream. simpl. unfold ollama_chunk at 1. simpl. rewrite Hv. simpl.
  rewrite split_no_sep by done. rewrite filter_cons_True by done. simpl.
  unfold ollama_line, de_str. rewrite Hp. simpl. by eexists.
Qed.

(** ** ChatGPT's session file *)

Context `{!LlmFiles W}.

(** [root] is an object whose [tokens] are the object [t]. *)
Definition auth_of (root : json) (t : list (string * json)) : Prop :=
  ∃ l, root = JObject l ∧ assoc "tokens" l = Some (JObject t).

Definition decode_tokens (t : list (string * json)) : option AuthTokens :=
  req_str (JObject t) "access_token" ≫= λ a, default_str (JObject t) "refresh_token" ≫= λ r,
  default_str (JObject t) "account_id" ≫= λ i, Some (mkTokens a r i).

Lemma set_token_auth k v root t :
  auth_of root t →
  ∃ root', set_token k v root = Some root' ∧ auth_of root' (assoc_insert k (JString v) t).
Proof.
  intros (l & -> & Ht). unfold set_token, jindex. simpl. rewrite Ht. simpl. eexists. split; [done|].
  eexists. split; [done|]. apply assoc_insert_eq.
Qed.

Lemma set_token_opt_auth k v root t :
  auth_of root t →
  ∃ root', set_token_opt k v root = Some root' ∧
    auth_of root' (match v with Some v => assoc_insert k (JString v) t | None => t end).
Proof. intros Ha. destruct v; [by apply set_token_auth|by exists root]. Qed.

Lemma decode_auth_iff root cur :
  of_object decode_auth root = Some cur ↔ ∃ t, auth_of root t ∧ decode_tokens t = Some cur.
Proof.
  split.
  - destruct root as [| | | | | |l]; try done. simpl. unfold decode_auth, req_struct. simpl.
    destruct (assoc "tokens" l) as [[| | | | | |t]|] eqn:Ht; try done. simpl. intros Hd.
    exists t. split; [by exists l|done].
  - intros (t & (l & -> & Ht) & Hd). simpl. unfold decode_auth, req_struct. simpl.
    by rewrite Ht.
Qed.

(** The rewritten file decodes to the rotated tokens. *)
Lemma rotate_decodes access r id now root root' cur :
  of_object decode_auth root = Some cur → rotate (access, r, id) now root = Some root' →
  of_object decode_auth root' =
  Some (mkTokens access (default (at_refresh_token cur) r) (at_account_id cur)).
Proof.
  intros (t & Ha & Hd)%decode_auth_iff. unfold rotate.
  destruct (set_token_auth "access_token" access _ _ Ha) as (r1 & -> & H1'). simpl.
  destruct (set_token_opt_auth "refresh_token" r _ _ H1') as (r2 & -> & H2'). simpl.
  destruct (set_token_opt_auth "id_token" id _ _ H2') as (r3 & -> & (l & -> & Hl)). simpl.
  intros [= <-]. apply decode_auth_iff. eexists. split.
  { eexists. split; [done|]. by rewrite assoc_insert_ne. }
  revert Hd. unfold decode_tokens, req_str, default_str. simpl.
  destruct (assoc "access_token" t ≫= as_str) as [a|]; [|done]. simpl.
  destruct r as [r|], id as [i|]; simpl;
    rewrite ?assoc_insert_eq, ?assoc_insert_ne, ?assoc_insert_eq, ?assoc_insert_ne,
      ?assoc_insert_eq, ?assoc_insert_ne by done; simpl;
    try (destruct (match assoc "refresh_token" t with None => _ | Some v => as_str v end); [|done]);
    simpl; destruct (match assoc "account_id" t with None => _ | Some v => as_str v end); try done;
    by intros [= <-].
Qed.

(** Setting a key to a plain value keeps a value plain, so a plain session file stays
    plain. *)
Lemma index_set_plain d k v j j' :
  json_plain (S d) j = true → json_plain d v = true → index_set k v j = Some j' →
  json_plain (S d) j' = true.
Proof.
  intros Hj Hv. destruct j as [| | | | | |l]; simpl; intros [= <-].
  - cbn [json_plain forallb snd keys_ascend]. by rewrite Hv.
  - cbn [json_plain] in Hj |- *. apply andb_true_iff in Hj as [Hk Hl].
    rewrite (keys_ascend_insert _ _ _ Hk). clear Hk. simpl.
    induction l as [|[k' v'] l IH]; cbn [assoc_insert forallb snd]; [by rewrite Hv|].
    cbn [forallb snd] in Hl. apply andb_true_iff in Hl as [Hv' Hl].
    destruct (string_eqb k k'); [by cbn [forallb snd]; rewrite Hv, Hl|].
    destruct (String.leb k k'); cbn [forallb snd];
      [by rewrite Hv, Hv', Hl|by rewrite Hv', IH].
Qed.

Lemma assoc_plain d k (l : list (string * json)) v :
  json_plain (S d) (JObject l) = true → assoc k l = Some v → json_plain d v = true.
Proof.
  cbn [json_plain]. intros [_ Hl]%andb_true_iff. induction l as [|[k' v'] l IH]; [done|].
  cbn [forallb snd] in Hl. apply andb_true_iff in Hl as [Hv Hl]. simpl.
  destruct (string_eqb k k'); [by intros [= <-]|by apply IH].
Qed.

Lemma set_token_plain d k v root root' :
  json_plain (S (S d)) root = true → set_token k v root = Some root' →
  json_plain (S (S d)) root' = true.
Proof.
  intros Hr Hs. unfold set_token in Hs.
  assert (index_set k (JString v) (jindex root "tokens") ≫= (λ t, index_set "tokens" t root) =
          Some root') as Hs' by (by destruct root). clear Hs.
  apply bind_Some in Hs' as (t & Ht & Hs). eapply index_set_plain; [done| |done].
  apply (index_set_plain d _ _ _ _) in Ht; [exact Ht| |by destruct d]. unfold jindex, jget.
  destruct root as [| | | | | |l]; try done. destruct (assoc "tokens" l) eqn:Ha; [|done].
  by apply (assoc_plain _ "tokens" l).
Qed.

Lemma rotate_plain r now root root' :
  json_plain MAX_DEPTH root = true → rotate r now root = Some root' →
  json_plain MAX_DEPTH root' = true.
Proof.
  destruct r as [[a r] i]. unfold rotate, MAX_DEPTH.
  intros Hp (r1 & H1' & (r2 & H2' & (r3 & H3' & H4')%bind_Some)%bind_Some)%bind_Some.
  apply (set_token_plain 125) in H1'; [|exact Hp].
  assert (∀ k v a b, json_plain 127 a = true → set_token_opt k v a = Some b →
                     json_plain 127 b = true) as Hopt.
  { intros k [v|] x y Hx Hy; [by apply (set_token_plain 125) in Hy|by injection Hy as <-]. }
  apply (Hopt _ _ _ _ H1') in H2'. apply (Hopt _ _ _ _ H2') in H3'.
  by apply (index_set_plain 126) in H4'.
Qed.

(** Two reads of a file nobody wrote in between. *)
Lemma load_tokens_ok c w t w' :
  load_tokens c w = (Ok t, w') →
  ∃ raw root, host_file w (cg_auth_path c) = Some raw ∧ json_from_str raw = Ok root ∧
    of_object decode_auth root = Some t ∧ ∀ q, host_file w' q = host_file w q.
Proof.
  intros Hl. apply io_bind_ok in Hl as (raw & w1 & Hraw & Hl).
  apply io_map_err_ok, host_read_law in Hraw as [Hf Hk].
  unfold lift, de_str in Hl. destruct (json_from_str raw) as [root|] eqn:Hroot; [|done].
  simpl in Hl. destruct (of_object decode_auth root) as [t'|] eqn:Ht; [|done].
  injection Hl as -> <-. by exists raw, root.
Qed.

(** What [refresh] returns is what the session file holds afterwards: the next
    [load_tokens] that succeeds gives the rotated tokens, if the file held a plain
    value before. *)
Theorem refresh_persists c (w w' : W) t t2 w2 :
  (∀ raw root, host_file w (cg_auth_path c) = Some raw → json_from_str raw = Ok root →
    json_plain MAX_DEPTH root = true) →
  refresh c w = (Ok t, w') → load_tokens c w' = (Ok t2, w2) → t2 = t.
Proof.
  intros Hplain Hr (raw2 & root2 & Hf2 & Hp2 & Hd2 & _)%load_tokens_ok. unfold refresh in Hr.
  apply io_bind_ok in Hr as (cur & w1 & (raw & root & Hf & Hp & Hd & Hk1)%load_tokens_ok & Hr).
  apply io_bind_ok in Hr as (resp & w3 & Hpost%io_map_err_ok & Hr).
  pose proof (http_post_law _ _ _ _ _ _ Hpost) as Hk3.
  apply io_bind_ok in Hr as (resp' & ? & [_ <-]%lift_ok & Hr).
  apply io_bind_ok in Hr as ([[access rt] id] & ? & [_ <-]%lift_ok & Hr).
  apply io_bind_ok in Hr as (raw' & w4 & [Hf' Hk4]%io_map_err_ok%host_read_law & Hr).
  rewrite Hk3, Hk1, Hf in Hf'. injection Hf' as <-.
  apply io_bind_ok in Hr as (root' & ? & [Hroot <-]%lift_ok & Hr). rewrite Hp in Hroot.
  injection Hroot as <-.
  apply io_bind_ok in Hr as (now & ? & [= <- <-] & Hr).
  apply io_bind_ok in Hr as (new & ? & [Hnew <-]%lift_ok & Hr).
  destruct (rotate _ _ root) as [new'|] eqn:Hrot; [|done]. injection Hnew as <-.
  apply io_bind_ok in Hr as ([] & w5 & Hw%io_map_err_ok%host_write_law & Hr).
  apply io_bind_ok in Hr as ([] & w6 & Hm%io_map_err_ok%host_rename_law & [= <- <-]).
  rewrite Hm, Hw in Hf2. injection Hf2 as <-. rewrite json_text_roundtrip in Hp2
    by (eapply rotate_plain; [by eapply Hplain|done]).
  injection Hp2 as <-. rewrite (rotate_decodes _ _ _ _ _ _ _ Hd Hrot) in Hd2.
  by injection Hd2 as <-.
Qed.

End Clients.

(** ** On concrete input *)

Module LlmDemo.
#[export] Existing Instance demo_json_text.
#[export] Existing Instance demo_json_laws.

(** A host that is offline and has files. *)
#[export] Instance host : LlmHost (gmap string string) := {|
  response := Z;
  rs_status r := r;
  rs_text _ := Ok "";
  rs_json _ := Err "no body";
  rs_chunks _ := [];
  eventsource _ := [];
  http_post _ _ _ := throw "offline";
  host_exists p w := bool_decide (is_Some (w !! p));
  host_read p w := (ok_or (w !! p) "no such file", w);
  host_write p s := modify (insert p s);
  host_rename p q w := match w !! p with
                       | Some s => (Ok tt, <[q := s]> (delete p w))
                       | None => (Err "no such file", w)
                       end;
  now_rfc3339 _ := "2026-01-01T00:00:00Z";
  new_uuid w := ("00000000-0000-4000-8000-000000000000", w);
|}.

Definition message (ty : string) (j : json) : string := "invalid type".

Lemma demo_solid : json_texts_solid.
Proof.
  intros j. split; [|done]. apply string_eqb_neq. rewrite trim_plain; [done|].
  simpl. apply Forall_cons; split; [by vm_compute|].
  induction (encode j) as [p IH|p IH|]; simpl; [| |constructor];
    (apply Forall_cons; split; [by vm_compute|exact IH]).
Qed.

(** A message of two text pieces and a tool call in two. *)
Definition args : json := jobj [("target_ref", JString "target://edge")].
Definition cut (n : nat) (s : string) : list string :=
  [String.substring 0 n s; String.substring n (String.length s) s].
Definition blocks : list sent_block :=
  [SentText ["Let me "; "look."]; SentTool "toolu_1" "fw.list" args (cut 20 (demo_print args))].

Lemma blocks_ok : Forall sent_ok blocks.
Proof.
  apply Forall_cons; split; [done|]. apply Forall_cons; split; [|constructor].
  left. split; vm_compute; reflexivity.
Qed.

Definition tools : list ToolDefinition :=
  [mkToolDef "fw.list" "list" JNull; mkToolDef "fw.add" "add" JNull].

Definition usage_chunk : json :=
  jobj [("choices", JArray []); ("usage", jobj [])].
Definition tool_chunk : json :=
  jobj [("choices", JArray [jobj [("delta", jobj []); ("finish_reason", JString "tool_calls")]])].
End LlmDemo.

Section Witnesses.
Import LlmDemo.

Lemma chatgpt_call_roundtrip_witness :
  ag_tools <$> aggregate_stream aggregate_new
    (chatgpt_stream tools (call_events "call_9" "fw_list" (cut 9 (demo_print args)) 10 3)) =
  Ok [ACToolUse "call_9" "fw.list" args].
Proof.
  refine (proj2 (chatgpt_call_roundtrip tools (mkToolDef "fw.list" "list" JNull) "call_9" args
    (cut 9 (demo_print args)) 10 3 demo_solid _ _ _ _ _ _));
    [|by left|vm_compute; reflexivity|vm_compute; reflexivity|lia|lia].
  apply (bool_decide_unpack _). vm_compute. exact I.
Defined.

Lemma openai_tools_lost_witness :
  ∃ a, aggregate_stream aggregate_new (openai_stream message
      ([sse "" tool_chunk] ++
       [Ok (mkSse "" (demo_print usage_chunk)); Ok (mkSse "" "[DONE]")])) = Ok a ∧
    ag_tools a = [] ∧ ag_stop a = EndTurn.
Proof.
  eexists. split; [vm_compute; reflexivity|].
  apply (openai_tools_lost message [sse "" tool_chunk] (demo_print usage_chunk));
    [vm_compute; reflexivity|vm_compute; congruence|vm_compute; reflexivity].
Defined.
End Witnesses.
