(* ===== verification/Memory.v ===== *)
(** * daimon-memory: the long-term memory tier
    ([daimon-memory/src/service.rs], [error.rs], [dmem_http.rs])

    The {!MemoryService} trait with its data, the client of the dmem sidecar and the
    null implementation. HTTP is a parameter. A score is kept as the exact fraction
    the program rounds to an [f32]. *)

From S2P Require Import Prelude RustStd Json.
From Stdlib Require Import ZArith Ascii QArith.

Local Open Scope Z_scope.

(** ** [service.rs] *)

Record IngestDoc := mkDoc { id_source_id : string; id_source_kind : string; id_content : string }.

Record IngestStats := mkStats { is_source_id : string; is_chunks : Z; is_collection : string }.

Record RetrieveQuery := mkQuery { rq_query : string; rq_top_k : Z }.

Record RetrievedChunk := mkChunk {
  rc_uri : string;
  rc_source_id : string;
  rc_source_kind : string;
  rc_content : string;
  rc_score : Q;
}.

Inductive RecordKind := KindDecision | KindIncident | KindLesson.

Definition kind_as_str (k : RecordKind) : string :=
  match k with
  | KindDecision => "decision"
  | KindIncident => "incident"
  | KindLesson => "lesson"
  end.

Inductive TypedBody :=
| RecDecision (title context decision rationale : string)
| RecIncident (title impact resolution : string)
| RecLesson (title lesson : string).

Definition body_kind (b : TypedBody) : RecordKind :=
  match b with
  | RecDecision _ _ _ _ => KindDecision
  | RecIncident _ _ _ => KindIncident
  | RecLesson _ _ => KindLesson
  end.

Record TypedRecord := mkRecord { tr_body : TypedBody; tr_namespace : option string }.

Record ScoredRecord := mkScored {
  sr_uri : string;
  sr_title : string;
  sr_content : string;
  sr_score : Q;
}.

Record RecallBudget := mkBudget { rb_max_tokens : Z; rb_top_k : Z; rb_rerank : bool }.

Definition budget_default : RecallBudget := mkBudget 3000 6 true.

Record PreTurnContext := mkContext { pt_block : string; pt_degraded : bool; pt_hits : nat }.

Definition context_degraded : PreTurnContext := mkContext "" true 0.

Definition has_context (c : PreTurnContext) : bool := negb (string_eqb (trim (pt_block c)) "").

Record MemoryHealth := mkHealth { mh_reachable : bool; mh_detail : option string }.

(** [daimon_memory::Error]. *)
Inductive MemoryError :=
| MemHttp (e : string)
| MemDecode (e : string)
| MemUnreachable (e : string)
| MemSerde (e : string).

Definition show_memory_error (e : MemoryError) : string :=
  match e with
  | MemHttp e => "dmem http error: " +:+ e
  | MemDecode e => "dmem decode error: " +:+ e
  | MemUnreachable e => "dmem unreachable: " +:+ e
  | MemSerde e => "serialization error: " +:+ e
  end.

(** The trait; [pre_turn_recall] and [health] have no error to return. *)
Class MemoryService (S W : Type) := {
  ingest : S → IngestDoc → io W MemoryError IngestStats;
  mem_delete : S → string → io W MemoryError unit;
  retrieve : S → RetrieveQuery → io W MemoryError (list RetrievedChunk);
  capture : S → TypedRecord → io W MemoryError string;
  recall : S → string → RecallBudget → io W MemoryError (list ScoredRecord);
  pre_turn_recall : S → string → RecallBudget → W → PreTurnContext * W;
  mem_health : S → W → MemoryHealth * W;
}.

(** ** The sidecar's client ([dmem_http.rs]) *)

Record DmEntry := mkDmEntry {
  de_uri : string;
  de_kind : string;
  de_namespace : string;
  de_title : string;
  de_body : string;
}.

Definition READ_TIMEOUT : Z := 3000.
Definition WRITE_TIMEOUT : Z := 5000.
Definition HEALTH_TIMEOUT : Z := 2000.

Definition is_typed_kind (kind : string) : bool :=
  existsb (string_eqb kind) ["decision"; "incident_summary"; "incident"; "agent_lesson"; "lesson"].

Definition est_tokens (s : string) : Z := Z.max (Z.of_nat (length (chars s)) / 4) 1.

Definition rank_score (i len : nat) : Q :=
  match len with
  | O => 0%Q
  | _ => (1 - inject_Z (Z.of_nat i) / inject_Z (Z.of_nat len))%Q
  end.

Record DmemHttpMemory := mkDmem { dm_base : string; dm_token : string }.

(** [builder] is the outcome of building the HTTP client. *)
Definition dmem_new (builder : result string unit) (base token : string) :
    result MemoryError DmemHttpMemory :=
  map_err (λ e, MemHttp ("build reqwest client: " +:+ e)) builder ≫= λ _,
  Ok (mkDmem (trim_end_matches "/" base) token).

(** The status, text and JSON body of a response. *)
Record DmemReply := mkReply {
  dr_status : Z;
  dr_text : result string string;
  dr_json : result string json;
}.

(** [reqwest]: url, token, body and timeout; [StatusCode]'s [Display]; serde's
    message for a value of another shape. *)
Class DmemHttp (W : Type) := {
  dmem_post : string → string → json → Z → io W string DmemReply;
  dmem_get : string → string → Z → io W string Z;
  show_status : Z → string;
  shape_message : json → string;
}.

(** serde's decoders of the responses, on objects. *)
Definition text_field (j : json) (k : string) : option string := jget j k ≫= as_str.

Definition decode_entry (j : json) : option DmEntry :=
  text_field j "uri" ≫= λ uri, text_field j "kind" ≫= λ kind,
  text_field j "namespace" ≫= λ ns, text_field j "title" ≫= λ title,
  text_field j "body" ≫= λ body, Some (mkDmEntry uri kind ns title body).

Definition decode_entries (j : json) : option (list DmEntry) :=
  match j with JArray l => mapM decode_entry l | _ => None end.

Definition decode_uri (j : json) : option string := text_field j "uri".

Definition decode_forgotten (j : json) : option bool := jget j "forgotten" ≫= as_bool.

Definition capture_request (b : TypedBody) : string * json :=
  match b with
  | RecDecision title context decision rationale =>
      ("/log_decision",
       jobj [("title", JString title); ("context", JString context);
             ("decision", JString decision); ("rationale", JString rationale)])
  | RecIncident title impact resolution =>
      ("/log_incident",
       jobj [("title", JString title); ("impact", JString impact);
             ("resolution", JString resolution)])
  | RecLesson title lesson =>
      ("/log_lesson", jobj [("title", JString title); ("lesson", JString lesson)])
  end.

Definition with_namespace (ns : option string) (j : json) : json :=
  match ns, j with
  | Some ns, JObject l => JObject (assoc_insert "namespace" (JString ns) l)
  | _, _ => j
  end.

(** [.enumerate().map(|(i, e)| (rank_score(i, len), e))]. *)
Definition ranked {A} (l : list A) : list (Q * A) :=
  imap (λ i e, (rank_score i (length l), e)) l.

Definition entry_line (e : DmEntry) : string :=
  "- (" +:+ de_kind e +:+ ") " +:+ de_title e +:+ ": " +:+ de_body e.

(** The packing loop of [pre_turn_recall]. *)
Fixpoint pack (seen : gset string) (budget_left : Z) (l : list DmEntry) : list string :=
  match l with
  | [] => []
  | e :: l =>
      if bool_decide (de_uri e ∈ seen) then pack seen budget_left l
      else
        let line := entry_line e in
        let cost := est_tokens line in
        if budget_left <? cost then []
        else line :: pack ({[de_uri e]} ∪ seen) (budget_left - cost) l
  end.

Section Dmem.
Context {W : Type} `{DmemHttp W}.
Abbreviation mio := (io W MemoryError).

Definition dmem_call {A} (c : DmemHttpMemory) (decode : json → option A) (path : string) (body : json)
    (timeout : Z) : mio A :=
  io_map_err (λ e, MemUnreachable ("POST " +:+ path +:+ ": " +:+ e))
    (dmem_post (dm_base c +:+ path) (dm_token c) body timeout) ≫= λ resp,
  if negb (is_success (dr_status resp)) then
    let detail := chars_take 200 (default "" (ok (dr_text resp))) in
    throw (MemHttp ("POST " +:+ path +:+ " -> " +:+ show_status (dr_status resp) +:+ ": " +:+ detail))
  else
    lift (map_err (λ e, MemDecode ("decode " +:+ path +:+ " response: " +:+ e))
      (dr_json resp ≫= λ j, ok_or (decode j) (shape_message j))).

Definition recall_entries (c : DmemHttpMemory) (query : string) (limit : Z) : mio (list DmEntry) :=
  dmem_call c decode_entries "/recall" (jobj [("query", JString query); ("limit", JInt limit)])
    READ_TIMEOUT.

Definition dmem_ingest (c : DmemHttpMemory) (doc : IngestDoc) : mio IngestStats :=
  let namespace := "resources/" +:+ id_source_kind doc in
  let text := "[" +:+ id_source_id doc +:+ "] " +:+ id_content doc in
  dmem_call c decode_uri "/remember"
    (jobj [("text", JString text); ("namespace", JString namespace)]) WRITE_TIMEOUT ≫= λ _,
  mret (mkStats (id_source_id doc) 1 namespace).

Definition dmem_delete (c : DmemHttpMemory) (uri : string) : mio unit :=
  dmem_call c decode_forgotten "/forget" (jobj [("uri", JString uri)]) WRITE_TIMEOUT ≫= λ _, mret tt.

Definition dmem_retrieve (c : DmemHttpMemory) (q : RetrieveQuery) : mio (list RetrievedChunk) :=
  recall_entries c (rq_query q) (rq_top_k q) ≫= λ entries,
  mret (map (λ '(score, e), mkChunk (de_uri e) (de_namespace e) (de_kind e) (de_body e) score)
    (ranked entries)).

Definition dmem_capture (c : DmemHttpMemory) (rec : TypedRecord) : mio string :=
  let '(path, payload) := capture_request (tr_body rec) in
  dmem_call c decode_uri path (with_namespace (tr_namespace rec) payload) WRITE_TIMEOUT.

Definition typed_entries (l : list DmEntry) : list DmEntry :=
  List.filter (λ e, is_typed_kind (de_kind e)) l.

Definition dmem_recall (c : DmemHttpMemory) (query : string) (budget : RecallBudget) :
    mio (list ScoredRecord) :=
  let n := Z.max (rb_top_k budget) 1 in
  recall_entries c query (n * 2) ≫= λ entries,
  let typed := take (Z.to_nat n) (typed_entries entries) in
  mret (map (λ '(score, e), mkScored (de_uri e) (de_title e) (de_body e) score) (ranked typed)).

Definition dmem_pre_turn_recall (c : DmemHttpMemory) (user_message : string)
    (budget : RecallBudget) (w : W) : PreTurnContext * W :=
  let limit := Z.max (rb_top_k budget) 1 in
  match recall_entries c user_message limit w with
  | (Err _, w) => (context_degraded, w)
  | (Ok all, w) =>
      match recall_entries c user_message (limit * 2) w with
      | (Err _, w) => (context_degraded, w)
      | (Ok typed_pool, w) =>
          let typed := ranked (typed_entries typed_pool) in
          let docs := ranked all in
          let packed := pack ∅ (rb_max_tokens budget) (map snd (typed ++ docs)) in
          (mkContext (join "010" packed) false (length packed), w)
      end
  end.

Definition dmem_health (c : DmemHttpMemory) (w : W) : MemoryHealth * W :=
  match dmem_get (dm_base c +:+ "/healthz") (dm_token c) HEALTH_TIMEOUT w with
  | (Ok status, w) =>
      (if is_success status then mkHealth true None
       else mkHealth false (Some ("healthz -> " +:+ show_status status)), w)
  | (Err e, w) => (mkHealth false (Some ("healthz unreachable: " +:+ e)), w)
  end.

#[export] Instance dmem_memory : MemoryService DmemHttpMemory W := {|
  ingest := dmem_ingest;
  mem_delete := dmem_delete;
  retrieve := dmem_retrieve;
  capture := dmem_capture;
  recall := dmem_recall;
  pre_turn_recall := dmem_pre_turn_recall;
  mem_health := dmem_health;
|}.
End Dmem.

(** ** No memory *)

Inductive NullMemory := nullMemory.

#[export] Instance null_memory W : MemoryService NullMemory W := {|
  ingest _ doc := mret (mkStats (id_source_id doc) 0 "(null-memory)");
  mem_delete _ _ := mret tt;
  retrieve _ _ := mret [];
  capture _ rec := mret ("daimon://null-memory/" +:+ kind_as_str (body_kind (tr_body rec)));
  recall _ _ _ := mret [];
  pre_turn_recall _ _ _ w := (context_degraded, w);
  mem_health _ w :=
    (mkHealth false (Some "null memory (sidecar unconfigured or unreachable at boot)"), w);
|}.

(** ** What is packed *)

(** The entries in the order of their rank, each uri once. *)
Fixpoint first_of_uri (seen : gset string) (l : list DmEntry) : list DmEntry :=
  match l with
  | [] => []
  | e :: l =>
      if bool_decide (de_uri e ∈ seen) then first_of_uri seen l
      else e :: first_of_uri ({[de_uri e]} ∪ seen) l
  end.

Definition total_cost (l : list string) : Z := foldr (λ s n, est_tokens s + n) 0 l.

Lemma pack_prefix seen b l :
  ∃ n, pack seen b l = map entry_line (take n (first_of_uri seen l)) ∧
    (0 ≤ b → total_cost (pack seen b l) ≤ b) ∧
    ∀ e, first_of_uri seen l !! n = Some e → b < total_cost (pack seen b l) + est_tokens (entry_line e).
Proof.
  revert seen b. induction l as [|e l IH]; intros seen b; simpl.
  { exists 0%nat. repeat split; [simpl; lia|done]. }
  destruct (bool_decide (de_uri e ∈ seen)); [apply IH|].
  destruct (b <? est_tokens (entry_line e)) eqn:Hb.
  - exists 0%nat. simpl. apply Z.ltb_lt in Hb. repeat split; [lia|]. intros ? [= <-]. lia.
  - apply Z.ltb_ge in Hb. destruct (IH ({[de_uri e]} ∪ seen) (b - est_tokens (entry_line e)))
      as (n & Hn & Hc & Hx).
    exists (S n). simpl. split; [by rewrite Hn|]. split.
    + intros _. specialize (Hc ltac:(lia)). lia.
    + intros x Hl. specialize (Hx x Hl). lia.
Qed.

Lemma total_cost_length l : Z.of_nat (length l) ≤ total_cost l.
Proof.
  induction l as [|s l IH]; simpl; [lia|]. assert (1 ≤ est_tokens s) by (unfold est_tokens; lia). lia.
Qed.

Lemma ranked_snd {A} (l : list A) : map snd (ranked l) = l.
Proof.
  unfold ranked. change (map snd ?x) with (snd <$> x). rewrite fmap_imap.
  apply list_eq. intros i. rewrite list_lookup_imap. by destruct (l !! i).
Qed.

(** A recall that is not degraded packs, of what the sidecar answered to its two
    questions, the lines of the best ranked entries, typed records before documents and
    each uri once: as many as fit the token budget, up to the first that does not. *)
Theorem recall_packs_budget `{DmemHttp W} c msg budget (w : W) ctx w' :
  0 ≤ rb_max_tokens budget →
  dmem_pre_turn_recall c msg budget w = (ctx, w') → pt_degraded ctx = false →
  let limit := Z.max (rb_top_k budget) 1 in
  ∃ all typed w1 lines n,
    recall_entries c msg limit w = (Ok all, w1) ∧
    recall_entries c msg (limit * 2) w1 = (Ok typed, w') ∧
    lines = map entry_line (take n (first_of_uri ∅ (typed_entries typed ++ all))) ∧
    pt_block ctx = join "010" lines ∧ pt_hits ctx = length lines ∧
    Z.of_nat (pt_hits ctx) ≤ total_cost lines ≤ rb_max_tokens budget ∧
    ∀ e, first_of_uri ∅ (typed_entries typed ++ all) !! n = Some e →
      rb_max_tokens budget < total_cost lines + est_tokens (entry_line e).
Proof.
  intros Hb. unfold dmem_pre_turn_recall.
  destruct (recall_entries _ _ _ w) as [[all|?] w1] eqn:E1; [|by intros [= <- <-]].
  destruct (recall_entries _ _ _ w1) as [[typed|?] w2] eqn:E2; [|by intros [= <- <-]].
  rewrite map_app, !ranked_snd. intros [= <- <-] _. simpl.
  destruct (pack_prefix ∅ (rb_max_tokens budget) (typed_entries typed ++ all)) as (n & Hn & Hc & Hx).
  exists all, typed, w1, (pack ∅ (rb_max_tokens budget) (typed_entries typed ++ all)), n.
  repeat split; auto using total_cost_length.
Qed.

(** ** On concrete input *)

Module MemoryDemo.
(** A sidecar that knows a decision and a document. *)
Definition entry (uri kind title body : string) : json :=
  jobj [("uri", JString uri); ("kind", JString kind); ("namespace", JString "ns");
        ("title", JString title); ("body", JString body)].

Definition known : json :=
  JArray [entry "daimon://doc/1" "document" "runbook" "restart the edge router";
          entry "daimon://decision/1" "decision" "vlan" "keep vlan 20"].

#[export] Instance sidecar : DmemHttp unit := {|
  dmem_post _ _ _ _ := mret (mkReply 200 (Err "") (Ok known));
  dmem_get _ _ _ := mret 200;
  show_status s := show_Z s;
  shape_message _ := "invalid type";
|}.
End MemoryDemo.

Section Witness.
Import MemoryDemo.

Abbreviation demo_recall :=
  (dmem_pre_turn_recall (mkDmem "http://localhost:7071" "t") "vlan" (mkBudget 9 6 true) tt).

Lemma recall_packs_budget_witness :
  pt_block demo_recall.1 = "- (decision) vlan: keep vlan 20" ∧ Z.of_nat (pt_hits demo_recall.1) ≤ 9.
Proof.
  split; [vm_compute; reflexivity|].
  assert (pt_degraded demo_recall.1 = false) as Hd by (vm_compute; reflexivity).
  assert (0 ≤ rb_max_tokens (mkBudget 9 6 true)) as H0 by (vm_compute; discriminate).
  destruct (recall_packs_budget (mkDmem "http://localhost:7071" "t") "vlan" (mkBudget 9 6 true) tt
    demo_recall.1 demo_recall.2 H0 (surjective_pairing demo_recall) Hd)
    as (all & typed & w1 & lines & n & _ & _ & _ & _ & _ & [Hn Hb] & _).
  exact (Z.le_trans _ _ _ Hn Hb).
Defined.
End Witness.
