(* ===== verification/HotMemory.v ===== *)
(** * daimon-redis: working memory
    ([daimon-redis/src/traits.rs], [error.rs], [inproc.rs], [redis_impl.rs])

    The hot tier the chat keeps its transcript in. {!WorkingMemory} is the trait,
    {!InProcWorkingMemory} the in-process implementation, and the Redis client is
    given over the commands of a Redis server, which is a parameter. Conversations
    and key-value entries are separate name spaces: {!WorkingMemoryLaws} states what
    the application relies on; the in-process implementation meets it, and the Redis
    client meets the same statements on the texts it stores. *)

From S2P Require Import Prelude RustStd Json.
From Stdlib Require Import ZArith.

Local Open Scope Z_scope.

(** [daimon_redis::Error]. *)
Inductive MemError :=
| MRedis (e : string)
| MPool (e : string)
| MDecode (e : string)
| MOther (e : string).

Definition show_mem_error (e : MemError) : string :=
  match e with
  | MRedis e => "redis: " +:+ e
  | MPool e => "pool: " +:+ e
  | MDecode e => "decode: " +:+ e
  | MOther e => e
  end.

(** [ConvMessage]. *)
Record ConvMessage := mkConv {
  cv_role : string;
  cv_content : string;
  cv_tool_use_id : option string;
  cv_ts : Z;
}.

(** The trait. A [Duration] is in milliseconds. *)
Class WorkingMemory (M : Type) := {
  conv_push : string → ConvMessage → io M MemError unit;
  conv_recent : string → nat → io M MemError (list ConvMessage);
  kv_set : string → string → json → Z → io M MemError unit;
  kv_get : string → string → io M MemError (option json);
  kv_delete : string → string → io M MemError unit;
  kill_publish : string → io M MemError unit;
}.

(** The last [n] messages, oldest first: [list[len.saturating_sub(n)..]]. *)
Definition last_n {A} (n : nat) (l : list A) : list A := drop (length l - n) l.

(** What clients rely on: [conversation] is what a session holds, a push appends to
    its own session, and the key-value operations leave every session alone. *)
Class WorkingMemoryLaws (M : Type) `{WorkingMemory M} := {
  conversation : M → string → list ConvMessage;
  conv_push_law s m w w' : conv_push s m w = (Ok tt, w') →
    conversation w' s = conversation w s ++ [m] ∧
    ∀ s', s' ≠ s → conversation w' s' = conversation w s';
  conv_recent_law s n w l w' : conv_recent s n w = (Ok l, w') → l = last_n n (conversation w s);
  kv_delete_law a k w s : conversation (kv_delete a k w).2 s = conversation w s;
}.

(** ** In process *)

Record InProcWorkingMemory := mkInProc {
  ip_conv : gmap string (list ConvMessage);
  ip_kv : gmap string (json * option Z);
  ip_now : Z;
}.

Definition in_proc_new (now : Z) : InProcWorkingMemory := mkInProc ∅ ∅ now.

Definition kv_key (agent_id key : string) : string := agent_id +:+ ":" +:+ key.

Definition set_ip_kv kv w := mkInProc (ip_conv w) kv (ip_now w).

Definition in_proc_conv_push (session_id : string) (m : ConvMessage) :
    io InProcWorkingMemory MemError unit :=
  modify (λ w, mkInProc (<[session_id := default [] (ip_conv w !! session_id) ++ [m]]> (ip_conv w))
    (ip_kv w) (ip_now w)).

Definition in_proc_conv_recent (session_id : string) (n : nat) :
    io InProcWorkingMemory MemError (list ConvMessage) :=
  gets (λ w, last_n n (default [] (ip_conv w !! session_id))).

Definition in_proc_kv_set (agent_id key : string) (v : json) (ttl : Z) :
    io InProcWorkingMemory MemError unit :=
  modify (λ w, set_ip_kv
    (<[kv_key agent_id key := (v, if ttl =? 0 then None else Some (ip_now w + ttl))]> (ip_kv w)) w).

Definition in_proc_kv_get (agent_id key : string) :
    io InProcWorkingMemory MemError (option json) := λ w,
  let k := kv_key agent_id key in
  let expired := match ip_kv w !! k with Some (_, Some d) => d <? ip_now w | _ => false end in
  let w := if expired then set_ip_kv (delete k (ip_kv w)) w else w in
  (Ok (fst <$> ip_kv w !! k), w).

Definition in_proc_kv_delete (agent_id key : string) : io InProcWorkingMemory MemError unit :=
  modify (λ w, set_ip_kv (delete (kv_key agent_id key) (ip_kv w)) w).

#[export] Instance in_proc_working_memory : WorkingMemory InProcWorkingMemory := {|
  conv_push := in_proc_conv_push;
  conv_recent := in_proc_conv_recent;
  kv_set := in_proc_kv_set;
  kv_get := in_proc_kv_get;
  kv_delete := in_proc_kv_delete;
  kill_publish := λ _, mret tt;
|}.

#[export] Program Instance in_proc_laws : WorkingMemoryLaws InProcWorkingMemory := {|
  conversation := λ w s, default [] (ip_conv w !! s);
|}.
Next Obligation.
  intros s m w w' [= <-]. simpl. split; [by rewrite lookup_insert_eq|].
  intros s' Hs. by rewrite lookup_insert_ne by done.
Qed.
Next Obligation. intros s n w l w' [= <- <-]. done. Qed.
Next Obligation. done. Qed.

(** A stored value is read back until its deadline has passed, and not after;
    without a deadline it stays. *)
Lemma in_proc_kv_roundtrip a k v ttl w later :
  let w1 := (in_proc_kv_set a k v ttl w).2 in
  let w2 := mkInProc (ip_conv w1) (ip_kv w1) (ip_now w1 + later) in
  (in_proc_kv_get a k w2).1 = Ok (if (ttl =? 0) || (later <=? ttl) then Some v else None).
Proof.
  unfold in_proc_kv_set, modify, in_proc_kv_get, set_ip_kv. simpl. rewrite lookup_insert_eq.
  destruct (Z.eqb_spec ttl 0) as [->|Ht]; simpl; [by rewrite lookup_insert_eq|].
  destruct (Z.leb_spec later ttl), (Z.ltb_spec (ip_now w + ttl) (ip_now w + later)); simpl;
    try lia; by rewrite ?lookup_delete_eq, ?lookup_insert_eq.
Qed.

(** ** Redis *)

(** The commands the client sends, with the text of a refused one; [r_list] is the
    list stored at a key. A list command that succeeds acts on its own key, and the
    others leave lists alone, as long as the server drops no key in between. *)
Class RedisServer (S : Type) := {
  r_list : S → string → list string;
  r_checkout : io S string unit;
  r_rpush : string → string → io S string unit;
  r_expire : string → Z → io S string unit;
  r_llen : string → io S string Z;
  r_lrange : string → Z → io S string (list string);
  r_set_ex : string → string → Z → io S string unit;
  r_get : string → io S string (option string);
  r_del : string → io S string unit;
  r_publish : string → string → io S string unit;
}.

Class RedisLaws (S : Type) `{RedisServer S} := {
  r_checkout_law s k : r_list (r_checkout s).2 k = r_list s k;
  r_rpush_law s k v s' : r_rpush k v s = (Ok tt, s') →
    r_list s' k = r_list s k ++ [v] ∧ ∀ k', k' ≠ k → r_list s' k' = r_list s k';
  r_expire_law s k t k' : r_list (r_expire k t s).2 k' = r_list s k';
  r_llen_law s k n s' : r_llen k s = (Ok n, s') →
    n = Z.of_nat (length (r_list s k)) ∧ ∀ k', r_list s' k' = r_list s k';
  r_lrange_law s k i l s' : 0 ≤ i → r_lrange k i s = (Ok l, s') →
    l = drop (Z.to_nat i) (r_list s k);
  r_del_law s k k' : k' ≠ k → r_list (r_del k s).2 k' = r_list s k';
}.

(** [serde_json] on messages and values. *)
Class ConvCodec := {
  conv_encode : ConvMessage → string;
  conv_decode : string → result string ConvMessage;
  conv_codec m : conv_decode (conv_encode m) = Ok m;
}.

Section Redis.
Context {S : Type} `{RedisLaws S} `{ConvCodec} `{JsonText}.

Definition CONV_KEY_PREFIX : string := "daimon:conv:".
Definition KV_KEY_PREFIX : string := "daimon:kv:".
Definition KILL_CHANNEL : string := "daimon:signal:kill".

Definition redis_conv_key (session_id : string) : string := CONV_KEY_PREFIX +:+ session_id.
Definition redis_kv_key (agent_id key : string) : string :=
  KV_KEY_PREFIX +:+ agent_id +:+ ":" +:+ key.

Definition checkout : io S MemError unit := io_map_err MPool r_checkout.
Definition command {A} (m : io S string A) : io S MemError A := io_map_err MRedis m.

(** [ping], with the [PING] command. *)
Definition ping (cmd : io S string string) : io S MemError unit :=
  checkout ≫= λ _, command cmd ≫= λ pong,
  if string_eqb (to_ascii_lowercase pong) "pong" then mret tt
  else throw (MPool ("unexpected PING reply: " +:+ pong)).

Definition redis_conv_push (session_id : string) (m : ConvMessage) : io S MemError unit :=
  checkout ≫= λ _,
  let key := redis_conv_key session_id in
  command (r_rpush key (conv_encode m)) ≫= λ _, command (r_expire key 86400).

Fixpoint decode_all (raw : list string) : result MemError (list ConvMessage) :=
  match raw with
  | [] => Ok []
  | s :: rest =>
      map_err (λ e, MDecode ("conv decode: " +:+ e)) (conv_decode s) ≫= λ m,
      decode_all rest ≫= λ ms, Ok (m :: ms)
  end.

Definition redis_conv_recent (session_id : string) (n : nat) :
    io S MemError (list ConvMessage) :=
  checkout ≫= λ _,
  let key := redis_conv_key session_id in
  command (r_llen key) ≫= λ len,
  command (r_lrange key (Z.max (len - Z.of_nat n) 0)) ≫= λ raw, lift (decode_all raw).

Definition redis_kv_set (agent_id key : string) (v : json) (ttl : Z) : io S MemError unit :=
  checkout ≫= λ _,
  command (r_set_ex (redis_kv_key agent_id key) (json_to_string v) (Z.max (ttl / 1000) 1)).

Definition redis_kv_get (agent_id key : string) : io S MemError (option json) :=
  checkout ≫= λ _,
  command (r_get (redis_kv_key agent_id key)) ≫= λ raw,
  match raw with
  | Some s => lift (map_err (λ e, MDecode ("kv decode: " +:+ e)) (json_from_str s)) ≫= λ v,
      mret (Some v)
  | None => mret None
  end.

Definition redis_kv_delete (agent_id key : string) : io S MemError unit :=
  checkout ≫= λ _, command (r_del (redis_kv_key agent_id key)).

#[export] Instance redis_working_memory : WorkingMemory S := {|
  conv_push := redis_conv_push;
  conv_recent := redis_conv_recent;
  kv_set := redis_kv_set;
  kv_get := redis_kv_get;
  kv_delete := redis_kv_delete;
  kill_publish := λ reason, checkout ≫= λ _, command (r_publish KILL_CHANNEL reason);
|}.

Lemma decode_all_spec raw ms :
  decode_all raw = Ok ms → Forall2 (λ s m, conv_decode s = Ok m) raw ms.
Proof.
  revert ms. induction raw as [|s raw IH]; intros ms; simpl; [by intros [= <-]|].
  destruct (conv_decode s) as [m|e] eqn:E; simpl; [|done].
  destruct (decode_all raw) as [l|e]; simpl; [|done]. intros [= <-]. auto.
Qed.

(** What the stored texts of a session decode to, skipping none. *)
Definition redis_conversation (s : S) (session_id : string) : list (result string ConvMessage) :=
  conv_decode <$> r_list s (redis_conv_key session_id).

Lemma redis_checkout s r s' k : checkout s = (r, s') → r_list s' k = r_list s k.
Proof.
  unfold checkout, io_map_err. intros E. pose proof (r_checkout_law s k) as Hl.
  destruct (r_checkout s). by simplify_eq/=.
Qed.

(** The Redis transcript of a session grows by exactly the message pushed, other
    sessions are untouched, and a read returns its last [n] messages oldest first. *)
Lemma redis_conv_push_spec s m w w' :
  redis_conv_push s m w = (Ok tt, w') →
  redis_conversation w' s = redis_conversation w s ++ [Ok m] ∧
  ∀ s', s' ≠ s → redis_conversation w' s' = redis_conversation w s'.
Proof.
  unfold redis_conv_push, command. intros Hrun. inv_io.
  apply redis_checkout with (k := redis_conv_key s) in Hrun0 as Hs.
  match goal with Hp : r_rpush _ _ _ = (Ok ?u, ?w1), He : r_expire _ _ _ = (Ok _, _) |- _ =>
    destruct u; pose proof (r_rpush_law _ _ _ _ Hp) as [Hown Hother];
    pose proof (r_expire_law w1 (redis_conv_key s) 86400) as Hex; rewrite He in Hex; simpl in Hex
  end.
  unfold redis_conversation. split.
  - by rewrite Hex, Hown, Hs, fmap_app; simpl; rewrite conv_codec.
  - intros s' Hne. rewrite Hex, Hother.
    + by rewrite (redis_checkout _ _ _ _ Hrun0).
    + unfold redis_conv_key. by intros ?%(inj (String.append _)).
Qed.

Lemma redis_conv_recent_spec s n w l w' :
  redis_conv_recent s n w = (Ok l, w') → Ok <$> l = last_n n (redis_conversation w s).
Proof.
  unfold redis_conv_recent, command. intros Hrun. inv_io.
  apply redis_checkout with (k := redis_conv_key s) in Hrun0 as Hs.
  match goal with Hl : r_llen _ _ = (Ok _, _) |- _ =>
    apply r_llen_law in Hl as [-> Hlen] end.
  match goal with Hl : r_lrange _ _ _ = (Ok _, _) |- _ =>
    apply r_lrange_law in Hl as ->; [|lia] end.
  match goal with Hx : decode_all _ = Ok _ |- _ => apply decode_all_spec in Hx; rename Hx into Hd end.
  unfold redis_conversation, last_n. rewrite length_fmap, <-fmap_drop, Hs in *.
  rewrite Hlen in *. rewrite Hs in *.
  replace (Z.to_nat (Z.max (Z.of_nat (length (r_list w (redis_conv_key s))) - Z.of_nat n) 0))
    with (length (r_list w (redis_conv_key s)) - n)%nat in * by lia.
  clear -Hd. induction Hd as [|? ? ? ? E ? IH]; csimpl; [done|]. by rewrite E, IH.
Qed.

End Redis.
