(* ===== verification/AppDb.v ===== *)
(** * daimon-app: the application tables ([daimon-app/src/db.rs])

    Users, role grants, login sessions, gateway identities, settings, user
    preferences and chat history in Postgres, with the constraints of the
    migrations (V002, V007, V016, V017, V022, V026, V029) and one definition per
    query of [db.rs]. A query is a round trip: before it runs other connections
    may have committed and time has passed; the pool or the server may fail it;
    and the connection may be lost after it took effect. Each of these is given by
    the next entry of [pg_steps], and an exhausted list means a database that
    answers at once. Text is ordered bytewise, as under the C collation. The file
    shows that no query breaks the constraints. *)

From stdpp Require Import sorting.
From S2P Require Import Prelude RustStd Json Core.
From Stdlib Require Import ZArith.

Local Open Scope Z_scope.

(** ** Tables *)

(** A row of [public.users]. *)
Record UserRec := mkUserRec {
  u_username : string;
  u_email : option string;
  u_password_hash : string;
  u_status : string;
  u_last_login_at : option Z;
}.

(** A row of [public.sessions]. *)
Record SessionRow := mkSession { ss_user_id : Uuid; ss_expires_at : Z }.

(** A row of [public.gateway_identities]. *)
Record IdentityRec := mkIdentity {
  gi_channel : string;
  gi_handle : string;
  gi_user_id : Uuid;
  gi_enrolled_at : Z;
  gi_enrolled_by : option Uuid;
}.

(** A row of [public.app_config]. *)
Record ConfigRow := mkConfigRow {
  cf_value : json;
  cf_is_secret : bool;
  cf_updated_at : Z;
  cf_updated_by : option Uuid;
}.

(** Rows of [public.chat_sessions] and [public.chat_turns]; turns are listed in
    the order of their serial id. *)
Record ChatSessionRow := mkChatSession {
  ch_owner_id : Uuid;
  ch_title : string;
  ch_updated_at : Z;
}.

Record ChatTurnRow := mkChatTurn {
  tn_session_id : string;
  tn_role : string;
  tn_content : string;
  tn_tool_use_id : option string;
}.

(** [t_roles] holds each role's slug with its [is_system] flag, and [t_grants]
    the pairs of [public.role_grants]. *)
Record tables := mkTables {
  t_users : gmap Uuid UserRec;
  t_roles : gmap string bool;
  t_grants : gset (Uuid * string);
  t_sessions : gmap string SessionRow;
  t_identities : gmap Uuid IdentityRec;
  t_config : gmap string ConfigRow;
  t_prefs : gmap (Uuid * string) string;
  t_chats : gmap string ChatSessionRow;
  t_turns : list ChatTurnRow;
}.

Definition set_users x t := mkTables x (t_roles t) (t_grants t) (t_sessions t)
  (t_identities t) (t_config t) (t_prefs t) (t_chats t) (t_turns t).
Definition set_grants x t := mkTables (t_users t) (t_roles t) x (t_sessions t)
  (t_identities t) (t_config t) (t_prefs t) (t_chats t) (t_turns t).
Definition set_sessions x t := mkTables (t_users t) (t_roles t) (t_grants t) x
  (t_identities t) (t_config t) (t_prefs t) (t_chats t) (t_turns t).
Definition set_identities x t := mkTables (t_users t) (t_roles t) (t_grants t)
  (t_sessions t) x (t_config t) (t_prefs t) (t_chats t) (t_turns t).
Definition set_app_config x t := mkTables (t_users t) (t_roles t) (t_grants t)
  (t_sessions t) (t_identities t) x (t_prefs t) (t_chats t) (t_turns t).
Definition set_prefs x t := mkTables (t_users t) (t_roles t) (t_grants t)
  (t_sessions t) (t_identities t) (t_config t) x (t_chats t) (t_turns t).
Definition set_chats x y t := mkTables (t_users t) (t_roles t) (t_grants t)
  (t_sessions t) (t_identities t) (t_config t) (t_prefs t) x y.

(** The [CHECK] of [public.users]. *)
Definition user_statuses : list string := ["active"; "disabled"; "locked"].

(** The constraints of the schema: [UNIQUE], [CHECK] and the foreign keys. *)
Record tables_ok (t : tables) : Prop := {
  ok_usernames : ∀ i j u v, t_users t !! i = Some u → t_users t !! j = Some v →
    u_username u = u_username v → i = j;
  ok_statuses : ∀ i u, t_users t !! i = Some u → u_status u ∈ user_statuses;
  ok_grant_user : ∀ i s, (i, s) ∈ t_grants t → is_Some (t_users t !! i);
  ok_grant_role : ∀ i s, (i, s) ∈ t_grants t → is_Some (t_roles t !! s);
  ok_session_user : ∀ k s, t_sessions t !! k = Some s →
    is_Some (t_users t !! ss_user_id s);
  ok_identity_user : ∀ k g, t_identities t !! k = Some g →
    is_Some (t_users t !! gi_user_id g);
  ok_handles : ∀ i j g h, t_identities t !! i = Some g → t_identities t !! j = Some h →
    gi_channel g = gi_channel h → gi_handle g = gi_handle h → i = j;
  ok_pref_user : ∀ i k v, t_prefs t !! (i, k) = Some v → is_Some (t_users t !! i);
  ok_config_user : ∀ k c i, t_config t !! k = Some c → cf_updated_by c = Some i →
    is_Some (t_users t !! i);
  ok_chat_owner : ∀ k c, t_chats t !! k = Some c → is_Some (t_users t !! ch_owner_id c);
  ok_turn_session : ∀ n, n ∈ t_turns t → is_Some (t_chats t !! tn_session_id n);
}.

(** ** Round trips *)

Inductive outcome :=
| Answered
| Failed (e : string)   (** nothing was done *)
| Lost (e : string).    (** the server did it, the caller sees an error *)

Record dbstep := mkDbStep {
  ds_elapsed : N;
  ds_others : tables → tables;
  ds_outcome : outcome;
}.

Definition quiet_db : dbstep := mkDbStep 0 id Answered.

(** The database as this process sees it. [pg_uuids] is what [gen_random_uuid()]
    will return. *)
Record pg := mkPg {
  pg_tables : tables;
  pg_steps : list dbstep;
  pg_now : Z;
  pg_uuids : nat → Uuid;
  pg_drawn : nat;
}.

Abbreviation dio := (io pg string).

Definition set_tables t (w : pg) : pg :=
  mkPg t (pg_steps w) (pg_now w) (pg_uuids w) (pg_drawn w).

(** What happens until the server runs the next statement. *)
Definition arrive (w : pg) : outcome * pg :=
  let s := default quiet_db (head (pg_steps w)) in
  (ds_outcome s, mkPg (ds_others s (pg_tables w)) (tail (pg_steps w))
     (pg_now w + Z.of_N (ds_elapsed s)) (pg_uuids w) (pg_drawn w)).

#[global] Arguments arrive : simpl never.

(** The message with which the server refuses a statement, by the constraint it
    would break or the condition it raises. *)
Class PgMessages := { violation : string → string }.

Section Db.
Context `{PgMessages}.

(** One statement: its effect on the tables, or the constraint it would break. *)
Definition sql {A} (f : Z → tables → result string (A * tables)) : dio A := λ w,
  let '(o, w) := arrive w in
  match o, f (pg_now w) (pg_tables w) with
  | Failed e, _ => (Err e, w)
  | Lost e, Ok (_, t) => (Err e, set_tables t w)
  | Lost e, Err _ => (Err e, w)
  | Answered, Ok (a, t) => (Ok a, set_tables t w)
  | Answered, Err c => (Err (violation c), w)
  end.

Definition select {A} (f : Z → tables → A) : dio A := sql (λ now t, Ok (f now t, t)).

Definition execute_sql (f : Z → tables → tables) : dio unit :=
  sql (λ now t, Ok (tt, f now t)).

(** [gen_random_uuid()]. *)
Definition gen_random_uuid : dio Uuid := λ w,
  (Ok (pg_uuids w (pg_drawn w)),
   mkPg (pg_tables w) (pg_steps w) (pg_now w) (pg_uuids w) (S (pg_drawn w))).

(** [pool.get().await] is a round trip of its own. *)
Definition pool_get : dio unit := select (λ _ _, tt).

(** [anyhow]'s [.context(c)], whose [Display] is the outermost text. *)
Definition context {A} (c : string) (m : dio A) : dio A := io_map_err (λ _, c) m.

Definition client : dio unit := context "pg client" pool_get.

(** ** Users *)

(** [UserRow]. *)
Record UserRow := mkUserRow {
  ur_id : Uuid;
  ur_username : string;
  ur_password_hash : string;
  ur_status : string;
  ur_roles : list string;
}.

(** The subquery [SELECT r.slug .. ORDER BY r.is_system DESC, r.slug]. *)
Definition granted (t : tables) (id : Uuid) (system : bool) : list string :=
  merge_sort String.le
    (filter (λ s, (id, s) ∈ t_grants t ∧ t_roles t !! s = Some system)
       (map_to_list (t_roles t)).*1).

Definition roles_of (t : tables) (id : Uuid) : list string :=
  granted t id true ++ granted t id false.

Definition users_named (t : tables) (username : string) : list (Uuid * UserRec) :=
  filter (λ p, u_username p.2 = username) (map_to_list (t_users t)).

Definition select_user (username : string) (t : tables) : option UserRow :=
  (λ '(id, u), mkUserRow id (u_username u) (u_password_hash u) (u_status u) (roles_of t id))
    <$> head (users_named t username).

(** [find_user]. *)
Definition find_user (username : string) : dio (option UserRow) :=
  client ≫= λ _, context "find_user" (select (λ _, select_user username)).

(** The [INSERT] of [create_user]. *)
Definition insert_user (id : Uuid) (username password_hash : string) (t : tables) :
    result string (Uuid * tables) :=
  if bool_decide (is_Some (t_users t !! id)) then Err "users_pkey"
  else if bool_decide (users_named t username = []) then
    Ok (id, set_users (<[id := mkUserRec username None password_hash "active" None]> (t_users t)) t)
  else Err "users_username_idx".

(** [INSERT INTO role_grants SELECT $1, id FROM roles WHERE slug = $2 ON CONFLICT
    DO NOTHING]. *)
Definition insert_grant (id : Uuid) (slug : string) (t : tables) : result string (unit * tables) :=
  if bool_decide (t_roles t !! slug = None) then Ok (tt, t)
  else if bool_decide (t_users t !! id = None) then Err "role_grants_user_id_fkey"
  else Ok (tt, set_grants ({[ (id, slug) ]} ∪ t_grants t) t).

Fixpoint grant_all (id : Uuid) (username : string) (roles : list string) : dio unit :=
  match roles with
  | [] => mret tt
  | slug :: rest =>
      context ("grant " +:+ slug +:+ " to " +:+ username) (sql (λ _, insert_grant id slug))
        ≫= λ _, grant_all id username rest
  end.

(** [create_user]. *)
Definition db_create_user (username password_hash : string) (roles : list string) : dio Uuid :=
  client ≫= λ _,
  gen_random_uuid ≫= λ id,
  context ("create user " +:+ username) (sql (λ _, insert_user id username password_hash))
    ≫= λ id,
  grant_all id username roles ≫= λ _, mret id.

(** [UserListRow]; times are kept as numbers. *)
Record UserListRow := mkUserListRow {
  ul_id : Uuid;
  ul_username : string;
  ul_email : option string;
  ul_status : string;
  ul_roles : list string;
  ul_last_login_at : option Z;
}.

Definition username_le (x y : Uuid * UserRec) : Prop :=
  String.le (u_username x.2) (u_username y.2).

#[export] Instance username_le_dec : RelDecision username_le.
Proof. intros x y. unfold username_le. apply _. Defined.

(** [list_users]. *)
Definition db_list_users : dio (list UserListRow) :=
  client ≫= λ _, context "list_users" (select (λ _ t,
    (λ '(id, u), mkUserListRow id (u_username u) (u_email u) (u_status u) (roles_of t id)
       (u_last_login_at u)) <$> merge_sort username_le (map_to_list (t_users t)))).

Definition with_status (status : string) (u : UserRec) : UserRec :=
  mkUserRec (u_username u) (u_email u) (u_password_hash u) status (u_last_login_at u).

(** The statements of [set_user_status]'s transaction. The [UPDATE] locks the row,
    if there is one, and is refused when the status is not one of the schema's; the
    [DELETE] finds the session rows its snapshot shows; both take effect at the
    commit. *)
Definition update_status (id : Uuid) (status : string) (t : tables) :
    result string (bool * tables) :=
  if bool_decide (t_users t !! id = None) then Ok (false, t)
  else if bool_decide (status ∈ user_statuses) then Ok (true, t)
  else Err "users_status_check".

Definition sessions_of (id : Uuid) (t : tables) : gset string :=
  dom (filter (λ p, ss_user_id p.2 = id) (t_sessions t)).

Definition commit_status (id : Uuid) (status : string) (locked : bool) (victims : gset string)
    (t : tables) : tables :=
  set_sessions (filter (λ p, p.1 ∉ victims) (t_sessions t))
    (set_users (if locked then alter (with_status status) id (t_users t) else t_users t) t).

(** [set_user_status]. *)
Definition db_set_user_status (id : Uuid) (status : string) : dio unit :=
  client ≫= λ _,
  context "begin tx" (select (λ _ _, tt)) ≫= λ _,
  context "update status" (sql (λ _, update_status id status)) ≫= λ locked,
  context "revoke sessions" (select (λ _, sessions_of id)) ≫= λ victims,
  context "commit set_user_status"
    (execute_sql (λ _, commit_status id status locked victims)).

(** [assign_role]. *)
Definition db_assign_role (id : Uuid) (slug : string) : dio unit :=
  client ≫= λ _, context ("assign_role " +:+ slug) (sql (λ _, insert_grant id slug)).

(** [revoke_role]. *)
Definition db_revoke_role (id : Uuid) (slug : string) : dio unit :=
  client ≫= λ _, context ("revoke_role " +:+ slug)
    (execute_sql (λ _ t, set_grants (t_grants t ∖ {[ (id, slug) ]}) t)).

(** Holders of the [admin] role whose account is active. *)
Definition enabled_admins (t : tables) : gmap Uuid UserRec :=
  filter (λ p, (p.1, "admin") ∈ t_grants t ∧ u_status p.2 = "active") (t_users t).

(** [enabled_admin_count_excluding]. *)
Definition enabled_admin_count_excluding (id : Uuid) : dio Z :=
  client ≫= λ _, context "enabled_admin_count_excluding"
    (select (λ _ t, Z.of_nat (size (delete id (enabled_admins t))))).

(** [user_id_for_actor]: any failure is [None]. *)
Definition user_id_for_actor (actor_id : string) (w : pg) : option Uuid * pg :=
  let username := default actor_id (strip_prefix "user:" actor_id) in
  let '(r, w) := (pool_get ≫= λ _, select (λ _ t, fst <$> head (users_named t username))) w in
  (ok r ≫= id, w).

(** ** Gateway identities *)

(** [GatewayIdentityRow]. *)
Record GatewayIdentityRow := mkGwRow {
  gr_id : Uuid;
  gr_channel : string;
  gr_handle : string;
  gr_user_id : Uuid;
  gr_username : string;
  gr_enrolled_at : Z;
}.

Definition insert_identity (id : Uuid) (g : IdentityRec) (t : tables) :
    result string (Uuid * tables) :=
  if bool_decide (is_Some (t_identities t !! id)) then Err "gateway_identities_pkey"
  else if bool_decide (map_Exists (λ _ h, gi_channel h = gi_channel g ∧
       gi_handle h = gi_handle g) (t_identities t))
  then Err "gateway_identities_channel_platform_handle_key"
  else if bool_decide (t_users t !! gi_user_id g = None)
  then Err "gateway_identities_user_id_fkey"
  else if from_option (λ i, bool_decide (t_users t !! i = None)) false (gi_enrolled_by g)
  then Err "gateway_identities_enrolled_by_fkey"
  else Ok (id, set_identities (<[id := g]> (t_identities t)) t).

(** [create_gateway_identity]. *)
Definition create_gateway_identity (channel handle : string) (user_id : Uuid)
    (enrolled_by : option Uuid) : dio Uuid :=
  client ≫= λ _,
  gen_random_uuid ≫= λ id,
  context "create_gateway_identity"
    (sql (λ now, insert_identity id (mkIdentity channel handle user_id now enrolled_by))).

Definition newest_first (x y : GatewayIdentityRow) : Prop := gr_enrolled_at y ≤ gr_enrolled_at x.

#[export] Instance newest_first_dec : RelDecision newest_first.
Proof. intros x y. unfold newest_first. apply _. Defined.

(** [list_gateway_identities]. *)
Definition list_gateway_identities : dio (list GatewayIdentityRow) :=
  client ≫= λ _, context "list_gateway_identities" (select (λ _ t,
    merge_sort newest_first
      (omap (λ '(id, g), (λ u, mkGwRow id (gi_channel g) (gi_handle g) (gi_user_id g)
          (u_username u) (gi_enrolled_at g)) <$> t_users t !! gi_user_id g)
        (map_to_list (t_identities t))))).

(** [delete_gateway_identity]. *)
Definition delete_gateway_identity (id : Uuid) : dio unit :=
  client ≫= λ _, context "delete_gateway_identity"
    (execute_sql (λ _ t, set_identities (delete id (t_identities t)) t)).

(** ** Sessions *)

(** [insert_session]. *)
Definition insert_session (id : string) (user_id : Uuid) (expires_at : Z) : dio unit :=
  client ≫= λ _, context ("insert session " +:+ id) (sql (λ _ t,
    if bool_decide (is_Some (t_sessions t !! id)) then Err "sessions_pkey"
    else if bool_decide (t_users t !! user_id = None) then Err "sessions_user_id_fkey"
    else Ok (tt, set_sessions (<[id := mkSession user_id expires_at]> (t_sessions t)) t))).

Definition live_session (now : Z) (id : string) (t : tables) : option Uuid :=
  t_sessions t !! id ≫= λ s, if now <? ss_expires_at s then Some (ss_user_id s) else None.

(** [find_valid_session]. *)
Definition find_valid_session (id : string) : dio (option Uuid) :=
  client ≫= λ _, context "find_valid_session" (select (λ now, live_session now id)).

(** [delete_session]. *)
Definition delete_session (id : string) : dio unit :=
  client ≫= λ _, context ("delete session " +:+ id)
    (execute_sql (λ _ t, set_sessions (delete id (t_sessions t)) t)).

(** ** Settings and preferences *)

Definition config_value (key : string) (t : tables) : option json := cf_value <$> t_config t !! key.

(** [get_config]. *)
Definition get_config (key : string) : dio (option string) :=
  client ≫= λ _, context "get_config" (select (λ _ t, config_value key t ≫= as_str)).

(** [get_config_json]. *)
Definition get_config_json (key : string) : dio (option json) :=
  client ≫= λ _, context "get_config_json" (select (λ _, config_value key)).

(** [set_config]: an existing row keeps its flag and its author. *)
Definition upsert_config (key : string) (v : json) (now : Z) (t : tables) : tables :=
  let row := match t_config t !! key with
    | Some c => mkConfigRow v (cf_is_secret c) now (cf_updated_by c)
    | None => mkConfigRow v false now None
    end in
  set_app_config (<[key := row]> (t_config t)) t.

Definition set_config (key value : string) : dio unit :=
  client ≫= λ _, context "set_config" (execute_sql (upsert_config key (JString value))).

(** [get_preference]. *)
Definition get_preference (user_id : Uuid) (key : string) : dio (option string) :=
  client ≫= λ _, context "get_preference" (select (λ _ t, t_prefs t !! (user_id, key))).

(** [set_preference]. *)
Definition set_preference (user_id : Uuid) (key value : string) : dio unit :=
  client ≫= λ _, context ("set_preference " +:+ key) (sql (λ _ t,
    if bool_decide (t_users t !! user_id = None) then Err "user_preferences_user_id_fkey"
    else Ok (tt, set_prefs (<[(user_id, key) := value]> (t_prefs t)) t))).

(** ** Chat history *)

(** The upsert of [append_chat_turn]: it returns whether a row came back. *)
Definition upsert_chat (id : string) (owner : Uuid) (title : string) (now : Z) (t : tables) :
    result string (bool * tables) :=
  match t_chats t !! id with
  | Some c =>
      if bool_decide (ch_owner_id c = owner)
      then Ok (true, set_chats (<[id := mkChatSession owner (ch_title c) now]> (t_chats t))
                       (t_turns t) t)
      else Ok (false, t)
  | None =>
      if bool_decide (t_users t !! owner = None) then Err "chat_sessions_owner_id_fkey"
      else Ok (true, set_chats (<[id := mkChatSession owner title now]> (t_chats t))
                       (t_turns t) t)
  end.

Definition insert_turn (n : ChatTurnRow) (t : tables) : result string (unit * tables) :=
  if bool_decide (t_chats t !! tn_session_id n = None) then Err "chat_turns_session_id_fkey"
  else Ok (tt, set_chats (t_chats t) (t_turns t ++ [n]) t).

(** [append_chat_turn]. *)
Definition append_chat_turn (session_id : string) (owner_id : Uuid) (role content : string)
    (tool_use_id : option string) : dio unit :=
  client ≫= λ _,
  let title := if string_eqb role "user" then chars_take 60 content else "" in
  context "upsert chat_session" (sql (upsert_chat session_id owner_id title)) ≫= λ owned,
  if negb owned then mret tt
  else context "insert chat_turn"
         (sql (λ _, insert_turn (mkChatTurn session_id role content tool_use_id))).

(** [DELETE FROM chat_sessions] for the rows that match, with the cascade to their
    turns. *)
Definition delete_chats (p : string → ChatSessionRow → bool) (t : tables) : tables :=
  let kept := filter (λ q, p q.1 q.2 = false) (t_chats t) in
  set_chats kept (filter (λ n, is_Some (kept !! tn_session_id n)) (t_turns t)) t.

Definition DAY_MS : Z := 86400000.
Definition i32_max : Z := 2^31 - 1.

(** The first timestamp Postgres can represent, Julian day 0, from the Unix epoch. *)
Definition TIMESTAMP_MIN : Z := - (2440588 * DAY_MS).

(** [prune_chat_history]; it returns the number of sessions removed. *)
Definition prune_chat_history (retention_days : Z) : dio Z :=
  if retention_days =? 0 then mret 0
  else
    client ≫= λ _,
    let days := Z.min retention_days i32_max in
    context "prune chat history" (sql (λ now t,
      if now - days * DAY_MS <? TIMESTAMP_MIN then Err "datetime_field_overflow" else
      let t' := delete_chats (λ _ c, ch_updated_at c <? now - days * DAY_MS) t in
      Ok (Z.of_nat (size (t_chats t) - size (t_chats t')), t'))).

(** ** The constraints hold *)

(** A statement that leaves the tables as the schema wants them. *)
Definition stmt_ok {A} (f : Z → tables → result string (A * tables)) : Prop :=
  ∀ now t a t', tables_ok t → f now t = Ok (a, t') → tables_ok t'.

(** Other connections are subject to the same schema. *)
Definition lawful (s : dbstep) : Prop := ∀ t, tables_ok t → tables_ok (ds_others s t).

Definition db_ok (w : pg) : Prop := tables_ok (pg_tables w) ∧ Forall lawful (pg_steps w).

Lemma arrive_ok w : db_ok w → db_ok (arrive w).2.
Proof.
  intros [Ht Hs]. unfold arrive. destruct (pg_steps w) as [|s l]; simpl; [done|].
  inv Hs. split; simpl; auto.
Qed.

Lemma sql_ok {A} (f : Z → tables → result string (A * tables)) :
  stmt_ok f → preserves db_ok (sql f).
Proof.
  intros Hf w Hw%arrive_ok. unfold sql. destruct (arrive w) as [o w1]. simpl in Hw.
  pose proof (Hf (pg_now w1) (pg_tables w1)) as Hf1. destruct Hw as [Ht Hs].
  destruct o, (f _ _) as [[a t]|c]; simpl; split; simpl; eauto.
Qed.

Lemma sql_value {A} (f : Z → tables → result string (A * tables)) w a w' :
  sql f w = (Ok a, w') → ∃ now t t', f now t = Ok (a, t').
Proof.
  unfold sql. destruct (arrive w) as [o w1].
  destruct o, (f (pg_now w1) (pg_tables w1)) as [[x t]|c] eqn:E; intros; simplify_eq; eauto.
Qed.

Lemma select_ok {A} (f : Z → tables → A) : preserves db_ok (select f).
Proof. apply sql_ok. intros ?????; naive_solver. Qed.

Lemma execute_sql_ok f : (∀ now t, tables_ok t → tables_ok (f now t)) →
  preserves db_ok (execute_sql f).
Proof. intros Hf. apply sql_ok. intros now t a t' Ht ?; simplify_eq. by apply Hf. Qed.

Lemma context_ok {A} c (m : dio A) : preserves db_ok m → preserves db_ok (context c m).
Proof.
  intros Hm w Hw. unfold context, io_map_err. specialize (Hm w Hw). by destruct (m w).
Qed.

Lemma client_ok : preserves db_ok client.
Proof. apply context_ok, select_ok. Qed.

Lemma client_then_ok {A} c (m : dio A) :
  preserves db_ok m → preserves db_ok (client ≫= λ _, context c m).
Proof. intros Hm. apply preserves_bind; [apply client_ok|]. intros _. by apply context_ok. Qed.

Lemma uuid_then_ok {A} (k : Uuid → dio A) :
  (∀ i, preserves db_ok (k i)) → preserves db_ok (gen_random_uuid ≫= k).
Proof. intros Hk. apply preserves_bind; [by intros w|done]. Qed.

Lemma users_named_spec t n i u :
  (i, u) ∈ users_named t n ↔ t_users t !! i = Some u ∧ u_username u = n.
Proof. unfold users_named. rewrite list_elem_of_filter, elem_of_map_to_list. naive_solver. Qed.

Lemma users_named_nil t n :
  users_named t n = [] → ∀ i u, t_users t !! i = Some u → u_username u ≠ n.
Proof.
  intros Hn i u Hu Hc. assert ((i, u) ∈ users_named t n) by by apply users_named_spec.
  rewrite Hn in *. set_solver.
Qed.

(** A change of the users that keeps every id keeps the references to them. *)
Lemma set_users_ok m t :
  tables_ok t →
  (∀ i, is_Some (t_users t !! i) → is_Some (m !! i)) →
  (∀ i j u v, m !! i = Some u → m !! j = Some v → u_username u = u_username v → i = j) →
  (∀ i u, m !! i = Some u → u_status u ∈ user_statuses) →
  tables_ok (set_users m t).
Proof. intros [] Hm Hn Hs. split; simpl; eauto. Qed.

Lemma insert_user_ok i n h : stmt_ok (λ _, insert_user i n h).
Proof.
  intros _ t a t' Ht. unfold insert_user. case_bool_decide as Hi; [done|].
  case_bool_decide as Hn; [|done]. intros ?; simplify_eq.
  pose proof (users_named_nil _ _ Hn) as Hnew.
  apply set_users_ok; [done| | |].
  - intros j. rewrite lookup_insert_is_Some'. auto.
  - intros x y u v. rewrite !lookup_insert_Some.
    intros [[<- <-]|[??]] [[<- <-]|[??]] Heq; simpl in *; [done| | |].
    + by edestruct Hnew.
    + by edestruct Hnew.
    + by eapply ok_usernames.
  - intros x u. rewrite lookup_insert_Some. intros [[<- <-]|[??]].
    + simpl. unfold user_statuses. set_solver.
    + by eapply ok_statuses.
Qed.

Lemma insert_grant_ok i s : stmt_ok (λ _, insert_grant i s).
Proof.
  intros _ t [] t' Ht. unfold insert_grant. case_bool_decide as Hr; [naive_solver|].
  case_bool_decide as Hi; [done|]. intros ?; simplify_eq.
  destruct Ht. split; simpl; eauto; intros j r; rewrite elem_of_union, elem_of_singleton.
  - intros [?|?]; simplify_eq; eauto. by apply not_eq_None_Some.
  - intros [?|?]; simplify_eq; eauto. by apply not_eq_None_Some.
Qed.

Lemma grant_all_ok i n l : preserves db_ok (grant_all i n l).
Proof.
  induction l as [|s l IH]; simpl; [by intros w|].
  apply preserves_bind; [|done]. apply context_ok, sql_ok, insert_grant_ok.
Qed.

Lemma db_create_user_ok n h l : preserves db_ok (db_create_user n h l).
Proof.
  apply preserves_bind; [apply client_ok|]. intros _. apply uuid_then_ok. intros i.
  apply preserves_bind; [apply context_ok, sql_ok, insert_user_ok|]. intros j.
  apply preserves_bind; [apply grant_all_ok|]. by intros _ w.
Qed.

Lemma sessions_subset_ok m t :
  tables_ok t → m ⊆ t_sessions t → tables_ok (set_sessions m t).
Proof. intros [] Hm. split; simpl; eauto. intros k s Hk. eauto using lookup_weaken. Qed.

Lemma commit_status_ok i st locked vs t :
  tables_ok t → (locked = true → st ∈ user_statuses) →
  tables_ok (commit_status i st locked vs t).
Proof.
  intros Ht Hl. unfold commit_status. apply sessions_subset_ok.
  - apply set_users_ok; [done| | |].
    + intros j. destruct locked; [|done]. by rewrite lookup_alter_is_Some.
    + intros x y u v Hx Hy Heq.
      assert (∀ z w, (if locked then alter (with_status st) i (t_users t) else t_users t) !! z
        = Some w → ∃ w', t_users t !! z = Some w' ∧ u_username w' = u_username w) as Hold.
      { intros z w Hz. destruct locked; [|eauto].
        apply lookup_alter_Some in Hz as [(-> & w' & ? & ->)|[??]]; eauto. }
      destruct (Hold _ _ Hx) as (u' & ? & ?), (Hold _ _ Hy) as (v' & ? & ?).
      eapply ok_usernames; eauto. congruence.
    + intros x u Hx. destruct locked; [|by eapply ok_statuses].
      apply lookup_alter_Some in Hx as [(-> & w' & ? & ->)|[??]];
        [by apply Hl|by eapply ok_statuses].
  - simpl. apply map_filter_subseteq.
Qed.

Lemma update_status_ok i st : stmt_ok (λ _, update_status i st).
Proof.
  intros _ t b t' Ht. unfold update_status.
  repeat case_bool_decide; naive_solver.
Qed.

Lemma db_set_user_status_ok i st : preserves db_ok (db_set_user_status i st).
Proof.
  apply preserves_bind; [apply client_ok|]. intros _.
  apply preserves_bind; [apply context_ok, select_ok|]. intros _ w Hw.
  pose proof (context_ok "update status" _ (sql_ok _ (update_status_ok i st)) w Hw) as Hu.
  unfold mbind, io_bind. destruct (context "update status" _ w) as [[locked|e] w1] eqn:E;
    [|done]. simpl in Hu.
  assert (locked = true → st ∈ user_statuses) as Hst.
  { unfold context in E. inv_io. apply sql_value in Heqp as (?&?&?&Hv).
    unfold update_status in Hv. repeat case_bool_decide; naive_solver. }
  apply (preserves_bind db_ok (context "revoke sessions" _)); [|intros vs|done].
  - apply context_ok, select_ok.
  - apply context_ok, execute_sql_ok. intros. by apply commit_status_ok.
Qed.

Lemma insert_identity_ok i c h u by_ :
  stmt_ok (λ now, insert_identity i (mkIdentity c h u now by_)).
Proof.
  intros now t a t' Ht. unfold insert_identity. case_bool_decide as Hi; [done|].
  case_bool_decide as Hh; [done|]. case_bool_decide as Hu; [done|].
  case_match; [done|]. intros ?; simplify_eq. simpl in *.
  assert (∀ k g, t_identities t !! k = Some g → ¬ (gi_channel g = c ∧ gi_handle g = h)) as Hne.
  { intros k g Hk Hc. apply Hh. exists k, g. done. }
  destruct Ht. split; simpl; eauto.
  - intros k g. rewrite lookup_insert_Some. intros [[<- <-]|[??]]; simpl; eauto.
    by apply not_eq_None_Some.
  - intros x y g k. rewrite !lookup_insert_Some.
    intros [[<- <-]|[??]] [[<- <-]|[??]] ??; simpl in *; eauto; exfalso; eapply Hne; eauto.
Qed.

Lemma insert_session_ok k u e : preserves db_ok (insert_session k u e).
Proof.
  apply client_then_ok, sql_ok. intros _ t a t' Ht.
  case_bool_decide; [done|]. case_bool_decide as Hu; [done|]. intros ?; simplify_eq.
  destruct Ht. split; simpl; eauto. intros x s. rewrite lookup_insert_Some.
  intros [[<- <-]|[??]]; simpl; eauto. by apply not_eq_None_Some.
Qed.

Lemma upsert_config_ok k v now t : tables_ok t → tables_ok (upsert_config k v now t).
Proof.
  intros Ht. destruct Ht. unfold upsert_config.
  split; simpl; eauto. intros x c i. rewrite lookup_insert_Some.
  intros [[<- <-]|[??]]; [|eauto]. case_match; simpl; [eauto|done].
Qed.

Lemma set_preference_ok i k v : preserves db_ok (set_preference i k v).
Proof.
  apply client_then_ok, sql_ok. intros _ t a t' Ht.
  case_bool_decide as Hu; [done|]. intros ?; simplify_eq.
  destruct Ht. split; simpl; eauto. intros j x w. rewrite lookup_insert_Some.
  intros [[? <-]|[??]]; simplify_eq; eauto. by apply not_eq_None_Some.
Qed.

(** Chat sessions may be changed as long as their owners exist and no turn loses
    its session. *)
Lemma set_chats_ok m l t :
  tables_ok t → (∀ k c, m !! k = Some c → is_Some (t_users t !! ch_owner_id c)) →
  (∀ n, n ∈ l → is_Some (m !! tn_session_id n)) → tables_ok (set_chats m l t).
Proof. intros [] ??. split; simpl; eauto. Qed.

Lemma upsert_chat_ok k o title : stmt_ok (upsert_chat k o title).
Proof.
  intros now t b t' Ht. unfold upsert_chat.
  assert (∀ c, is_Some (t_users t !! ch_owner_id c) →
    tables_ok (set_chats (<[k:=c]> (t_chats t)) (t_turns t) t)) as Hset.
  { intros c Hc. apply set_chats_ok; [done| |].
    - intros x d. rewrite lookup_insert_Some. intros [[<- <-]|[??]]; [done|].
      by eapply ok_chat_owner.
    - intros n Hn%(ok_turn_session _ Ht). rewrite lookup_insert_is_Some'. auto. }
  destruct (t_chats t !! k) as [c|] eqn:Hk; case_bool_decide as Hd; intros ?; simplify_eq;
    auto; apply Hset; simpl.
  - by eapply (ok_chat_owner _ Ht).
  - by apply not_eq_None_Some.
Qed.

Lemma insert_turn_ok n : stmt_ok (λ _, insert_turn n).
Proof.
  intros _ t a t' Ht. unfold insert_turn. case_bool_decide as Hc; [done|].
  intros ?; simplify_eq. apply set_chats_ok; [done|by apply ok_chat_owner|].
  intros x. rewrite elem_of_app, list_elem_of_singleton. intros [?| ->].
  - by eapply ok_turn_session.
  - by apply not_eq_None_Some.
Qed.

Lemma append_chat_turn_ok k o r c u : preserves db_ok (append_chat_turn k o r c u).
Proof.
  apply preserves_bind; [apply client_ok|]. intros _.
  apply preserves_bind; [apply context_ok, sql_ok, upsert_chat_ok|]. intros [].
  - apply context_ok, sql_ok, insert_turn_ok.
  - by intros w.
Qed.

Lemma delete_chats_ok p t : tables_ok t → tables_ok (delete_chats p t).
Proof.
  intros Ht. unfold delete_chats. apply set_chats_ok; [done| |].
  - intros k c [Hk _]%map_lookup_filter_Some. by eapply ok_chat_owner.
  - intros n [Hn _]%list_elem_of_filter. done.
Qed.

Lemma prune_chat_history_ok d : preserves db_ok (prune_chat_history d).
Proof.
  unfold prune_chat_history. destruct (d =? 0); [by intros w|].
  apply client_then_ok, sql_ok. intros now t n t' Ht. case_match; [done|].
  intros ?; simplify_eq. by apply delete_chats_ok.
Qed.

(** ** Every query *)

(** The queries of [db.rs] with their arguments. *)
Inductive db_query :=
| CFindUser (username : string)
| CCreateUser (username hash : string) (roles : list string)
| CListUsers
| CSetUserStatus (id : Uuid) (status : string)
| CAssignRole (id : Uuid) (slug : string)
| CRevokeRole (id : Uuid) (slug : string)
| CCountAdmins (id : Uuid)
| CCreateIdentity (channel handle : string) (user : Uuid) (enrolled_by : option Uuid)
| CListIdentities
| CDeleteIdentity (id : Uuid)
| CInsertSession (id : string) (user : Uuid) (expires_at : Z)
| CFindSession (id : string)
| CDeleteSession (id : string)
| CGetConfig (key : string)
| CGetConfigJson (key : string)
| CSetConfig (key value : string)
| CGetPreference (user : Uuid) (key : string)
| CSetPreference (user : Uuid) (key value : string)
| CAppendTurn (session : string) (owner : Uuid) (role content : string) (tool : option string)
| CPrune (retention_days : Z).

Definition no_result {A} (m : dio A) : dio unit := m ≫= λ _, mret tt.

Definition run_db (c : db_query) : dio unit :=
  match c with
  | CFindUser n => no_result (find_user n)
  | CCreateUser n h l => no_result (db_create_user n h l)
  | CListUsers => no_result db_list_users
  | CSetUserStatus i s => db_set_user_status i s
  | CAssignRole i s => db_assign_role i s
  | CRevokeRole i s => db_revoke_role i s
  | CCountAdmins i => no_result (enabled_admin_count_excluding i)
  | CCreateIdentity c h u b => no_result (create_gateway_identity c h u b)
  | CListIdentities => no_result list_gateway_identities
  | CDeleteIdentity i => delete_gateway_identity i
  | CInsertSession k u e => insert_session k u e
  | CFindSession k => no_result (find_valid_session k)
  | CDeleteSession k => delete_session k
  | CGetConfig k => no_result (get_config k)
  | CGetConfigJson k => no_result (get_config_json k)
  | CSetConfig k v => set_config k v
  | CGetPreference u k => no_result (get_preference u k)
  | CSetPreference u k v => set_preference u k v
  | CAppendTurn s o r c t => append_chat_turn s o r c t
  | CPrune d => no_result (prune_chat_history d)
  end.

Lemma no_result_ok {A} (m : dio A) : preserves db_ok m → preserves db_ok (no_result m).
Proof. intros. apply preserves_bind; [done|]. by intros _ w. Qed.

#[local] Hint Resolve select_ok client_then_ok no_result_ok db_create_user_ok
  db_set_user_status_ok insert_session_ok set_preference_ok append_chat_turn_ok
  prune_chat_history_ok : daimon.

Lemma run_db_ok c : preserves db_ok (run_db c).
Proof.
  destruct c; simpl;
    try first [by auto with daimon|by apply no_result_ok, client_then_ok, select_ok].
  - apply client_then_ok, sql_ok, insert_grant_ok.
  - apply client_then_ok, execute_sql_ok. intros _ t Ht. destruct Ht.
    split; simpl; eauto; set_solver.
  - apply no_result_ok, preserves_bind; [apply client_ok|]. intros _.
    apply uuid_then_ok. intros j. apply context_ok, sql_ok, insert_identity_ok.
  - apply client_then_ok, execute_sql_ok. intros _ t Ht. destruct Ht.
    split; simpl; eauto; intros *; rewrite ?lookup_delete_Some; naive_solver.
  - apply client_then_ok, execute_sql_ok. intros _ t Ht.
    apply sessions_subset_ok; [done|apply delete_subseteq].
  - apply client_then_ok, execute_sql_ok. intros. by apply upsert_config_ok.
Qed.

(** A process's queries one after the other. *)
Definition run_calls (l : list db_query) (w : pg) : pg := foldl (λ w c, (run_db c w).2) w l.

Lemma run_calls_ok l w : db_ok w → db_ok (run_calls l w).
Proof.
  unfold run_calls. revert w. induction l as [|c l IH]; intros w Hw; [done|]. simpl.
  by apply IH, run_db_ok.
Qed.

End Db.

(** ** Witnesses *)

Definition no_tables : tables :=
  mkTables ∅ (list_to_map [("admin", true); ("approver", true); ("operator", true)])
    ∅ ∅ ∅ ∅ ∅ ∅ [].

Lemma no_tables_ok : tables_ok no_tables.
Proof.
  split; simpl; intros *; rewrite ?lookup_empty, ?elem_of_empty; try done.
  by rewrite elem_of_nil.
Qed.

Module AppDbDemo.
#[export] Instance messages : PgMessages := {| violation c := "violates " +:+ c |}.

Definition uuids (n : nat) : Uuid := "u" +:+ show_Z (Z.of_nat n).

(** Two administrators, an operator, and a session of each administrator. *)
Definition seed : list db_query :=
  [CCreateUser "alice" "#alice-pw" ["admin"]; CCreateUser "bob" "#bob-pw" ["admin"];
   CCreateUser "carol" "#carol-pw" ["operator"; "unknown"];
   CInsertSession "sa" "u0" DAY_MS; CInsertSession "sb" "u1" DAY_MS].

Definition empty_pg (steps : list dbstep) : pg := mkPg no_tables steps 0 uuids 0.
Definition seeded : pg := run_calls seed (empty_pg []).

Lemma seeded_ok : tables_ok (pg_tables seeded).
Proof. apply run_calls_ok. split; [apply no_tables_ok|done]. Qed.
End AppDbDemo.
Import AppDbDemo.
