(* ===== verification/Iam.v ===== *)
(** * daimon-app: identity and access
    ([daimon-app/src/auth.rs], [auth_guard.rs], [iam.rs], [pages/login.rs])

    Who may call the console and what they may change. A login checks the account
    and the password, stores a session row and sets a cookie with a signed token;
    every later request is authenticated by the token and a live session row, and
    each server function asks for the role it needs. The token library, the
    password hash and the [Debug] text of a string are parameters. Times are in
    milliseconds, the token's in seconds; the server's and the database's clock are
    one. Server functions are run on {!app}, which holds the database, the broker
    and the response's cookies. *)

From stdpp Require Import sorting.
From S2P Require Import Prelude RustStd Json Core KillSwitch Policy Approvals Guard.
From S2P Require Import Inventory AuditLog Broker Admin HotMemory AppDb.
From Stdlib Require Import ZArith Ascii.

Local Open Scope Z_scope.

(** ** Tokens and passwords *)

(** [Claims]. *)
Record Claims := mkClaims {
  c_sub : string;
  c_user_id : Uuid;
  c_role : string;
  c_roles : list string;
  c_exp : Z;
  c_session_id : string;
}.

(** A byte of a compact token: base64url and the dots. *)
Definition token_byte (a : ascii) : bool :=
  byte_is_alphanumeric a || bool_decide (a ∈ ["-"; "_"; "."]%char).

(** [jsonwebtoken]: a token signed with the secret decodes to its claims until it
    expires. Nothing is assumed about other tokens. *)
Class Jwt := {
  jwt_encode : string → Claims → string;
  jwt_decode : string → Z → string → option Claims;
  jwt_fresh secret c now : now < c_exp c → jwt_decode secret now (jwt_encode secret c) = Some c;
  jwt_text secret c : Forall (λ a, token_byte a = true) (bytes (jwt_encode secret c));
}.

(** [bcrypt]: [bcrypt_hash] takes the salt, and [bcrypt_verify] is [None] on a hash
    it cannot read. *)
Class Bcrypt := {
  bcrypt_hash : list ascii → string → string;
  bcrypt_verify : string → string → option bool;
  bcrypt_correct salt p : bcrypt_verify p (bcrypt_hash salt p) = Some true;
}.

(** ** The application *)

(** The parts of [AppState] and of the response the server functions write.
    [ap_config] is the live snapshot of the settings, [ap_interval] the observer's
    poll interval and [ap_files] the files by path. *)
Record app (B M : Type) := mkApp {
  ap_pg : pg;
  ap_broker : B;
  ap_hot : M;
  ap_config : gmap string json;
  ap_interval : Z;
  ap_rng : rng;
  ap_files : gmap string string;
  ap_cookies : list string;
}.
Arguments mkApp {_ _}.
Arguments ap_pg {_ _}.
Arguments ap_broker {_ _}.
Arguments ap_hot {_ _}.
Arguments ap_config {_ _}.
Arguments ap_interval {_ _}.
Arguments ap_rng {_ _}.
Arguments ap_files {_ _}.
Arguments ap_cookies {_ _}.

Section Iam.
Context `{SemVer} {I V D M : Type} `{PgMessages} `{Jwt} `{Bcrypt}.
Abbreviation bw := (@bworld _ I V D).
Abbreviation appw := (app bw M).
Abbreviation aio := (io appw string).

Definition set_pg x (w : appw) : appw :=
  mkApp x (ap_broker w) (ap_hot w) (ap_config w) (ap_interval w) (ap_rng w)
    (ap_files w) (ap_cookies w).
Definition set_broker x (w : appw) : appw :=
  mkApp (ap_pg w) x (ap_hot w) (ap_config w) (ap_interval w) (ap_rng w)
    (ap_files w) (ap_cookies w).
Definition set_hot x (w : appw) : appw :=
  mkApp (ap_pg w) (ap_broker w) x (ap_config w) (ap_interval w) (ap_rng w)
    (ap_files w) (ap_cookies w).
Definition set_rng x (w : appw) : appw :=
  mkApp (ap_pg w) (ap_broker w) (ap_hot w) (ap_config w) (ap_interval w) x
    (ap_files w) (ap_cookies w).
Definition add_cookie c (w : appw) : appw :=
  mkApp (ap_pg w) (ap_broker w) (ap_hot w) (ap_config w) (ap_interval w) (ap_rng w)
    (ap_files w) (ap_cookies w ++ [c]).

Definition on_db {A} (m : dio A) : aio A := zoom ap_pg set_pg m.

(** [.map_err(|e| ServerFnError::new(format!("{what}: {e}")))]. *)
Definition fails {A} (what : string) (m : aio A) : aio A :=
  io_map_err (λ e, what +:+ ": " +:+ e) m.

Definition now_secs (w : appw) : Z := pg_now (ap_pg w) / 1000.

(** [AppState]'s fixed parts. *)
Record AppState := mkState { st_jwt_secret : string; st_broker : Broker (D := D) }.

(** A request as the server functions see it: the [Cookie] header's bytes. *)
Record request := mkRequest { rq_cookie : option string }.

(** *** [auth.rs] *)

Definition random_bytes (n : nat) : aio (list ascii) := λ w,
  let '(b, r) := fill_bytes n (ap_rng w) in (Ok b, set_rng r w).

Definition hash_password (password : string) : aio string :=
  random_bytes 16 ≫= λ salt, mret (bcrypt_hash salt password).

Definition verify_password (password hash : string) : bool :=
  default false (bcrypt_verify password hash).

Definition new_claims (now : Z) (username : string) (user_id : Uuid) (roles : list string)
    (session_id : string) : Claims :=
  mkClaims username user_id (default "operator" (head roles)) roles (now + 86400) session_id.

Definition create_jwt (secret username : string) (user_id : Uuid) (roles : list string)
    (session_id : string) (w : appw) : string :=
  jwt_encode secret (new_claims (now_secs w) username user_id roles session_id).

Definition validate_jwt (secret token : string) (w : appw) : option Claims :=
  jwt_decode secret (now_secs w) token.

Definition hex_digit (n : Z) : ascii :=
  ascii_of_N (Z.to_N (if n <? 10 then 48 + n else 87 + n)).

(** [format!("{:02x}", b)] of each byte. *)
Definition hex_bytes (l : list ascii) : string :=
  string_of_bytes (l ≫= λ a, [hex_digit (byte_val a / 16); hex_digit (byte_val a mod 16)]).

Definition generate_secret : aio string := random_bytes 32 ≫= λ b, mret (hex_bytes b).

(** *** [auth_guard.rs] *)

(** [HeaderValue::to_str]. *)
Definition visible_ascii (a : ascii) : bool :=
  in_range 32 126 a || bool_decide (byte_val a = 9).

Definition header_to_str (s : string) : option string :=
  if forallb visible_ascii (bytes s) then Some s else None.

(** [cookie.split(';').find_map(|c| c.trim().strip_prefix("daimon_token="))]. *)
Definition cookie_token (cookie : string) : option string :=
  head (omap (λ c, strip_prefix "daimon_token=" (trim c)) (split ";"%char cookie)).

(** The cookie's token, validated. *)
Definition request_claims (st : AppState) (req : request) (w : appw) : option Claims :=
  (rq_cookie req ≫= header_to_str) ≫= λ cookie,
  cookie_token cookie ≫= λ token, validate_jwt (st_jwt_secret st) token w.

(** [authenticate_headers]. *)
Definition authenticate_headers (st : AppState) (req : request) (w : appw) :
    option Claims * appw :=
  match request_claims st req w with
  | None => (None, w)
  | Some claims =>
      let '(r, w) := on_db (find_valid_session (c_session_id claims)) w in
      (match r with Ok (Some _) => Some claims | _ => None end, w)
  end.

(** [get_current_user]. *)
Definition get_current_user (st : AppState) (req : request) : aio (option (string * string)) :=
  λ w,
  let cookie := default "" (rq_cookie req ≫= header_to_str) in
  match cookie_token cookie ≫= λ token, validate_jwt (st_jwt_secret st) token w with
  | None => (Ok None, w)
  | Some claims =>
      (fails "session lookup" (on_db (find_valid_session (c_session_id claims))) ≫= λ sess,
       mret (if sess is None then None else Some (c_sub claims, c_role claims))) w
  end.

(** [require_authenticated]. *)
Definition require_authenticated (st : AppState) (req : request) : aio Claims := λ w,
  let '(c, w) := authenticate_headers st req w in
  (ok_or c "unauthenticated", w).

Definition require_any (allowed : string → bool) (st : AppState) (req : request) : aio Claims :=
  require_authenticated st req ≫= λ claims,
  if existsb allowed (c_roles claims) then mret claims else throw "forbidden".

(** [require_admin]. *)
Definition require_admin : AppState → request → aio Claims :=
  require_any (λ r, string_eqb r "admin").

(** [require_role]. *)
Definition require_role (slug : string) : AppState → request → aio Claims :=
  require_any (λ r, string_eqb r slug || (string_eqb slug "operator" && string_eqb r "admin")).

(** [require_approver]. *)
Definition require_approver : AppState → request → aio Claims :=
  require_any (λ r, string_eqb r "approver" || string_eqb r "admin").

(** *** [iam.rs] *)

(** [UserSummary] has the fields of {!UserListRow}. *)
Definition list_users (st : AppState) (req : request) : aio (list UserListRow) :=
  require_admin st req ≫= λ _, fails "list_users" (on_db db_list_users).

(** A best-effort [broker.audit_admin_action]. *)
Definition audit_admin (st : AppState) (actor : string) (target summary : option string)
    (meta : gmap string string) : aio unit :=
  attempt (zoom ap_broker set_broker
    (audit_admin_action (st_broker st) actor ActionOther target None summary meta)) ≫= λ _, mret tt.

(** [audit_iam]. *)
Definition audit_iam (st : AppState) (actor action : string) (target_user : Uuid)
    (op_summary : string) : aio unit :=
  audit_admin st actor (Some ("user:" +:+ target_user)) (Some op_summary)
    (<["iam.target_user" := target_user]> {["iam.action" := action]}).

(** [{roles:?}]; [debug_str] is the standard library's [Debug] text of a string. *)
Definition debug_strings (debug_str : string → string) (l : list string) : string :=
  "[" +:+ String.concat ", " (map debug_str l) +:+ "]".

(** [create_user]. *)
Definition create_user (debug_str : string → string) (st : AppState) (req : request) (username password : string)
    (roles : list string) : aio Uuid :=
  require_admin st req ≫= λ claims,
  if string_eqb (trim username) "" then throw "username is required"
  else if string_eqb password "" then throw "password is required"
  else
    hash_password password ≫= λ hash,
    fails "create_user" (on_db (db_create_user username hash roles)) ≫= λ user_id,
    audit_iam st (c_sub claims) "user.create" user_id
      ("user.create " +:+ username +:+ " roles=" +:+ debug_strings debug_str roles) ≫= λ _,
    mret user_id.

Definition with_password (hash : string) (u : UserRec) : UserRec :=
  mkUserRec (u_username u) (u_email u) hash (u_status u) (u_last_login_at u).

(** [change_my_password]. *)
Definition change_my_password (st : AppState) (req : request)
    (current_password new_password : string) : aio unit :=
  require_authenticated st req ≫= λ claims,
  if (length (bytes new_password) <? 8)%nat
  then throw "new password must be at least 8 characters"
  else
    fails "find_user" (on_db (find_user (c_sub claims))) ≫= λ found,
    lift (ok_or found "account not found") ≫= λ user,
    if negb (verify_password current_password (ur_password_hash user))
    then throw "current password is incorrect"
    else
      hash_password new_password ≫= λ hash,
      fails "pool" (on_db pool_get) ≫= λ _,
      fails "update password" (on_db (execute_sql (λ _ t,
        set_users (alter (with_password hash) (c_user_id claims) (t_users t)) t))) ≫= λ _,
      audit_iam st (c_sub claims) "user.password_change" (c_user_id claims)
        ("user.password_change " +:+ c_sub claims +:+ " (self)").

(** [MyIdentity] and [ProfileInfo]; times are kept as numbers. *)
Record MyIdentity := mkMyIdentity { mi_channel : string; mi_handle : string; mi_enrolled_at : Z }.
Record ProfileInfo := mkProfile {
  pf_username : string; pf_roles : list string; pf_identities : list MyIdentity }.

Definition identity_le (x y : MyIdentity) : Prop :=
  mi_channel x ≠ mi_channel y ∧ String.le (mi_channel x) (mi_channel y) ∨
  mi_channel x = mi_channel y ∧ String.le (mi_handle x) (mi_handle y).

#[export] Instance identity_le_dec : RelDecision identity_le.
Proof. intros x y. unfold identity_le. apply _. Defined.

(** [my_profile]. *)
Definition my_profile (st : AppState) (req : request) : aio ProfileInfo :=
  require_authenticated st req ≫= λ claims,
  fails "pool" (on_db pool_get) ≫= λ _,
  fails "identities" (on_db (select (λ _ t,
    merge_sort identity_le
      ((λ '(_, g), mkMyIdentity (gi_channel g) (gi_handle g) (gi_enrolled_at g))
         <$> filter (λ p, gi_user_id p.2 = c_user_id claims) (map_to_list (t_identities t))))))
    ≫= λ identities,
  mret (mkProfile (c_sub claims) (c_roles claims) identities).

(** The last-admin guard of [set_user_status] and [revoke_role]. *)
Definition last_admin_guard (user_id : Uuid) (refusal : string) : aio unit :=
  fails "admin count" (on_db (enabled_admin_count_excluding user_id)) ≫= λ remaining,
  if remaining =? 0 then throw refusal else mret tt.

(** [set_user_status]. *)
Definition set_user_status (st : AppState) (req : request) (user_id : Uuid) (status : string) :
    aio unit :=
  require_admin st req ≫= λ claims,
  (if string_eqb status "disabled"
   then last_admin_guard user_id "cannot disable the last enabled admin"
   else mret tt) ≫= λ _,
  fails "set_user_status" (on_db (db_set_user_status user_id status)) ≫= λ _,
  let action := if string_eqb status "disabled" then "user.disable" else "user.status" in
  audit_iam st (c_sub claims) action user_id ("user.status " +:+ status).

(** [assign_role]. *)
Definition assign_role (st : AppState) (req : request) (user_id : Uuid) (role_slug : string) :
    aio unit :=
  require_admin st req ≫= λ claims,
  fails "assign_role" (on_db (db_assign_role user_id role_slug)) ≫= λ _,
  audit_iam st (c_sub claims) "role.assign" user_id ("role.assign " +:+ role_slug).

(** [revoke_role]. *)
Definition revoke_role (st : AppState) (req : request) (user_id : Uuid) (role_slug : string) :
    aio unit :=
  require_admin st req ≫= λ claims,
  (if string_eqb role_slug "admin"
   then last_admin_guard user_id "cannot revoke the last enabled admin"
   else mret tt) ≫= λ _,
  fails "revoke_role" (on_db (db_revoke_role user_id role_slug)) ≫= λ _,
  audit_iam st (c_sub claims) "role.revoke" user_id ("role.revoke " +:+ role_slug).

Definition LOGOUT_COOKIE : string :=
  "daimon_token=; HttpOnly; Secure; SameSite=Lax; Path=/; Max-Age=0".

(** [logout]. *)
Definition logout (st : AppState) (req : request) : aio unit :=
  require_authenticated st req ≫= λ claims,
  fails "delete_session" (on_db (delete_session (c_session_id claims))) ≫= λ _,
  modify (add_cookie LOGOUT_COOKIE).

(** *** [pages/login.rs] *)

Definition login_cookie (token : string) : string :=
  "daimon_token=" +:+ token +:+ "; HttpOnly; Secure; SameSite=Lax; Path=/; Max-Age=86400".

Definition SESSION_MS : Z := 86400000.

(** [login_action]. *)
Definition login_action (st : AppState) (username password : string) : aio bool :=
  fails "find_user" (on_db (find_user username)) ≫= λ found,
  lift (ok_or found "Invalid credentials") ≫= λ user,
  if negb (string_eqb (ur_status user) "active") then throw "Invalid credentials"
  else if negb (verify_password password (ur_password_hash user))
  then throw "Invalid credentials"
  else
    generate_secret ≫= λ session_id,
    gets (λ w, pg_now (ap_pg w) + SESSION_MS) ≫= λ expires_at,
    fails "insert_session" (on_db (insert_session session_id (ur_id user) expires_at)) ≫= λ _,
    gets (create_jwt (st_jwt_secret st) username (ur_id user) (ur_roles user) session_id)
      ≫= λ token,
    modify (add_cookie (login_cookie token)) ≫= λ _,
    mret true.

(** ** Running on a database that answers at once *)


Definition quiet (w : appw) : Prop := pg_steps (ap_pg w) = [].
Definition db (w : appw) : tables := pg_tables (ap_pg w).
Definition clock (w : appw) : Z := pg_now (ap_pg w).
Definition put (t : tables) (w : appw) : appw := set_pg (set_tables t (ap_pg w)) w.

Lemma put_db w : put (db w) w = w.
Proof. by destruct w as [[]]. Qed.

Lemma sql_quiet {A} (f : Z → tables → result string (A * tables)) (p : pg) :
  pg_steps p = [] →
  sql f p = match f (pg_now p) (pg_tables p) with
            | Ok (a, t) => (Ok a, set_tables t p)
            | Err c => (Err (violation c), p)
            end.
Proof.
  intros Hq. unfold sql, arrive. rewrite Hq. simpl. rewrite Z.add_0_r.
  destruct p as [t s n u d]; simpl in *; subst. unfold id, set_tables. simpl.
  by destruct (f n t) as [[]|].
Qed.

Lemma pool_quiet p : pg_steps p = [] → pool_get p = (Ok tt, p).
Proof. intros Hq. unfold pool_get, select. rewrite sql_quiet by done. by destruct p. Qed.

Lemma client_quiet p : pg_steps p = [] → client p = (Ok tt, p).
Proof. intros Hq. unfold client, context, io_map_err. by rewrite pool_quiet. Qed.

(** A query with its own client and context. *)
Lemma query_quiet {A} c (f : Z → tables → result string (A * tables)) (w : appw) :
  quiet w →
  on_db (client ≫= λ _, context c (sql f)) w =
  match f (clock w) (db w) with
  | Ok (a, t) => (Ok a, put t w)
  | Err _ => (Err c, w)
  end.
Proof.
  intros Hq. unfold on_db, zoom. rewrite (io_bind_run_ok _ _ _ tt (ap_pg w)) by
    by apply client_quiet.
  unfold context, io_map_err. rewrite sql_quiet by done. unfold clock, db, put.
  destruct w as [p]; simpl. by destruct (f _ _) as [[]|].
Qed.

Lemma find_user_quiet n (w : appw) :
  quiet w → on_db (find_user n) w = (Ok (select_user n (db w)), w).
Proof. intros Hq. unfold find_user, select. rewrite query_quiet by done. by rewrite put_db. Qed.

Lemma find_session_quiet k (w : appw) :
  quiet w → on_db (find_valid_session k) w = (Ok (live_session (clock w) k (db w)), w).
Proof.
  intros Hq. unfold find_valid_session, select. rewrite query_quiet by done. by rewrite put_db.
Qed.

Lemma count_quiet i (w : appw) :
  quiet w → on_db (enabled_admin_count_excluding i) w =
    (Ok (Z.of_nat (size (delete i (enabled_admins (db w))))), w).
Proof.
  intros Hq. unfold enabled_admin_count_excluding, select. rewrite query_quiet by done.
  by rewrite put_db.
Qed.

(** The token is valid and its session row is live. *)
Definition signed_in (st : AppState) (req : request) (w : appw) (c : Claims) : Prop :=
  request_claims st req w = Some c ∧
  is_Some (live_session (clock w) (c_session_id c) (db w)).

Lemma authenticate_quiet st req (w : appw) :
  quiet w →
  authenticate_headers st req w =
    (request_claims st req w ≫= λ c,
       live_session (clock w) (c_session_id c) (db w) ≫= λ _, Some c, w).
Proof.
  intros Hq. unfold authenticate_headers. destruct (request_claims st req w) as [c|]; [|done].
  rewrite find_session_quiet by done. simpl.
  by destruct (live_session (clock w) (c_session_id c) (db w)).
Qed.

Lemma authenticate_some st req (w : appw) c :
  quiet w → (authenticate_headers st req w).1 = Some c ↔ signed_in st req w c.
Proof.
  intros Hq. rewrite authenticate_quiet by done. unfold signed_in. simpl.
  destruct (request_claims st req w) as [c'|]; simpl; [|naive_solver].
  destruct (live_session _ _ _) eqn:E; simpl.
  - split; [intros [= ->]|intros [[= ->] _]]; [|done]. rewrite E. eauto.
  - split; [done|]. intros [[= ->] [? Hl]]. congruence.
Qed.

Lemma require_any_ok p st req (w : appw) c w' :
  quiet w → require_any p st req w = (Ok c, w') →
  w' = w ∧ signed_in st req w c ∧ existsb p (c_roles c) = true.
Proof.
  intros Hq. unfold require_any. intros (c1 & w1 & Ha & Hk)%io_bind_ok.
  unfold require_authenticated in Ha. pose proof (authenticate_some st req w c1 Hq) as Hs.
  rewrite authenticate_quiet in Ha, Hs by done. simpl in Hs.
  destruct (request_claims st req w ≫= _) as [c2|] eqn:E; simplify_eq/=.
  destruct (existsb p (c_roles c1)) eqn:Hp; inv_io. naive_solver.
Qed.

Lemma require_any_run p st req (w : appw) c :
  quiet w → signed_in st req w c → existsb p (c_roles c) = true →
  require_any p st req w = (Ok c, w).
Proof.
  intros Hq Hs Hp. apply (authenticate_some _ _ _ _ Hq) in Hs.
  unfold require_any, require_authenticated, mbind, io_bind.
  rewrite authenticate_quiet in Hs |- * by done. simpl in Hs. rewrite Hs. simpl. by rewrite Hp.
Qed.

(** The audit call only touches the broker and never fails. *)
Lemma audit_admin_run st a t s m (w : appw) :
  ∃ b, audit_admin st a t s m w = (Ok tt, set_broker b w).
Proof.
  unfold audit_admin, attempt, zoom, mbind, io_bind.
  destruct (audit_admin_action _ _ _ _ _ _ _ _) as [r b]. simpl. by exists b.
Qed.

(** [set_user_status]'s transaction when nothing interferes. *)
Lemma set_status_quiet i s (w : appw) :
  quiet w →
  on_db (db_set_user_status i s) w =
  match update_status i s (db w) with
  | Ok (locked, _) => (Ok tt, put (commit_status i s locked (sessions_of i (db w)) (db w)) w)
  | Err _ => (Err "update status", w)
  end.
Proof.
  intros Hq. unfold on_db, zoom, db_set_user_status, execute_sql, select.
  rewrite (io_bind_run_ok _ _ _ tt (ap_pg w)) by by apply client_quiet.
  assert (∀ c, context c (sql (λ _ t, Ok (tt, t))) (ap_pg w) = (Ok tt, ap_pg w)) as Hnop.
  { intros c. unfold context, io_map_err. rewrite sql_quiet by done. by destruct (ap_pg w). }
  rewrite (io_bind_run_ok _ _ _ tt (ap_pg w)) by done.
  unfold mbind, io_bind at 1, context at 1, io_map_err at 1. rewrite sql_quiet by done.
  fold (db w). destruct (update_status i s (db w)) as [[locked t]|e] eqn:E; simpl;
    [|by destruct w].
  assert (t = db w) as ->.
  { unfold update_status in E. repeat case_bool_decide; by simplify_eq. }
  assert (set_tables (db w) (ap_pg w) = ap_pg w) as -> by by destruct w as [[]].
  unfold io_bind, context, io_map_err. rewrite sql_quiet by done. simpl.
  assert (set_tables (pg_tables (ap_pg w)) (ap_pg w) = ap_pg w) as -> by by destruct w as [[]].
  by rewrite sql_quiet by done.
Qed.

(** ** What may change *)

(** The server functions that change the tables. *)
Inductive iam_call :=
| ICreateUser (username password : string) (roles : list string)
| ISetUserStatus (id : Uuid) (status : string)
| IAssignRole (id : Uuid) (slug : string)
| IRevokeRole (id : Uuid) (slug : string)
| IChangeMyPassword (current new : string)
| ILogout
| ILogin (username password : string).

Definition run_iam (debug_str : string → string) (st : AppState) (req : request) (c : iam_call) : aio unit :=
  match c with
  | ICreateUser u p l => create_user debug_str st req u p l ≫= λ _, mret tt
  | ISetUserStatus i s => set_user_status st req i s
  | IAssignRole i s => assign_role st req i s
  | IRevokeRole i s => revoke_role st req i s
  | IChangeMyPassword c n => change_my_password st req c n
  | ILogout => logout st req
  | ILogin u p => login_action st u p ≫= λ _, mret tt
  end.

Definition admin_call (c : iam_call) : bool :=
  match c with
  | ICreateUser _ _ _ | ISetUserStatus _ _ | IAssignRole _ _ | IRevokeRole _ _ => true
  | _ => false
  end.

(** [n] round trips in which this process changed nothing. *)
Definition drift (n : nat) (p : pg) : pg := Nat.iter n (λ p, (arrive p).2) p.

Lemma select_drift {A} (f : Z → tables → A) p : (select f p).2 = drift 1 p.
Proof.
  change (drift 1 p) with (arrive p).2. unfold select, sql.
  destruct (arrive p) as [o p']. destruct o; by destruct p'.
Qed.

Lemma select_value {A} (f : Z → tables → A) p a :
  (select f p).1 = Ok a → a = f (pg_now (drift 1 p)) (pg_tables (drift 1 p)).
Proof.
  change (drift 1 p) with (arrive p).2. unfold select, sql.
  destruct (arrive p) as [o p']. by destruct o; intros; simplify_eq/=.
Qed.

Lemma find_session_drift k p :
  ∃ n, (find_valid_session k p).2 = drift n p ∧
    ∀ u, (find_valid_session k p).1 = Ok (Some u) →
      live_session (pg_now (drift n p)) k (pg_tables (drift n p)) = Some u.
Proof.
  unfold find_valid_session, client, pool_get, context, mbind, io_bind, io_map_err.
  pose proof (select_drift (λ _ _, tt) p) as Hd1.
  destruct (select _ p) as [[[]|e] p1]; simpl in *; [|by exists 1%nat].
  pose proof (select_drift (λ now, live_session now k) p1) as Hd2.
  pose proof (select_value (λ now, live_session now k) p1) as Hv.
  destruct (select (λ now, live_session now k) p1) as [r p2]; simpl in *.
  exists 2%nat. rewrite Hd2, Hd1. split; [done|]. intros u Hu.
  destruct r as [x|]; simplify_eq/=. symmetry. by apply Hv.
Qed.

(** The check of a request costs a round trip or two, changes nothing, and passes
    only on a session row that is live when the server looks. *)
Lemma authenticate_drift st req (w : appw) :
  ∃ n, (authenticate_headers st req w).2 = set_pg (drift n (ap_pg w)) w ∧
    ∀ c, (authenticate_headers st req w).1 = Some c →
      request_claims st req w = Some c ∧
      is_Some (live_session (clock (authenticate_headers st req w).2) (c_session_id c)
                 (db (authenticate_headers st req w).2)).
Proof.
  unfold authenticate_headers. destruct (request_claims st req w) as [c|].
  - unfold on_db, zoom. destruct (find_session_drift (c_session_id c) (ap_pg w)) as (n & Hw & Hl).
    destruct (find_valid_session _ _) as [r p]. simpl in *. subst. exists n. split; [done|].
    intros c' Hc. destruct r as [[u|]|]; simplify_eq/=. split; [done|].
    unfold clock, db. simpl. eauto.
  - exists 0%nat. split; [by destruct w|done].
Qed.

(** C12: whatever other connections do and whichever round trip fails: creating a user,
    setting a status, granting and revoking a role go past the check only for a
    caller whose token names the admin role and whose session row is live when it is
    looked up. Any other caller gets an error, and this process has changed neither
    the tables nor the audit log. *)
Theorem iam_admin_only debug_str st req c (w : appw) :
  admin_call c = true →
  let w1 := (authenticate_headers st req w).2 in
  (∃ claims, request_claims st req w = Some claims ∧ "admin" ∈ c_roles claims ∧
     is_Some (live_session (clock w1) (c_session_id claims) (db w1))) ∨
  (run_iam debug_str st req c w = (Err "unauthenticated", w1) ∨
   run_iam debug_str st req c w = (Err "forbidden", w1)) ∧
  ∃ n, w1 = set_pg (drift n (ap_pg w)) w.
Proof.
  intros Hc w1. destruct (authenticate_drift st req w) as (n & Hw & Hs). fold w1 in Hw, Hs.
  assert (∀ A (k : Claims → aio A) e, require_admin st req w = (Err e, w1) →
    (require_admin st req ≫= k) w = (Err e, w1)) as Herr.
  { intros A k e He. by apply io_bind_run_err. }
  assert (∀ e, require_admin st req w = (Err e, w1) → run_iam debug_str st req c w = (Err e, w1)) as Hrun.
  { intros e He. destruct c; try done; simpl; try by apply Herr.
    apply io_bind_run_err. by apply Herr. }
  unfold require_admin, require_any, require_authenticated, mbind, io_bind in Hrun.
  subst w1. destruct (authenticate_headers st req w) as [[claims|] w1]; simpl in *.
  - destruct (Hs claims eq_refl) as [Hcl Hl].
    destruct (existsb _ (c_roles claims)) eqn:Hp.
    + left. exists claims. split; [done|]. split; [|done].
      apply existsb_elem in Hp as (x & Hx & ->%string_eqb_eq). done.
    + right. eauto 10.
  - right. eauto 10.
Qed.

(** *** The last administrator *)

Definition admin_ids (t : tables) : gset Uuid := dom (enabled_admins t).

Lemma elem_of_admin_ids t i :
  i ∈ admin_ids t ↔ (i, "admin") ∈ t_grants t ∧ u_status <$> t_users t !! i = Some "active".
Proof.
  unfold admin_ids, enabled_admins. rewrite elem_of_dom. unfold is_Some.
  setoid_rewrite map_lookup_filter_Some. simpl. rewrite fmap_Some. naive_solver.
Qed.

(** Without interference nothing here removes an administrator. *)
Definition admins_grow (w w' : appw) : Prop :=
  quiet w → quiet w' ∧ admin_ids (db w) ⊆ admin_ids (db w').

#[local] Instance admins_grow_refl : Reflexive admins_grow.
Proof. intros w Hq. done. Qed.

#[local] Instance admins_grow_trans : Transitive admins_grow.
Proof. intros w1 w2 w3 H12 H23 Hq. destruct (H12 Hq) as [Hq2 ?], (H23 Hq2). set_solver. Qed.

Lemma fails_evolves {A} R what (m : aio A) : evolves R m → evolves R (fails what m).
Proof. apply evolves_map_err. Qed.

(** A statement that takes no role and no active status away. *)
Definition grows {A} (f : Z → tables → result string (A * tables)) : Prop :=
  ∀ now t a t', f now t = Ok (a, t') → admin_ids t ⊆ admin_ids t'.

Definition pg_grow (p p' : pg) : Prop :=
  pg_steps p = [] → pg_steps p' = [] ∧ admin_ids (pg_tables p) ⊆ admin_ids (pg_tables p').

#[local] Instance pg_grow_refl : Reflexive pg_grow.
Proof. intros w Hq. done. Qed.

#[local] Instance pg_grow_trans : Transitive pg_grow.
Proof. intros w1 w2 w3 H12 H23 Hq. destruct (H12 Hq) as [Hq2 ?], (H23 Hq2). set_solver. Qed.

Lemma on_db_grow {A} (m : dio A) : evolves pg_grow m → evolves admins_grow (on_db m).
Proof.
  intros Hm w Hq. unfold on_db, zoom. specialize (Hm (ap_pg w) Hq).
  destruct (m (ap_pg w)) as [r p]. done.
Qed.

Lemma sql_grow {A} (f : Z → tables → result string (A * tables)) :
  grows f → evolves pg_grow (sql f).
Proof.
  intros Hf p Hq. rewrite sql_quiet by done. specialize (Hf (pg_now p) (pg_tables p)).
  destruct (f _ _) as [[a t]|c]; simpl; [|done]. eauto.
Qed.

Lemma context_grow {A} c (m : dio A) : evolves pg_grow m → evolves pg_grow (context c m).
Proof. apply evolves_map_err. Qed.

Lemma same_admins {A} (f : Z → tables → result string (A * tables)) :
  (∀ now t a t', f now t = Ok (a, t') → t_users t' = t_users t ∧ t_grants t' = t_grants t) →
  grows f.
Proof.
  intros Hf now t a t' [Hu Hg]%Hf i. by rewrite !elem_of_admin_ids, Hu, Hg.
Qed.

Lemma select_grow {A} (f : Z → tables → A) : evolves pg_grow (select f).
Proof. apply sql_grow, same_admins. naive_solver. Qed.

Lemma client_grow : evolves pg_grow client.
Proof. apply context_grow, select_grow. Qed.

Lemma insert_grant_grow i s : grows (λ _, insert_grant i s).
Proof.
  intros _ t a t'. unfold insert_grant. repeat case_bool_decide; intros ?; simplify_eq/=; [done|].
  intros j. rewrite !elem_of_admin_ids. simpl. set_solver.
Qed.

Lemma insert_user_grow i n h : grows (λ _, insert_user i n h).
Proof.
  intros _ t a t'. unfold insert_user. repeat case_bool_decide; intros ?; simplify_eq/=.
  intros j. rewrite !elem_of_admin_ids. simpl. intros [Hg Hs]. split; [done|].
  rewrite lookup_insert_ne; [done|]. intros <-. destruct (t_users t !! _) eqn:E; [|done]. eauto.
Qed.

Lemma grant_all_grow i n l : evolves pg_grow (grant_all i n l).
Proof.
  induction l as [|s l IH]; simpl; [by apply evolves_ret; apply _|].
  apply evolves_bind; [apply _| |done]. apply context_grow, sql_grow, insert_grant_grow.
Qed.

Lemma db_create_user_grow n h l : evolves pg_grow (db_create_user n h l).
Proof.
  apply evolves_bind; [apply _|apply client_grow|]. intros _.
  apply evolves_bind; [apply _|by intros p Hq|]. intros i.
  apply evolves_bind; [apply _|apply context_grow, sql_grow, insert_user_grow|]. intros j.
  apply evolves_bind; [apply _|apply grant_all_grow|]. intros _. by apply evolves_ret; apply _.
Qed.

Lemma authenticated_grow st req : evolves admins_grow (require_authenticated st req).
Proof.
  intros w Hq. unfold require_authenticated. rewrite authenticate_quiet by done. simpl. done.
Qed.

Lemma require_any_grow p st req : evolves admins_grow (require_any p st req).
Proof.
  apply evolves_bind; [apply _|apply authenticated_grow|]. intros c.
  by destruct (existsb p (c_roles c)); intros w.
Qed.

Lemma audit_iam_grow st a x u s : evolves admins_grow (audit_iam st a x u s).
Proof.
  intros w. unfold audit_iam. destruct (audit_admin_run st a (Some ("user:" +:+ u)) (Some s)
    (<["iam.target_user":=u]> {["iam.action":=x]}) w) as [b ->]. done.
Qed.

Lemma random_bytes_grow n : evolves admins_grow (random_bytes n).
Proof. intros w. unfold random_bytes. by destruct (fill_bytes n (ap_rng w)). Qed.

Lemma hash_password_grow x : evolves admins_grow (hash_password x).
Proof. apply evolves_bind; [apply _|apply random_bytes_grow|]. by intros s w. Qed.

Lemma set_password_grow i h :
  grows (λ (_ : Z) t, Ok (tt, set_users (alter (with_password h) i (t_users t)) t)).
Proof.
  intros _ t [] t' ?; simplify_eq. intros j. rewrite !elem_of_admin_ids. simpl.
  intros [Hg Hs]. split; [done|]. destruct (decide (j = i)) as [->|].
  - rewrite lookup_alter_eq. by destruct (t_users t !! i).
  - by rewrite lookup_alter_ne.
Qed.

#[local] Hint Resolve fails_evolves on_db_grow context_grow select_grow client_grow
  insert_grant_grow sql_grow db_create_user_grow authenticated_grow require_any_grow
  audit_iam_grow hash_password_grow random_bytes_grow set_password_grow : daimon.

(** A guarded change of the tables after which somebody is left. *)
Definition leaves_admin (w w' : appw) : Prop :=
  quiet w → admin_ids (db w) ≠ ∅ → quiet w' ∧ admin_ids (db w') ≠ ∅.

#[local] Instance leaves_admin_trans : Transitive leaves_admin.
Proof. intros w1 w2 w3 H12 H23 Hq Ha. destruct (H12 Hq Ha). auto. Qed.

Lemma grow_leaves {A} (m : aio A) : evolves admins_grow m → evolves leaves_admin m.
Proof. intros Hm w Hq Ha. destruct (Hm w Hq) as [??]. split; [done|]. set_solver. Qed.

Lemma guard_quiet i refusal (w : appw) :
  quiet w → last_admin_guard i refusal w =
    (if decide (delete i (enabled_admins (db w)) = ∅) then Err refusal else Ok tt, w).
Proof.
  intros Hq. unfold last_admin_guard, fails, io_map_err, mbind, io_bind.
  rewrite count_quiet by done. simpl. case_decide as Hd.
  - by rewrite Hd, map_size_empty.
  - apply map_size_non_empty_iff in Hd. destruct (Z.eqb_spec (Z.of_nat (size
      (delete i (enabled_admins (db w))))) 0); [lia|done].
Qed.

Lemma others_left t i :
  delete i (enabled_admins t) ≠ ∅ → ∃ j, j ≠ i ∧ j ∈ admin_ids t.
Proof.
  intros (j & u & Hj)%map_choose. rewrite lookup_delete_Some in Hj. destruct Hj as [Hne Hj].
  exists j. split; [done|]. by apply elem_of_dom_2 in Hj.
Qed.

Lemma commit_status_others i s locked vs t j :
  j ≠ i → j ∈ admin_ids (commit_status i s locked vs t) ↔ j ∈ admin_ids t.
Proof.
  intros Hne. rewrite !elem_of_admin_ids. simpl. destruct locked; [|done].
  by rewrite lookup_alter_ne by done.
Qed.

Lemma commit_status_active i locked vs t :
  admin_ids t ⊆ admin_ids (commit_status i "active" locked vs t).
Proof.
  intros j. rewrite !elem_of_admin_ids. simpl. intros [Hg Hs]. split; [done|].
  destruct locked; [|done]. destruct (decide (j = i)) as [->|].
  - rewrite lookup_alter_eq. by destruct (t_users t !! i).
  - by rewrite lookup_alter_ne.
Qed.

Lemma status_leaves t i s locked t' vs :
  update_status i s t = Ok (locked, t') → s ≠ "locked" →
  (s = "disabled" → delete i (enabled_admins t) ≠ ∅) → admin_ids t ≠ ∅ →
  admin_ids (commit_status i s locked vs t) ≠ ∅.
Proof.
  intros Hu Hs Hd Ha. unfold update_status in Hu. repeat case_bool_decide; simplify_eq/=.
  - intros He. apply Ha. rewrite <-He. apply set_eq. intros j. by rewrite !elem_of_admin_ids.
  - assert (s = "disabled" ∨ s = "active") as [->| ->] by (unfold user_statuses in *; set_solver).
    + destruct (others_left _ _ (Hd eq_refl)) as (j & Hne & Hj).
      rewrite <-(commit_status_others i "disabled" true vs) in Hj by done. set_solver.
    + pose proof (commit_status_active i true vs t'). set_solver.
Qed.

Lemma status_step i s (w : appw) :
  quiet w → s ≠ "locked" → admin_ids (db w) ≠ ∅ →
  (s = "disabled" → delete i (enabled_admins (db w)) ≠ ∅) →
  let w' := (fails "set_user_status" (on_db (db_set_user_status i s)) w).2 in
  quiet w' ∧ admin_ids (db w') ≠ ∅.
Proof.
  intros Hq Hs Ha Hd. unfold fails, io_map_err. rewrite set_status_quiet by done.
  destruct (update_status i s (db w)) as [[locked t]|e] eqn:Hu; simpl; [|done].
  split; [done|]. by eapply status_leaves.
Qed.

Lemma guarded_status i s :
  s ≠ "locked" →
  evolves leaves_admin
    ((if string_eqb s "disabled"
      then last_admin_guard i "cannot disable the last enabled admin" else mret tt) ≫= λ _,
     fails "set_user_status" (on_db (db_set_user_status i s))).
Proof.
  intros Hs w Hq Ha. unfold mbind, io_bind.
  destruct (string_eqb s "disabled") eqn:Hd.
  - rewrite guard_quiet by done. case_decide; [done|]. by apply status_step.
  - apply string_eqb_neq in Hd. by apply status_step.
Qed.

Lemma revoke_step i slug (w : appw) :
  quiet w → admin_ids (db w) ≠ ∅ →
  (slug = "admin" → delete i (enabled_admins (db w)) ≠ ∅) →
  let w' := (fails "revoke_role" (on_db (db_revoke_role i slug)) w).2 in
  quiet w' ∧ admin_ids (db w') ≠ ∅.
Proof.
  intros Hq Ha Hd. unfold fails, io_map_err, db_revoke_role, execute_sql.
  rewrite query_quiet by done. simpl. split; [done|].
  assert (∃ j, j ∈ admin_ids (db w) ∧ (j, "admin") ≠ (i, slug)) as (j & Hj & Hne).
  { destruct (decide (slug = "admin")) as [->|].
    - destruct (others_left _ _ (Hd eq_refl)) as (j & ? & ?). exists j. naive_solver.
    - apply set_choose_L in Ha as [j Hj]. exists j. naive_solver. }
  assert (j ∈ admin_ids (db (put (set_grants (t_grants (db w) ∖ {[(i, slug)]}) (db w)) w)));
    [|set_solver].
  rewrite elem_of_admin_ids in *. simpl. set_solver.
Qed.

Lemma guarded_revoke i slug :
  evolves leaves_admin
    ((if string_eqb slug "admin"
      then last_admin_guard i "cannot revoke the last enabled admin" else mret tt) ≫= λ _,
     fails "revoke_role" (on_db (db_revoke_role i slug))).
Proof.
  intros w Hq Ha. unfold mbind, io_bind. destruct (string_eqb slug "admin") eqn:Hd.
  - rewrite guard_quiet by done. case_decide; [done|]. by apply revoke_step.
  - apply string_eqb_neq in Hd. by apply revoke_step.
Qed.

(** The calls without a guard, step by step. *)
Ltac grow :=
  repeat first
    [ solve [eauto 3 with daimon | intros w Hw; done]
    | apply fails_evolves, on_db_grow
    | apply evolves_bind; [apply _| |intros ?]
    | match goal with |- evolves _ (if ?b then _ else _) => destruct b end
    | apply context_grow, sql_grow, same_admins; intros; repeat case_bool_decide; naive_solver ].

(** A checked request followed by a guarded change and its audit record. *)
Lemma guarded_call_leaves st req (g m : Claims → aio unit) (k : Claims → aio unit) :
  (∀ c, evolves leaves_admin (g c ≫= λ _, m c)) → (∀ c, evolves admins_grow (k c)) →
  evolves leaves_admin (require_admin st req ≫= λ c, g c ≫= λ _, m c ≫= λ _, k c).
Proof.
  intros Hg Hk. apply evolves_bind; [apply _|apply grow_leaves, require_any_grow|].
  intros c w. rewrite (io_bind_assoc (g c)). revert w.
  apply evolves_bind; [apply _|done|]. intros _. by apply grow_leaves.
Qed.

(** C13: while one request runs at a time and the database answers, the console can not
    lock everybody out: from a state with an enabled administrator, every call that
    creates, disables, enables, grants, revokes, changes a password, logs in or out
    leads to a state with an enabled administrator, whoever makes it and with
    whatever arguments. Setting the status [locked] is the exception. *)
Theorem last_admin_kept debug_str st req c (w : appw) :
  quiet w → admin_ids (db w) ≠ ∅ → (∀ i, c ≠ ISetUserStatus i "locked") →
  admin_ids (db (run_iam debug_str st req c w).2) ≠ ∅.
Proof.
  intros Hq Ha Hc. enough (evolves leaves_admin (run_iam debug_str st req c)) as Hl by by apply Hl.
  clear w Hq Ha. destruct c as [u p l|i s|i s|i s|c n| |u p]; simpl.
  2: { apply (guarded_call_leaves _ _ (λ _, _) (λ _, _) (λ c, _)); [|auto with daimon].
       intros _. apply guarded_status. naive_solver. }
  3: { apply (guarded_call_leaves _ _ (λ _, _) (λ _, _) (λ c, _)); [|auto with daimon].
       intros _. apply guarded_revoke. }
  all: apply grow_leaves; unfold create_user, assign_role, change_my_password, logout,
    login_action, generate_secret; grow.
Qed.

(** *** Sessions *)

(** The world [d] milliseconds later. *)
Definition tick (d : Z) (w : appw) : appw :=
  set_pg (mkPg (pg_tables (ap_pg w)) (pg_steps (ap_pg w)) (pg_now (ap_pg w) + d)
            (pg_uuids (ap_pg w)) (pg_drawn (ap_pg w))) w.

Definition sends (token : string) : request := mkRequest (Some ("daimon_token=" +:+ token)).

Lemma token_byte_facts a :
  token_byte a = true →
  a ≠ ";"%char ∧ visible_ascii a = true ∧
  is_continuation a = false ∧ is_whitespace (String a EmptyString) = false.
Proof. destruct a as [[] [] [] [] [] [] [] []]; vm_compute; naive_solver. Qed.

(** The cookie a browser returns is read back as the token. *)
Lemma cookie_token_sends secret c :
  (rq_cookie (sends (jwt_encode secret c)) ≫= header_to_str) ≫= cookie_token =
  Some (jwt_encode secret c).
Proof.
  pose proof (jwt_text secret c) as Ht. set (t := jwt_encode secret c) in *. simpl.
  assert (Forall (λ a, a ≠ ";"%char ∧ visible_ascii a = true ∧ is_continuation a = false ∧
    is_whitespace (String a EmptyString) = false) (bytes ("daimon_token=" +:+ t))) as Hb.
  { rewrite bytes_app, Forall_app. split.
    - simpl. repeat (apply Forall_cons; split; [vm_compute; naive_solver|]). by apply Forall_nil.
    - eapply Forall_impl; [exact Ht|]. apply token_byte_facts. }
  unfold header_to_str. assert (forallb visible_ascii (bytes ("daimon_token=" +:+ t)) = true) as ->.
  { apply forallb_elem. intros a Ha. rewrite Forall_forall in Hb. by destruct (Hb a Ha) as (_ & ? & _). }
  change (cookie_token ("daimon_token=" +:+ t) = Some t).
  unfold cookie_token. rewrite split_no_sep.
  - unfold omap. cbn [list_omap].
    rewrite trim_plain by (eapply Forall_impl; [exact Hb|]; naive_solver).
    by rewrite strip_prefix_app.
  - intros Hin. rewrite Forall_forall in Hb. by destruct (Hb _ Hin) as [? _].
Qed.

Lemma request_claims_sends st c (w : appw) :
  now_secs w < c_exp c → request_claims st (sends (jwt_encode (st_jwt_secret st) c)) w = Some c.
Proof.
  intros Hn. pose proof (cookie_token_sends (st_jwt_secret st) c) as Hc. revert Hc.
  unfold request_claims. destruct (rq_cookie _ ≫= header_to_str) as [k|]; [|done]. simpl.
  intros ->. by apply jwt_fresh.
Qed.

Lemma no_session st req (w : appw) c :
  quiet w → request_claims st req w = Some c →
  live_session (clock w) (c_session_id c) (db w) = None →
  (authenticate_headers st req w).1 = None.
Proof.
  intros Hq Hr Hl. rewrite authenticate_quiet by done. cbn [fst]. rewrite Hr. simpl.
  by rewrite Hl.
Qed.

Lemma login_quiet st name pass (w w' : appw) :
  quiet w → login_action st name pass w = (Ok true, w') →
  ∃ row bytes,
    select_user name (db w) = Some row ∧ ur_status row = "active" ∧
    verify_password pass (ur_password_hash row) = true ∧
    let session := hex_bytes bytes in
    let c := new_claims (now_secs w) name (ur_id row) (ur_roles row) session in
    t_sessions (db w') = <[session := mkSession (ur_id row) (clock w + SESSION_MS)]>
                           (t_sessions (db w)) ∧
    ap_cookies w' = ap_cookies w ++ [login_cookie (jwt_encode (st_jwt_secret st) c)] ∧
    quiet w' ∧ clock w' = clock w.
Proof.
  intros Hq (found & w1 & Hf & Hrun)%io_bind_ok.
  unfold fails, io_map_err in Hf. rewrite find_user_quiet in Hf by done. simplify_eq/=.
  apply io_bind_ok in Hrun as (row & w2 & Hrow & Hrun). unfold lift in Hrow.
  destruct (select_user name (db w1)) as [row'|] eqn:Hsel; simplify_eq/=.
  destruct (string_eqb (ur_status row) "active") eqn:Hst; simpl in Hrun; [|by inv_io].
  destruct (verify_password pass _) eqn:Hpw; simpl in Hrun; [|by inv_io].
  apply string_eqb_eq in Hst. unfold generate_secret, random_bytes in Hrun. inv_io.
  destruct (fill_bytes 32 (ap_rng w2)) as [b r]. simplify_eq.
  unfold fails, io_map_err, insert_session in Hrun2. rewrite query_quiet in Hrun2 by done.
  cbn beta in Hrun2. repeat case_bool_decide; simplify_eq/=.
  by exists row, a4.
Qed.

(** C14: a login that succeeds found an active account whose hash accepts the password,
    stored one session row for it, and set a cookie that, for the rest of the day
    bar one second, authenticates requests as that user with the roles the account
    had; after the day no token for this session is accepted. *)
Theorem login_roundtrip st name pass (w w' : appw) :
  quiet w → login_action st name pass w = (Ok true, w') →
  ∃ row session token,
    select_user name (db w) = Some row ∧ ur_status row = "active" ∧
    verify_password pass (ur_password_hash row) = true ∧
    ap_cookies w' = ap_cookies w ++ [login_cookie token] ∧
    t_sessions (db w') = <[session := mkSession (ur_id row) (clock w + SESSION_MS)]>
                           (t_sessions (db w)) ∧
    (∀ d, 0 ≤ d → d + 1000 ≤ SESSION_MS →
       (authenticate_headers st (sends token) (tick d w')).1 =
         Some (new_claims (now_secs w) name (ur_id row) (ur_roles row) session)) ∧
    (∀ d req c, SESSION_MS ≤ d → request_claims st req (tick d w') = Some c →
       c_session_id c = session → (authenticate_headers st req (tick d w')).1 = None).
Proof.
  intros Hq (row & b & Hsel & Hst & Hpw & Hs & Hc & Hq' & Hclk)%login_quiet; [|done].
  eexists row, (hex_bytes b), _. do 5 (split; [done|]).
  assert (∀ d, quiet (tick d w')) as Hqd by done.
  assert (∀ d, live_session (clock (tick d w')) (hex_bytes b) (db (tick d w')) =
    if clock w + d <? clock w + SESSION_MS then Some (ur_id row) else None) as Hlive.
  { intros d. unfold live_session. change (db (tick d w')) with (db w'). rewrite Hs.
    rewrite lookup_insert_eq. simpl. by rewrite <-Hclk. }
  split.
  - intros d Hd0 Hd. apply authenticate_some; [done|]. split.
    + apply request_claims_sends. simpl. unfold now_secs. simpl. fold (clock w'). rewrite Hclk.
      unfold clock, SESSION_MS in *.
      pose proof (Z.div_le_mono (pg_now (ap_pg w) + d)
        (pg_now (ap_pg w) + 86399 * 1000) 1000 ltac:(lia) ltac:(lia)).
      rewrite Z.div_add in * by lia. lia.
    + simpl. rewrite Hlive. destruct (Z.ltb_spec (clock w + d) (clock w + SESSION_MS)); [done|].
      lia.
  - intros d req c Hd Hr Hcs. apply (no_session _ _ _ c); [done|done|]. rewrite Hcs, Hlive.
    destruct (Z.ltb_spec (clock w + d) (clock w + SESSION_MS)); [lia|done].
Qed.

(** Logging out ends the session: no token for it is accepted any more. *)
Theorem logout_revokes st req c (w w' : appw) :
  quiet w → request_claims st req w = Some c → logout st req w = (Ok tt, w') →
  ap_cookies w' = ap_cookies w ++ [LOGOUT_COOKIE] ∧
  ∀ st' req' c', request_claims st' req' w' = Some c' → c_session_id c' = c_session_id c →
    (authenticate_headers st' req' w').1 = None.
Proof.
  intros Hq Hc Hrun. unfold logout in Hrun. inv_io.
  unfold require_authenticated in Hrun0. rewrite authenticate_quiet in Hrun0 by done.
  rewrite Hc in Hrun0. simpl in Hrun0.
  destruct (live_session _ _ _); simplify_eq/=.
  unfold fails, io_map_err, delete_session, execute_sql in Hrun1.
  rewrite query_quiet in Hrun1 by done. simplify_eq/=. split; [done|].
  intros st' req' c' Hr Hs. apply (no_session _ _ _ c'); [done|done|].
  unfold live_session. rewrite Hs. simpl. by rewrite lookup_delete_eq.
Qed.

(** Without the account being active nobody logs in, and the refusal is the one a
    wrong password or an unknown name gets. *)
Lemma login_inactive st name pass (w : appw) :
  quiet w → (∀ row, select_user name (db w) = Some row → ur_status row ≠ "active") →
  login_action st name pass w = (Err "Invalid credentials", w).
Proof.
  intros Hq Hrow. unfold login_action, fails, io_map_err, mbind, io_bind.
  rewrite find_user_quiet by done. unfold lift. simpl.
  destruct (select_user name (db w)) as [row|]; simpl; [|done].
  destruct (string_eqb (ur_status row) "active") eqn:E; [|done].
  apply string_eqb_eq in E. by edestruct Hrow.
Qed.

Lemma set_user_status_ok st req i s (w w' : appw) :
  quiet w → set_user_status st req i s w = (Ok tt, w') →
  ∃ locked t b, update_status i s (db w) = Ok (locked, t) ∧
    w' = set_broker b (put (commit_status i s locked (sessions_of i (db w)) (db w)) w).
Proof.
  intros Hq (c & w1 & Hadm & Hrun)%io_bind_ok.
  apply require_any_ok in Hadm as (-> & _ & _); [|done].
  apply io_bind_ok in Hrun as ([] & w2 & Hg & Hrun).
  assert (w2 = w) as ->.
  { destruct (string_eqb s "disabled"); [|by inv_io]. rewrite guard_quiet in Hg by done.
    by simplify_eq. }
  apply io_bind_ok in Hrun as ([] & w3 & Hs & Hrun). unfold fails, io_map_err in Hs.
  rewrite set_status_quiet in Hs by done.
  destruct (update_status i s (db w)) as [[locked t]|e] eqn:Hu; simplify_eq/=.
  unfold audit_iam in Hrun. edestruct audit_admin_run as [b Hb]. rewrite Hb in Hrun.
  simplify_eq. eauto.
Qed.

Lemma select_user_spec t name row :
  select_user name t = Some row →
  ∃ u, t_users t !! ur_id row = Some u ∧ u_username u = name ∧ ur_status row = u_status u.
Proof.
  unfold select_user. destruct (head (users_named t name)) as [[i u]|] eqn:E; intros; simplify_eq/=.
  apply head_Some_elem_of, users_named_spec in E as [? ?]. eauto.
Qed.

(** A user whose status was changed to anything but active is out: no session of
    theirs is left, a request that was authenticated by one is not any more, and
    every login under their name is refused with the message for a wrong password. *)
Theorem disabled_user_out st req i s u (w w' : appw) :
  quiet w → tables_ok (db w) → t_users (db w) !! i = Some u → s ≠ "active" →
  set_user_status st req i s w = (Ok tt, w') →
  (∀ k r, t_sessions (db w') !! k = Some r → ss_user_id r ≠ i) ∧
  (∀ req' c, request_claims st req' w' = Some c →
     live_session (clock w) (c_session_id c) (db w) = Some i →
     (authenticate_headers st req' w').1 = None) ∧
  (∀ pass, login_action st (u_username u) pass w' = (Err "Invalid credentials", w')).
Proof.
  intros Hq Hok Hu Hs (locked & t & b & Hup & ->)%set_user_status_ok; [|done].
  assert (locked = true) as ->.
  { unfold update_status in Hup. repeat case_bool_decide; simplify_eq/=; congruence. }
  assert (∀ k r, t_sessions (db w) !! k = Some r → ss_user_id r = i →
    k ∈ sessions_of i (db w)) as Hvict.
  { intros k r Hk Hr. unfold sessions_of. apply elem_of_dom. exists r.
    by apply map_lookup_filter_Some. }
  split; [|split].
  - intros k r [Hk Hv]%map_lookup_filter_Some Hr. eauto.
  - intros req' c Hr Hl. apply (no_session _ _ _ c); [done|done|].
    unfold live_session in *. simpl.
    destruct (t_sessions (db w) !! c_session_id c) as [r|] eqn:Hk; simplify_eq/=.
    destruct (clock w <? ss_expires_at r); simplify_eq/=.
    rewrite (proj2 (map_lookup_filter_None _ _ _)); [done|]. right. intros r' Hr' Hn.
    apply Hn. by apply (Hvict _ _ Hk).
  - intros pass. apply login_inactive; [done|].
    intros row (u' & Hu' & Hn & ->)%select_user_spec. simpl in Hu'.
    apply lookup_alter_Some in Hu' as [(-> & v & Hv & ->)|[Hne Hv]]; [done|].
    destruct Hne. by eapply (ok_usernames _ Hok).
Qed.

(** The guard looks for the status [disabled] only: the last enabled administrator
    can be locked, after which none is left. *)
Theorem lock_last_admin st req c i u (w : appw) :
  quiet w → signed_in st req w c → "admin" ∈ c_roles c →
  enabled_admins (db w) = {[ i := u ]} →
  (set_user_status st req i "locked" w).1 = Ok tt ∧
  admin_ids (db (set_user_status st req i "locked" w).2) = ∅.
Proof.
  intros Hq Hs Hr Ha.
  assert (existsb (λ r, string_eqb r "admin") (c_roles c) = true) as Hp.
  { apply existsb_elem. exists "admin". by rewrite string_eqb_eq. }
  assert (t_users (db w) !! i = Some u) as Hu.
  { assert (enabled_admins (db w) !! i = Some u) as Hi by by rewrite Ha, lookup_singleton_eq.
    by apply map_lookup_filter_Some in Hi as [? _]. }
  assert (update_status i "locked" (db w) = Ok (true, db w)) as Hup.
  { unfold update_status. rewrite bool_decide_false by congruence.
    by rewrite bool_decide_true by (unfold user_statuses; set_solver). }
  unfold set_user_status, require_admin.
  rewrite (io_bind_run_ok _ _ _ c w) by by apply require_any_run.
  rewrite (io_bind_run_ok _ _ _ tt w) by done.
  erewrite io_bind_run_ok; [|unfold fails, io_map_err; rewrite set_status_quiet by done;
    by rewrite Hup].
  unfold audit_iam. edestruct audit_admin_run as [b ->]. split; [done|]. simpl.
  apply set_eq. intros j. split; [|set_solver]. rewrite elem_of_admin_ids. simpl. intros [Hg Hj].
  destruct (decide (j = i)) as [->|Hne].
  - rewrite lookup_alter_eq, Hu in Hj. by simplify_eq.
  - rewrite lookup_alter_ne in Hj by done.
    assert (j ∈ admin_ids (db w)) as Hin by by rewrite elem_of_admin_ids.
    unfold admin_ids in Hin. rewrite Ha, dom_singleton in Hin. set_solver.
Qed.

(** The roles a request is checked against are those of its token: after a role is
    revoked, requests that passed a role check still pass it. *)
Theorem revoked_role_still_passes st req i slug p req' c (w w' : appw) :
  quiet w → revoke_role st req i slug w = (Ok tt, w') →
  require_any p st req' w = (Ok c, w) → require_any p st req' w' = (Ok c, w').
Proof.
  intros Hq (c0 & w1 & Hadm & Hrun)%io_bind_ok (_ & Hs & Hp)%require_any_ok; [|done].
  apply require_any_ok in Hadm as (-> & _ & _); [|done].
  apply io_bind_ok in Hrun as ([] & w2 & Hg & Hrun).
  assert (w2 = w) as ->.
  { destruct (string_eqb slug "admin"); [|by inv_io]. rewrite guard_quiet in Hg by done.
    by simplify_eq. }
  apply io_bind_ok in Hrun as ([] & w3 & Hd & Hrun).
  unfold fails, io_map_err, db_revoke_role, execute_sql in Hd.
  rewrite query_quiet in Hd by done. simplify_eq/=.
  unfold audit_iam in Hrun. edestruct audit_admin_run as [b Hb]. rewrite Hb in Hrun.
  simplify_eq. by apply require_any_run.
Qed.

Lemma hash_password_run x (w : appw) :
  ∃ salt r, hash_password x w = (Ok (bcrypt_hash salt x), set_rng r w).
Proof.
  unfold hash_password, random_bytes, mbind, io_bind.
  destruct (fill_bytes 16 (ap_rng w)) as [salt r]. by exists salt, r.
Qed.

#[local] Opaque hash_password.

(** A password is changed only for a signed-in caller who knows the current one, to
    one of at least eight bytes, and only in the caller's own row; the new hash
    accepts the new password. A refused call leaves the tables as they are. *)
Theorem change_password_spec st req cur new r (w w' : appw) :
  quiet w → change_my_password st req cur new w = (r, w') →
  match r with
  | Ok _ => ∃ c row hash,
      signed_in st req w c ∧ (8 ≤ length (bytes new))%nat ∧
      select_user (c_sub c) (db w) = Some row ∧
      verify_password cur (ur_password_hash row) = true ∧ verify_password new hash = true ∧
      db w' = set_users (alter (with_password hash) (c_user_id c) (t_users (db w))) (db w)
  | Err _ => db w' = db w
  end.
Proof.
  intros Hq. unfold change_my_password, mbind, io_bind. unfold require_authenticated.
  pose proof (λ c, proj1 (authenticate_some st req w c Hq)) as Hs.
  rewrite authenticate_quiet in Hs |- * by done. cbn [fst] in Hs.
  destruct (request_claims st req w ≫= _) as [c|]; simpl; [|by intros [= <- <-]].
  specialize (Hs c eq_refl).
  destruct (length (bytes new) <? 8)%nat eqn:Hlen; [by intros [= <- <-]|].
  apply Nat.ltb_ge in Hlen. unfold fails, io_map_err. rewrite find_user_quiet by done. simpl.
  destruct (select_user (c_sub c) (db w)) as [row|] eqn:Hrow; simpl; [|by intros [= <- <-]].
  destruct (verify_password cur _) eqn:Hpw; simpl; [|by intros [= <- <-]].
  destruct (hash_password_run new w) as (salt & rn & ->).
  unfold on_db, zoom. rewrite pool_quiet by done. simpl.
  unfold execute_sql. rewrite sql_quiet by done. simpl.
  unfold audit_iam. edestruct audit_admin_run as [b ->]. intros [= <- <-].
  exists c, row, (bcrypt_hash salt new). split_and!; try done.
  unfold verify_password. by rewrite bcrypt_correct.
Qed.

#[local] Transparent hash_password.

Lemma generate_secret_run (w : appw) :
  generate_secret w =
    (Ok (hex_bytes (fill_bytes 32 (ap_rng w)).1), set_rng (fill_bytes 32 (ap_rng w)).2 w).
Proof.
  unfold generate_secret, random_bytes, mbind, io_bind. by destruct (fill_bytes 32 (ap_rng w)).
Qed.

#[local] Opaque generate_secret fill_bytes.

(** What [set_user_status] of another request commits. *)
Definition disabled_elsewhere (i : Uuid) : dbstep :=
  mkDbStep 0 (λ t, commit_status i "disabled" true (sessions_of i t) t) Answered.

Lemma sql_answered {A} (f : Z → tables → result string (A * tables)) p s l :
  pg_steps p = s :: l → ds_outcome s = Answered → ds_elapsed s = 0%N →
  sql f p =
    let p1 := mkPg (ds_others s (pg_tables p)) l (pg_now p) (pg_uuids p) (pg_drawn p) in
    match f (pg_now p) (ds_others s (pg_tables p)) with
    | Ok (a, t) => (Ok a, set_tables t p1)
    | Err c => (Err (violation c), p1)
    end.
Proof.
  intros Hs Ho He. unfold sql, arrive. rewrite Hs. simpl. rewrite Ho, He, Z.add_0_r.
  by destruct (f _ _) as [[]|].
Qed.

(** A query whose two round trips are answered at once, others committing before. *)
Lemma query_answered {A} c (f : Z → tables → result string (A * tables)) (w : appw) s1 s2 l :
  pg_steps (ap_pg w) = s1 :: s2 :: l →
  ds_outcome s1 = Answered → ds_elapsed s1 = 0%N →
  ds_outcome s2 = Answered → ds_elapsed s2 = 0%N →
  on_db (client ≫= λ _, context c (sql f)) w =
  let t := ds_others s2 (ds_others s1 (db w)) in
  let w1 := set_pg (mkPg t l (clock w) (pg_uuids (ap_pg w)) (pg_drawn (ap_pg w))) w in
  match f (clock w) t with
  | Ok (a, t') => (Ok a, put t' w1)
  | Err _ => (Err c, w1)
  end.
Proof.
  intros Hs Ho1 He1 Ho2 He2.
  unfold on_db, zoom, client, pool_get, select, context, io_map_err, mbind, io_bind.
  rewrite (sql_answered _ _ s1 (s2 :: l)) by done. cbn.
  rewrite (sql_answered _ _ s2 l) by done. cbn. unfold db, clock, put.
  by destruct (f _ _) as [[]|].
Qed.

(** A login that has read the account before another request disables it still
    inserts its session afterwards: the account is disabled, and the token it hands
    out is accepted. *)
Theorem login_outlives_disable st name pass row (w : appw) :
  pg_steps (ap_pg w) = [quiet_db; quiet_db; disabled_elsewhere (ur_id row); quiet_db] →
  select_user name (db w) = Some row → ur_status row = "active" →
  verify_password pass (ur_password_hash row) = true →
  t_sessions (db w) !! hex_bytes (fill_bytes 32 (ap_rng w)).1 = None →
  let '(r, w') := login_action st name pass w in
  r = Ok true ∧ u_status <$> t_users (db w') !! ur_id row = Some "disabled" ∧
  ∃ token c, ap_cookies w' = ap_cookies w ++ [login_cookie token] ∧
    (authenticate_headers st (sends token) w').1 = Some c.
Proof.
  intros Hsteps Hrow Hst Hpw Hfresh.
  destruct (select_user_spec _ _ _ Hrow) as (u & Hu & _ & _).
  unfold login_action, fails, find_user, select, io_map_err.
  erewrite io_bind_run_ok; [|by erewrite query_answered by done].
  erewrite io_bind_run_ok; [|unfold lift, id; cbn; by rewrite Hrow].
  rewrite Hst, Hpw. change (negb (string_eqb "active" "active")) with false.
  change (negb true) with false. cbv iota.
  erewrite io_bind_run_ok; [|apply generate_secret_run].
  set (k := hex_bytes _). change (t_sessions (db w) !! k = None) in Hfresh.
  erewrite io_bind_run_ok; [|done].
  assert (filter (λ p, p.1 ∉ sessions_of (ur_id row) (db w)) (t_sessions (db w)) !! k = None)
    as Hnone by (apply map_lookup_filter_None; by left).
  erewrite io_bind_run_ok; cycle 1.
  { unfold insert_session. erewrite query_answered by done. cbn.
    rewrite bool_decide_false by (rewrite Hnone; by intros [? ?]).
    rewrite bool_decide_false by (rewrite lookup_alter_eq; by rewrite Hu).
    reflexivity. }
  split; [done|]. split; [unfold db in *; simpl; by rewrite lookup_alter_eq, Hu|].
  eexists _, _. split; [done|]. apply authenticate_some; [done|]. split.
  - apply request_claims_sends. unfold now_secs. simpl. lia.
  - unfold live_session. simpl. rewrite lookup_insert_eq. unfold clock at 1. simpl.
    rewrite (proj2 (Z.ltb_lt (clock w) (clock w + SESSION_MS))) by (unfold SESSION_MS; lia).
    done.
Qed.
End Iam.

(** ** Witnesses *)

Module IamDemo.
Import DemoSemVer AppDbDemo.

(** A token is the binary text of its secret and claims. *)
Definition claims_tuple (c : Claims) :=
  (c_sub c, c_user_id c, c_role c, c_roles c, c_exp c, c_session_id c).
Definition tuple_claims '(sub, id, role, roles, exp, sid) : Claims :=
  mkClaims sub id role roles exp sid.

#[local] Instance Claims_eq_dec : EqDecision Claims.
Proof. solve_decision. Defined.
#[local] Instance Claims_countable : Countable Claims.
Proof. apply (inj_countable' claims_tuple tuple_claims). by intros []. Defined.

Lemma bits_text p : Forall (λ a, token_byte a = true) (bytes (bits p)).
Proof. induction p; simpl; auto. Qed.

Definition token_of (secret : string) (c : Claims) : string := bits (encode (secret, c)).
Definition claims_of (secret : string) (now : Z) (t : string) : option Claims :=
  match decode (unbits t) with
  | Some (s, c) => if bool_decide (s = secret) && (now <? c_exp c) then Some c else None
  | None => None
  end.

Lemma claims_of_token secret c now :
  now < c_exp c → claims_of secret now (token_of secret c) = Some c.
Proof.
  intros Hn. unfold claims_of, token_of. rewrite unbits_bits, decode_encode.
  rewrite bool_decide_true by done. by rewrite (proj2 (Z.ltb_lt _ _) Hn).
Qed.

#[export] Instance jwt : Jwt :=
  {| jwt_fresh := claims_of_token; jwt_text secret c := bits_text (encode (secret, c)) |}.

Definition plain_verify (p h : string) : option bool := Some (string_eqb h ("#" +:+ p)).

Lemma plain_correct (salt : list ascii) p : plain_verify p ("#" +:+ p) = Some true.
Proof. unfold plain_verify. by rewrite (proj2 (string_eqb_eq _ _)). Qed.

#[export] Instance bcrypt : Bcrypt :=
  {| bcrypt_hash salt p := "#" +:+ p; bcrypt_correct := plain_correct |}.

Definition world_on (p : pg) :
    app (bworld InMemoryRegistry StubVault (list StubRecord)) InProcWorkingMemory :=
  mkApp p (BrokerDemo.world kill_new []) (in_proc_new 0) ∅ 30
    (mkRng (λ n, ascii_of_nat n) 0) ∅ [].
Definition world := world_on seeded.
Definition st : AppState (D := list StubRecord) :=
  mkState "secret" (BrokerDemo.broker BrokerDemo.policy).

Definition alice : Claims := new_claims 0 "alice" "u0" ["admin"] "sa".
Definition bob : Claims := new_claims 0 "bob" "u1" ["admin"] "sb".
Definition as_user (c : Claims) : request := sends (jwt_encode "secret" c).

(** Alone: bob has been disabled. *)
Definition alone := (set_user_status st (as_user alice) "u1" "disabled" world).2.
Definition debug (s : string) : string := s.

Lemma world_ok : tables_ok (db world).
Proof. unfold db, world, world_on. cbn [ap_pg]. apply seeded_ok. Qed.

Lemma signed c (w : app (bworld InMemoryRegistry StubVault (list StubRecord)) InProcWorkingMemory) :
  bool_decide (request_claims st (as_user c) w = Some c ∧
    is_Some (live_session (clock w) (c_session_id c) (db w))) = true →
  signed_in st (as_user c) w c.
Proof. intros Hb. by apply bool_decide_eq_true in Hb. Qed.
End IamDemo.
Import DemoSemVer AppDbDemo IamDemo.

Lemma iam_admin_only_witness :
  run_iam debug st (mkRequest None) (IAssignRole "u2" "admin") world =
    (Err "unauthenticated", world).
Proof.
  destruct (iam_admin_only debug st (mkRequest None) (IAssignRole "u2" "admin") world eq_refl)
    as [(c & Hc & _)|[[Hr|Hr] _]]; [discriminate Hc|exact Hr|discriminate (f_equal fst Hr)].
Defined.

Lemma last_admin_kept_witness :
  admin_ids (db (run_iam debug st (as_user alice) (ISetUserStatus "u1" "disabled") world).2) ≠ ∅.
Proof.
  apply (last_admin_kept debug st (as_user alice) (ISetUserStatus "u1" "disabled") world);
    [reflexivity| |intros i Hi; discriminate Hi].
  intros He. assert (bool_decide (admin_ids (db world) = ∅) = true) as Hb
    by (apply bool_decide_eq_true; exact He).
  revert Hb. vm_compute. discriminate.
Defined.

Lemma login_roundtrip_witness :
  (login_action st "alice" "alice-pw" world).1 = Ok true ∧
  ∃ token c,
    ap_cookies (login_action st "alice" "alice-pw" world).2 = [login_cookie token] ∧
    (authenticate_headers st (sends token)
       (tick 3600000 (login_action st "alice" "alice-pw" world).2)).1 = Some c.
Proof.
  split; [vm_compute; reflexivity|].
  destruct (login_roundtrip st "alice" "alice-pw" world
    (login_action st "alice" "alice-pw" world).2) as (row & s & t & _ & _ & _ & Hc & _ & Ha & _);
    [reflexivity|apply run_split; vm_compute; reflexivity|].
  exists t. eexists. split; [exact Hc|]. apply Ha; unfold SESSION_MS; lia.
Defined.

Lemma logout_revokes_witness :
  (authenticate_headers st (as_user alice) (logout st (as_user alice) world).2).1 = None.
Proof.
  refine (proj2 (logout_revokes st (as_user alice) alice world
    (logout st (as_user alice) world).2 _ _ _) st (as_user alice) alice _ eq_refl);
    [reflexivity|vm_compute; reflexivity|apply run_split; vm_compute; reflexivity|].
  vm_compute; reflexivity.
Defined.

Lemma disabled_user_out_witness :
  (authenticate_headers st (as_user bob) alone).1 = None ∧
  login_action st "bob" "bob-pw" alone = (Err "Invalid credentials", alone).
Proof.
  assert ((set_user_status st (as_user alice) "u1" "disabled" world).1 = Ok tt) as Hr
    by (vm_compute; reflexivity).
  assert (t_users (db world) !! "u1" = Some (mkUserRec "bob" None "#bob-pw" "active" None))
    as Hu by (vm_compute; reflexivity).
  assert ("disabled" ≠ "active") as Hs by discriminate.
  destruct (disabled_user_out st (as_user alice) "u1" "disabled" _ world _ eq_refl
    world_ok Hu Hs (run_split _ _ Hr)) as (_ & Ha & Hl).
  unfold alone.
  split; [|exact (Hl "bob-pw")].
  apply (Ha (as_user bob) bob); vm_compute; reflexivity.
Defined.

Lemma lock_last_admin_witness :
  admin_ids (db (set_user_status st (as_user alice) "u0" "locked" alone).2) = ∅.
Proof.
  apply (lock_last_admin st (as_user alice) alice "u0"
    (mkUserRec "alice" None "#alice-pw" "active" None) alone);
    [vm_compute; reflexivity|apply signed; vm_compute; reflexivity|left|].
  vm_compute. reflexivity.
Defined.

Lemma revoked_role_still_passes_witness :
  require_admin st (as_user bob) (revoke_role st (as_user alice) "u1" "admin" world).2 =
  (Ok bob, (revoke_role st (as_user alice) "u1" "admin" world).2).
Proof.
  assert ((revoke_role st (as_user alice) "u1" "admin" world).1 = Ok tt) as Hr
    by (vm_compute; reflexivity).
  assert (require_any (λ r, string_eqb r "admin") st (as_user bob) world = (Ok bob, world)) as Hb.
  { apply require_any_run; [reflexivity|apply signed; vm_compute; reflexivity|reflexivity]. }
  exact (revoked_role_still_passes st (as_user alice) "u1" "admin" _ (as_user bob) bob world _
    eq_refl (run_split _ _ Hr) Hb).
Defined.

Lemma change_password_spec_witness :
  ∃ hash,
    (change_my_password st (as_user alice) "alice-pw" "correct horse" world).1 = Ok tt ∧
    verify_password "correct horse" hash = true ∧
    u_password_hash <$> t_users (db (change_my_password st (as_user alice) "alice-pw"
      "correct horse" world).2) !! "u0" = Some hash.
Proof.
  assert ((change_my_password st (as_user alice) "alice-pw" "correct horse" world).1 = Ok tt)
    as Hr by (vm_compute; reflexivity).
  destruct (change_password_spec st (as_user alice) "alice-pw" "correct horse" (Ok tt) world
    (change_my_password st (as_user alice) "alice-pw" "correct horse" world).2 eq_refl
    (run_split _ _ Hr)) as (c & row & hash & [Hc _] & _ & _ & _ & Hv & Hdb).
  exists hash. split; [exact Hr|]. split; [exact Hv|]. rewrite Hdb.
  unfold set_users. cbn [t_users]. assert (c = alice) as ->.
  { assert (request_claims st (as_user alice) world = Some alice) as Ha
      by (vm_compute; reflexivity). congruence. }
  change (c_user_id alice) with "u0". rewrite lookup_alter_eq. vm_compute. reflexivity.
Defined.

Lemma login_outlives_disable_witness :
  let w := world_on (mkPg (pg_tables seeded) [quiet_db; quiet_db; disabled_elsewhere "u0"; quiet_db]
             0 uuids 3) in
  (login_action st "alice" "alice-pw" w).1 = Ok true ∧
  u_status <$> t_users (db (login_action st "alice" "alice-pw" w).2) !! "u0" = Some "disabled".
Proof.
  intros w. pose proof (login_outlives_disable st "alice" "alice-pw"
    (mkUserRow "u0" "alice" "#alice-pw" "active" ["admin"]) w) as Hl.
  destruct (login_action st "alice" "alice-pw" w) as [r w'].
  destruct Hl as (Hr & Hs & _);
    [reflexivity|vm_compute; reflexivity|reflexivity|vm_compute; reflexivity|
     vm_compute; reflexivity|].
  exact (conj Hr Hs).
Defined.
