(* ===== verification/Config.v ===== *)
(** * daimon-app: settings
    ([daimon-app/src/config.rs], [config_keys.rs], [secret_resolve.rs],
    [admin_settings.rs], [AppState::apply_runtime_tunables])

    Settings are JSON rows of [public.app_config]. A live snapshot of them is read
    with the precedence database, environment, default; a write stores the row,
    audits it, reloads the snapshot and pushes the tunables into the guard and the
    observer. A secret's text goes to the vault through the broker and the row keeps
    a [vault://] reference. [env] is the process environment ([std::env::var(..).ok()])
    and [fetch] the release feeds' HTTP answers. *)

From stdpp Require Import sorting.
From S2P Require Import Prelude RustStd Json Core KillSwitch Policy Approvals Guard.
From S2P Require Import Inventory AuditLog Broker Admin HotMemory AppDb Iam.
From S2P Require Import Vault.
From Stdlib Require Import ZArith Ascii.

Local Open Scope Z_scope.

(** ** Reading ([config.rs]) *)

(** [ConfigSnapshot]. *)
Abbreviation ConfigSnapshot := (gmap string json) (only parsing).

(** [from_pairs]: a later pair wins. *)
Definition from_pairs (l : list (string * json)) : ConfigSnapshot :=
  fold_left (λ m kv, <[kv.1 := kv.2]> m) l ∅.

Definition parse_u64 : string → option Z := parse_int false 0 (2^64 - 1).

(** [parse_bool]. *)
Definition parse_bool (s : string) : option bool :=
  let t := to_ascii_lowercase (trim s) in
  if bool_decide (t ∈ ["true"; "1"; "yes"; "on"]) then Some true
  else if bool_decide (t ∈ ["false"; "0"; "no"; "off"]) then Some false
  else None.

Definition nonempty (s : string) : option string := if string_eqb s "" then None else Some s.

Section Reading.
Variable env : string → option string.

Definition from_env {A} (e : option string) (f : string → option A) : option A :=
  (e ≫= env) ≫= f.

(** [opt_string], [string], [u64], [bool]. *)
Definition cfg_opt_string (c : ConfigSnapshot) (key : string) (e : option string) :
    option string :=
  match (c !! key ≫= as_str) ≫= nonempty with
  | Some s => Some s
  | None => from_env e nonempty
  end.

Definition cfg_string (c : ConfigSnapshot) (key : string) (e : option string) (dflt : string) :
    string :=
  default dflt (cfg_opt_string c key e).

Definition db_u64 (v : json) : option Z :=
  match as_u64 v with Some n => Some n | None => as_str v ≫= parse_u64 end.

Definition cfg_u64 (c : ConfigSnapshot) (key : string) (e : option string) (dflt : Z) : Z :=
  match c !! key ≫= db_u64 with
  | Some n => n
  | None => default dflt (from_env e parse_u64)
  end.

Definition db_bool (v : json) : option bool :=
  match as_bool v with Some b => Some b | None => as_str v ≫= parse_bool end.

Definition cfg_bool (c : ConfigSnapshot) (key : string) (e : option string) (dflt : bool) :
    bool :=
  match c !! key ≫= db_bool with
  | Some b => b
  | None => default dflt (from_env e parse_bool)
  end.

(** [under_prefix]. *)
Definition under_prefix (c : ConfigSnapshot) (prefix : string) : ConfigSnapshot :=
  filter (λ kv, starts_with kv.1 prefix = true) c.
End Reading.

(** ** The consumed keys ([config_keys.rs]) *)

(** [CONSUMED_KEYS], without the descriptions, which are only rendered. *)
Definition CONSUMED_KEYS : list string :=
  ["identity.org_name"; "llm.provider"; "llm.default_model.chat"; "llm.available_models";
   "llm.anthropic_key"; "llm.openai_key"; "llm.ollama_url"; "guard.approval_timeout_secs";
   "guard.blast_radius_depth"; "observer.prom_poll_interval_secs";
   "channels.telegram.enabled"; "channels.telegram.mode"; "channels.telegram.bot_token_cred";
   "channels.telegram.webhook_secret_cred"; "channels.telegram.offset"; "channels.matrix.";
   "channels.alerts."; "targets."; "chat.history_retention_days"].

Definition READ_ONLY_PREFIXES : list string := ["connections."; "vault."].

Definition MANAGED_LINT_PREFIXES : list string :=
  ["identity."; "llm."; "guard."; "observer."; "channels."; "targets."].

Definition entry_consumes (key k : string) : bool :=
  match strip_suffix "." k with
  | Some prefix =>
      starts_with key prefix && (length (bytes prefix) <? length (bytes key))%nat
  | None => string_eqb key k
  end.

(** [is_consumed]. *)
Definition is_consumed (key : string) : bool := existsb (entry_consumes key) CONSUMED_KEYS.

(** [is_read_only_key]. *)
Definition is_read_only_key (key : string) : bool :=
  existsb (starts_with key) READ_ONLY_PREFIXES.

(** [consumed_keys_under]. *)
Definition consumed_keys_under (prefix : string) : list string :=
  List.filter (λ k, starts_with k prefix) CONSUMED_KEYS.

Definition is_orphan (k : string) : bool :=
  existsb (starts_with k) MANAGED_LINT_PREFIXES && negb (is_consumed k)
    && negb (is_read_only_key k).

(** [orphan_keys]. *)
Definition orphan_keys (all_keys : list string) : list string := List.filter is_orphan all_keys.

Lemma entry_consumes_spec key k :
  entry_consumes key k = true ↔
  key = k ∧ strip_suffix "." k = None ∨
  ∃ p rest, k = p +:+ "." ∧ rest ≠ "" ∧ key = p +:+ rest.
Proof.
  unfold entry_consumes. destruct (strip_suffix "." k) as [p|] eqn:E.
  - apply strip_suffix_Some in E as ->. rewrite andb_true_iff, Nat.ltb_lt, starts_with_spec.
    split.
    + intros [[r ->] Hl]. right. exists p, r. split; [done|]. split; [|done].
      intros ->. rewrite string_app_nil_r in Hl. lia.
    + intros [[_ Hn]|(q & r & Hp & Hr & ->)]; [done|].
      assert (p = q) as <-.
      { apply bytes_inj. apply (f_equal bytes) in Hp. rewrite !bytes_app in Hp.
        by apply app_inj_tail in Hp as [? _]. }
      split; [eauto|]. rewrite bytes_app, length_app. destruct r; simpl; [done|lia].
  - rewrite string_eqb_eq. split; [auto|]. intros [[? _]|(p & r & -> & _ & _)]; [done|].
    exfalso. assert (strip_suffix "." (p +:+ ".") = Some p) by by apply strip_suffix_Some.
    congruence.
Qed.

(** The dot of a prefix entry is dropped before matching: a key that continues the
    domain's name without a dot counts as consumed, and the lint does not report it. *)
Lemma consumed_without_dot :
  is_consumed "channels.matrixroom" = true ∧ is_consumed "targetsx" = true ∧
  is_orphan "channels.alertsx" = false.
Proof. done. Qed.

(** The lint is silent exactly when every key of a managed domain is an exact
    consumed key, continues a consumed prefix, or is read-only. *)
Lemma orphan_keys_nil l :
  orphan_keys l = [] ↔
  ∀ k, k ∈ l → existsb (starts_with k) MANAGED_LINT_PREFIXES = true →
    is_consumed k = true ∨ is_read_only_key k = true.
Proof.
  unfold orphan_keys. induction l as [|k l IH]; [set_solver|]. simpl.
  unfold is_orphan at 1. setoid_rewrite elem_of_cons.
  destruct (existsb (starts_with k) MANAGED_LINT_PREFIXES) eqn:Hm,
    (is_consumed k) eqn:Hc, (is_read_only_key k) eqn:Hr; simpl; rewrite ?IH;
    try naive_solver congruence.
Qed.

(** ** Secrets and settings *)

(** [LIKE]: [%] stands for any text, [_] for one character, and a backslash makes
    the next character literal. *)
Fixpoint sql_like (p s : list char) : bool :=
  match p with
  | [] => match s with [] => true | _ => false end
  | c :: p' =>
      if string_eqb c "%" then
        (fix any s := sql_like p' s || match s with [] => false | _ :: s' => any s' end) s
      else if string_eqb c "_" then match s with [] => false | _ :: s' => sql_like p' s' end
      else if string_eqb c "\" then
        match p', s with
        | e :: p'', x :: s' => string_eqb x e && sql_like p'' s'
        | _, _ => false
        end
      else match s with [] => false | x :: s' => string_eqb x c && sql_like p' s' end
  end.

(** [secret_text]. *)
Definition secret_text (v : json) : option string :=
  match v with
  | JString s => Some s
  | JInt z => Some (show_Z z)
  | JFloat r => Some r
  | JBool b => Some (if b then "true" else "false")
  | _ => None
  end.

(** [SettingRow]; times are kept as numbers. *)
Record SettingRow := mkSetting {
  sr_key : string; sr_value : json; sr_is_secret : bool; sr_updated_at : Z }.

Section Settings.
Context `{SemVer} {I V D M : Type} `{VaultAdmin V} `{PgMessages} `{Jwt} `{Bcrypt}.
Abbreviation bw := (@bworld _ I V D).
Abbreviation appw := (app bw M).
Abbreviation aio := (io appw string).
Variable env : string → option string.

Definition set_live (c : ConfigSnapshot) (w : appw) : appw :=
  mkApp (ap_pg w) (ap_broker w) (ap_hot w) c (ap_interval w) (ap_rng w) (ap_files w)
    (ap_cookies w).
Definition set_interval (z : Z) (w : appw) : appw :=
  mkApp (ap_pg w) (ap_broker w) (ap_hot w) (ap_config w) z (ap_rng w) (ap_files w)
    (ap_cookies w).
Definition set_files (f : gmap string string) (w : appw) : appw :=
  mkApp (ap_pg w) (ap_broker w) (ap_hot w) (ap_config w) (ap_interval w) (ap_rng w) f
    (ap_cookies w).

(** A broker call, its error rendered with [Display]. *)
Definition on_broker {A} (m : io bw BrokerError A) : aio A :=
  io_map_err show_broker_error (zoom ap_broker set_broker m).

(** *** [secret_resolve.rs] *)

Definition find_named (name : string) (l : list CredentialMetadata) : option CredentialMetadata :=
  find (λ m, string_eqb (cm_name m) name) l.

Definition reveal_token (b : Broker (D := D)) (actor : string) (id : Uuid) (w : bw) :
    option string * bw :=
  let '(r, w) := vault_reveal b actor id w in
  (match r with Ok (ApiToken token) => Some token | _ => None end, w).

(** [resolve_vault_api_token]. *)
Definition resolve_vault_api_token (b : Broker (D := D)) (cred_name actor : string) (w : bw) :
    option string * bw :=
  let '(r, w) := vault_list_metadata b actor w in
  match r with
  | Ok metas =>
      match find_named cred_name metas with
      | Some m => reveal_token b actor (cm_id m) w
      | None => (None, w)
      end
  | Err _ => (None, w)
  end.

(** [resolve_maybe_ref]. *)
Definition resolve_maybe_ref (b : Broker (D := D)) (value actor : string) (w : bw) :
    option string * bw :=
  match strip_prefix "vault://" value with
  | Some name => resolve_vault_api_token b name actor w
  | None => (nonempty value, w)
  end.

(** *** [config.rs], [state.rs] *)

(** [load_snapshot], [ConfigResolver::reload]. *)
Definition reload : aio unit :=
  on_db pool_get ≫= λ _,
  on_db (select (λ _ t, cf_value <$> t_config t)) ≫= λ snap,
  modify (set_live snap).

(** [apply_runtime_tunables]. *)
Definition apply_runtime_tunables (st : AppState (D := D)) (cfg : ConfigSnapshot) (w : appw) :
    appw :=
  let timeout := cfg_u64 env cfg "guard.approval_timeout_secs"
    (Some "DAIMON_APPROVAL_TIMEOUT_SECS") DEFAULT_APPROVAL_TIMEOUT_SECS in
  let w := match br_guard (st_broker st) with
    | Some _ => set_broker (set_guard (set_approval_timeout_secs timeout (b_guard (ap_broker w)))
                  (ap_broker w)) w
    | None => w
    end in
  let interval := cfg_u64 env cfg "observer.prom_poll_interval_secs"
    (Some "DAIMON_PROM_POLL_INTERVAL_SECS") 30 in
  set_interval interval w.

(** The tail of every settings write. *)
Definition refresh (st : AppState (D := D)) : aio unit :=
  attempt reload ≫= λ _, modify (λ w, apply_runtime_tunables st (ap_config w) w).

(** *** [admin_settings.rs] *)

(** [intercept_secret]. *)
Definition intercept_secret (st : AppState (D := D)) (actor vault_name plaintext : string) :
    aio unit :=
  on_broker (vault_list_metadata (st_broker st) actor) ≫= λ existing,
  match find_named vault_name existing with
  | Some m => on_broker (vault_update (st_broker st) actor (cm_id m) (ApiToken plaintext))
  | None => on_broker (vault_create (st_broker st) actor vault_name (ApiToken plaintext))
              ≫= λ _, mret tt
  end.

(** [list_settings]. *)
Definition list_settings (st : AppState (D := D)) (req : request) (prefix : string) :
    aio (list SettingRow) :=
  require_admin st req ≫= λ _,
  fails "pool" (on_db pool_get) ≫= λ _,
  fails "query" (on_db (select (λ _ t,
    (λ '(k, c), mkSetting k (cf_value c) (cf_is_secret c) (cf_updated_at c))
      <$> filter (λ kc, sql_like (chars (prefix +:+ "%")) (chars kc.1) = true)
            (btree_iter (t_config t))))).

(** What [set_setting] stores for a secret. *)
Definition persist_secret (st : AppState (D := D)) (actor key : string) (value : json) :
    aio json :=
  match secret_text value with
  | Some text =>
      if starts_with text "vault://" then mret (JString text)
      else if negb (string_eqb text "") then
        let vault_name := "settings." +:+ key in
        fails "vault store" (intercept_secret st actor vault_name text) ≫= λ _,
        mret (JString ("vault://" +:+ vault_name))
      else mret (JString "")
  | None => mret (JString "")
  end.

Definition upsert_setting (key : string) (v : json) (is_secret : bool) (by_ : Uuid) (now : Z)
    (t : tables) : result string (unit * tables) :=
  if bool_decide (t_users t !! by_ = None) then Err "app_config_updated_by_fkey"
  else Ok (tt, set_app_config (<[key := mkConfigRow v is_secret now (Some by_)]> (t_config t)) t).

Definition show_bool (b : bool) : string := if b then "true" else "false".

(** [set_setting]. *)
Definition set_setting (st : AppState (D := D)) (req : request) (key : string) (value : json)
    (is_secret : bool) : aio unit :=
  require_admin st req ≫= λ claims,
  fails "pool" (on_db pool_get) ≫= λ _,
  (if is_secret then persist_secret st (c_sub claims) key value else mret value)
    ≫= λ persist_value,
  fails "upsert" (on_db (sql (upsert_setting key persist_value is_secret (c_user_id claims))))
    ≫= λ _,
  audit_admin st (c_sub claims) None (Some ("settings.upsert " +:+ key))
    (<["settings.is_secret" := show_bool is_secret]> {["settings.key" := key]}) ≫= λ _,
  refresh st.

(** [delete_setting]. *)
Definition delete_setting (st : AppState (D := D)) (req : request) (key : string) : aio unit :=
  require_admin st req ≫= λ claims,
  fails "pool" (on_db pool_get) ≫= λ _,
  fails "delete" (on_db (execute_sql (λ _ t,
    set_app_config (delete key (t_config t)) t))) ≫= λ _,
  audit_admin st (c_sub claims) None (Some ("settings.delete " +:+ key))
    {["settings.key" := key]} ≫= λ _,
  refresh st.

(** *** Properties *)

Lemma pool_run (w : appw) : quiet w → on_db pool_get w = (Ok tt, w).
Proof. intros Hq. unfold on_db, zoom. rewrite pool_quiet by done. by destruct w. Qed.

Lemma sql_run {A} (f : Z → tables → result string (A * tables)) (w : appw) :
  quiet w → on_db (sql f) w =
    match f (clock w) (db w) with
    | Ok (a, t) => (Ok a, put t w)
    | Err c => (Err (violation c), w)
    end.
Proof.
  intros Hq. unfold on_db, zoom. rewrite sql_quiet by done. unfold clock, db, put.
  destruct w as [p]; simpl. by destruct (f _ _) as [[]|].
Qed.

Lemma reload_run (w : appw) :
  quiet w → reload w = (Ok tt, set_live (cf_value <$> t_config (db w)) w).
Proof.
  intros Hq. unfold reload. rewrite (io_bind_run_ok _ _ _ tt w) by by apply pool_run.
  rewrite (io_bind_run_ok _ _ _ (cf_value <$> t_config (db w)) w); [done|].
  unfold select. rewrite sql_run by done. by rewrite put_db.
Qed.

(** The live snapshot is the table, and the tunables are what it says. *)
Definition live (st : AppState (D := D)) (w : appw) : Prop :=
  ap_config w = cf_value <$> t_config (db w) ∧
  ap_interval w = cfg_u64 env (ap_config w) "observer.prom_poll_interval_secs"
    (Some "DAIMON_PROM_POLL_INTERVAL_SECS") 30 ∧
  let secs := cfg_u64 env (ap_config w) "guard.approval_timeout_secs"
    (Some "DAIMON_APPROVAL_TIMEOUT_SECS") DEFAULT_APPROVAL_TIMEOUT_SECS in
  (br_guard (st_broker st) ≠ None → 0 < secs → g_timeout_secs (b_guard (ap_broker w)) = secs).

Lemma refresh_run st (w : appw) :
  quiet w → ∃ w', refresh st w = (Ok tt, w') ∧ live st w' ∧ quiet w' ∧ db w' = db w ∧
    b_vault (ap_broker w') = b_vault (ap_broker w).
Proof.
  intros Hq. unfold refresh.
  rewrite (io_bind_run_ok _ _ _ (Ok tt) (set_live (cf_value <$> t_config (db w)) w)) by
    (unfold attempt; by rewrite reload_run).
  eexists. split; [done|]. unfold apply_runtime_tunables, live. simpl.
  destruct (br_guard (st_broker st)); simpl; (split; [|done]); split_and!; try done.
  intros _ Hs. unfold set_approval_timeout_secs. by rewrite (proj2 (Z.ltb_lt _ _) Hs).
Qed.

Lemma audit_admin_vault st a t s m (w : appw) :
  ∃ b, audit_admin st a t s m w = (Ok tt, set_broker b w) ∧ b_vault b = b_vault (ap_broker w).
Proof.
  unfold audit_admin, attempt, zoom, audit_admin_action, require_audit_sink, io_map_err,
    sink_append, mbind, io_bind, throw, mret, io_ret.
  destruct (br_audit (st_broker st)); simpl; [|by eexists].
  destruct (b_audit_faults (ap_broker w)) as [|[e|] f]; simpl; by eexists.
Qed.

Lemma fails_ok {A} what (m : aio A) w a w1 : m w = (Ok a, w1) → fails what m w = (Ok a, w1).
Proof. unfold fails, io_map_err. by intros ->. Qed.

(** Broker calls leave the database alone. *)
Definition same_pg (w w' : appw) : Prop := ap_pg w' = ap_pg w.

#[local] Instance same_pg_refl : Reflexive same_pg.
Proof. by intros w. Qed.
#[local] Instance same_pg_trans : Transitive same_pg.
Proof. unfold same_pg. intros w1 w2 w3. congruence. Qed.

Lemma on_broker_pg {A} (m : io bw BrokerError A) : evolves same_pg (on_broker m).
Proof. intros w. unfold on_broker, io_map_err, zoom. by destruct (m (ap_broker w)). Qed.

Lemma persist_secret_pg st a k v : evolves same_pg (persist_secret st a k v).
Proof.
  unfold persist_secret. destruct (secret_text v) as [t|]; [|by intros w].
  destruct (starts_with t "vault://"); [by intros w|].
  destruct (negb (string_eqb t "")); [|by intros w].
  apply evolves_bind; [apply _| |by intros _ w]. apply evolves_map_err.
  apply evolves_bind; [apply _|apply on_broker_pg|]. intros l.
  destruct (find_named _ l); [apply on_broker_pg|].
  apply evolves_bind; [apply _|apply on_broker_pg|]. by intros _ w.
Qed.

(** A settings write that succeeds has stored its row, in force at once: the live
    snapshot equals the table, the observer polls at the configured interval and the
    guard waits for the configured time. *)
Lemma set_setting_run st req key value is_secret (w w' : appw) :
  quiet w → set_setting st req key value is_secret w = (Ok tt, w') →
  ∃ c v w1,
    signed_in st req w c ∧ "admin" ∈ c_roles c ∧
    (if is_secret then persist_secret st (c_sub c) key value else mret value) w = (Ok v, w1) ∧
    db w1 = db w ∧
    db w' = set_app_config
      (<[key := mkConfigRow v is_secret (clock w) (Some (c_user_id c))]> (t_config (db w))) (db w) ∧
    live st w' ∧ b_vault (ap_broker w') = b_vault (ap_broker w1).
Proof.
  intros Hq (c & w0 & Hadm & Hrun)%io_bind_ok.
  apply require_any_ok in Hadm as (-> & Hs & Hp); [|done].
  rewrite (io_bind_run_ok _ _ _ tt w) in Hrun by by apply fails_ok, pool_run.
  apply io_bind_ok in Hrun as (v & w1 & Hv & Hrun).
  assert (ap_pg w1 = ap_pg w) as Hpg.
  { destruct is_secret; [|by unfold mret, io_ret in Hv; simplify_eq].
    pose proof (persist_secret_pg st (c_sub c) key value w) as Hpg. by rewrite Hv in Hpg. }
  assert (quiet w1) as Hq1 by (unfold quiet; by rewrite Hpg).
  assert (db w1 = db w) as Hdb by (unfold db; by rewrite Hpg).
  assert (clock w1 = clock w) as Hck by (unfold clock; by rewrite Hpg).
  apply io_bind_ok in Hrun as ([] & w2 & Hup & Hrun).
  unfold fails, io_map_err in Hup. rewrite sql_run in Hup by done. unfold upsert_setting in Hup.
  case_bool_decide; simplify_eq/=.
  apply io_bind_ok in Hrun as ([] & w3 & Haud & Hrun).
  edestruct audit_admin_vault as (b & Hb & Hvb). rewrite Hb in Haud. simplify_eq/=.
  edestruct refresh_run as (w4 & Hr & Hl & Hq4 & Hd4 & Hv4); [|rewrite Hr in Hrun; simplify_eq].
  { done. }
  exists c, v, w1. split; [done|]. split.
  { apply existsb_elem in Hp as (x & Hx & ->%string_eqb_eq). done. }
  split; [done|]. split; [done|]. split; [|split; [done|by rewrite Hv4]].
  rewrite Hd4. unfold db, put. simpl. fold (db w1). by rewrite Hdb, Hck.

Qed.

(** An edit takes effect with the write: the next read of the live snapshot sees the
    value, the observer polls at the configured interval and the guard waits for the
    configured time. Other settings are untouched. *)
Theorem set_setting_live st req key value (w w' : appw) :
  quiet w → set_setting st req key value false w = (Ok tt, w') →
  ap_config w' !! key = Some value ∧ live st w' ∧
  ∀ k, k ≠ key → t_config (db w') !! k = t_config (db w) !! k.
Proof.
  intros Hq (c & v & w1 & _ & _ & Hv & _ & Hdb & Hl & _)%set_setting_run; [|done].
  unfold mret, io_ret in Hv. simplify_eq. split; [|split; [done|]].
  - rewrite (proj1 Hl), Hdb. simpl. by rewrite lookup_fmap, lookup_insert_eq.
  - intros k Hk. rewrite Hdb. simpl. by rewrite lookup_insert_ne.
Qed.

(** A deleted setting reverts to the environment and the default. *)
Theorem delete_setting_reverts st req key (w w' : appw) :
  quiet w → delete_setting st req key w = (Ok tt, w') →
  live st w' ∧ t_config (db w') = delete key (t_config (db w)) ∧
  (∀ e dflt, cfg_u64 env (ap_config w') key e dflt = default dflt (from_env env e parse_u64)) ∧
  (∀ e dflt, cfg_string env (ap_config w') key e dflt = default dflt (from_env env e nonempty)).
Proof.
  intros Hq (c & w0 & Hadm & Hrun)%io_bind_ok.
  apply require_any_ok in Hadm as (-> & _ & _); [|done].
  rewrite (io_bind_run_ok _ _ _ tt w) in Hrun by by apply fails_ok, pool_run.
  apply io_bind_ok in Hrun as ([] & w2 & Hdel & Hrun).
  unfold fails, io_map_err, execute_sql in Hdel. rewrite sql_run in Hdel by done. simplify_eq/=.
  apply io_bind_ok in Hrun as ([] & w3 & Haud & Hrun).
  edestruct audit_admin_vault as (b & Hb & _). rewrite Hb in Haud. simplify_eq/=.
  edestruct refresh_run as (w4 & Hr & Hl & Hq4 & Hd4 & Hv4); [|rewrite Hr in Hrun; simplify_eq].
  { done. }
  assert (t_config (db w') = delete key (t_config (db w))) as Hcfg by by rewrite Hd4.
  assert (ap_config w' !! key = None) as Hnone.
  { rewrite (proj1 Hl), Hcfg. by rewrite lookup_fmap, lookup_delete_eq. }
  split; [done|]. split; [done|].
  unfold cfg_u64, cfg_string, cfg_opt_string. rewrite Hnone. simpl. split; [done|].
  intros e dflt. by destruct (from_env env e nonempty).
Qed.

(** *** Whatever the database answers *)

(** No other process writes; every round trip may take its time, fail, or be done
    and its answer lost. *)
Definition alone (w : appw) : Prop := Forall (λ s, ds_others s = id) (pg_steps (ap_pg w)).

(** The settings table and the live snapshot are as before. *)
Definition calm (w w' : appw) : Prop :=
  alone w → alone w' ∧ t_config (db w') = t_config (db w) ∧ ap_config w' = ap_config w.

#[local] Instance calm_refl : Reflexive calm.
Proof. by intros w. Qed.
#[local] Instance calm_trans : Transitive calm.
Proof.
  intros w1 w2 w3 H12 H23 Ha. destruct (H12 Ha) as (Ha2 & ? & ?), (H23 Ha2) as (? & ? & ?).
  split_and!; [done|congruence..].
Qed.

(** A statement, alone: it is not run, or it is run on the tables as they are. *)
Lemma sql_alone {A} (f : Z → tables → result string (A * tables)) (w : appw) r w' :
  alone w → on_db (sql f) w = (r, w') →
  alone w' ∧ ap_config w' = ap_config w ∧
  (is_ok r = false ∧ db w' = db w ∨
   ∃ a now, f now (db w) = Ok (a, db w') ∧ (is_ok r = true → r = Ok a)).
Proof.
  unfold alone, on_db, zoom, sql, arrive, db. intros Ha.
  assert (ds_others (default quiet_db (head (pg_steps (ap_pg w)))) = id) as ->.
  { destruct (pg_steps (ap_pg w)) as [|x l]; [done|]. by apply Forall_cons in Ha as [? _]. }
  assert (Forall (λ s, ds_others s = id) (tail (pg_steps (ap_pg w)))) as Ht.
  { destruct (pg_steps (ap_pg w)) as [|x l]; [done|]. by apply Forall_cons in Ha as [_ ?]. }
  set (now := pg_now (ap_pg w) + _). unfold id at 1.
  destruct (ds_outcome _) as [|e|e]; cbn -[set_pg];
    destruct (f now (pg_tables (ap_pg w))) as [[x t]|c] eqn:Hf; intros [= <- <-];
    (split; [exact Ht|split; [done|]]);
    first [right; by exists x, now | by left].
Qed.

Lemma sql_calm {A} (f : Z → tables → result string (A * tables)) :
  (∀ now t a t', f now t = Ok (a, t') → t_config t' = t_config t) → evolves calm (on_db (sql f)).
Proof.
  intros Hf w Ha. destruct (on_db (sql f) w) as [r w'] eqn:Hr.
  destruct (sql_alone f w r w' Ha Hr) as (Ha' & Hc & [[_ Hdb]|(a & now & Hok & _)]);
    (split_and!; [done| |done]); simpl; [by rewrite Hdb|by eapply Hf].
Qed.

Lemma select_calm {A} (f : Z → tables → A) : evolves calm (on_db (select f)).
Proof. apply sql_calm. by intros now t a t' [= _ <-]. Qed.

Lemma pool_calm : evolves calm (on_db pool_get).
Proof. apply select_calm. Qed.

Lemma on_db_bind {A B} (m : dio A) (f : A → dio B) :
  evolves calm (on_db m) → (∀ a, evolves calm (on_db (f a))) → evolves calm (on_db (m ≫= f)).
Proof.
  intros Hm Hf w. specialize (Hm w). unfold on_db, zoom, mbind, io_bind in *.
  destruct (m (ap_pg w)) as [[a|e] p]; simpl in *; [|done].
  etrans; [exact Hm|]. specialize (Hf a (set_pg p w)). unfold on_db, zoom in Hf. simpl in Hf.
  destruct (f a p) as [r p']. simpl in *. destruct w. exact Hf.
Qed.

Lemma on_db_context {A} c (m : dio A) : evolves calm (on_db m) → evolves calm (on_db (context c m)).
Proof.
  intros Hm w. specialize (Hm w). unfold on_db, zoom, context, io_map_err in *.
  by destruct (m (ap_pg w)) as [[a|e] p].
Qed.

Lemma require_any_calm p st req : evolves calm (require_any p st req).
Proof.
  assert (∀ k, evolves calm (on_db (find_valid_session k))) as Hf.
  { intros k. apply on_db_bind; [apply on_db_context, pool_calm|].
    intros _. apply on_db_context, select_calm. }
  intros w. unfold require_any, require_authenticated, authenticate_headers, mbind, io_bind.
  destruct (request_claims st req w) as [c|]; [|done]. specialize (Hf (c_session_id c) w).
  destruct (on_db _ w) as [[[]|] w1]; simpl in *; [|done..]. by destruct (existsb p (c_roles c)).
Qed.

Lemma same_pg_calm {A} (m : aio A) :
  evolves same_pg m → evolves (λ w w', ap_config w' = ap_config w) m → evolves calm m.
Proof.
  intros Hm Hc w Ha. specialize (Hm w). specialize (Hc w). unfold same_pg in Hm.
  unfold alone, db in *. by rewrite Hm.
Qed.

Lemma on_broker_config {A} (m : io bw BrokerError A) :
  evolves (λ w w', ap_config w' = ap_config w) (on_broker m).
Proof. intros w. unfold on_broker, io_map_err, zoom. by destruct (m (ap_broker w)). Qed.

Lemma on_broker_calm {A} (m : io bw BrokerError A) : evolves calm (on_broker m).
Proof. apply same_pg_calm; [apply on_broker_pg|apply on_broker_config]. Qed.

Lemma persist_secret_calm st a k v : evolves calm (persist_secret st a k v).
Proof.
  unfold persist_secret. destruct (secret_text v) as [t|]; [|by intros w].
  destruct (starts_with t "vault://"); [by intros w|].
  destruct (negb (string_eqb t "")); [|by intros w].
  apply evolves_bind; [apply _| |by intros _ w]. apply evolves_map_err.
  apply evolves_bind; [apply _|apply on_broker_calm|]. intros l.
  destruct (find_named _ l); [apply on_broker_calm|].
  apply evolves_bind; [apply _|apply on_broker_calm|]. by intros _ w.
Qed.

Lemma audit_admin_calm st a t s m : evolves calm (audit_admin st a t s m).
Proof. intros w Ha. by destruct (audit_admin_vault st a t s m w) as (b & -> & _). Qed.

(** The tail of a settings write: the table stays, and the live snapshot is the
    table or what it was. *)
Lemma refresh_alone st (w : appw) :
  alone w → let w' := (refresh st w).2 in
  alone w' ∧ t_config (db w') = t_config (db w) ∧
  (ap_config w' = ap_config w ∨ ap_config w' = cf_value <$> t_config (db w')) ∧
  (refresh st w).1 = Ok tt.
Proof.
  intros Ha. cbv zeta. unfold refresh, attempt, mbind, io_bind.
  assert (let w' := (reload w).2 in alone w' ∧ t_config (db w') = t_config (db w) ∧
    (ap_config w' = ap_config w ∨ ap_config w' = cf_value <$> t_config (db w'))) as Hr.
  { cbv zeta. unfold reload, mbind, io_bind. destruct (pool_calm w Ha) as (Ha1 & Hd1 & Hc1).
    destruct (on_db pool_get w) as [[[]|] w1]; simpl in *; [|by auto].
    destruct (on_db (select _) w1) as [r w2] eqn:Hs.
    destruct (sql_alone _ _ _ _ Ha1 Hs) as (Ha2 & Hc2 & [[Hn Hdb]|(a & now & Hok & Hres)]).
    - destruct r as [snap|]; simpl in *; [done|]. rewrite Hdb, Hd1, Hc2, Hc1. auto.
    - injection Hok as <- Hdb. destruct r as [snap|]; simpl in *.
      + injection (Hres eq_refl) as ->. unfold modify. simpl. unfold db, alone in *. simpl.
        rewrite <- Hdb. auto.
      + rewrite <- Hdb, Hd1, Hc2, Hc1. auto. }
  destruct (reload w) as [r1 w1]. simpl in *. destruct Hr as (Ha1 & Hd1 & Hc1).
  unfold modify, apply_runtime_tunables. simpl. by destruct (br_guard (st_broker st)).
Qed.

(** What is stored for a secret: a reference is kept, another text is replaced by
    the reference to its place in the vault, and what is no text, or an empty one,
    by the empty text. *)
Inductive secret_ref (key : string) (value : json) : json → Prop :=
| ref_kept name :
    secret_text value = Some ("vault://" +:+ name) →
    secret_ref key value (JString ("vault://" +:+ name))
| ref_stored plaintext :
    secret_text value = Some plaintext → plaintext ≠ "" →
    (∀ name, plaintext ≠ "vault://" +:+ name) →
    secret_ref key value (JString ("vault://settings." +:+ key))
| ref_cleared :
    secret_text value = None ∨ secret_text value = Some "" → secret_ref key value (JString "").

Lemma persist_secret_ref st a key v (w : appw) j w1 :
  persist_secret st a key v w = (Ok j, w1) → secret_ref key v j.
Proof.
  unfold persist_secret. destruct (secret_text v) as [text|] eqn:Ht;
    [|intros; inv_io; apply ref_cleared; by left].
  destruct (starts_with text "vault://") eqn:Hs.
  { apply starts_with_spec in Hs as [name ->]. intros; inv_io. by apply ref_kept. }
  destruct (string_eqb text "") eqn:He; simpl; intros; inv_io.
  - apply string_eqb_eq in He as ->. apply ref_cleared. by right.
  - eapply ref_stored; [done|by apply string_eqb_neq|]. intros name ->.
    assert (starts_with ("vault://" +:+ name) "vault://" = true); [|congruence].
    apply starts_with_spec. by exists name.
Qed.

(** The table is as it was and the caller gets an error, or it has a new row for
    [key], with a value of [P], and nothing else changed; the live snapshot is
    the table's or what it was. *)
Definition upserted (key : string) (P : json → Prop) (is_secret : bool) (w : appw)
    (r : result string unit * appw) : Prop :=
  alone r.2 ∧
  (ap_config r.2 = ap_config w ∨ ap_config r.2 = cf_value <$> t_config (db r.2)) ∧
  (is_ok r.1 = false ∧ t_config (db r.2) = t_config (db w) ∨
   ∃ v now by_, P v ∧
     t_config (db r.2) = <[key := mkConfigRow v is_secret now (Some by_)]> (t_config (db w))).

Lemma upserted_after_calm {A} key P is_secret (m : aio A) (f : A → aio unit) w0 w :
  calm w0 w → alone w0 → evolves calm m →
  (∀ a w1, m w = (Ok a, w1) → calm w0 w1 → upserted key P is_secret w0 (f a w1)) →
  upserted key P is_secret w0 ((m ≫= f) w).
Proof.
  intros Hw Ha Hm Hf. specialize (Hm w). unfold mbind, io_bind.
  destruct (m w) as [[a|e] w1]; simpl in Hm; (assert (calm w0 w1) as Hc by (by etrans)).
  - by apply Hf.
  - destruct (Hc Ha) as (Ha1 & Hd & Hcfg). split; [done|]. split; [by left|]. by left.
Qed.

Lemma set_setting_upserts st req key value (is_secret : bool) (w : appw) :
  alone w →
  upserted key (λ v : json, if is_secret then secret_ref key value v else v = value) is_secret w
    (set_setting st req key value is_secret w).
Proof.
  intros Ha. unfold set_setting.
  eapply upserted_after_calm; [reflexivity|exact Ha|apply require_any_calm|]. intros c w1 _ Hw1.
  eapply upserted_after_calm; [done|done|apply fails_evolves, pool_calm|]. intros _ w2 _ Hw2.
  eapply upserted_after_calm; [done|done| |].
  { destruct is_secret; [apply persist_secret_calm|by intros w3]. }
  intros v w3 Hv Hw3.
  assert (if is_secret then secret_ref key value v else v = value) as HP.
  { destruct is_secret; [by eapply persist_secret_ref|]. by unfold mret, io_ret in Hv; simplify_eq. }
  destruct (Hw3 Ha) as (Ha3 & Hd3 & Hc3). unfold mbind at 1, io_bind at 1, fails, io_map_err.
  destruct (on_db _ w3) as [r w4] eqn:Hup.
  destruct (sql_alone _ _ _ _ Ha3 Hup) as (Ha4 & Hc4 & Hcase).
  assert (t_config (db w4) = t_config (db w) ∧ is_ok r = false ∨
    ∃ now by_, t_config (db w4) = <[key := mkConfigRow v is_secret now (Some by_)]> (t_config (db w)))
    as Hst.
  { destruct Hcase as [[Hn Hdb]|(x & now & Hok & _)]; [left; by rewrite Hdb, Hd3|right].
    unfold upsert_setting in Hok. case_bool_decide; [done|]. injection Hok as _ <-.
    exists now, (c_user_id c). by rewrite <- Hd3. }
  destruct r as [[]|e]; simpl.
  - destruct Hst as [[_ ?]|(now & by_ & Hst)]; [done|].
    unfold mbind at 1, io_bind at 1. destruct (audit_admin_vault st (c_sub c) None
      (Some ("settings.upsert " +:+ key)) (<["settings.is_secret" := show_bool is_secret]>
      {["settings.key" := key]}) w4) as (b & -> & _).
    destruct (refresh_alone st (set_broker b w4) Ha4) as (Ha5 & Hd5 & Hc5 & _).
    split; [done|]. split; [by rewrite <- Hc3, <- Hc4|]. right. exists v, now, by_.
    split; [done|]. by rewrite Hd5.
  - split; [done|]. split; [left; exact (eq_trans Hc4 Hc3)|].
    destruct Hst as [[? _]|(now & by_ & Hst)]; [by left|right; eauto].
Qed.

(** C31: the text of a secret setting never reaches the settings table or the live
    configuration, whichever round trips to the database fail or lose their answer.
    Whatever JSON value is submitted, either the table is unchanged and the caller
    gets an error, or exactly the row of this key was written, flagged as a secret:
    it holds the reference to the key's place in the vault, which depends on the
    key only, or the vault reference that was submitted itself, or the empty text.
    The live configuration is what it was or what the table says. *)
Theorem secret_stays_out st req key value (w : appw) :
  alone w →
  let r := set_setting st req key value true w in
  (ap_config r.2 = ap_config w ∨ ap_config r.2 = cf_value <$> t_config (db r.2)) ∧
  (is_ok r.1 = false ∧ t_config (db r.2) = t_config (db w) ∨
   ∃ v now by_, secret_ref key value v ∧
     t_config (db r.2) = <[key := mkConfigRow v true now (Some by_)]> (t_config (db w))).
Proof. intros Ha r. by destruct (set_setting_upserts st req key value true w Ha) as (_ & Hc & Hs). Qed.

(** Settings calls write no file. *)
Definition same_files (w w' : appw) : Prop := ap_files w' = ap_files w.

#[local] Instance same_files_refl : Reflexive same_files.
Proof. by intros w. Qed.
#[local] Instance same_files_trans : Transitive same_files.
Proof. unfold same_files. intros w1 w2 w3. congruence. Qed.

Lemma on_db_files {A} (m : dio A) : evolves same_files (on_db m).
Proof. intros w. unfold on_db, zoom. by destruct (m (ap_pg w)). Qed.

Lemma on_broker_files {A} (m : io bw BrokerError A) : evolves same_files (on_broker m).
Proof. intros w. unfold on_broker, io_map_err, zoom. by destruct (m (ap_broker w)). Qed.

Lemma require_any_files p st req : evolves same_files (require_any p st req).
Proof.
  apply evolves_bind; [apply _| |].
  - intros w. unfold require_authenticated.
    destruct (authenticate_drift st req w) as (n & Hw & _).
    destruct (authenticate_headers st req w). simpl in *. by subst.
  - intros c. by destruct (existsb p (c_roles c)); intros w.
Qed.

Lemma audit_admin_files st a t s m : evolves same_files (audit_admin st a t s m).
Proof. intros w. by destruct (audit_admin_run st a t s m w) as [b ->]. Qed.

Lemma refresh_files st : evolves same_files (refresh st).
Proof.
  apply evolves_bind; [apply _| |].
  - apply evolves_attempt. apply evolves_bind; [apply _|apply on_db_files|]. intros _.
    apply evolves_bind; [apply _|apply on_db_files|]. by intros snap w.
  - intros r w. unfold modify, apply_runtime_tunables. by destruct (br_guard _).
Qed.

Lemma persist_secret_files st a k v : evolves same_files (persist_secret st a k v).
Proof.
  unfold persist_secret. destruct (secret_text v) as [t|]; [|by intros w].
  destruct (starts_with t "vault://"); [by intros w|].
  destruct (negb (string_eqb t "")); [|by intros w].
  apply evolves_bind; [apply _| |by intros _ w]. apply evolves_map_err.
  apply evolves_bind; [apply _|apply on_broker_files|]. intros l.
  destruct (find_named _ l); [apply on_broker_files|].
  apply evolves_bind; [apply _|apply on_broker_files|]. by intros _ w.
Qed.

Lemma set_setting_files st req k v is_secret : evolves same_files (set_setting st req k v is_secret).
Proof.
  apply evolves_bind; [apply _|apply require_any_files|]. intros c.
  apply evolves_bind; [apply _|apply evolves_map_err, on_db_files|]. intros _.
  apply evolves_bind; [apply _|destruct is_secret; [apply persist_secret_files|by intros w]|].
  intros x. apply evolves_bind; [apply _|apply evolves_map_err, on_db_files|]. intros _.
  apply evolves_bind; [apply _|apply audit_admin_files|]. intros _. apply refresh_files.
Qed.

Context `{VaultStore V (H := H0)}.

Lemma find_named_spec (v : V) m name l :
  vs_holds v m →
  (∀ i n, (∃ k c u, mkCredMeta i n k c u ∈ l) ↔ fst <$> m !! i = Some n) →
  match find_named name l with
  | Some meta => ∃ c, m !! cm_id meta = Some (name, c)
  | None => ∀ i c, m !! i ≠ Some (name, c)
  end.
Proof.
  intros Hv Hl. unfold find_named. destruct (find _ l) as [meta|] eqn:E.
  - apply find_Some_elem in E as [Hin Hn%string_eqb_eq]. destruct meta as [i n k c u].
    simpl in *. subst name.
    assert (fst <$> m !! i = Some n) as ([n' x] & Hm & ->)%fmap_Some by (apply Hl; eauto).
    eauto.
  - intros i c Hi. destruct (proj2 (Hl i name)) as (k & x & u & Hin).
    { by rewrite Hi. }
    apply list_elem_of_In in Hin. apply (List.find_none _ _ E) in Hin. simpl in Hin.
    by apply string_eqb_neq in Hin.
Qed.

Lemma on_vault_run {A} st actor action cred summary (m : io V VaultError A) (w : appw) r w' :
  br_vault_admin (st_broker st) = true →
  on_broker (vault_call (st_broker st) actor action cred summary m) w = (r, w') →
  r = map_err (λ e, show_broker_error (BVault e)) (m (b_vault (ap_broker w))).1 ∧
  b_vault (ap_broker w') = (m (b_vault (ap_broker w))).2.
Proof.
  intros Hb. unfold on_broker, io_map_err, zoom.
  destruct (vault_call_run (st_broker st) actor action cred summary m (ap_broker w) Hb)
    as (b' & -> & Hv & _). intros [= <- <-]. split; [|done].
  by destruct ((m (b_vault (ap_broker w))).1).
Qed.

(** Storing a secret leaves exactly one credential of its name, with its text. *)
Lemma intercept_run st actor name text (w w' : appw) m :
  br_vault_admin (st_broker st) = true → vs_holds (b_vault (ap_broker w)) m →
  intercept_secret st actor name text w = (Ok tt, w') →
  ∃ m' i, vs_holds (b_vault (ap_broker w')) m' ∧ m' !! i = Some (name, ApiToken text).
Proof.
  intros Hb Hm Hrun. unfold intercept_secret in Hrun.
  apply io_bind_ok in Hrun as (l & w1 & Hlist & Hrun).
  apply on_vault_run in Hlist as [Hl Hv1]; [|done].
  destruct (vs_list _ _ Hm) as (l' & v' & Hlm & Hm1 & Hspec). rewrite Hlm in *. simplify_eq/=.
  pose proof (find_named_spec _ _ name l' Hm1 Hspec) as Hf.
  destruct (find_named name l') as [meta|].
  - destruct Hf as [c Hc]. apply on_vault_run in Hrun as [Hr Hv2]; [|done].
    destruct (va_update (cm_id meta) (ApiToken text) (b_vault (ap_broker w1))) as [[[]|e] v2] eqn:E;
      simplify_eq/=.
    exists (<[cm_id meta := (name, ApiToken text)]> m), (cm_id meta).
    split; [by eapply vs_update|by rewrite lookup_insert_eq].
  - apply io_bind_ok in Hrun as (i & w2 & Hcr & Hrun). inv_io.
    apply on_vault_run in Hcr as [Hr Hv2]; [|done].
    destruct (va_create name (ApiToken text) (b_vault (ap_broker w1))) as [[j|e] v2] eqn:E;
      simplify_eq/=.
    exists (<[j := (name, ApiToken text)]> m), j.
    split; [by eapply vs_create|by rewrite lookup_insert_eq].
Qed.

Lemma vault_call_view {A} (b : Broker (D := D)) actor action cred summary (m : io V VaultError A)
    (w : bw) :
  br_vault_admin b = true →
  (vault_call b actor action cred summary m w).1 = map_err BVault (m (b_vault w)).1 ∧
  b_vault (vault_call b actor action cred summary m w).2 = (m (b_vault w)).2.
Proof.
  intros Hb. destruct (vault_call_run b actor action cred summary m w Hb) as (w' & -> & Hv & _).
  done.
Qed.

(** A stored credential is found under its name. *)
Lemma resolve_stored b name actor text (w : bw) m i :
  br_vault_admin b = true → vs_holds (b_vault w) m → m !! i = Some (name, ApiToken text) →
  (resolve_vault_api_token b name actor w).1 = Some text.
Proof.
  intros Hb Hm Hi. unfold resolve_vault_api_token, vault_list_metadata.
  destruct (vault_call_view b actor VaultResolve None (Some "vault list") va_list_metadata w Hb)
    as [Hr Hv].
  destruct (vault_call _ _ _ _ _ va_list_metadata w) as [r w1]. simpl in *.
  destruct (vs_list _ _ Hm) as (l & v' & Hlm & Hm1 & Hspec). rewrite Hlm in *. simplify_eq/=.
  pose proof (find_named_spec _ _ name l Hm1 Hspec) as Hf.
  destruct (find_named name l) as [meta|]; [|by destruct (Hf i (ApiToken text))].
  destruct Hf as [c Hc]. assert (cm_id meta = i) as <- by by eapply vs_names.
  simplify_eq. unfold reveal_token, vault_reveal.
  match goal with |- context [vault_call b actor ?a ?cr ?su ?m0 w1] =>
    destruct (vault_call_view b actor a cr su m0 w1 Hb) as [Hr2 _];
    destruct (vault_call b actor a cr su m0 w1) as [r2 w2] end.
  destruct (vs_reveal _ _ _ _ _ Hm1 Hi) as (v2 & Hrev & _). simpl in *.
  rewrite Hrev in Hr2. by simplify_eq/=.
Qed.

(** What is saved as a secret setting is what a component that needs it gets back:
    the row holds the reference to the vault entry of that setting, and resolving
    the reference through the broker gives the text that was submitted. A number or
    a truth value is stored as its text. *)
Theorem secret_setting_roundtrip st req key value text actor (w w' : appw) m :
  quiet w → br_vault_admin (st_broker st) = true → vs_holds (b_vault (ap_broker w)) m →
  secret_text value = Some text → text ≠ "" → starts_with text "vault://" = false →
  set_setting st req key value true w = (Ok tt, w') →
  ap_config w' !! key = Some (JString ("vault://settings." +:+ key)) ∧
  (resolve_maybe_ref (st_broker st) ("vault://settings." +:+ key) actor (ap_broker w')).1
    = Some text.
Proof.
  intros Hq Hb Hm Ht Hne Hnv (c & v & w1 & _ & _ & Hv & _ & Hdb & Hl & Hvault)%set_setting_run;
    [|done].
  unfold persist_secret in Hv. rewrite Ht, Hnv in Hv.
  rewrite (proj2 (string_eqb_neq text "") Hne) in Hv. simpl in Hv.
  apply io_bind_ok in Hv as ([] & w2 & Hi & Hv). inv_io.
  unfold fails in Hi. inv_io.
  match goal with Hrun : intercept_secret _ _ _ _ _ = (Ok ?u, _) |- _ => destruct u;
    destruct (intercept_run _ _ _ _ _ _ _ Hb Hm Hrun) as (m' & i & Hm' & Hi') end.
  split.
  - rewrite (proj1 Hl), Hdb. simpl. by rewrite lookup_fmap, lookup_insert_eq.
  - unfold resolve_maybe_ref.
    change ("vault://settings." +:+ key) with ("vault://" +:+ ("settings." +:+ key)).
    rewrite strip_prefix_app. eapply resolve_stored; [done|rewrite Hvault; exact Hm'|exact Hi'].
Qed.
End Settings.

(** ** Updates (the update tab of [admin_settings.rs]) *)

(** [UpdateState]. *)
Record UpdateState := mkUpdate {
  up_channel : string;
  up_current_version : string;
  up_current_commit : string;
  up_latest_version : option string;
  up_latest_tag : option string;
  up_last_check_at : option string;
  up_pending : bool;
  up_flag_path : string;
}.

(** The outcome of an HTTP request for a JSON body. *)
Inductive http_outcome :=
| HSend (e : string)
| HStatus (e : string)
| HDecode (e : string)
| HBody (j : json).

Definition flag_set (r : json) (k : string) : bool := default false (jget r k ≫= as_bool).

Definition tag_name (r : json) : option string := jget r "tag_name" ≫= as_str.

(** The newest release that is neither a prerelease nor a draft; the first one. *)
Definition github_tag (body : json) : option string :=
  head (omap (λ r, if flag_set r "prerelease" || flag_set r "draft" then None else tag_name r)
          (as_array body)).

Definition gitlab_tag (body : json) : option string := head (as_array body) ≫= tag_name.

(** [str::replace] of one byte. *)
Definition replace_byte (c : ascii) (by_ s : string) : string := String.concat by_ (split c s).

Section Updates.
Context `{SemVer} {I V D M : Type} `{VaultAdmin V} `{PgMessages} `{Jwt} `{Bcrypt}.
Abbreviation bw := (@bworld _ I V D).
Abbreviation appw := (app bw M).
Abbreviation aio := (io appw string).
Variable env : string → option string.
Variables (version commit : string).
Variable rfc3339 : Z → string.
Variable fetch : string → http_outcome.
(** The error, if any, of writing or removing the file at a path. *)
Variable file_fault : string → option string.

Definition flag_path : string :=
  default "/var/lib/daimon/UPDATE_REQUESTED" (env "DAIMON_UPDATE_FLAG").

(** [get_update_state]. *)
Definition get_update_state (st : AppState (D := D)) (req : request) : aio UpdateState :=
  require_admin st req ≫= λ _,
  fails "pool" (on_db pool_get) ≫= λ _,
  fails "query" (on_db (select (λ _ t, λ k, config_value k t ≫= as_str))) ≫= λ value,
  (match value "update.channel" with
   | Some c => mret c
   | None => attempt (set_setting env st req "update.channel" (JString "stable") false) ≫= λ _,
       mret "stable"
   end) ≫= λ channel,
  gets (λ w, bool_decide (is_Some (ap_files w !! flag_path))) ≫= λ pending,
  let tag := value "update.last_check_latest" in
  mret (mkUpdate channel version commit (trim_start_matches "v" <$> tag) tag
          (value "update.last_check_at") pending flag_path).

Definition release_body (what status : string) (o : http_outcome) : result string json :=
  match o with
  | HSend e => Err (what +:+ ": " +:+ e)
  | HStatus e => Err (status +:+ ": " +:+ e)
  | HDecode e => Err (what +:+ " json: " +:+ e)
  | HBody j => Ok j
  end.

(** [latest_github_release], [latest_gitlab_release]. *)
Definition latest_github_release : result string (option string) :=
  let repo := default "wakbijok/daimon" (env "DAIMON_GITHUB_REPO") in
  github_tag <$> release_body "github releases" "github releases status"
    (fetch ("https://api.github.com/repos/" +:+ repo +:+ "/releases")).

Definition latest_gitlab_release : result string (option string) :=
  let host := default "git.wakbijok.uk" (env "DAIMON_GITLAB_HOST") in
  let project := default "daimon/daimon" (env "DAIMON_GITLAB_PROJECT") in
  let encoded := replace_byte "/"%char "%2F" project in
  let url := "https://" +:+ host +:+ "/api/v4/projects/" +:+ encoded +:+ "/releases" in
  gitlab_tag <$> release_body "gitlab releases" ("gitlab releases status (" +:+ url +:+ ")")
    (fetch url).

(** [check_for_update]. *)
Definition check_for_update (st : AppState (D := D)) (req : request) : aio UpdateState :=
  require_admin st req ≫= λ _,
  get_update_state st req ≫= λ state,
  lift (if string_eqb (up_channel state) "beta" then latest_gitlab_release
        else latest_github_release) ≫= λ tag,
  gets (λ w, rfc3339 (clock w)) ≫= λ now,
  set_setting env st req "update.last_check_at" (JString now) false ≫= λ _,
  (match tag with
   | Some t => set_setting env st req "update.last_check_latest" (JString t) false
   | None => mret tt
   end) ≫= λ _,
  mret (mkUpdate (up_channel state) (up_current_version state) (up_current_commit state)
          (trim_start_matches "v" <$> tag) tag (Some now) (up_pending state)
          (up_flag_path state)).

Definition write_file (path content : string) : aio unit := λ w,
  match file_fault path with
  | Some e => (Err e, w)
  | None => (Ok tt, set_files (<[path := content]> (ap_files w)) w)
  end.

Definition newline : string := String "010"%char EmptyString.

(** [apply_update]: the flag file names the channel and the tag. *)
Definition apply_update (st : AppState (D := D)) (req : request) : aio UpdateState :=
  require_admin st req ≫= λ claims,
  get_update_state st req ≫= λ us,
  lift (ok_or (up_latest_tag us) "no latest_tag known — run check_for_update first")
    ≫= λ target,
  fails "write flag" (write_file (up_flag_path us)
    (up_channel us +:+ newline +:+ target +:+ newline)) ≫= λ _,
  audit_admin st (c_sub claims) None (Some ("update.apply_requested -> " +:+ target))
    (<["update.channel" := up_channel us]> {["update.target_tag" := target]}) ≫= λ _,
  mret (mkUpdate (up_channel us) (up_current_version us) (up_current_commit us)
          (up_latest_version us) (up_latest_tag us) (up_last_check_at us) true
          (up_flag_path us)).

(** [cancel_update]. *)
Definition cancel_update (st : AppState (D := D)) (req : request) : aio UpdateState :=
  require_admin st req ≫= λ _,
  get_update_state st req ≫= λ us,
  modify (λ w, match file_fault (up_flag_path us) with
               | Some _ => w
               | None => set_files (delete (up_flag_path us) (ap_files w)) w
               end) ≫= λ _,
  mret (mkUpdate (up_channel us) (up_current_version us) (up_current_commit us)
          (up_latest_version us) (up_latest_tag us) (up_last_check_at us) false
          (up_flag_path us)).

Lemma get_update_state_run st req (w : appw) us w' :
  quiet w → get_update_state st req w = (Ok us, w') →
  (∃ c, signed_in st req w c ∧ "admin" ∈ c_roles c) ∧ ap_files w' = ap_files w ∧
  up_flag_path us = flag_path ∧
  up_latest_tag us = config_value "update.last_check_latest" (db w) ≫= as_str.
Proof.
  intros Hq (c & w0 & Hadm & Hrun)%io_bind_ok.
  apply require_any_ok in Hadm as (-> & Hs & Hp); [|done].
  rewrite (io_bind_run_ok _ _ _ tt w) in Hrun by by apply fails_ok, pool_run.
  apply io_bind_ok in Hrun as (value & w1 & Hsel & Hrun).
  unfold fails, io_map_err, select in Hsel. rewrite sql_run in Hsel by done.
  rewrite put_db in Hsel. simplify_eq/=.
  apply io_bind_ok in Hrun as (ch & w2 & Hch & Hrun). inv_io.
  split; [|split_and!; [|done|done]].
  { exists c. split; [done|]. apply existsb_elem in Hp as (x & Hx & ->%string_eqb_eq). done. }
  destruct (config_value "update.channel" _ ≫= as_str); [by inv_io|].
  apply io_bind_ok in Hch as (r & w2 & Ha & Hch). inv_io.
  all: pose proof (set_setting_files env st req "update.channel" (JString "stable") false w1) as Hf;
    unfold same_files in Hf; congruence || (rewrite Heqp in Hf; exact Hf).
Qed.

(** The flag that starts a privileged update is written only for an administrator,
    and names the tag the last check stored. *)
Lemma apply_update_flag st req (w : appw) us w' :
  quiet w → apply_update st req w = (Ok us, w') →
  (∃ c, signed_in st req w c ∧ "admin" ∈ c_roles c) ∧
  ∃ tag, config_value "update.last_check_latest" (db w) ≫= as_str = Some tag ∧
    ap_files w' = <[flag_path := up_channel us +:+ newline +:+ tag +:+ newline]> (ap_files w).
Proof.
  intros Hq (c & w0 & Hadm & Hrun)%io_bind_ok.
  apply require_any_ok in Hadm as (-> & _ & _); [|done].
  apply io_bind_ok in Hrun as (us0 & w1 & Hg & Hrun).
  apply get_update_state_run in Hg as (Hs & Hf & Hp & Ht); [|done]. split; [done|].
  apply io_bind_ok in Hrun as (tag & w2 & Htag & Hrun). unfold lift in Htag.
  destruct (up_latest_tag us0) as [t|] eqn:Hl; simplify_eq/=. exists tag.
  split; [done|]. apply io_bind_ok in Hrun as ([] & w3 & Hw & Hrun).
  unfold fails, io_map_err, write_file in Hw. destruct (file_fault _); simplify_eq/=.
  apply io_bind_ok in Hrun as ([] & w4 & Ha & Hrun). inv_io.
  match type of Ha with audit_admin ?x ?a ?t ?s ?m ?w0 = _ =>
    pose proof (audit_admin_files x a t s m w0) as Hfa; rewrite Ha in Hfa end.
  unfold same_files in Hfa. simpl in Hfa. by rewrite Hfa, Hf, Hp.
Qed.
End Updates.

(** ** Witnesses: the console over the Postgres vault *)

Module ConfigDemo.
Import DemoSemVer AppDbDemo IamDemo.
#[local] Existing Instances demo_aead demo_codec demo_unique.

Abbreviation vault := (PgVault (λ E, list (string * E))).
#[export] Instance admin : VaultAdmin vault := pg_vault_admin map_to_list.
#[export] Instance store : VaultStore vault.
Proof.
  refine (pg_vault_store demo_uuids _ _ map_to_list _).
  - intros c. by eexists.
  - intros k n p. by eexists.
  - done.
Defined.

Definition fresh_vault : vault := pg_vault_new demo_key ∅ 0 demo_rng demo_uuids 0 [].

Lemma fresh_vault_holds : vs_holds fresh_vault ∅.
Proof. exists 0%nat. by apply new_vault_rel. Qed.

Definition world : app (bworld InMemoryRegistry vault (list StubRecord)) InProcWorkingMemory :=
  mkApp seeded (mkBworld (GuardDemo.fresh kill_new []) BrokerDemo.inv fresh_vault [] [] [] [])
    (in_proc_new 0) ∅ 30 (mkRng (λ n, ascii_of_nat n) 0) ∅ [].
Definition no_env (k : string) : option string := None.
Abbreviation save key v secret := (set_setting no_env st (as_user alice) key v secret world).
End ConfigDemo.
Import DemoSemVer AppDbDemo IamDemo ConfigDemo.

Lemma set_setting_live_witness :
  g_timeout_secs (b_guard (ap_broker (save "guard.approval_timeout_secs" (JInt 60) false).2)) = 60.
Proof.
  assert ((save "guard.approval_timeout_secs" (JInt 60) false).1 = Ok tt) as Hr
    by (vm_compute; reflexivity).
  destruct (set_setting_live no_env st (as_user alice) "guard.approval_timeout_secs" (JInt 60)
    ConfigDemo.world _ eq_refl (run_split _ _ Hr)) as (Hk & (_ & _ & Ht) & _).
  assert (cfg_u64 no_env (ap_config (save "guard.approval_timeout_secs" (JInt 60) false).2)
    "guard.approval_timeout_secs" (Some "DAIMON_APPROVAL_TIMEOUT_SECS")
    DEFAULT_APPROVAL_TIMEOUT_SECS = 60) as Hc by (unfold cfg_u64; by rewrite Hk).
  rewrite <-Hc. apply Ht; [discriminate|]. rewrite Hc. lia.
Defined.

Lemma delete_setting_reverts_witness :
  let w := (save "llm.provider" (JString "local") false).2 in
  cfg_string no_env (ap_config (delete_setting no_env st (as_user alice) "llm.provider" w).2)
    "llm.provider" None "anthropic" = "anthropic".
Proof.
  intros w.
  assert ((delete_setting no_env st (as_user alice) "llm.provider" w).1 = Ok tt) as Hr
    by (vm_compute; reflexivity).
  assert (quiet w) as Hq by (vm_compute; reflexivity).
  destruct (delete_setting_reverts no_env st (as_user alice) "llm.provider" w _ Hq
    (run_split _ _ Hr)) as (_ & _ & _ & Hs). exact (Hs None "anthropic").
Defined.

(** The answer to the write is lost: the row is there all the same. *)
Definition lossy : app (bworld InMemoryRegistry vault (list StubRecord)) InProcWorkingMemory :=
  set_pg (mkPg (db ConfigDemo.world)
    [quiet_db; quiet_db; quiet_db; mkDbStep 3 id (Lost "connection closed")] (clock ConfigDemo.world)
    (pg_uuids (ap_pg ConfigDemo.world)) (pg_drawn (ap_pg ConfigDemo.world))) ConfigDemo.world.

Lemma secret_stays_out_witness :
  let r := set_setting no_env st (as_user alice) "llm.openai_key" (JInt 1234567890) true lossy in
  is_ok r.1 = false ∧
  (cf_value <$> t_config (db r.2) !! "llm.openai_key")
    = Some (JString "vault://settings.llm.openai_key").
Proof.
  intros r. assert (is_ok r.1 = false) as Hr by (vm_compute; reflexivity). split; [exact Hr|].
  assert (bool_decide (t_config (db r.2) !! "llm.openai_key" = None) = false) as Hs
    by (vm_compute; reflexivity).
  assert (t_config (db lossy) !! "llm.openai_key" = None) as Hn by (vm_compute; reflexivity).
  destruct (secret_stays_out no_env st (as_user alice) "llm.openai_key" (JInt 1234567890) lossy)
    as (_ & [[_ Hsame]|(v & now & by_ & Hv & Hrow)]).
  - repeat constructor.
  - fold r in Hsame. rewrite Hsame in Hs. apply bool_decide_eq_false in Hs. by destruct Hs.
  - fold r in Hrow. rewrite Hrow, lookup_insert_eq. simpl. f_equal.
    destruct Hv as [name Hv|plaintext _ _ _|[Hv|Hv]]; [|reflexivity|..]; exfalso;
      cbn [secret_text] in Hv; [|discriminate Hv|];
      injection Hv as Hv; revert Hv; vm_compute; discriminate.
Defined.

Lemma secret_setting_roundtrip_witness :
  (resolve_maybe_ref (st_broker st) "vault://settings.llm.openai_key" "daimon"
     (ap_broker (save "llm.openai_key" (JInt 1234567890) true).2)).1 = Some "1234567890".
Proof.
  assert ((save "llm.openai_key" (JInt 1234567890) true).1 = Ok tt) as Hr
    by (vm_compute; reflexivity).
  refine (proj2 (secret_setting_roundtrip no_env st (as_user alice) "llm.openai_key"
    (JInt 1234567890) "1234567890" "daimon" ConfigDemo.world _ ∅ eq_refl eq_refl
    fresh_vault_holds eq_refl _ eq_refl (run_split _ _ Hr))).
  discriminate.
Defined.
