(* ===== verification/Console.v ===== *)
(** * daimon-app: the console's server functions
    ([daimon-app/src/admin_credentials.rs], [admin_targets.rs], [admin_gateways.rs],
    [admin_approvals.rs], [admin_broker.rs], [admin_chat_sessions.rs] and the text
    cut of [admin_plans.rs])

    Each function checks the caller's role and forwards to the broker, the database
    or the hot tier, converting between wire types and the broker's. The [uuid]
    parser and Unicode lower case are parameters. *)

From stdpp Require Import sorting.
From S2P Require Import Prelude RustStd Json Core KillSwitch Policy Approvals Guard.
From S2P Require Import Inventory AuditLog Broker Admin HotMemory AppDb Iam Config.
From Stdlib Require Import ZArith Ascii.

Local Open Scope Z_scope.

(** ** Wire types *)

(** [CredentialKindDto], [CredentialDto], [CredentialRow]. *)
Inductive CredentialKindDto := DSshKey | DSshPassword | DApiToken | DGeneric.

Definition cred_kind_label (k : CredentialKindDto) : string :=
  match k with
  | DSshKey => "SSH Key" | DSshPassword => "SSH Password"
  | DApiToken => "API Token" | DGeneric => "Generic"
  end.

Inductive CredentialDto :=
| DtoSshKey (username private_key_pem : string) (passphrase : option string)
| DtoSshPassword (username password : string)
| DtoApiToken (token : string)
| DtoGeneric (fields : gmap string string).

Definition dto_kind (d : CredentialDto) : CredentialKindDto :=
  match d with
  | DtoSshKey _ _ _ => DSshKey
  | DtoSshPassword _ _ => DSshPassword
  | DtoApiToken _ => DApiToken
  | DtoGeneric _ => DGeneric
  end.

Definition kind_to_dto (k : CredentialKind) : CredentialKindDto :=
  match k with
  | KSshKey => DSshKey | KSshPassword => DSshPassword
  | KApiToken => DApiToken | KGeneric => DGeneric
  end.

Definition cred_to_dto (c : Credential) : CredentialDto :=
  match c with
  | SshKey u k p => DtoSshKey u k p
  | SshPassword u p => DtoSshPassword u p
  | ApiToken t => DtoApiToken t
  | Generic f => DtoGeneric f
  end.

Definition dto_to_cred (d : CredentialDto) : Credential :=
  match d with
  | DtoSshKey u k p => SshKey u k p
  | DtoSshPassword u p => SshPassword u p
  | DtoApiToken t => ApiToken t
  | DtoGeneric f => Generic f
  end.

Record CredentialRow := mkCredRow {
  cr_id : Uuid; cr_name : string; cr_kind : CredentialKindDto;
  cr_created_at : Z; cr_updated_at : Z }.

Definition meta_to_row (m : CredentialMetadata) : CredentialRow :=
  mkCredRow (cm_id m) (cm_name m) (kind_to_dto (cm_kind m)) (cm_created_at m) (cm_updated_at m).

(** [TargetKindDto], [TransportKindDto], [TargetRow], [TargetDto]. *)
Inductive TargetKindDto := DPlatform | DNetwork | DHost | DApp.
Inductive TransportKindDto := DSsh | DRest | DSnmp | DGrpc.

Definition target_kind_label (k : TargetKindDto) : string :=
  match k with
  | DPlatform => "Platform" | DNetwork => "Network" | DHost => "Host" | DApp => "App"
  end.

Definition console_home (k : TargetKindDto) : string :=
  match k with
  | DPlatform => "Kubernetes" | DNetwork => "Network" | DHost | DApp => "Infrastructure"
  end.

Definition transport_label (k : TransportKindDto) : string :=
  match k with DSsh => "SSH" | DRest => "REST" | DSnmp => "SNMP" | DGrpc => "gRPC" end.

Definition default_port (k : TransportKindDto) : Z :=
  match k with DSsh => 22 | DRest => 443 | DSnmp => 161 | DGrpc => 50051 end.

Definition target_kind_to_dto (k : TargetKind) : TargetKindDto :=
  match k with Platform => DPlatform | Network => DNetwork | Host => DHost | App => DApp end.
Definition dto_to_target_kind (k : TargetKindDto) : TargetKind :=
  match k with DPlatform => Platform | DNetwork => Network | DHost => Host | DApp => App end.
Definition transport_to_dto (k : TransportKind) : TransportKindDto :=
  match k with Ssh => DSsh | Rest => DRest | Snmp => DSnmp | Grpc => DGrpc end.
Definition dto_to_transport (k : TransportKindDto) : TransportKind :=
  match k with DSsh => Ssh | DRest => Rest | DSnmp => Snmp | DGrpc => Grpc end.

Record TargetRow := mkTargetRow {
  tr_ref_name : string;
  tr_kind : TargetKindDto;
  tr_transport : TransportKindDto;
  tr_host : string;
  tr_port : Z;
  tr_label_count : nat;
  tr_capability_count : nat;
}.

Record TargetDto := mkTargetDto {
  td_ref_name : string;
  td_kind : TargetKindDto;
  td_transport : TransportKindDto;
  td_host : string;
  td_port : Z;
  td_credential_ref : string;
  td_labels : gmap string string;
  td_capabilities : list string;
}.

Definition metadata_to_row (m : TargetMetadata) : TargetRow :=
  mkTargetRow (target_name (tm_ref m)) (target_kind_to_dto (tm_kind m))
    (transport_to_dto (tm_transport m)) (tm_host m) (tm_port m) (size (tm_labels m))
    (length (tm_capabilities m)).

Definition managed_to_dto (t : ManagedTarget) : TargetDto :=
  mkTargetDto (target_name (mt_ref t)) (target_kind_to_dto (mt_kind t))
    (transport_to_dto (mt_transport t)) (mt_host t) (mt_port t) (mt_credential_ref t)
    (mt_labels t) (mt_capabilities t).

Definition show_ref_error (e : TargetRefParseError) : string :=
  match e with
  | TMissingScheme => "target ref must begin with `target://`"
  | TEmptyName => "target ref name is empty"
  | TInvalidShape => "target ref must be a single name segment (no slashes)"
  end.

(** [bridge::parse_ref], [bridge::dto_to_managed]. *)
Definition parse_ref (name : string) : result string TargetRef :=
  map_err (λ e, "invalid ref: " +:+ show_ref_error e) (target_parse ("target://" +:+ name)).

Definition dto_to_managed (d : TargetDto) : result string ManagedTarget :=
  parse_ref (td_ref_name d) ≫= λ r,
  Ok (mkManaged r (dto_to_target_kind (td_kind d)) (dto_to_transport (td_transport d))
        (td_host d) (td_port d) (td_credential_ref d) (td_labels d) (td_capabilities d)).

Lemma cred_dto_roundtrip c : dto_to_cred (cred_to_dto c) = c.
Proof. by destruct c. Qed.

(** What the form can submit: the port is a [u16]. *)
Definition dto_wf (d : TargetDto) : Prop := 0 ≤ td_port d < 65536.

Lemma parse_ref_ok name r : parse_ref name = Ok r → r = mkTargetRef name.
Proof.
  unfold parse_ref, target_parse. rewrite strip_prefix_app.
  destruct (string_eqb name ""), (contains_char "/"%char name); by intros; simplify_eq/=.
Qed.

Lemma dto_to_managed_ok d t :
  dto_wf d → dto_to_managed d = Ok t → target_wf t ∧ managed_to_dto t = d.
Proof.
  intros Hp. unfold dto_to_managed. destruct (parse_ref (td_ref_name d)) as [r|e] eqn:E; [|done].
  apply parse_ref_ok in E as Hr. subst r. intros [= <-]. split.
  - split; [|done]. unfold parse_ref in E. simpl. unfold target_show. simpl.
    destruct (target_parse _); by simplify_eq/=.
  - destruct d as [n [] [] h p c l k]; done.
Qed.

(** ** The server functions *)

(** [ChatTurnDto], [SessionSummaryDto]. *)
Record ChatTurnDto := mkTurnDto {
  to_role : string; to_content : string; to_tool_use_id : option string }.
Record SessionSummaryDto := mkSummary { sm_id : string; sm_title : string; sm_updated_at : Z }.

Definition recent_first (x y : SessionSummaryDto) : Prop := sm_updated_at y ≤ sm_updated_at x.
#[export] Instance recent_first_dec : RelDecision recent_first.
Proof. intros x y. unfold recent_first. apply _. Defined.

Section Console.
Context `{SemVer} {I V D M : Type} `{Inventory I} `{VaultAdmin V} `{WorkingMemory M}.
Context `{PgMessages} `{Jwt} `{Bcrypt}.
Abbreviation bw := (@bworld _ I V D).
Abbreviation appw := (app bw M).
Abbreviation aio := (io appw string).
Abbreviation state := (AppState (D := D)).

(** *** [admin_credentials.rs] *)

Definition list_credentials (st : state) (req : request) : aio (list CredentialRow) :=
  require_admin st req ≫= λ c,
  fails "vault_list_metadata" (on_broker (vault_list_metadata (st_broker st) (c_sub c)))
    ≫= λ rows, mret (map meta_to_row rows).

Definition create_credential (st : state) (req : request) (name : string)
    (cred : CredentialDto) : aio Uuid :=
  require_admin st req ≫= λ c,
  fails "vault_create" (on_broker (vault_create (st_broker st) (c_sub c) name (dto_to_cred cred))).

Definition update_credential (st : state) (req : request) (id : Uuid) (cred : CredentialDto) :
    aio unit :=
  require_admin st req ≫= λ c,
  fails "vault_update" (on_broker (vault_update (st_broker st) (c_sub c) id (dto_to_cred cred))).

Definition rename_credential (st : state) (req : request) (id : Uuid) (new_name : string) :
    aio unit :=
  require_admin st req ≫= λ c,
  fails "vault_rename" (on_broker (vault_rename (st_broker st) (c_sub c) id new_name)).

Definition delete_credential (st : state) (req : request) (id : Uuid) : aio unit :=
  require_admin st req ≫= λ c,
  fails "vault_delete" (on_broker (vault_delete (st_broker st) (c_sub c) id)).

Definition reveal_credential (st : state) (req : request) (id : Uuid) : aio CredentialDto :=
  require_admin st req ≫= λ c,
  fails "vault_reveal" (on_broker (vault_reveal (st_broker st) (c_sub c) id)) ≫= λ cred,
  mret (cred_to_dto cred).

(** *** [admin_targets.rs], [admin_broker.rs] *)

Definition list_targets_admin (st : state) (req : request) : aio (list TargetRow) :=
  require_admin st req ≫= λ _,
  gets (λ w, map metadata_to_row (inventory_list None (ap_broker w))).

Definition get_target (st : state) (req : request) (ref_name : string) : aio TargetDto :=
  require_admin st req ≫= λ c,
  lift (parse_ref ref_name) ≫= λ r,
  fails "inventory_get_managed" (on_broker (inventory_get_managed (st_broker st) (c_sub c) r))
    ≫= λ t, mret (managed_to_dto t).

Definition upsert_target (st : state) (req : request) (target : TargetDto) : aio unit :=
  require_admin st req ≫= λ c,
  lift (dto_to_managed target) ≫= λ t,
  fails "inventory_upsert" (on_broker (inventory_upsert (st_broker st) (c_sub c) t)).

Definition delete_target (st : state) (req : request) (ref_name : string) : aio unit :=
  require_admin st req ≫= λ c,
  lift (parse_ref ref_name) ≫= λ r,
  fails "inventory_remove" (on_broker (inventory_remove (st_broker st) (c_sub c) r)).

Definition broker_health (st : state) (req : request) : aio (nat * string) :=
  require_admin st req ≫= λ c,
  gets (λ w, (length (inv_list None (b_inv (ap_broker w))), c_sub c)).

(** *** [admin_gateways.rs] *)

Definition list_gateway_bindings (st : state) (req : request) : aio (list GatewayIdentityRow) :=
  require_admin st req ≫= λ _,
  fails "list_gateway_identities" (on_db list_gateway_identities).

Variable to_lowercase : string → string.

Definition add_gateway_binding (st : state) (req : request)
    (channel platform_handle username : string) : aio unit :=
  require_admin st req ≫= λ claims,
  let channel := to_lowercase (trim channel) in
  let platform_handle := trim platform_handle in
  let username := trim username in
  if string_eqb channel "" || string_eqb platform_handle "" || string_eqb username ""
  then throw "channel, platform handle, and username are all required"
  else
    fails "find_user" (on_db (find_user username)) ≫= λ found,
    lift (ok_or found ("no such user: " +:+ username)) ≫= λ user,
    fails "create_gateway_identity" (on_db (create_gateway_identity channel platform_handle
      (ur_id user) (Some (c_user_id claims)))) ≫= λ _,
    audit_admin st (c_sub claims) None
      (Some ("gateway.identity.enrol " +:+ channel +:+ ":" +:+ platform_handle +:+ " -> "
             +:+ username))
      (<["gateway.user" := username]> (<["gateway.handle" := platform_handle]>
         {["gateway.channel" := channel]})).

Definition delete_gateway_binding (st : state) (req : request) (id : Uuid) : aio unit :=
  require_admin st req ≫= λ claims,
  fails "delete_gateway_identity" (on_db (delete_gateway_identity id)) ≫= λ _,
  audit_admin st (c_sub claims) None (Some "gateway.identity.revoke")
    {["gateway.binding_id" := id]}.

(** *** [admin_approvals.rs] *)

(** The [uuid] crate's parser, with its error text. *)
Variable parse_uuid : string → result string Uuid.

(** [decide_approval]: the status in lower case is the answer. *)
Definition console_decide (st : state) (req : request) (id : string) (approved : bool) :
    aio string :=
  require_approver st req ≫= λ claims,
  lift (map_err (λ e, "parse id: " +:+ e) (parse_uuid id)) ≫= λ approval_id,
  let status := if approved then Approved else Denied in
  fails "decide" (on_broker (approvals_decide (st_broker st) approval_id (c_user_id claims) status))
    ≫= λ rec, mret (status_as_str (ar_status rec)).

(** *** [admin_chat_sessions.rs] *)

Definition list_my_sessions (st : state) (req : request) : aio (list SessionSummaryDto) :=
  require_authenticated st req ≫= λ claims,
  fails "pool" (on_db pool_get) ≫= λ _,
  fails "list sessions" (on_db (select (λ _ t,
    take 200 (merge_sort recent_first
      ((λ '(k, c), mkSummary k (ch_title c) (ch_updated_at c))
         <$> filter (λ p, ch_owner_id p.2 = c_user_id claims) (map_to_list (t_chats t))))))).

Definition session_owner (session_id : string) : aio (option Uuid) :=
  fails "pool" (on_db pool_get) ≫= λ _,
  fails "owner lookup" (on_db (select (λ _ t, ch_owner_id <$> t_chats t !! session_id))).

Definition turns_of (t : tables) (session_id : string) : list ChatTurnDto :=
  (λ n, mkTurnDto (tn_role n) (tn_content n) (tn_tool_use_id n))
    <$> take 500 (filter (λ n, tn_session_id n = session_id) (t_turns t)).

Definition load_chat_session (st : state) (req : request) (session_id : string) :
    aio (list ChatTurnDto) :=
  require_authenticated st req ≫= λ claims,
  session_owner session_id ≫= λ owner,
  match owner with
  | Some o =>
      let read_override :=
        existsb (λ r, string_eqb r "admin" || string_eqb r "auditor") (c_roles claims) in
      if negb (bool_decide (o = c_user_id claims)) && negb read_override
      then throw "not authorized for this session"
      else
        fails "pool" (on_db pool_get) ≫= λ _,
        fails "load turns" (on_db (select (λ _ t, turns_of t session_id)))
  | None => mret []
  end.

Definition delete_chat_session (st : state) (req : request) (session_id : string) : aio unit :=
  require_authenticated st req ≫= λ claims,
  session_owner session_id ≫= λ owner,
  let refused := match owner with
    | Some o => negb (bool_decide (o = c_user_id claims)) &&
        negb (existsb (λ r, string_eqb r "admin") (c_roles claims))
    | None => false
    end in
  if refused then throw "not authorized to delete this session"
  else
    fails "pool" (on_db pool_get) ≫= λ _,
    fails "delete session" (on_db (execute_sql (λ _,
      delete_chats (λ k _, string_eqb k session_id)))) ≫= λ _,
    attempt (zoom ap_hot set_hot (kv_delete "chat" session_id)) ≫= λ _, mret tt.

(** *** [admin_plans.rs]: the cut of a step's result *)

(** [&s[..n]]: [None] is the panic on a byte that does not start a character. *)
Definition str_prefix (n : nat) (s : string) : option string :=
  let l := bytes s in
  if (length l <? n)%nat then None
  else match drop n l with
       | a :: _ => if is_continuation a then None else Some (string_of_bytes (take n l))
       | [] => Some s
       end.

(** The [result_summary] of [get_plan_steps]. *)
Definition result_summary (s : string) : option string :=
  if (200 <? length (bytes s))%nat then (λ p, p +:+ utf8 [226; 128; 166]%N) <$> str_prefix 200 s
  else Some s.

(** ** Properties *)

(** The calls only an administrator may make. *)
Inductive console_call :=
| KListCredentials
| KCreateCredential (name : string) (c : CredentialDto)
| KUpdateCredential (id : Uuid) (c : CredentialDto)
| KRenameCredential (id : Uuid) (name : string)
| KDeleteCredential (id : Uuid)
| KRevealCredential (id : Uuid)
| KListTargets
| KGetTarget (name : string)
| KUpsertTarget (t : TargetDto)
| KDeleteTarget (name : string)
| KListBindings
| KAddBinding (channel handle username : string)
| KDeleteBinding (id : Uuid).

Definition run_console (st : state) (req : request) (c : console_call) : aio unit :=
  match c with
  | KListCredentials => list_credentials st req ≫= λ _, mret tt
  | KCreateCredential n c => create_credential st req n c ≫= λ _, mret tt
  | KUpdateCredential i c => update_credential st req i c
  | KRenameCredential i n => rename_credential st req i n
  | KDeleteCredential i => delete_credential st req i
  | KRevealCredential i => reveal_credential st req i ≫= λ _, mret tt
  | KListTargets => list_targets_admin st req ≫= λ _, mret tt
  | KGetTarget n => get_target st req n ≫= λ _, mret tt
  | KUpsertTarget t => upsert_target st req t
  | KDeleteTarget n => delete_target st req n
  | KListBindings => list_gateway_bindings st req ≫= λ _, mret tt
  | KAddBinding c h u => add_gateway_binding st req c h u
  | KDeleteBinding i => delete_gateway_binding st req i
  end.

(** C15: each of the thirteen console calls of {!console_call} goes past its check only
    for a caller whose token names the admin role and whose session row is live when it
    is looked up, whatever the database does meanwhile: listing, creating, updating,
    renaming, deleting and revealing credentials, listing, reading, storing and deleting
    targets, listing, adding and deleting anybody's gateway bindings. For any other
    caller these calls fail as unauthenticated or forbidden, and vault, inventory, audit
    log, files and, other connections apart, tables are as before. (The profile page,
    which shows every user their own bindings, is another call.) *)
Theorem console_admin_only st req c (w : appw) :
  let w1 := (authenticate_headers st req w).2 in
  (∃ claims, request_claims st req w = Some claims ∧ "admin" ∈ c_roles claims ∧
     is_Some (live_session (clock w1) (c_session_id claims) (db w1))) ∨
  (run_console st req c w = (Err "unauthenticated", w1) ∨
   run_console st req c w = (Err "forbidden", w1)) ∧
  ∃ n, w1 = set_pg (drift n (ap_pg w)) w.
Proof.
  intros w1. destruct (authenticate_drift st req w) as (n & Hw & Hs). fold w1 in Hw, Hs.
  assert (∀ e, require_admin st req w = (Err e, w1) → run_console st req c w = (Err e, w1))
    as Hrun.
  { intros e He. destruct c; simpl; unfold list_credentials, create_credential,
      update_credential, rename_credential, delete_credential, reveal_credential,
      list_targets_admin, get_target, upsert_target, delete_target, list_gateway_bindings,
      add_gateway_binding, delete_gateway_binding; 
      first [by apply io_bind_run_err, He|by apply io_bind_run_err, io_bind_run_err, He]. }
  unfold require_admin, require_any, require_authenticated, mbind, io_bind in Hrun.
  subst w1. destruct (authenticate_headers st req w) as [[claims|] w1]; simpl in *.
  - destruct (Hs claims eq_refl) as [Hcl Hl].
    destruct (existsb _ (c_roles claims)) eqn:Hp.
    + left. exists claims. split; [done|]. split; [|done].
      apply existsb_elem in Hp as (x & Hx & ->%string_eqb_eq). done.
    + right. eauto 10.
  - right. eauto 10.
Qed.

Lemma authenticated_ok st req (w : appw) c w' :
  quiet w → require_authenticated st req w = (Ok c, w') → w' = w ∧ signed_in st req w c.
Proof.
  intros Hq Ha. unfold require_authenticated in Ha.
  pose proof (authenticate_some st req w c Hq) as Hs.
  rewrite authenticate_quiet in Ha, Hs by done. cbn [fst] in Hs.
  destruct (request_claims st req w ≫= _) as [c2|]; simplify_eq/=. naive_solver.
Qed.

Lemma session_owner_run k (w : appw) :
  quiet w → session_owner k w = (Ok (ch_owner_id <$> t_chats (db w) !! k), w).
Proof.
  intros Hq. unfold session_owner.
  rewrite (io_bind_run_ok _ _ _ tt w) by by apply fails_ok, pool_run.
  apply fails_ok. unfold select. rewrite sql_run by done. by rewrite put_db.
Qed.

(** A stored conversation is read only by its owner, an administrator or an auditor,
    who get its turns in order, and is deleted only by its owner or an
    administrator. *)
Theorem chat_history_private st req k (w : appw) :
  quiet w →
  (∀ l w', load_chat_session st req k w = (Ok l, w') → l ≠ [] →
     l = turns_of (db w) k ∧
     ∃ c s, signed_in st req w c ∧ t_chats (db w) !! k = Some s ∧
       (ch_owner_id s = c_user_id c ∨ "admin" ∈ c_roles c ∨ "auditor" ∈ c_roles c)) ∧
  (∀ s, t_chats (db w) !! k = Some s → t_chats (db (delete_chat_session st req k w).2) !! k = None →
     ∃ c, signed_in st req w c ∧ (ch_owner_id s = c_user_id c ∨ "admin" ∈ c_roles c)).
Proof.
  intros Hq. split.
  - intros l w' (c & w1 & Ha & Hrun)%io_bind_ok Hl.
    apply authenticated_ok in Ha as [-> Hs]; [|done].
    rewrite (io_bind_run_ok _ _ _ _ _ (session_owner_run k w Hq)) in Hrun.
    destruct (t_chats (db w) !! k) as [s|]; simpl in Hrun; [|by inv_io].
    destruct (negb _ && negb _) eqn:Hdec; [by inv_io|].
    rewrite (io_bind_run_ok _ _ _ tt w) in Hrun by by apply fails_ok, pool_run.
    unfold fails, io_map_err, select in Hrun. rewrite sql_run in Hrun by done. simplify_eq/=.
    split; [done|]. exists c, s. split; [done|]. split; [done|].
    apply andb_false_iff in Hdec as [Hd|Hd]; apply negb_false_iff in Hd.
    + left. by apply bool_decide_eq_true in Hd.
    + right. apply existsb_elem in Hd as (r & Hr & [->%string_eqb_eq| ->%string_eqb_eq]%orb_true_iff);
        auto.
  - intros s Hk Hdel. unfold delete_chat_session, mbind, io_bind in Hdel.
    pose proof (authenticated_ok st req w) as Hau.
    assert (∀ e, (require_authenticated st req w).1 = Err e → (require_authenticated st req w).2 = w)
      as Herr.
    { intros e. unfold require_authenticated. by rewrite authenticate_quiet. }
    destruct (require_authenticated st req w) as [[c|e] w1]; simpl in *.
    + destruct (Hau c w1 Hq eq_refl) as [-> Hs]. exists c. split; [done|].
      rewrite session_owner_run, Hk in Hdel by done. simpl in Hdel.
      destruct (bool_decide_reflect (ch_owner_id s = c_user_id c)) as [Ho|Ho]; [auto|].
      right. simpl in Hdel. destruct (existsb _ (c_roles c)) eqn:Hp; simpl in Hdel.
      * apply existsb_elem in Hp as (x & Hx & ->%string_eqb_eq). done.
      * by rewrite Hk in Hdel.
    + rewrite (Herr e eq_refl), Hk in Hdel. done.
Qed.

Context `{!WorkingMemoryLaws M}.

(** Deleting a conversation removes the stored one and not its hot copy: the call
    removes a key-value entry, and the transcript is kept under the conversation's
    own key. *)
Theorem delete_keeps_hot_copy st req k (w w' : appw) :
  quiet w → delete_chat_session st req k w = (Ok tt, w') →
  t_chats (db w') !! k = None ∧
  ∀ s, conversation (ap_hot w') s = conversation (ap_hot w) s.
Proof.
  intros Hq (c & w1 & Ha & Hrun)%io_bind_ok.
  apply authenticated_ok in Ha as [-> Hs]; [|done].
  rewrite (io_bind_run_ok _ _ _ _ _ (session_owner_run k w Hq)) in Hrun.
  cbv zeta in Hrun.  match type of Hrun with (if ?b then _ else _) _ = _ => destruct b end; [by inv_io|].
  rewrite (io_bind_run_ok _ _ _ tt w) in Hrun by by apply fails_ok, pool_run.
  apply io_bind_ok in Hrun as ([] & w2 & Hdel & Hrun).
  unfold fails, io_map_err, execute_sql in Hdel. rewrite sql_run in Hdel by done. simplify_eq/=.
  unfold attempt, zoom, mbind, io_bind, mret, io_ret in Hrun.
  pose proof (kv_delete_law "chat" k (ap_hot w)) as Hkv. simpl in Hrun.
  destruct (kv_delete "chat" k (ap_hot w)) as [r h]. simplify_eq/=. split.
  - apply map_lookup_filter_None. right. intros x _. simpl.
    by rewrite (proj2 (string_eqb_eq k k)).
  - exact Hkv.
Qed.

(** *** Targets *)

Context `{!InventoryLaws I}.

Lemma proxied_run {A E} (b : Broker (D := D)) show wrap actor action target cred summary
    (m : io bw E A) (w : bw) :
  ∃ w', proxied b show wrap actor action target cred summary m w = (map_err wrap (m w).1, w') ∧
    b_inv w' = b_inv (m w).2.
Proof.
  unfold proxied, audit_action, attempt, sink_append, gets, mbind, io_bind, lift, mret, io_ret.
  destruct (m w) as [r w1]. simpl. destruct (br_audit b); simpl; [|eauto].
  destruct (b_audit_faults w1) as [|[e|] f]; simpl; eauto.
Qed.

(** A target saved in the console's form is read back as it was entered. *)
Theorem target_form_roundtrip st req d (w w' : appw) :
  quiet w → dto_wf d → upsert_target st req d w = (Ok tt, w') →
  (get_target st req (td_ref_name d) w').1 = Ok d.
Proof.
  intros Hq Hd (c & w1 & Ha & Hrun)%io_bind_ok.
  apply require_any_ok in Ha as (-> & Hs & Hp); [|done].
  apply io_bind_ok in Hrun as (t & w2 & Hl & Hrun).
  assert (dto_to_managed d = Ok t ∧ w2 = w) as [Ht ->] by (unfold lift in Hl; by simplify_eq).
  destruct (dto_to_managed_ok d t Hd Ht) as [Hwf _].
  unfold fails, on_broker, io_map_err, zoom, inventory_upsert in Hrun.
  match type of Hrun with context [proxied ?b ?sh ?wr ?a ?ac ?tg ?cr ?su ?m ?x] =>
    destruct (proxied_run b sh wr a ac tg cr su m x) as (b1 & E & Hi); rewrite E in Hrun end.
  unfold on_inv, zoom in *. simpl in *.
  destruct (inv_upsert t (b_inv (ap_broker w))) as [[[]|e] i1] eqn:Hu; simplify_eq/=.
  destruct (get_after_upsert _ _ _ Hwf Hu) as [Hget _].
  unfold get_target, require_admin.
  rewrite (io_bind_run_ok _ _ _ c (set_broker b1 w)) by by apply require_any_run.
  destruct (dto_to_managed_ok d t Hd Ht) as [_ Hback].
  assert (parse_ref (td_ref_name d) = Ok (mt_ref t)) as Er.
  { unfold dto_to_managed in Ht. destruct (parse_ref (td_ref_name d)); [|done]. simpl in Ht.
    injection Ht as <-. done. }
  rewrite (io_bind_run_ok _ _ _ (mt_ref t) (set_broker b1 w)) by (unfold lift; by rewrite Er).
  unfold fails, on_broker, io_map_err, zoom, inventory_get_managed, mbind, io_bind.
  match goal with |- context [proxied ?b ?sh ?wr ?a ?ac ?tg ?cr ?su ?m ?x] =>
    destruct (proxied_run b sh wr a ac tg cr su m x) as (b2 & -> & _) end.
  unfold on_inv, zoom. simpl. destruct (get_managed (mt_ref t) (b_inv b1)) as [g i2]. simpl in *.
  subst g. simpl. unfold mret, io_ret. simpl. by rewrite Hback.
Qed.

(** *** Approvals *)

Lemma decide_table uid by_ status (g : gworld) :
  let inbox := g_table (suspend 0 g) in
  let g' := (decide_approval uid by_ status g).2 in
  g_table g' = inbox ∨
  ∃ row now, inbox !! uid = Some row ∧ row_status row = "pending" ∧
    g_table g' = <[uid := row_decide status by_ now row]> inbox.
Proof.
  intros inbox g'. subst g'. unfold decide_approval, io_map_err, db_call, mbind, io_bind, gets,
    modify, throw, mret, io_ret.
  destruct (g_faults (suspend 0 g)) as [|[| |] f]; simpl; auto;
    (fold inbox; destruct (inbox !! uid) as [row|]; simpl; [|by auto]);
    (destruct (string_eqb (row_status row) "pending") eqn:E; simpl; [|by auto]);
    apply string_eqb_eq in E; eauto 10.
Qed.

(** The console changes the inbox only for a caller with the approver or the admin
    role and a live session, and only by giving one request, pending when the
    statement runs, the decision asked for, signed with the caller's user id. *)
Theorem console_decision_authorized st req id approved (w : appw) :
  quiet w →
  let g := b_guard (ap_broker w) in
  let inbox := g_table (suspend 0 g) in
  let after := g_table (b_guard (ap_broker (console_decide st req id approved w).2)) in
  after = g_table g ∨ after = inbox ∨
  ∃ c uid row now,
    signed_in st req w c ∧ ("approver" ∈ c_roles c ∨ "admin" ∈ c_roles c) ∧
    parse_uuid id = Ok uid ∧ inbox !! uid = Some row ∧ row_status row = "pending" ∧
    after = <[uid := row_decide (if approved then Approved else Denied) (c_user_id c) now row]>
              inbox.
Proof.
  intros Hq g inbox after. subst after. unfold console_decide, mbind, io_bind.
  unfold require_approver.
  pose proof (λ c w1, require_any_ok (λ r, string_eqb r "approver" || string_eqb r "admin")
    st req w c w1 Hq) as Hok.
  destruct (require_any _ st req w) as [[c|e] w1] eqn:Ereq.
  2:{ left. assert (w1 = w) as ->; [|done]. revert Ereq.
      unfold require_any, require_authenticated, mbind, io_bind.
      rewrite authenticate_quiet by done. repeat (case_match; simplify_eq/=); by inversion 1. }
  destruct (Hok c w1 eq_refl) as (-> & Hs & Hp). unfold lift.
  destruct (parse_uuid id) as [uid|e] eqn:Eu; simpl; [|by left].
  unfold fails, on_broker, io_map_err, zoom, approvals_decide, require_guard, lift, mbind, io_bind.
  destruct (br_guard (st_broker st)); simpl; [|by left].
  unfold on_inbox, io_map_err, zoom.
  pose proof (decide_table uid (c_user_id c) (if approved then Approved else Denied) g) as Ht.
  unfold g in *. destruct (decide_approval _ _ _ _) as [r g']. simpl in *.
  right. destruct Ht as [Ht|(row & now & Hrow & Hpend & Ht)].
  - left. by destruct r.
  - right. exists c, uid, row, now. split_and!; try done; [|by destruct r].
    apply existsb_elem in Hp as (x & Hx & [->%string_eqb_eq| ->%string_eqb_eq]%orb_true_iff); auto.
Qed.
End Console.

(** A step result of more than two hundred bytes whose byte 200 is inside a
    character makes the plan page's request panic. *)
Theorem result_summary_panics s :
  (200 < length (bytes s))%nat →
  result_summary s = None ↔ ∃ a, bytes s !! 200%nat = Some a ∧ is_continuation a = true.
Proof.
  intros Hl. unfold result_summary, str_prefix.
  rewrite (proj2 (Nat.ltb_lt _ _) Hl), (proj2 (Nat.ltb_ge _ _)) by lia.
  assert (∃ a l, drop 200 (bytes s) = a :: l ∧ bytes s !! 200%nat = Some a) as (a & l & Hd & Ha).
  { destruct (drop 200 (bytes s)) as [|a l] eqn:E.
    - apply (f_equal length) in E. rewrite length_drop in E. simpl in E. lia.
    - exists a, l. split; [done|]. replace 200%nat with (200 + 0)%nat by lia.
      rewrite <-lookup_drop, E. done. }
  rewrite Hd, Ha. destruct (is_continuation a) eqn:E; simpl; naive_solver congruence.
Qed.

(** ** Witnesses *)

Module ConsoleDemo.
Import DemoSemVer AppDbDemo IamDemo ConfigDemo.

Definition lower (s : string) : string := to_ascii_lowercase s.
Definition uuid_of (s : string) : result string Uuid := Ok s.

(** Alice owns a conversation that is also in the hot tier. *)
Definition chat_pg : pg :=
  run_calls [CAppendTurn "s1" "u0" "user" "hello" None; CAppendTurn "s1" "u0" "assistant" "hi" None]
    seeded.
Definition hot : InProcWorkingMemory :=
  (conv_push "s1" (mkConv "user" "hello" None 0) (in_proc_new 0)).2.
Definition chat_world : app (bworld InMemoryRegistry vault (list StubRecord)) InProcWorkingMemory :=
  mkApp chat_pg (ap_broker ConfigDemo.world) hot ∅ 30 (mkRng (λ n, ascii_of_nat n) 0) ∅ [].

Definition form : TargetDto :=
  mkTargetDto "core-sw1" DNetwork DSnmp "10.0.0.2" 161 "vault://snmp" ∅ ["read"].

(** A text whose byte 200 is the second byte of a character. *)
Definition accented : string :=
  String.concat "" (replicate 199 "a") +:+ utf8 [195; 169]%N +:+ "b".
End ConsoleDemo.
Import DemoSemVer AppDbDemo IamDemo ConfigDemo ConsoleDemo.

Lemma chat_history_private_witness :
  ∃ l, (load_chat_session st (as_user alice) "s1" chat_world).1 = Ok l ∧
    l = turns_of (db chat_world) "s1" ∧ length l = 2%nat.
Proof.
  destruct (load_chat_session st (as_user alice) "s1" chat_world) as [[l|e] w'] eqn:E.
  - exists l. split; [reflexivity|].
    assert (l = [mkTurnDto "user" "hello" None; mkTurnDto "assistant" "hi" None]) as Hl.
    { apply (f_equal fst) in E. revert E. vm_compute. intros [= <-]. reflexivity. }
    destruct (proj1 (chat_history_private st (as_user alice) "s1" chat_world eq_refl) l w' E)
      as [Ht _]; [rewrite Hl; discriminate|]. split; [exact Ht|]. by rewrite Hl.
  - apply (f_equal fst) in E. revert E. vm_compute. discriminate.
Defined.

Lemma delete_keeps_hot_copy_witness :
  let w' := (delete_chat_session st (as_user alice) "s1" chat_world).2 in
  t_chats (db w') !! "s1" = None ∧
  conversation (ap_hot w') "s1" = [mkConv "user" "hello" None 0].
Proof.
  assert ((delete_chat_session st (as_user alice) "s1" chat_world).1 = Ok tt) as Hr
    by (vm_compute; reflexivity).
  destruct (delete_keeps_hot_copy st (as_user alice) "s1" chat_world _ eq_refl
    (run_split _ _ Hr)) as [Hd Hh].
  intros w'. split; [exact Hd|]. exact (Hh "s1").
Defined.

Lemma target_form_roundtrip_witness :
  (get_target st (as_user alice) "core-sw1" (upsert_target st (as_user alice) form chat_world).2).1
    = Ok form.
Proof.
  assert ((upsert_target st (as_user alice) form chat_world).1 = Ok tt) as Hr
    by (vm_compute; reflexivity).
  refine (target_form_roundtrip st (as_user alice) form chat_world _ eq_refl _ (run_split _ _ Hr)).
  unfold dto_wf, form. simpl. lia.
Defined.

Lemma console_decision_authorized_witness :
  let after := g_table (b_guard (ap_broker
    (console_decide uuid_of st (mkRequest None) "a1" true chat_world).2)) in
  after = g_table (b_guard (ap_broker chat_world)).
Proof.
  destruct (console_decision_authorized uuid_of st (mkRequest None) "a1" true chat_world eq_refl)
    as [Ha|[Ha|(c & uid & row & now & [Hc _] & _)]]; [exact Ha| |].
  - rewrite Ha. vm_compute. reflexivity.
  - discriminate Hc.
Defined.

Lemma result_summary_panics_witness : result_summary accented = None.
Proof.
  apply (result_summary_panics accented); [vm_compute; lia|].
  exists (ascii_of_N 169). split; vm_compute; reflexivity.
Defined.
