(* ===== verification/Observer.v ===== *)
(** * daimon-observer: metrics and anomalies
    ([daimon-observer/src/queries.rs], [prometheus.rs], [sink.rs], [vm_sink.rs],
    [event.rs], [ingest.rs], [error.rs])

    One cycle of the observer: run the named queries, push the samples to the metric
    sink, store an anomaly for each sample over a threshold and tell the triage tier.
    Floats are IEEE doubles ([spec_float]) with their comparisons; their decimal texts
    are a parameter, as are HTTP and the database's answers. *)

From S2P Require Import Prelude RustStd Json Core KillSwitch Policy Approvals Guard.
From S2P Require Import Gateway Channels.
From Stdlib Require Import ZArith Ascii SpecFloat.

Local Open Scope Z_scope.

Abbreviation float64 := spec_float.

#[export] Instance float64_eq_dec : EqDecision float64.
Proof. solve_decision. Defined.

(** [z as f64]. *)
Definition f64_of_Z (z : Z) : float64 := binary_normalize 53 1024 z 0 false.

Definition is_finite (x : float64) : bool :=
  match x with S754_zero _ | S754_finite _ _ _ => true | _ => false end.

(** Decimal texts of doubles: [Display] prints a finite one on one line, [FromStr]
    reads one, and [serde_json] prints a finite one and reads it back. *)
Class F64Text := {
  f64_display : float64 → string;
  f64_parse : string → option float64;
  f64_json : float64 → string;
  f64_unjson : string → option float64;
  f64_display_line x : "010"%char ∉ bytes (f64_display x);
  f64_json_roundtrip x : is_finite x = true → f64_unjson (f64_json x) = Some x;
}.

(** ** [queries.rs] *)

Inductive ThresholdOp := OpGt | OpGte | OpLt | OpLte.

Record Threshold := mkThreshold {
  th_op : ThresholdOp;
  th_value : float64;
  th_severity : string;
  th_title : string;
}.

Definition breaches (t : Threshold) (v : float64) : bool :=
  match th_op t with
  | OpGt => SFltb (th_value t) v
  | OpGte => SFleb (th_value t) v
  | OpLt => SFltb v (th_value t)
  | OpLte => SFleb v (th_value t)
  end.

Record NamedQuery := mkNamedQuery {
  nq_name : string;
  nq_promql : string;
  nq_source : string;
  nq_source_id_label : option string;
  nq_metric_name : string;
  nq_thresholds : list Threshold;
}.

(** A double quote in a PromQL text. *)
Definition dq : string := String "034"%char EmptyString.

Definition default_library : list NamedQuery :=
  [mkNamedQuery "node_cpu_saturation"
     ("100 - (avg by (instance)(rate(node_cpu_seconds_total{mode=" +:+ dq +:+ "idle" +:+ dq +:+
      "}[5m])) * 100)")
     "prometheus" (Some "instance") "node.cpu.saturation_pct"
     [mkThreshold OpGt (f64_of_Z 90) "warning" "CPU saturation > 90%";
      mkThreshold OpGt (f64_of_Z 98) "critical" "CPU saturation > 98%"];
   mkNamedQuery "node_memory_pressure"
     "(1 - (node_memory_MemAvailable_bytes / node_memory_MemTotal_bytes)) * 100"
     "prometheus" (Some "instance") "node.memory.pressure_pct"
     [mkThreshold OpGt (f64_of_Z 90) "warning" "Memory pressure > 90%"];
   mkNamedQuery "node_disk_full"
     ("100 - ((node_filesystem_avail_bytes{fstype!~" +:+ dq +:+ "tmpfs|overlay" +:+ dq +:+
      "} * 100) / node_filesystem_size_bytes{fstype!~" +:+ dq +:+ "tmpfs|overlay" +:+ dq +:+ "})")
     "prometheus" (Some "instance") "node.disk.used_pct"
     [mkThreshold OpGt (f64_of_Z 85) "warning" "Disk usage > 85%"];
   mkNamedQuery "node_nic_errors"
     "rate(node_network_receive_errs_total[5m]) + rate(node_network_transmit_errs_total[5m])"
     "prometheus" (Some "instance") "node.nic.error_rate"
     [mkThreshold OpGt (f64_of_Z 1) "warning" "NIC error rate > 1/s"]].

(** ** [error.rs] *)

Inductive ObsError :=
| ObHttp (e : string)
| ObPg (e : string)
| ObPool (e : string)
| ObDecode (e : string)
| ObApi (e : string)
| ObOther (e : string).

Definition show_obs_error (e : ObsError) : string :=
  match e with
  | ObHttp e => "http: " +:+ e
  | ObPg e => "pg: " +:+ e
  | ObPool e => "pool: " +:+ e
  | ObDecode e => "decode: " +:+ e
  | ObApi e => "prometheus api error: " +:+ e
  | ObOther e => e
  end.

(** ** [prometheus.rs] *)

Record InstantSample := mkSample {
  is_metric : json;
  is_timestamp_secs : float64;
  is_value : float64;
}.

(** A response of the Prometheus API: its status and its body. *)
Record PromReply := mkPromReply { pr_status : Z; pr_body : result string json }.

Section Prometheus.
Context `{F64Text}.
(** [StatusCode]'s [Display], serde's message, and the [Debug] of an [Option<String>]. *)
Context (show_status : Z → string) (serde_error : json → string)
        (debug_opt : option string → string).

(** [Value::as_f64]. *)
Definition as_f64 (j : json) : option float64 :=
  match j with JInt z => Some (f64_of_Z z) | JFloat r => f64_unjson r | _ => None end.

Definition opt_text (j : json) (k : string) : option (option string) :=
  match jget j k with
  | None | Some JNull => Some None
  | Some (JString s) => Some (Some s)
  | Some _ => None
  end.

(** [PromResponse]: status, data (result type and result), error. *)
Definition decode_prom (j : json) :
    option (string * option (string * json) * option string) :=
  (jget j "status" ≫= as_str) ≫= λ status,
  match jget j "data" with
  | None | Some JNull => Some None
  | Some d =>
      (jget d "resultType" ≫= as_str) ≫= λ ty, jget d "result" ≫= λ r, Some (Some (ty, r))
  end ≫= λ data,
  opt_text j "error" ≫= λ err, Some (status, data, err).

(** One element of the result vector; one without a value is skipped. *)
Definition sample_of (r : json) : option InstantSample :=
  let metric := default (JObject []) (jget r "metric") in
  match as_array (jindex r "value") with
  | t :: v :: _ =>
      let ts := default (S754_zero false) (as_f64 t) in
      let text := default "0" (as_str v) in
      Some (mkSample metric ts (default (S754_zero false) (f64_parse text)))
  | _ => None
  end.

(** [instant], on the outcome of the request. *)
Definition instant (query : string) (reply : result string PromReply) :
    result ObsError (list InstantSample) :=
  map_err ObHttp reply ≫= λ resp,
  if negb (is_success (pr_status resp)) then
    Err (ObApi ("instant " +:+ query +:+ ": status " +:+ show_status (pr_status resp)))
  else
    map_err ObHttp (pr_body resp ≫= λ j, ok_or (decode_prom j) (serde_error j))
      ≫= λ '(status, data, err),
    if negb (string_eqb status "success") then
      Err (ObApi ("instant " +:+ query +:+ ": " +:+ debug_opt err))
    else
      match data with
      | None => Err (ObApi "no data")
      | Some (ty, res) =>
          if negb (string_eqb ty "vector") then
            Err (ObApi ("instant " +:+ query +:+ ": unexpected result type " +:+ ty))
          else Ok (omap sample_of (as_array res))
      end.
End Prometheus.

(** ** [sink.rs] *)

Record MetricPoint := mkPoint {
  mp_ts : Z;
  mp_source : string;
  mp_source_id : string;
  mp_name : string;
  mp_value : float64;
  mp_labels : json;
}.

Class MetricSink (K : Type) := {
  push : MetricPoint → io K ObsError unit;
  push_batch : list MetricPoint → io K ObsError unit;
}.

(** The trait's default [push_batch]. *)
Fixpoint push_each {K} (push : MetricPoint → io K ObsError unit) (l : list MetricPoint) :
    io K ObsError unit :=
  match l with [] => mret tt | p :: l => push p ≫= λ _, push_each push l end.

(** ** [vm_sink.rs] *)

(** Any character but a letter, a digit or an underscore becomes an underscore, and
    so does a digit in front. *)
Definition is_ascii_digit (c : char) : bool :=
  match c with String a EmptyString => byte_is_digit a | _ => false end.

Definition metric_char (i : nat) (c : char) : char :=
  let good := is_ascii_alphanumeric c || string_eqb c "_" in
  let good := if Nat.eqb i 0 then good && negb (is_ascii_digit c) else good in
  if good then c else "_".

Definition sanitize_metric_name (s : string) : string :=
  let out := string_concat (imap metric_char (chars s)) in
  if string_eqb out "" then "unnamed" else out.

Definition sanitize_label_name (s : string) : string := sanitize_metric_name s.

Definition backslash : string := String "092"%char EmptyString.
Definition newline : string := String "010"%char EmptyString.

Definition escape_char (c : char) : string :=
  if string_eqb c backslash then backslash +:+ backslash
  else if string_eqb c dq then backslash +:+ dq
  else if string_eqb c newline then backslash +:+ "n"
  else c.

Definition write_label (key value : string) (first : bool) : string :=
  (if first then "" else ",") +:+ key +:+ "=" +:+ dq +:+
  string_concat (map escape_char (chars value)) +:+ dq.

Section VictoriaMetrics.
Context `{F64Text} `{JsonText}.

Definition label_text (v : json) : option string :=
  match v with
  | JString s => Some s
  | JNull => None
  | other => Some (json_to_string other)
  end.

Definition render_labels (labels : json) : string :=
  match labels with
  | JObject l =>
      string_concat (map (λ '(k, v),
        match label_text v with
        | Some v => write_label (sanitize_label_name k) v false
        | None => ""
        end) l)
  | _ => ""
  end.

Definition render_value (x : float64) : string :=
  match x with
  | S754_nan => "NaN"
  | S754_infinity false => "+Inf"
  | S754_infinity true => "-Inf"
  | _ => f64_display x
  end.

Definition render_point (p : MetricPoint) : string :=
  sanitize_metric_name (mp_name p) +:+ "{" +:+ write_label "source" (mp_source p) true +:+
  write_label "source_id" (mp_source_id p) false +:+ render_labels (mp_labels p) +:+ "} " +:+
  render_value (mp_value p) +:+ " " +:+ show_Z (mp_ts p) +:+ newline.

(** The sink: its base url, the bodies posted and the outcomes of the next requests,
    status and text. *)
Record VictoriaMetricsSink := mkVm {
  vm_base_url : string;
  vm_posted : list string;
  vm_replies : list (result string (Z * result string string));
}.

Definition vm_new (base_url : string) (replies : list (result string (Z * result string string))) :
    VictoriaMetricsSink :=
  mkVm (trim_end_matches "/" base_url) [] replies.

Definition ingest_url (s : VictoriaMetricsSink) : string :=
  vm_base_url s +:+ "/api/v1/import/prometheus".

Definition vm_push_batch (points : list MetricPoint) : io VictoriaMetricsSink ObsError unit := λ s,
  if bool_decide (points = []) then (Ok tt, s)
  else
    let body := string_concat (map render_point points) in
    let s' := mkVm (vm_base_url s) (vm_posted s ++ [body]) (tail (vm_replies s)) in
    (match head (vm_replies s) with
     | None => Ok tt
     | Some (Err e) => Err (ObOther ("vm ingest send: " +:+ e))
     | Some (Ok (status, text)) =>
         if is_success status then Ok tt
         else Err (ObOther ("vm ingest " +:+ show_Z status +:+ " from " +:+ ingest_url s +:+ ": " +:+
                            chars_take 200 (default "" (ok text))))
     end, s').

(** *** One line per point *)

Definition one_line (s : string) : Prop := "010"%char ∉ bytes s.

Lemma one_line_app s t : one_line (s +:+ t) ↔ one_line s ∧ one_line t.
Proof. unfold one_line. rewrite bytes_app, elem_of_app. tauto. Qed.

Lemma one_line_concat l : Forall one_line l → one_line (string_concat l).
Proof.
  induction 1 as [|s l Hs _ IH]; [by apply not_elem_of_nil|]. by apply one_line_app.
Qed.

Lemma bytes_one_line s : Forall (λ a, a ≠ "010"%char) (bytes s) → one_line s.
Proof. intros Hs Hin. rewrite Forall_forall in Hs. by apply (Hs _ Hin). Qed.

Lemma alnum_one_line c : is_ascii_alphanumeric c = true → one_line c.
Proof.
  intros Hc Hin. destruct c as [|a [|]]; try done. apply list_elem_of_singleton in Hin as <-. done.
Qed.

Lemma metric_name_one_line s : one_line (sanitize_metric_name s).
Proof.
  unfold sanitize_metric_name. destruct (string_eqb _ ""); [apply bytes_one_line; by repeat constructor|].
  apply one_line_concat, Forall_lookup. intros i c. rewrite list_lookup_imap.
  destruct (chars s !! i) as [c'|]; [|done]. intros [= <-]. unfold metric_char.
  destruct (is_ascii_alphanumeric c') eqn:Ha.
  - apply alnum_one_line in Ha. destruct (Nat.eqb i 0); simpl; [|done].
    destruct (negb _); [done|]. apply bytes_one_line. by repeat constructor.
  - destruct (string_eqb c' "_") eqn:Hc; [apply string_eqb_eq in Hc as ->|];
      destruct (Nat.eqb i 0); simpl; try destruct (negb _); apply bytes_one_line; by repeat constructor.
Qed.

(** A value is valid UTF-8, as every Rust string is. *)
Lemma write_label_one_line k v b :
  one_line k → utf8_valid (bytes v) = true → one_line (write_label k v b).
Proof.
  intros Hk Hv. unfold write_label. rewrite !one_line_app.
  split_and!; [destruct b; apply bytes_one_line; by repeat constructor|done
    |apply bytes_one_line; by repeat constructor|apply bytes_one_line; by repeat constructor|
    |apply bytes_one_line; by repeat constructor].
  apply one_line_concat, Forall_map. eapply Forall_impl; [apply chars_lone, utf8_lone, Hv|].
  intros c Hc. unfold compose, escape_char.
  destruct (string_eqb c backslash); [apply bytes_one_line; by repeat constructor|].
  destruct (string_eqb c dq); [apply bytes_one_line; by repeat constructor|].
  destruct (string_eqb c newline) eqn:Hn; [apply bytes_one_line; by repeat constructor|].
  intros Hin. by rewrite (Hc _ Hin eq_refl) in Hn.
Qed.

(** The texts of a point are valid UTF-8. *)
Definition point_ok (p : MetricPoint) : Prop :=
  utf8_valid (bytes (mp_source p)) = true ∧ utf8_valid (bytes (mp_source_id p)) = true ∧
  match mp_labels p with
  | JObject l => Forall (λ kv, ∀ v, label_text kv.2 = Some v → utf8_valid (bytes v) = true) l
  | _ => True
  end.

Lemma render_point_line p :
  point_ok p → ∃ line, render_point p = line +:+ newline ∧ one_line line.
Proof.
  intros (Hs & Hi & Hl). unfold render_point. eexists. split.
  { rewrite !string_app_assoc. reflexivity. }
  rewrite !one_line_app.
  assert (∀ s, Forall (λ a, a ≠ "010"%char) (bytes s) → one_line s) as Hb by apply bytes_one_line.
  split_and!; try (apply Hb; by repeat constructor).
  - apply metric_name_one_line.
  - apply write_label_one_line; [apply Hb; by repeat constructor|done].
  - apply write_label_one_line; [apply Hb; by repeat constructor|done].
  - unfold render_labels. destruct (mp_labels p); try (apply Hb; by repeat constructor).
    apply one_line_concat, Forall_map. eapply Forall_impl; [exact Hl|]. intros [k v] Hv. simpl in *.
    destruct (label_text v) as [t|]; [|apply Hb; by repeat constructor].
    apply write_label_one_line; [apply metric_name_one_line|by apply Hv].
  - unfold render_value. destruct (mp_value p) as [[]|[]| |[] m e];
      try (apply f64_display_line); apply Hb; by repeat constructor.
  - apply Hb. eapply Forall_impl; [apply show_Z_digits|]. intros a [Ha| ->] E; [by rewrite E in Ha|done].
Qed.

(** Whatever names, ids and labels the samples carry, the text sent has exactly one
    line per point: no label can start a line of its own. *)
Theorem vm_one_line_per_point ps :
  Forall point_ok ps →
  length (split "010"%char (string_concat (map render_point ps))) = S (length ps).
Proof.
  induction 1 as [|p ps Hp _ IH]; [done|]. cbn [map string_concat].
  destruct (render_point_line p Hp) as (line & -> & Hl).
  assert ((line +:+ newline) +:+ string_concat (map render_point ps) =
          line +:+ String "010"%char (string_concat (map render_point ps))) as ->
    by by rewrite <- string_app_assoc.
  rewrite split_app_sep by done. simpl. by rewrite IH.
Qed.

#[export] Instance vm_sink : MetricSink VictoriaMetricsSink := {|
  push p := vm_push_batch [p];
  push_batch := vm_push_batch;
|}.
End VictoriaMetrics.

(** ** [event.rs] *)

Record AnomalyEvent := mkAnomaly {
  ae_anomaly_id : Uuid;
  ae_source : string;
  ae_source_id : string;
  ae_severity : string;
  ae_title : string;
  ae_metric_name : string;
  ae_metric_value : float64;
  ae_threshold : float64;
  ae_query : string;
  ae_target_ref : option string;
}.

Definition TRIAGE_CAPABILITY : string := "harness.triage.anomaly".

Section Event.
Context `{F64Text} `{UuidParse}.

(** [serde_json]: a float that is not finite becomes null. *)
Definition f64_value (x : float64) : json := if is_finite x then JFloat (f64_json x) else JNull.

Definition anomaly_json (a : AnomalyEvent) : json :=
  jobj ([("anomaly_id", JString (ae_anomaly_id a)); ("source", JString (ae_source a));
         ("source_id", JString (ae_source_id a)); ("severity", JString (ae_severity a));
         ("title", JString (ae_title a)); ("metric_name", JString (ae_metric_name a));
         ("metric_value", f64_value (ae_metric_value a)); ("threshold", f64_value (ae_threshold a));
         ("query", JString (ae_query a))] ++
        match ae_target_ref a with Some t => [("target_ref", JString t)] | None => [] end).

(** serde's decoder. *)
Definition decode_event (j : json) : option AnomalyEvent :=
  let text k := jget j k ≫= as_str in
  (text "anomaly_id" ≫= uuid_parse) ≫= λ id, text "source" ≫= λ source,
  text "source_id" ≫= λ source_id, text "severity" ≫= λ severity, text "title" ≫= λ title,
  text "metric_name" ≫= λ metric, (jget j "metric_value" ≫= as_f64) ≫= λ value,
  (jget j "threshold" ≫= as_f64) ≫= λ threshold, text "query" ≫= λ query,
  opt_text j "target_ref" ≫= λ target,
  Some (mkAnomaly id source source_id severity title metric value threshold query target).

(** The alert router's view of an anomaly. *)
#[export] Program Instance observer_anomalies : Anomalies := {|
  f64 := float64; show_f64 := f64_display;
  AnomalyDetected := AnomalyEvent;
  an_anomaly_id := ae_anomaly_id; an_source_id := ae_source_id; an_severity := ae_severity;
  an_title := ae_title; an_metric_name := ae_metric_name; an_metric_value := ae_metric_value;
  an_threshold := ae_threshold; an_target_ref := ae_target_ref;
  decode_anomaly := decode_event;
|}.
Next Obligation. intros l Hl. unfold decode_event. simpl. by rewrite Hl. Qed.

(** The event on the bus is the event decoded at the other end. *)
Lemma anomaly_json_roundtrip a :
  uuid_parse (ae_anomaly_id a) = Some (ae_anomaly_id a) →
  is_finite (ae_metric_value a) = true → is_finite (ae_threshold a) = true →
  decode_event (anomaly_json a) = Some a.
Proof.
  intros Hid Hv Ht. destruct a as [id source sid sev title metric v t query [target|]]; simpl in *;
    unfold decode_event, anomaly_json, f64_value; simpl; rewrite Hv, Ht, Hid; simpl;
    by rewrite !f64_json_roundtrip.
Qed.

(** A sample that is not a number of finite size breaches, but its event does not
    decode. *)
Lemma infinite_event_undecodable a :
  is_finite (ae_metric_value a) = false → decode_event (anomaly_json a) = None.
Proof.
  intros Hv. destruct a as [id source sid sev title metric v t query [target|]]; simpl in *;
    unfold decode_event, anomaly_json, f64_value; simpl; rewrite Hv;
    destruct (is_finite t), (uuid_parse id); done.
Qed.
End Event.

(** ** [ingest.rs] *)

(** A row of [observer.anomalies]. *)
Record AnomalyRow := mkAnomalyRow {
  aw_id : Uuid;
  aw_source : string;
  aw_source_id : string;
  aw_severity : string;
  aw_title : string;
  aw_description : option string;
  aw_metric_name : option string;
  aw_metric_value : float64;
  aw_threshold : float64;
  aw_metadata : json;
}.

(** [ObserverIngest]: the library, whether the bus, the counters and the live
    interval are wired, and the fixed interval in milliseconds. *)
Record ObserverIngest := mkIngest {
  oi_library : list NamedQuery;
  oi_bus : bool;
  oi_metrics : bool;
  oi_live : bool;
  oi_interval : Z;
}.

Section Ingest.
Context `{SemVer} `{F64Text} `{UuidParse} {K : Type} `{MetricSink K}.
Context (show_status : Z → string) (serde_error : json → string)
        (debug_opt : option string → string).

(** The observer's surroundings: clock, answers of the next Prometheus queries,
    outcomes of the next database round trips and bus sends, fresh ids, the table,
    what was sent, the sink, the counters, the live interval in seconds. *)
Record obs := mkObs {
  ob_now : Z;
  ob_replies : list (result string PromReply);
  ob_db : list (option ObsError);
  ob_send : list (option string);
  ob_uuid : nat → Uuid;
  ob_drawn : nat;
  ob_rows : list AnomalyRow;
  ob_bus : list AgentEnvelope;
  ob_sink : K;
  ob_cycles : Z;
  ob_raised : Z;
  ob_failures : Z;
  ob_interval_secs : Z;
}.
Abbreviation obio := (io obs ObsError).

Definition set_ob_replies x w := mkObs (ob_now w) x (ob_db w) (ob_send w) (ob_uuid w) (ob_drawn w)
  (ob_rows w) (ob_bus w) (ob_sink w) (ob_cycles w) (ob_raised w) (ob_failures w) (ob_interval_secs w).
Definition set_ob_db x w := mkObs (ob_now w) (ob_replies w) x (ob_send w) (ob_uuid w) (ob_drawn w)
  (ob_rows w) (ob_bus w) (ob_sink w) (ob_cycles w) (ob_raised w) (ob_failures w) (ob_interval_secs w).
Definition set_ob_rows n x w := mkObs (ob_now w) (ob_replies w) (ob_db w) (ob_send w) (ob_uuid w) n
  x (ob_bus w) (ob_sink w) (ob_cycles w) (ob_raised w) (ob_failures w) (ob_interval_secs w).
Definition set_ob_bus n f x w := mkObs (ob_now w) (ob_replies w) (ob_db w) f (ob_uuid w) n
  (ob_rows w) x (ob_sink w) (ob_cycles w) (ob_raised w) (ob_failures w) (ob_interval_secs w).
Definition set_ob_sink x w := mkObs (ob_now w) (ob_replies w) (ob_db w) (ob_send w) (ob_uuid w)
  (ob_drawn w) (ob_rows w) (ob_bus w) x (ob_cycles w) (ob_raised w) (ob_failures w)
  (ob_interval_secs w).
Definition set_ob_counts c r f w := mkObs (ob_now w) (ob_replies w) (ob_db w) (ob_send w) (ob_uuid w)
  (ob_drawn w) (ob_rows w) (ob_bus w) (ob_sink w) c r f (ob_interval_secs w).

(** A database round trip; with no outcome left it succeeds. *)
Definition ob_call : obio unit := λ w,
  (match mjoin (head (ob_db w)) with Some e => Err e | None => Ok tt end,
   set_ob_db (tail (ob_db w)) w).

(** [self.prom.instant(..)]. *)
Definition prom_instant (query : string) : obio (list InstantSample) := λ w,
  (instant show_status serde_error debug_opt query
     (default (Err "connection closed") (head (ob_replies w))),
   set_ob_replies (tail (ob_replies w)) w).

(** [target_ref_from_source_id]. *)
Definition target_ref_from_source_id (source_id : string) : option string :=
  if string_eqb source_id "" || string_eqb source_id "default" then None
  else
    let host := default source_id (head (split ":"%char source_id)) in
    if string_eqb host "" then None else Some ("target://" +:+ host).

(** [anomaly_envelope]; the correlation id is drawn by [AgentEnvelope::new]. *)
Definition anomaly_envelope (corr : Uuid) (now : Z) (event : AnomalyEvent) :
    result ObsError AgentEnvelope :=
  map_err (λ e, ObOther ("bad triage version_req: " +:+ e)) (req_parse "^1") ≫= λ req,
  Ok (envelope_new corr now "observer" (ByCapability TRIAGE_CAPABILITY req) (anomaly_json event)).

(** [bus.send], best effort. *)
Definition emit_anomaly (event : AnomalyEvent) : obio unit := λ w,
  match anomaly_envelope (ob_uuid w (ob_drawn w)) (ob_now w) event with
  | Ok env =>
      let sent := match mjoin (head (ob_send w)) with Some _ => [] | None => [env] end in
      (Ok tt, set_ob_bus (S (ob_drawn w)) (tail (ob_send w)) (ob_bus w ++ sent) w)
  | Err _ => (Ok tt, w)
  end.

Definition anomaly_event (id : Uuid) (q : NamedQuery) (t : Threshold) (source_id : string)
    (value : float64) : AnomalyEvent :=
  mkAnomaly id (nq_source q) source_id (th_severity t) (th_title t) (nq_metric_name q) value
    (th_value t) (nq_name q) (target_ref_from_source_id source_id).

Definition anomaly_row (id : Uuid) (q : NamedQuery) (t : Threshold) (source_id : string)
    (value : float64) : AnomalyRow :=
  mkAnomalyRow id (nq_source q) source_id (th_severity t) (th_title t)
    (Some ("PromQL: " +:+ nq_promql q)) (Some (nq_metric_name q)) value (th_value t)
    (jobj [("query", JString (nq_name q))]).

(** [INSERT .. RETURNING id]: the id is the table's default. *)
Definition store_anomaly (f : Uuid → AnomalyRow) : obio Uuid := λ w,
  let id := ob_uuid w (ob_drawn w) in
  (Ok id, set_ob_rows (S (ob_drawn w)) (ob_rows w ++ [f id]) w).

(** The table's check on the severity. *)
Definition severities : list string := ["info"; "warning"; "error"; "critical"].

Definition severity_ok (s : string) : bool := existsb (string_eqb s) severities.
#[local] Arguments severity_ok : simpl never.

Definition insert_anomaly (severity : string) (f : Uuid → AnomalyRow) : obio Uuid :=
  ob_call ≫= λ _,
  if severity_ok severity then store_anomaly f
  else throw (ObPg "anomalies_severity_check").

Definition raise_anomaly (c : ObserverIngest) (q : NamedQuery) (t : Threshold) (source_id : string)
    (value : float64) : obio unit :=
  ob_call ≫= λ _,
  insert_anomaly (th_severity t) (λ id, anomaly_row id q t source_id value) ≫= λ id,
  if oi_bus c then emit_anomaly (anomaly_event id q t source_id value) else mret tt.

Definition sample_source_id (q : NamedQuery) (s : InstantSample) : string :=
  default "default" (nq_source_id_label q ≫= λ l, jget (is_metric s) l ≫= as_str).

(** The first threshold a value breaches. *)
Definition first_breach (q : NamedQuery) (v : float64) : option Threshold :=
  find (λ t, breaches t v) (nq_thresholds q).

(** One sample: its point, and whether an anomaly was raised for it. *)
Definition ingest_sample (c : ObserverIngest) (now : Z) (q : NamedQuery) (s : InstantSample)
    (w : obs) : MetricPoint * nat * obs :=
  let source_id := sample_source_id q s in
  let point := mkPoint now (nq_source q) source_id (nq_metric_name q) (is_value s) (is_metric s) in
  match first_breach q (is_value s) with
  | None => (point, 0%nat, w)
  | Some t =>
      let '(r, w) := raise_anomaly c q t source_id (is_value s) w in
      (point, match r with Ok _ => 1%nat | Err _ => 0%nat end, w)
  end.

Fixpoint ingest_samples (c : ObserverIngest) (now : Z) (q : NamedQuery) (l : list InstantSample)
    (w : obs) : list MetricPoint * nat * obs :=
  match l with
  | [] => ([], 0%nat, w)
  | s :: l =>
      let '(p, n, w) := ingest_sample c now q s w in
      let '(ps, m, w) := ingest_samples c now q l w in
      (p :: ps, (n + m)%nat, w)
  end.

Fixpoint ingest_queries (c : ObserverIngest) (now : Z) (l : list NamedQuery) (w : obs) :
    list MetricPoint * nat * obs :=
  match l with
  | [] => ([], 0%nat, w)
  | q :: l =>
      match prom_instant (nq_promql q) w with
      | (Err _, w) => ingest_queries c now l w
      | (Ok samples, w) =>
          let '(ps, n, w) := ingest_samples c now q samples w in
          let '(ps', m, w) := ingest_queries c now l w in
          (ps ++ ps', (n + m)%nat, w)
      end
  end.

Definition count (c : ObserverIngest) (cycles raised failures : Z) (w : obs) : obs :=
  if oi_metrics c
  then set_ob_counts (ob_cycles w + cycles) (ob_raised w + raised) (ob_failures w + failures) w
  else w.

(** [run_once]. *)
Definition run_once (c : ObserverIngest) : obio unit := λ w,
  let '(points, raised, w) := ingest_queries c (ob_now w) (oi_library c) w in
  let '(r, w) := match points with
                 | [] => (Ok tt, w)
                 | _ => zoom ob_sink set_ob_sink (push_batch points) w
                 end in
  match r with
  | Err e => (Err e, count c 0 0 1 w)
  | Ok _ => (Ok tt, count c 1 (Z.of_nat raised) 0 w)
  end.

(** The pause before a cycle of [spawn]'s loop. *)
Definition poll_period (c : ObserverIngest) (w : obs) : Z :=
  if oi_live c then
    if ob_interval_secs w =? 0 then oi_interval c else ob_interval_secs w * 1000
  else oi_interval c.

(** *** Nothing is announced that is not stored *)

(** [env] announces the anomaly of [row]. *)
Definition announces (row : AnomalyRow) (env : AgentEnvelope) : Prop :=
  ∃ q t,
    row = anomaly_row (aw_id row) q t (aw_source_id row) (aw_metric_value row) ∧
    env_body env = anomaly_json (anomaly_event (aw_id row) q t (aw_source_id row) (aw_metric_value row)).

(** Rows and envelopes are only added, and each added envelope announces an added
    row. *)
Definition observed (w w' : obs) : Prop :=
  ∃ rows envs, ob_rows w' = ob_rows w ++ rows ∧ ob_bus w' = ob_bus w ++ envs ∧
    Forall (λ env, ∃ row, row ∈ rows ∧ announces row env) envs.

#[local] Instance observed_refl : Reflexive observed.
Proof. intros w. exists [], []. by rewrite !app_nil_r. Qed.

#[local] Instance observed_trans : Transitive observed.
Proof.
  intros w1 w2 w3 (r1 & e1 & Hr1 & He1 & H1') (r2 & e2 & Hr2 & He2 & H2').
  exists (r1 ++ r2), (e1 ++ e2). rewrite Hr2, He2, Hr1, He1, !app_assoc. split_and!; [done|done|].
  apply Forall_app; split; (eapply Forall_impl; [done|]); intros env (row & Hin & Ha); exists row;
    (split; [apply elem_of_app; auto|done]).
Qed.

Lemma raise_anomaly_observed c q t sid v w : observed w (raise_anomaly c q t sid v w).2.
Proof.
  unfold raise_anomaly, insert_anomaly, ob_call, store_anomaly, emit_anomaly, anomaly_envelope,
    mbind, io_bind, throw. simpl.
  destruct (mjoin (head (ob_db w))); simpl; [by exists [], []; rewrite !app_nil_r|].
  destruct (mjoin (head (tail (ob_db w)))); simpl; [by exists [], []; rewrite !app_nil_r|].
  destruct (severity_ok _); simpl; [|by exists [], []; rewrite !app_nil_r].
  set (row := anomaly_row _ _ _ _ _).
  destruct (oi_bus c); simpl; [|by exists [row], []; rewrite app_nil_r].
  destruct (req_parse "^1"); simpl; [|by exists [row], []; rewrite app_nil_r].
  destruct (mjoin (head (ob_send w))); simpl; [by exists [row], []; rewrite app_nil_r|].
  exists [row]. eexists. split_and!; [done|done|]. apply Forall_singleton. exists row.
  split; [by left|]. by exists q, t.
Qed.

Lemma ingest_sample_observed c now q s w : observed w (ingest_sample c now q s w).2.
Proof.
  unfold ingest_sample. destruct (first_breach q (is_value s)) as [t|]; [|done].
  pose proof (raise_anomaly_observed c q t (sample_source_id q s) (is_value s) w) as Hr.
  by destruct (raise_anomaly _ _ _ _ _ w) as [r w'].
Qed.

Lemma ingest_samples_observed c now q l w : observed w (ingest_samples c now q l w).2.
Proof.
  revert w. induction l as [|s l IH]; intros w; simpl; [done|].
  pose proof (ingest_sample_observed c now q s w) as H1'.
  destruct (ingest_sample c now q s w) as [[p n] w1]. specialize (IH w1).
  destruct (ingest_samples c now q l w1) as [[ps m] w2]. simpl in *. by etrans.
Qed.

Lemma ingest_queries_observed c now l w : observed w (ingest_queries c now l w).2.
Proof.
  revert w. induction l as [|q l IH]; intros w; cbn [ingest_queries]; [done|].
  assert (observed w (prom_instant (nq_promql q) w).2) as H0'
    by (exists [], []; by rewrite !app_nil_r).
  destruct (prom_instant (nq_promql q) w) as [[samples|e] w0]; simpl in *;
    [|etrans; [exact H0'|apply IH]].
  pose proof (ingest_samples_observed c now q samples w0) as H1'.
  destruct (ingest_samples c now q samples w0) as [[ps n] w1]. specialize (IH w1).
  destruct (ingest_queries c now l w1) as [[ps' m] w2]. simpl in *. etrans; [exact H0'|]. by etrans.
Qed.

Lemma count_observed c x y z w : observed w (count c x y z w).
Proof. unfold count. destruct (oi_metrics c); [|done]. exists [], []. by rewrite !app_nil_r. Qed.

(** Whatever Prometheus answers and whichever database call, bus send or push fails:
    a cycle only adds anomalies, and every event it puts on the bus announces, with
    its id, an anomaly it has stored. *)
Theorem anomaly_events_persisted c w :
  ∃ rows envs, ob_rows (run_once c w).2 = ob_rows w ++ rows ∧
    ob_bus (run_once c w).2 = ob_bus w ++ envs ∧
    Forall (λ env, ∃ row, row ∈ rows ∧ announces row env) envs.
Proof.
  change (observed w (run_once c w).2). unfold run_once.
  pose proof (ingest_queries_observed c (ob_now w) (oi_library c) w) as H1'.
  destruct (ingest_queries c (ob_now w) (oi_library c) w) as [[ps n] w1]. simpl in H1'.
  assert (observed w1 (match ps with
      | [] => (Ok tt, w1)
      | _ => zoom ob_sink set_ob_sink (push_batch ps) w1
      end).2) as H2'.
  { destruct ps; [done|]. unfold zoom. destruct (push_batch _ _). exists [], [].
    by rewrite !app_nil_r. }
  destruct (match ps with [] => _ | _ => _ end) as [[[]|e] w2]; simpl in *;
    (etrans; [exact H1'|]); (etrans; [exact H2'|]); apply count_observed.
Qed.

(** *** What a cycle finds *)

(** The samples a cycle gets, with their queries. *)
Fixpoint answered (l : list NamedQuery) (replies : list (result string PromReply)) :
    list (NamedQuery * InstantSample) :=
  match l with
  | [] => []
  | q :: l =>
      match instant show_status serde_error debug_opt (nq_promql q)
              (default (Err "connection closed") (head replies)) with
      | Ok samples => map (pair q) samples
      | Err _ => []
      end ++ answered l (tail replies)
  end.

Definition hit (x : NamedQuery * InstantSample) : option (NamedQuery * Threshold * InstantSample) :=
  (λ t, (x.1, t, x.2)) <$> first_breach x.1 (is_value x.2).

Definition hit_row (id : Uuid) (h : NamedQuery * Threshold * InstantSample) : AnomalyRow :=
  anomaly_row id h.1.1 h.1.2 (sample_source_id h.1.1 h.2) (is_value h.2).

Definition hit_event (id : Uuid) (h : NamedQuery * Threshold * InstantSample) : json :=
  anomaly_json (anomaly_event id h.1.1 h.1.2 (sample_source_id h.1.1 h.2) (is_value h.2)).

Definition point_of (now : Z) (x : NamedQuery * InstantSample) : MetricPoint :=
  mkPoint now (nq_source x.1) (sample_source_id x.1 x.2) (nq_metric_name x.1) (is_value x.2)
    (is_metric x.2).

(** Database and bus answer; the severities are known and the requirement parses. *)
Definition calm (w : obs) : Prop := ob_db w = [] ∧ ob_send w = [].

Definition library_ok (l : list NamedQuery) : Prop :=
  is_ok (req_parse "^1") = true ∧
  Forall (λ q, Forall (λ t, severity_ok (th_severity t) = true) (nq_thresholds q)) l.

(** From [w] to [w'] the anomalies of [hits] were stored and announced, in order. *)
Definition recorded (bus : bool) (hits : list (NamedQuery * Threshold * InstantSample)) (w w' : obs) :
    Prop :=
  calm w' ∧ ob_sink w' = ob_sink w ∧
  ∃ ids, length ids = length hits ∧ ob_rows w' = ob_rows w ++ zip_with hit_row ids hits ∧
    map env_body (ob_bus w') =
    map env_body (ob_bus w) ++ (if bus then zip_with hit_event ids hits else []).

Lemma recorded_nil bus w : calm w → recorded bus [] w w.
Proof. intros Hc. split_and!; [done..|]. exists []. destruct bus; by rewrite !app_nil_r. Qed.

Lemma recorded_app bus h1 h2 w1 w2 w3 :
  recorded bus h1 w1 w2 → recorded bus h2 w2 w3 → recorded bus (h1 ++ h2) w1 w3.
Proof.
  intros (Hc & Hk & i1 & Hl1 & Hrows1 & Hbus1) (Hc' & Hk' & i2 & Hl2 & Hrows2 & Hbus2).
  split_and!; [apply Hc'..|congruence|]. exists (i1 ++ i2).
  rewrite !length_app, Hrows2, Hrows1, Hbus2, Hbus1, !zip_with_app by done.
  split_and!; [lia|by rewrite app_assoc|]. destruct bus; by rewrite <- ?app_assoc, ?app_nil_r.
Qed.

Lemma raise_recorded c q t s w :
  is_ok (req_parse "^1") = true → severity_ok (th_severity t) = true → calm w →
  ∃ w', raise_anomaly c q t (sample_source_id q s) (is_value s) w = (Ok tt, w') ∧
    ob_replies w' = ob_replies w ∧ recorded (oi_bus c) [(q, t, s)] w w'.
Proof.
  intros Hv Hs [Hd Hb]. unfold raise_anomaly, insert_anomaly, ob_call, store_anomaly, emit_anomaly,
    anomaly_envelope, mbind, io_bind, throw. simpl. rewrite Hd. simpl. rewrite Hs. simpl.
  destruct (oi_bus c); simpl.
  - destruct (req_parse "^1"); simpl; [|done]. rewrite Hb. simpl. eexists. split; [done|].
    split; [done|]. split_and!; [done..|]. exists [ob_uuid w (ob_drawn w)]. simpl. rewrite map_app.
    split_and!; done.
  - eexists. split; [done|]. split; [done|]. split_and!; [done..|]. exists [ob_uuid w (ob_drawn w)]. simpl.
    split_and!; [done..|]. by rewrite app_nil_r.
Qed.

Lemma ingest_samples_recorded c now q l w :
  is_ok (req_parse "^1") = true →
  Forall (λ t, severity_ok (th_severity t) = true) (nq_thresholds q) → calm w →
  (ingest_samples c now q l w).1 =
    (map (point_of now) (map (pair q) l), length (omap hit (map (pair q) l))) ∧
  ob_replies (ingest_samples c now q l w).2 = ob_replies w ∧
  recorded (oi_bus c) (omap hit (map (pair q) l)) w (ingest_samples c now q l w).2.
Proof.
  intros Hv Hq. revert w. induction l as [|s l IH]; intros w Hw.
  { split; [done|]. split; [done|]. by apply recorded_nil. }
  cbn [ingest_samples map omap list_omap]. unfold ingest_sample.
  assert (hit (q, s) = (λ t, (q, t, s)) <$> first_breach q (is_value s)) as -> by done.
  destruct (first_breach q (is_value s)) as [t|] eqn:Hf; cbn [fmap option_fmap option_map].
  - assert (severity_ok (th_severity t) = true) as Hs.
    { apply find_Some_elem in Hf as [Hin _]. rewrite Forall_forall in Hq. by apply Hq. }
    destruct (raise_recorded c q t s w Hv Hs Hw) as (w1 & -> & Hr1 & H1').
    destruct (IH w1 (proj1 H1')) as (Hp & Hr & H2').
    destruct (ingest_samples c now q l w1) as [[ps m] w2]. simpl in *. injection Hp as -> ->.
    split; [done|]. split; [congruence|]. by apply (recorded_app _ [(q, t, s)] _ w w1).
  - destruct (IH w Hw) as (Hp & Hr & H2'). destruct (ingest_samples c now q l w) as [[ps m] w2].
    simpl in *. by injection Hp as -> ->.
Qed.

Lemma ingest_queries_recorded c now l w :
  library_ok l → calm w →
  (ingest_queries c now l w).1 =
    (map (point_of now) (answered l (ob_replies w)), length (omap hit (answered l (ob_replies w)))) ∧
  recorded (oi_bus c) (omap hit (answered l (ob_replies w))) w (ingest_queries c now l w).2.
Proof.
  intros [Hv Hl]. revert w. induction l as [|q l IH]; intros w Hw.
  { split; [done|]. by apply recorded_nil. }
  apply Forall_cons in Hl as [Hq Hl]. specialize (IH Hl). cbn [ingest_queries answered].
  unfold prom_instant. set (w1 := set_ob_replies (tail (ob_replies w)) w).
  destruct (instant _ _ _ _ _) as [samples|e]; [|apply (IH w1 Hw)].
  destruct (ingest_samples_recorded c now q samples w1 Hv Hq Hw) as (Hp & Hr & H1').
  destruct (ingest_samples c now q samples w1) as [[ps n] w2]. simpl in Hp, Hr, H1'.
  injection Hp as -> ->. destruct (IH w2 (proj1 H1')) as [Hp H2']. rewrite Hr in Hp, H2'.
  destruct (ingest_queries c now l w2) as [[ps' m] w3]. simpl in Hp, H2'.
  injection Hp as -> ->. simpl. rewrite map_app, omap_app, length_app. split; [done|].
  by apply (recorded_app _ _ _ w1 w2).
Qed.

Lemma count_sink c x y z w : ob_sink (count c x y z w) = ob_sink w.
Proof. unfold count. by destruct (oi_metrics c). Qed.
Lemma count_rows c x y z w : ob_rows (count c x y z w) = ob_rows w.
Proof. unfold count. by destruct (oi_metrics c). Qed.
Lemma count_bus c x y z w : ob_bus (count c x y z w) = ob_bus w.
Proof. unfold count. by destruct (oi_metrics c). Qed.

(** When database and bus answer, a cycle stores exactly one anomaly for each sample
    over a threshold, for the first threshold it breaches, in order, announces each
    with its id, and hands all samples to the sink in one batch. *)
Theorem run_once_complete c w :
  library_ok (oi_library c) → calm w →
  let samples := answered (oi_library c) (ob_replies w) in
  let hits := omap hit samples in
  let w' := (run_once c w).2 in
  ob_sink w' = match samples with
               | [] => ob_sink w
               | _ => (push_batch (map (point_of (ob_now w)) samples) (ob_sink w)).2
               end ∧
  ∃ ids, length ids = length hits ∧ ob_rows w' = ob_rows w ++ zip_with hit_row ids hits ∧
    map env_body (ob_bus w') =
    map env_body (ob_bus w) ++ (if oi_bus c then zip_with hit_event ids hits else []).
Proof.
  intros Hl Hw samples hits w'. unfold w', run_once.
  destruct (ingest_queries_recorded c (ob_now w) (oi_library c) w Hl Hw) as [Hp Hr].
  destruct (ingest_queries c (ob_now w) (oi_library c) w) as [[ps n] w1]. simpl in Hp, Hr.
  injection Hp as -> ->. fold samples hits in Hr |- *.
  destruct Hr as (_ & Hk & ids & Hlen & Hrows & Hbus).
  destruct samples as [|x l]; simpl.
  - rewrite count_sink, count_rows, count_bus. split; [done|]. by exists ids.
  - unfold zoom. rewrite Hk. destruct (push_batch _ (ob_sink w)) as [[[]|e] k]; simpl;
      rewrite count_sink, count_rows, count_bus; (split; [done|]; by exists ids).
Qed.

(** *** The shipped thresholds *)

#[local] Opaque f64_of_Z.

Lemma mantissa_nested a b e0 v :
  (a < b)%positive →
  SFltb (S754_finite false b e0) v = true → SFltb (S754_finite false a e0) v = true.
Proof.
  intros Hab. unfold SFltb. destruct v as [s|[]| |[] m e]; cbn [SFcompare]; try discriminate; [done|].
  destruct (Z.compare e0 e); [|done|done]. change (Pos.compare_cont Eq ?x ?y) with (Pos.compare x y).
  destruct (Pos.compare_spec b m); [| |done]; intros _; destruct (Pos.compare_spec a m); (done || lia).
Qed.

Lemma cpu_thresholds_nested v :
  SFltb (f64_of_Z 98) v = true → SFltb (f64_of_Z 90) v = true.
Proof.
  assert (f64_of_Z 98 = S754_finite false 6896136929411072 (-46)) as -> by (vm_compute; reflexivity).
  assert (f64_of_Z 90 = S754_finite false 6333186975989760 (-46)) as -> by (vm_compute; reflexivity).
  by apply mantissa_nested.
Qed.

(** The comment on the loop says the highest severity wins; the first threshold
    breached wins, and the shipped library lists the warning first: no sample, however
    large, is ever critical. *)
Theorem default_never_critical q v t :
  q ∈ default_library → first_breach q v = Some t → th_severity t = "warning".
Proof.
  intros Hq. unfold first_breach, find.
  repeat (apply elem_of_cons in Hq as [->|Hq]); [..|by apply not_elem_of_nil in Hq];
    cbn [List.find nq_thresholds breaches th_op th_value].
  { destruct (SFltb (f64_of_Z 90) v) eqn:E1; [by intros [= <-]|].
    destruct (SFltb (f64_of_Z 98) v) eqn:E2; [|done]. by rewrite cpu_thresholds_nested in E1. }
  all: destruct (SFltb _ v); [by intros [= <-]|done].
Qed.

End Ingest.

(** ** On concrete input *)

Module ObserverDemo.
Definition float_tuple (x : float64) : nat * bool * positive * Z :=
  match x with
  | S754_zero s => (0%nat, s, 1%positive, 0)
  | S754_infinity s => (1%nat, s, 1%positive, 0)
  | S754_nan => (2%nat, false, 1%positive, 0)
  | S754_finite s m e => (3%nat, s, m, e)
  end.
Definition tuple_float (t : nat * bool * positive * Z) : float64 :=
  match t with
  | (0%nat, s, _, _) => S754_zero s
  | (1%nat, s, _, _) => S754_infinity s
  | (2%nat, _, _, _) => S754_nan
  | (_, s, m, e) => S754_finite s m e
  end.
Lemma tuple_float_tuple x : tuple_float (float_tuple x) = x.
Proof. by destruct x. Qed.

(** Doubles print as codes; the texts read are integers. *)
Definition code (x : float64) : string := bits (encode (float_tuple x)).
Definition uncode (s : string) : option float64 := tuple_float <$> decode (unbits s).

Lemma code_line x : "010"%char ∉ bytes (code x).
Proof.
  unfold code. induction (encode (float_tuple x)) as [p IH|p IH|]; cbn [bits bytes];
    [| |by apply not_elem_of_nil]; by intros [?|?]%elem_of_cons.
Qed.

Lemma uncode_code x : is_finite x = true → uncode (code x) = Some x.
Proof. intros _. unfold uncode, code. by rewrite unbits_bits, decode_encode; simpl; rewrite tuple_float_tuple. Qed.

#[export] Instance demo_f64 : F64Text := {|
  f64_display := code;
  f64_parse s := f64_of_Z <$> parse_i64 s;
  f64_json := code;
  f64_unjson := uncode;
  f64_display_line := code_line;
  f64_json_roundtrip := uncode_code;
|}.

#[export] Existing Instance demo_json_text.

(** Two samples for the processor query: one at 99, one at 50. *)
Definition sample (instance value : string) : json :=
  jobj [("metric", jobj [("instance", JString instance)]);
        ("value", JArray [JInt 1700000000; JString value])].
Definition cpu_reply : result string PromReply :=
  Ok (mkPromReply 200 (Ok (jobj [("status", JString "success");
    ("data", jobj [("resultType", JString "vector");
       ("result", JArray [sample "node-01:9100" "99"; sample "node-02:9100" "50"])])]))).

Definition ids (n : nat) : Uuid := "a" +:+ show_Z (Z.of_nat n).
Definition observer : ObserverIngest := mkIngest default_library true true false 30000.
Definition sink0 : VictoriaMetricsSink := vm_new "http://localhost:8428/" [].
Definition status_text (z : Z) : string := show_Z z.
Definition shape (j : json) : string := "invalid type".
Definition debug_text (o : option string) : string := default "None" o.
End ObserverDemo.

Section Witnesses.
Import ObserverDemo DemoSemVer.

Abbreviation world0 :=
  (mkObs (K := VictoriaMetricsSink) 0 [cpu_reply] [] [] ids 0 [] [] sink0 0 0 0 30).
Abbreviation cycle := (run_once status_text shape debug_text observer world0).

(** Of two samples, the one at 99 percent is stored and announced, as a warning. *)
Lemma run_once_complete_witness :
  ∃ l, length l = 1%nat ∧ ob_rows cycle.2 = zip_with hit_row l
    (omap hit (answered status_text shape debug_text default_library [cpu_reply])) ∧
    length (ob_bus cycle.2) = 1%nat.
Proof.
  destruct (run_once_complete status_text shape debug_text observer world0)
    as (_ & l & Hl & Hr & Hb).
  - split; [reflexivity|]. apply (bool_decide_unpack _). vm_compute. exact I.
  - split; reflexivity.
  - assert (length (omap hit (answered status_text shape debug_text default_library [cpu_reply])) = 1%nat)
      as Hn by (vm_compute; reflexivity).
    exists l. split; [exact (eq_trans Hl Hn)|]. split; [exact Hr|].
    rewrite <- (length_map env_body), Hb. change (oi_bus observer) with true.
    change (ob_bus world0) with (@nil AgentEnvelope). cbn iota. rewrite app_nil_l, length_zip_with, Hl.
    change (oi_library observer) with default_library. change (ob_replies world0) with [cpu_reply].
    rewrite Hn. reflexivity.
Defined.

(** A label with a line break in it stays on its line. *)
Lemma vm_one_line_per_point_witness :
  length (split "010"%char (string_concat (map render_point
    [mkPoint 0 "prometheus" ("a" +:+ newline +:+ "up 1") "node.cpu" (f64_of_Z 1) (JObject [])]))) = 2%nat.
Proof. apply (vm_one_line_per_point [_]). repeat constructor. Defined.

(** A processor at 99 percent, over the critical threshold as well. *)
Lemma default_never_critical_witness :
  ∃ q t, first_breach q (f64_of_Z 99) = Some t ∧ th_severity t = "warning" ∧
    existsb (λ t, breaches t (f64_of_Z 99) && string_eqb (th_severity t) "critical") (nq_thresholds q) = true.
Proof.
  exists (hd (mkNamedQuery "" "" "" None "" []) default_library).
  eexists. split; [vm_compute; reflexivity|]. split; [|vm_compute; reflexivity].
  apply (default_never_critical (hd (mkNamedQuery "" "" "" None "" []) default_library) (f64_of_Z 99));
    [left|vm_compute; reflexivity].
Defined.
End Witnesses.
