(* ===== verification/Runtime.v ===== *)
(** * daimon-runtime: registry and dispatcher
    ([daimon-runtime/src/{registry,dispatcher,bus}.rs])

    The capability registry is a map from agent ids to entries; the order in
    which [HashMap::values] yields them is the parameter {!HashOrder}. The
    dispatcher waits on a broadcast receiver: its world carries what that
    receiver will yield and after how long. Times are in milliseconds. *)

From S2P Require Import Prelude RustStd Json Core.
From Stdlib Require Import ZArith.

Local Open Scope Z_scope.

(** ** The capability registry *)

Section Entry.
Context `{SemVer}.

Record RegistryEntry := mkEntry {
  re_agent_id : AgentId;
  re_capabilities : list Capability;
}.
End Entry.

Abbreviation CapabilityRegistry := (gmap string RegistryEntry).

Section Registry.
Context `{SemVer}.

(** [register], [unregister], [get]. *)
Definition register (id : AgentId) (caps : list Capability) (r : CapabilityRegistry) :
    CapabilityRegistry := <[id := mkEntry id caps]> r.
Definition unregister (id : AgentId) (r : CapabilityRegistry) : CapabilityRegistry :=
  delete id r.
Definition reg_get (id : AgentId) (r : CapabilityRegistry) : option RegistryEntry := r !! id.

(** [cap.name == name && version_req.matches(&cap.version)]. *)
Definition provides (name : string) (req : version_req) (cap : Capability) : bool :=
  string_eqb (cap_name cap) name && req_matches req (cap_version cap).

Definition entry_provides (name : string) (req : version_req) (e : RegistryEntry) : bool :=
  existsb (provides name req) (re_capabilities e).

Context `{HashOrder RegistryEntry}.

(** [all], [find_by_capability], [require_by_capability]. *)
Definition reg_all (r : CapabilityRegistry) : list RegistryEntry := hash_values r.

Definition find_by_capability (name : string) (req : version_req) (r : CapabilityRegistry) :
    list RegistryEntry :=
  List.filter (entry_provides name req) (hash_values r).

Definition require_by_capability (name : string) (req : version_req) (r : CapabilityRegistry) :
    result CoreError RegistryEntry :=
  ok_or (hd_error (find_by_capability name req r))
    (CapabilityNotFound name (req_show req)).

Lemma require_ok name req r e :
  require_by_capability name req r = Ok e →
  (∃ id, r !! id = Some e) ∧ entry_provides name req e = true.
Proof.
  unfold require_by_capability, find_by_capability.
  destruct (List.filter _ _) as [|e' l] eqn:Hf; simpl; [done|]. intros [= ->].
  assert (In e (e :: l)) as Hin by (by left).
  rewrite <- Hf in Hin. apply List.filter_In in Hin as [Hin Hp].
  apply list_elem_of_In, elem_of_hash_values in Hin. by split.
Qed.

(** Resolution fails closed and is complete: [require_by_capability]
    returns an entry exactly when some registered agent provides the named
    capability at a version the requirement accepts; a missing name, a
    version mismatch, or an unregistered agent is an error, in whatever order
    the map is iterated. *)
Theorem require_by_capability_iff name req r :
  is_ok (require_by_capability name req r) = true ↔
  ∃ id e cap, r !! id = Some e ∧ cap ∈ re_capabilities e ∧
    cap_name cap = name ∧ req_matches req (cap_version cap) = true.
Proof.
  split.
  - destruct (require_by_capability name req r) as [e|] eqn:Hr; [|done]. intros _.
    apply require_ok in Hr as [[id Hid] Hp]. unfold entry_provides in Hp.
    apply existsb_elem in Hp as (cap & Hc & Hp). unfold provides in Hp.
    apply andb_true_iff in Hp as [?%string_eqb_eq ?]. by exists id, e, cap.
  - intros (id & e & cap & Hid & Hc & Hn & Hm). unfold require_by_capability.
    assert (In e (find_by_capability name req r)) as Hin.
    { apply List.filter_In. split.
      - apply list_elem_of_In, elem_of_hash_values. by exists id.
      - apply existsb_elem. exists cap. unfold provides. rewrite Hm.
        by rewrite (proj2 (string_eqb_eq _ _) Hn). }
    by destruct (find_by_capability name req r).
Qed.
End Registry.

(** ** Dispatcher *)

Inductive DispatchError :=
| DCapabilityNotFound (what : string)
| DTimeout (ms : Z)
| DBusClosed
| DCore (e : CoreError).

Section Dispatch.
Context `{SemVer} `{HashOrder RegistryEntry}.

(** What [rx.recv] yields. *)
Inductive recv_event := Recv (env : AgentEnvelope) | Lagged (n : Z) | Closed.

(** The dispatcher's surroundings: for each coming call, the events the receiver
    it subscribes will yield, each with the time that passes before it. *)
Record dworld := mkDworld {
  d_registry : CapabilityRegistry;
  d_sent : list AgentEnvelope;
  d_now : Z;
  d_streams : list (list (Z * recv_event));
  d_uuid : nat → Uuid;
  d_next : nat;
}.

(** The receive loop, from time [now] to [deadline]; the arrival time of a reply
    is returned with it. A wait that no event ends before the deadline times
    out. *)
Fixpoint await_reply (corr : Uuid) (from : AgentId) (timeout deadline now : Z)
    (events : list (Z * recv_event)) : result DispatchError json * Z :=
  if deadline <=? now then (Err (DTimeout timeout), now)
  else
    match events with
    | [] => (Err (DTimeout timeout), deadline)
    | (dt, ev) :: events =>
        if deadline <? now + Z.max 0 dt then (Err (DTimeout timeout), deadline)
        else
          let now := now + Z.max 0 dt in
          match ev with
          | Recv env =>
              if string_eqb (env_correlation_id env) corr then
                match env_to env with
                | Direct id =>
                    if string_eqb id from then (Ok (env_body env), now)
                    else await_reply corr from timeout deadline now events
                | ByCapability _ _ => await_reply corr from timeout deadline now events
                end
              else await_reply corr from timeout deadline now events
          | Lagged _ => await_reply corr from timeout deadline now events
          | Closed => (Err DBusClosed, now)
          end
    end.

(** [Dispatcher::dispatch]. [InProcBus::send] never fails. *)
Definition dispatch (from : AgentId) (name : string) (req : version_req) (body : json)
    (timeout : Z) : io dworld DispatchError json := λ w,
  match require_by_capability name req (d_registry w) with
  | Err _ => (Err (DCapabilityNotFound (name +:+ " @ " +:+ req_show req)), w)
  | Ok _ =>
      let corr := d_uuid w (d_next w) in
      let env := envelope_new corr (d_now w) from (ByCapability name req) body in
      let '(r, now) := await_reply corr from timeout (d_now w + timeout) (d_now w)
                         (hd [] (d_streams w)) in
      (r, mkDworld (d_registry w) (d_sent w ++ [env]) now (tail (d_streams w)) (d_uuid w)
            (S (d_next w)))
  end.

(** [Display for DispatchError]; the debug text of a duration is a parameter of
    the platform and is shown in milliseconds. *)
Definition show_dispatch_error (e : DispatchError) : string :=
  match e with
  | DCapabilityNotFound c => "no agent provides capability `" +:+ c +:+ "`"
  | DTimeout ms => "dispatch timed out after " +:+ show_Z ms +:+ "ms"
  | DBusClosed => "bus closed before a reply arrived"
  | DCore e => "core: " +:+ show_core_error e
  end.

(** An event that answers the call. *)
Definition answers (corr : Uuid) (from : AgentId) (ev : recv_event) : option json :=
  match ev with
  | Recv env =>
      if string_eqb (env_correlation_id env) corr then
        match env_to env with
        | Direct id => if string_eqb id from then Some (env_body env) else None
        | ByCapability _ _ => None
        end
      else None
  | _ => None
  end.

(** Arrival times, cumulated from [now]. *)
Fixpoint arrivals (now : Z) (events : list (Z * recv_event)) : list (Z * recv_event) :=
  match events with
  | [] => []
  | (dt, ev) :: events =>
      let now := now + Z.max 0 dt in (now, ev) :: arrivals now events
  end.

Lemma await_reply_ok corr from timeout deadline now events body t :
  await_reply corr from timeout deadline now events = (Ok body, t) →
  ∃ i ev, arrivals now events !! i = Some (t, ev) ∧ answers corr from ev = Some body ∧
    t ≤ deadline ∧
    ∀ j t' ev', (j < i)%nat → arrivals now events !! j = Some (t', ev') →
      answers corr from ev' = None ∧ ev' ≠ Closed.
Proof.
  revert now; induction events as [|[dt ev] events IH]; intros now; simpl;
    destruct (deadline <=? now) eqn:Hd; try done.
  destruct (deadline <? now + Z.max 0 dt) eqn:Hlt; [done|]. intros Hr.
  assert (await_reply corr from timeout deadline (now + Z.max 0 dt) events = (Ok body, t) →
    answers corr from ev = None → ev ≠ Closed →
    ∃ i ev0, ((now + Z.max 0 dt, ev) :: arrivals (now + Z.max 0 dt) events) !! i
        = Some (t, ev0) ∧ answers corr from ev0 = Some body ∧ t ≤ deadline ∧
      ∀ j t' ev', (j < i)%nat →
        ((now + Z.max 0 dt, ev) :: arrivals (now + Z.max 0 dt) events) !! j = Some (t', ev') →
        answers corr from ev' = None ∧ ev' ≠ Closed) as Hskip.
  { intros Hrest Ha Hc. destruct (IH _ Hrest) as (i & ev0 & Hi & Ho & Ht & Hbefore).
    exists (S i), ev0. repeat split; try done.
    all: destruct j as [|j]; [by simplify_eq/=|];
      edestruct (Hbefore j t' ev'); [lia|done|done]. }
  unfold answers in *. destruct ev as [env| |]; [|by apply Hskip|done].
  destruct (string_eqb (env_correlation_id env) corr) eqn:Hco;
    [|apply Hskip; [done|by rewrite ?Hco|done]].
  destruct (env_to env) as [id|] eqn:Hto;
    [|apply Hskip; [done|by rewrite ?Hco, ?Hto|done]].
  destruct (string_eqb id from) eqn:Hid;
    [|apply Hskip; [done|by rewrite ?Hco, ?Hto, ?Hid|done]].
  simplify_eq. exists 0%nat, (Recv env). simpl. rewrite Hco, Hto, Hid.
  repeat split; [lia|..]; intros; lia.
Qed.

Lemma await_reply_answered corr from timeout deadline now events i t ev body :
  arrivals now events !! i = Some (t, ev) → answers corr from ev = Some body →
  t ≤ deadline → now < deadline →
  (∀ j t' ev', (j < i)%nat → arrivals now events !! j = Some (t', ev') →
     answers corr from ev' = None ∧ ev' ≠ Closed ∧ t' < deadline) →
  await_reply corr from timeout deadline now events = (Ok body, t).
Proof.
  revert now i; induction events as [|[dt ev0] events IH]; intros now i Hi Ha Ht Hn Hb;
    [done|]. cbn [await_reply arrivals] in *.
  rewrite (proj2 (Z.leb_gt deadline now)) by lia.
  destruct i as [|i].
  - simpl in Hi. simplify_eq. rewrite (proj2 (Z.ltb_ge deadline (now + Z.max 0 dt))) by lia.
    unfold answers in Ha. destruct ev as [env| |]; try done.
    destruct (string_eqb (env_correlation_id env) corr); [|done].
    destruct (env_to env); [|done]. by destruct (string_eqb id from); simplify_eq.
  - destruct (Hb 0%nat (now + Z.max 0 dt) ev0) as (Ha0 & Hc0 & Ht0); [lia|done|].
    rewrite (proj2 (Z.ltb_ge deadline (now + Z.max 0 dt))) by lia.
    assert (await_reply corr from timeout deadline (now + Z.max 0 dt) events = (Ok body, t))
      as Hrest.
    { apply (IH _ i); [done|done|done|lia|]. intros j t' ev' Hj Hev.
      apply (Hb (S j)); [lia|done]. }
    unfold answers in Ha0. destruct ev0 as [env| |]; [|done|done].
    destruct (string_eqb (env_correlation_id env) corr); [|done].
    destruct (env_to env) as [id|]; [|done]. by destruct (string_eqb id from).
Qed.

(** Dispatch fails closed. When no registered agent provides the capability
    at an accepted version, [Dispatcher::dispatch] reports it and sends nothing:
    the world is unchanged. *)
Theorem dispatch_fail_closed from name req body timeout w :
  (∀ id e cap, d_registry w !! id = Some e → cap ∈ re_capabilities e →
     cap_name cap = name → req_matches req (cap_version cap) = false) →
  dispatch from name req body timeout w =
    (Err (DCapabilityNotFound (name +:+ " @ " +:+ req_show req)), w).
Proof.
  intros Hnone. unfold dispatch.
  destruct (require_by_capability name req (d_registry w)) as [e|] eqn:Hr; [|done].
  exfalso. apply require_ok in Hr as [[id Hid] Hp]. apply existsb_elem in Hp as (cap & Hc & Hp).
  unfold provides in Hp. apply andb_true_iff in Hp as [Hn%string_eqb_eq Hm].
  by rewrite (Hnone id e cap Hid Hc Hn) in Hm.
Qed.

(** A reply is the caller's own. If [dispatch] returns a body then it sent
    exactly one envelope, under a fresh correlation id, and the body is that
    of the first envelope received, no later than the deadline, that carries
    this correlation id and is addressed directly to the caller. *)
Theorem dispatch_reply_sound from name req body timeout w reply w' :
  dispatch from name req body timeout w = (Ok reply, w') →
  let corr := d_uuid w (d_next w) in
  let stream := arrivals (d_now w) (hd [] (d_streams w)) in
  d_sent w' = d_sent w ++ [envelope_new corr (d_now w) from (ByCapability name req) body] ∧
  ∃ i t env, stream !! i = Some (t, Recv env) ∧ t ≤ d_now w + timeout ∧
    env_correlation_id env = corr ∧ env_to env = Direct from ∧ env_body env = reply ∧
    ∀ j t' env', (j < i)%nat → stream !! j = Some (t', Recv env') →
      env_correlation_id env' = corr → env_to env' ≠ Direct from.
Proof.
  unfold dispatch. destruct (require_by_capability _ _ _); [|done].
  destruct (await_reply _ _ _ _ _ _) as [r t] eqn:Hr. intros Heq. simplify_eq/=.
  split; [done|]. apply await_reply_ok in Hr as (i & ev & Hi & Ha & Ht & Hb).
  unfold answers in Ha. destruct ev as [env| |]; try done.
  destruct (string_eqb _ _) eqn:Hc; [|done]. apply string_eqb_eq in Hc.
  destruct (env_to env) as [id|] eqn:Hto; [|done].
  destruct (string_eqb id from) eqn:Hid; [|done]. apply string_eqb_eq in Hid. simplify_eq.
  exists i, t, env. repeat split; [done..|].
  intros j t' env' Hj Hs Hc' Hto'. destruct (Hb j t' (Recv env') Hj Hs) as [Hn _].
  unfold answers in Hn. rewrite Hc', Hto' in Hn.
  by rewrite !(proj2 (string_eqb_eq _ _) eq_refl) in Hn.
Qed.

(** A timely reply is delivered. If a provider is registered, the bus stays
    open, and an envelope with the call's correlation id addressed to the caller
    arrives before the deadline, [dispatch] returns its body, whatever
    unrelated traffic and lag notices arrive before it. *)
Theorem dispatch_reply_complete from name req body timeout w i t env :
  let corr := d_uuid w (d_next w) in
  let stream := arrivals (d_now w) (hd [] (d_streams w)) in
  is_ok (require_by_capability name req (d_registry w)) = true → 0 < timeout →
  stream !! i = Some (t, Recv env) → t < d_now w + timeout →
  env_correlation_id env = corr → env_to env = Direct from →
  (∀ j t' ev, (j < i)%nat → stream !! j = Some (t', ev) →
     ev ≠ Closed ∧ t' ≤ t ∧
     ∀ env', ev = Recv env' → env_correlation_id env' = corr → env_to env' ≠ Direct from) →
  (dispatch from name req body timeout w).1 = Ok (env_body env).
Proof.
  intros corr stream Hok Hto Hi Ht Hc Hd Hb. unfold dispatch.
  destruct (require_by_capability _ _ _); [|done].
  rewrite (await_reply_answered _ _ _ _ _ _ i t (Recv env) (env_body env)); [done|done| |lia|lia|].
  - simpl. rewrite Hc, Hd. by rewrite !(proj2 (string_eqb_eq _ _) eq_refl).
  - intros j t' ev' Hj Hs. destruct (Hb j t' ev' Hj Hs) as (Hcl & Hle & Hno).
    split; [|split; [done|lia]]. destruct ev' as [env'| |]; try done. simpl.
    destruct (string_eqb _ _) eqn:Hc'; [|done]. apply string_eqb_eq in Hc'.
    destruct (env_to env') as [id|] eqn:Hto'; [|done].
    destruct (string_eqb id from) eqn:Hid; [|done]. apply string_eqb_eq in Hid. subst id.
    exfalso. by eapply Hno.
Qed.
End Dispatch.

(** ** Witnesses *)

Module RuntimeDemo.
Import DemoSemVer.
Definition star : @version_req demo_semver := Star.
Definition caps : list Capability := [read_only "test.fw.add" (version_new 1 2 0)].
Definition reg : CapabilityRegistry := register "fw" caps ∅.
Definition ids (n : nat) : Uuid := "corr-" +:+ show_Z (Z.of_nat n).
Definition request : AgentEnvelope :=
  envelope_new "corr-0" 0 "chat" (ByCapability "test.fw.add" Star) JNull.
Definition reply : AgentEnvelope := reply_to request 40 "fw" (JString "done").
(** Own request, an unrelated reply and a lag notice before the answer. *)
Definition stream : list (Z * recv_event) :=
  [(0, Recv request); (5, Recv (envelope_new "corr-9" 5 "x" (Direct "chat") JNull));
   (5, Lagged 3); (30, Recv reply)].
Definition world : dworld := mkDworld reg [] 0 [stream] ids 0.
End RuntimeDemo.
Import DemoSemVer RuntimeDemo.

Lemma dispatch_fail_closed_witness :
  (dispatch "chat" "test.fw.drop" star JNull 1000 world).2 = world.
Proof.
  rewrite (dispatch_fail_closed "chat" "test.fw.drop" star JNull 1000 world);
    [reflexivity|].
  intros id e cap He Hc Hn. exfalso. unfold world, reg, register in He. simpl in He.
  apply lookup_insert_Some in He as [[_ <-]|[_ He]]; [|by rewrite lookup_empty in He].
  simpl in Hc. apply list_elem_of_singleton in Hc as ->. discriminate Hn.
Defined.

Lemma dispatch_reply_sound_witness :
  ∃ i t env, arrivals 0 stream !! i = Some (t, Recv env) ∧ env_body env = JString "done".
Proof.
  destruct (dispatch_reply_sound "chat" "test.fw.add" star JNull 1000 world
    (JString "done") (dispatch "chat" "test.fw.add" star JNull 1000 world).2)
    as (_ & i & t & env & Hi & _ & _ & _ & Hb & _); [apply run_split; vm_compute; reflexivity|].
  by exists i, t, env.
Defined.

Lemma dispatch_reply_complete_witness :
  (dispatch "chat" "test.fw.add" star JNull 1000 world).1 = Ok (JString "done").
Proof.
  apply (dispatch_reply_complete "chat" "test.fw.add" star JNull 1000 world
    3 40 reply); [reflexivity|lia|reflexivity|simpl; lia|reflexivity|reflexivity|].
  intros [|[|[|j]]] t' ev Hj Hs; [| | |lia]; simpl in Hs; injection Hs as <- <-;
    (split; [discriminate|split; [lia|]]); intros env' He; try discriminate He;
    injection He as <-; discriminate.
Defined.
