(* ===== verification/Supervisor.v ===== *)
(** * daimon-runtime: the supervisor ([daimon-runtime/src/supervisor.rs])

    The restart loop of [spawn_runner] is a fold over the outcomes of the agent
    task. The supervisor's tables (registry, task handles, agents) and the tokio
    tasks it starts are a transition system: each agent has an outer task (the
    restart loop, whose handle the supervisor keeps) and an inner one (the
    handler loop the outer task awaits). Times are in milliseconds. *)

From S2P Require Import Prelude RustStd Json Core Runtime.
From Stdlib Require Import ZArith.

Local Open Scope Z_scope.

(** ** The restart loop *)

(** [SupervisorConfig], in milliseconds. *)
Record SupervisorConfig := mkSupConfig {
  restart_initial_delay : Z;
  restart_max_delay : Z;
  restart_max_in_window : nat;
  restart_window : Z;
}.

Definition supervisor_default : SupervisorConfig := mkSupConfig 100 30000 5 60000.

(** How the agent task ended. *)
Inductive outcome := Clean | Errored | Panicked | Aborted.

(** The locals of the loop, and the clock. *)
Record runner := mkRunner {
  rn_delay : Z;
  rn_restarts : nat;
  rn_window_start : Z;
  rn_now : Z;
}.

Definition runner_init (cfg : SupervisorConfig) (now : Z) : runner :=
  mkRunner (restart_initial_delay cfg) 0 now now.

(** One iteration: the task ran for [ran] and ended with [o]. [None] when the
    runner gives up or is done; otherwise the delay it slept and its new
    locals. *)
Definition runner_step (cfg : SupervisorConfig) (st : runner) (ran : Z) (o : outcome) :
    option (Z * runner) :=
  let now := rn_now st + ran in
  match o with
  | Clean | Aborted => None
  | Errored | Panicked =>
      let '(start, restarts) :=
        if restart_window cfg <? now - rn_window_start st then (now, 0%nat)
        else (rn_window_start st, rn_restarts st) in
      let restarts := S restarts in
      if (restart_max_in_window cfg <? restarts)%nat then None
      else Some (rn_delay st,
                 mkRunner (Z.min (rn_delay st * 2) (restart_max_delay cfg)) restarts start
                   (now + rn_delay st))
  end.

(** The loop: the delays slept before each restart. *)
Fixpoint runner_loop (cfg : SupervisorConfig) (st : runner) (runs : list (Z * outcome)) :
    list Z * runner :=
  match runs with
  | [] => ([], st)
  | (ran, o) :: runs =>
      match runner_step cfg st ran o with
      | None => ([], st)
      | Some (d, st) => let '(ds, st') := runner_loop cfg st runs in (d :: ds, st')
      end
  end.

Lemma min_cap_mul a m p :
  0 ≤ m → 1 ≤ p → Z.min (Z.min a m * p) m = Z.min (a * p) m.
Proof. intros Hm Hp. destruct (Z.min_spec a m) as [[? ->]|[? ->]]; [done|]. nia. Qed.

Lemma runner_loop_delays cfg st runs k d :
  0 ≤ rn_delay st ≤ restart_max_delay cfg →
  (runner_loop cfg st runs).1 !! k = Some d →
  d = Z.min (rn_delay st * 2 ^ Z.of_nat k) (restart_max_delay cfg).
Proof.
  revert st k; induction runs as [|[ran o] runs IH]; intros st k Hd; simpl; [done|].
  unfold runner_step. destruct o; [done| | |done].
  all: repeat case_match; simplify_eq/=; try done.
  all: destruct (runner_loop cfg _ runs) as [ds st'] eqn:Hl; simplify_eq/=.
  all: destruct k as [|k]; simpl; intros Hk; [simplify_eq; rewrite Z.mul_1_r; lia|].
  all: match type of Hl with runner_loop _ ?st1 _ = _ =>
         specialize (IH st1 k); rewrite Hl in IH; simpl in IH end.
  all: rewrite IH; [|lia|exact Hk].
  all: rewrite min_cap_mul by lia.
  all: by rewrite Nat2Z.inj_succ, Z.pow_succ_r, Z.mul_assoc by lia.
Qed.

(** Restart delays double up to the cap: the sleep before the [k]-th restart
    of an agent is [min(initial * 2^k, max)], however the runs are spread over
    time (the delay is not reset when the restart window is). *)
Theorem restart_delay_backoff cfg now runs k d :
  0 ≤ restart_initial_delay cfg ≤ restart_max_delay cfg →
  (runner_loop cfg (runner_init cfg now) runs).1 !! k = Some d →
  d = Z.min (restart_initial_delay cfg * 2 ^ Z.of_nat k) (restart_max_delay cfg).
Proof. intros Hc. by apply (runner_loop_delays cfg (runner_init cfg now)). Qed.

Lemma restart_delay_backoff_witness :
  (30000 = Z.min (100 * 2 ^ Z.of_nat 9) 30000).
Proof.
  apply (restart_delay_backoff supervisor_default 0 (replicate 10 (61000, Panicked)) 9 30000);
    [simpl; lia|vm_compute; reflexivity].
Defined.

Definition crashed (r : Z * outcome) : Prop :=
  0 ≤ r.1 ∧ (r.2 = Errored ∨ r.2 = Panicked).

Definition total_ran (runs : list (Z * outcome)) : Z := foldr (λ r acc, r.1 + acc) 0 runs.

Lemma runner_loop_budget cfg st runs :
  Forall crashed runs → 0 ≤ rn_delay st ≤ restart_max_delay cfg →
  rn_now st - rn_window_start st + total_ran runs
    + Z.of_nat (length runs) * restart_max_delay cfg ≤ restart_window cfg →
  length (runner_loop cfg st runs).1
    = Nat.min (length runs) (restart_max_in_window cfg - rn_restarts st).
Proof.
  revert st; induction runs as [|[ran o] runs IH]; intros st Hf Hd Hw; [done|].
  apply Forall_cons in Hf as [[Hran Ho] Hf]. simpl in Hran, Ho, Hw. cbn [length runner_loop].
  rewrite Nat2Z.inj_succ, Z.mul_succ_l in Hw.
  assert (0 ≤ total_ran runs) as Hpos.
  { clear -Hf. induction Hf as [|x l [Hx _] _ IH]; simpl; lia. }
  assert (0 ≤ Z.of_nat (length runs) * restart_max_delay cfg) as Hlen by nia.
  unfold runner_step.
  rewrite (proj2 (Z.ltb_ge (restart_window cfg) (rn_now st + ran - rn_window_start st))) by nia.
  destruct (restart_max_in_window cfg <? S (rn_restarts st))%nat eqn:Hb.
  - apply Nat.ltb_lt in Hb. destruct Ho as [-> | ->]; cbn [fst length]; lia.
  - apply Nat.ltb_ge in Hb.
    set (st1 := mkRunner (Z.min (rn_delay st * 2) (restart_max_delay cfg))
      (S (rn_restarts st)) (rn_window_start st) (rn_now st + ran + rn_delay st)).
    specialize (IH st1 Hf). simpl in IH.
    destruct (runner_loop cfg st1 runs) as [ds st'] eqn:Hl; simpl in IH.
    destruct Ho as [-> | ->]; fold st1; rewrite Hl; cbn [fst length]; rewrite IH; lia.
Qed.

(** A crash loop is abandoned. If an agent keeps failing and the whole
    series, restart delays included, fits in the restart window, the supervisor
    restarts it exactly [restart_max_in_window] times (or once per failure if
    there are fewer) and then gives up. *)
Theorem crash_loop_gives_up cfg now runs :
  Forall crashed runs → 0 ≤ restart_initial_delay cfg ≤ restart_max_delay cfg →
  total_ran runs + Z.of_nat (length runs) * restart_max_delay cfg ≤ restart_window cfg →
  length (runner_loop cfg (runner_init cfg now) runs).1
    = Nat.min (length runs) (restart_max_in_window cfg).
Proof.
  intros Hf Hd Hw. rewrite runner_loop_budget; [|done|done|simpl; lia].
  simpl. by rewrite Nat.sub_0_r.
Qed.

Lemma crash_loop_gives_up_witness :
  let cfg := mkSupConfig 1 4 5 60000 in
  length (runner_loop cfg (runner_init cfg 0) (replicate 9 (10, Panicked))).1 = 5%nat.
Proof.
  apply (crash_loop_gives_up (mkSupConfig 1 4 5 60000) 0 (replicate 9 (10, Panicked)));
    [|simpl; lia|vm_compute; discriminate].
  apply Forall_replicate. split; [simpl; lia|by right].
Defined.

(** ** Tables and tasks *)

Section Supervisor.
Context `{SemVer}.

(** An [Agent], as far as the supervisor sees it. *)
Record Agent := mkAgent { ag_id : AgentId; ag_capabilities : list Capability }.

Inductive RuntimeError :=
| DuplicateAgent (id : string)
| AgentPanic (id msg : string)
| RtShutdown
| RtCore (e : CoreError)
| RtOther (msg : string).

(** One [spawn_runner]: whether its outer task is alive, and whether an inner
    task runs [run_agent_loop]. Aborting the outer task drops the [JoinHandle]
    of the inner one, which detaches it and does not stop it. *)
Record task := mkTask { t_agent : Agent; t_outer : bool; t_inner : bool }.

(** [s_tasks] are all tasks ever started, by number; [s_handles] maps an agent
    to the number of the task whose handle is kept. *)
Record sworld := mkSworld {
  s_registry : CapabilityRegistry;
  s_handles : gmap string nat;
  s_agents : gmap string Agent;
  s_tasks : list task;
}.

(** [Supervisor::new]. *)
Definition sup_new : sworld := mkSworld ∅ ∅ ∅ [].

(** [Supervisor::spawn]: the duplicate check under the read lock, and the rest
    with the first iteration of [spawn_runner]. *)
Definition spawn_check (a : Agent) : io sworld RuntimeError unit := λ w,
  match s_agents w !! ag_id a with
  | Some _ => (Err (DuplicateAgent (ag_id a)), w)
  | None => (Ok tt, w)
  end.

Definition spawn_commit (a : Agent) (w : sworld) : sworld :=
  mkSworld (register (ag_id a) (ag_capabilities a) (s_registry w))
    (<[ag_id a := length (s_tasks w)]> (s_handles w)) (<[ag_id a := a]> (s_agents w))
    (s_tasks w ++ [mkTask a true true]).

Definition sup_spawn (a : Agent) : io sworld RuntimeError unit :=
  spawn_check a ≫= λ _, modify (spawn_commit a).

(** [handle.abort()]. *)
Definition abort_outer (t : task) : task := mkTask (t_agent t) false (t_inner t).

(** [Supervisor::stop]. *)
Definition sup_stop (id : AgentId) (w : sworld) : sworld :=
  mkSworld (unregister id (s_registry w)) (delete id (s_handles w)) (delete id (s_agents w))
    (match s_handles w !! id with
     | Some k => alter abort_outer k (s_tasks w)
     | None => s_tasks w
     end).

(** [Supervisor::shutdown], over some order of the agent ids. *)
Definition sup_shutdown (ids : list AgentId) (w : sworld) : sworld :=
  fold_left (λ w id, sup_stop id w) ids w.

(** The inner task of [k] ends: it returned, failed or panicked. *)
Definition inner_end (k : nat) (w : sworld) : option sworld :=
  match s_tasks w !! k with
  | Some (mkTask a outer true) =>
      Some (mkSworld (s_registry w) (s_handles w) (s_agents w)
              (<[k := mkTask a outer false]> (s_tasks w)))
  | _ => None
  end.

(** The outer task restarts it. *)
Definition inner_restart (k : nat) (w : sworld) : option sworld :=
  match s_tasks w !! k with
  | Some (mkTask a true false) =>
      Some (mkSworld (s_registry w) (s_handles w) (s_agents w)
              (<[k := mkTask a true true]> (s_tasks w)))
  | _ => None
  end.

(** The outer task leaves its loop (clean exit, or restart budget exceeded) and
    cleans up. *)
Definition outer_end (k : nat) (w : sworld) : option sworld :=
  match s_tasks w !! k with
  | Some (mkTask a true false) =>
      Some (mkSworld (unregister (ag_id a) (s_registry w)) (delete (ag_id a) (s_handles w))
              (delete (ag_id a) (s_agents w)) (<[k := mkTask a false false]> (s_tasks w)))
  | _ => None
  end.

(** What can happen, with [spawn] calls one after the other. *)
Inductive sup_step : sworld → sworld → Prop :=
| step_spawn a r w w' : sup_spawn a w = (r, w') → sup_step w w'
| step_stop id w : sup_step w (sup_stop id w)
| step_inner_end k w w' : inner_end k w = Some w' → sup_step w w'
| step_inner_restart k w w' : inner_restart k w = Some w' → sup_step w w'
| step_outer_end k w w' : outer_end k w = Some w' → sup_step w w'.

(** [envelope_addressed_to]. *)
Definition envelope_addressed_to (env : AgentEnvelope) (me : AgentId) (caps : list Capability) :
    bool :=
  match env_to env with
  | Direct id => string_eqb id me
  | ByCapability name req => existsb (provides name req) caps
  end.

(** The agents whose loop hands a published envelope to [agent.handle]: the bus
    broadcasts to every running loop and each filters for itself. *)
Definition handlers (env : AgentEnvelope) (w : sworld) : list Agent :=
  map t_agent (List.filter (λ t, t_inner t &&
    envelope_addressed_to env (ag_id (t_agent t)) (ag_capabilities (t_agent t))) (s_tasks w)).

(** ** Properties *)

(** The supervisor's tables agree with the live outer tasks. *)
Record sup_inv (w : sworld) : Prop := {
  inv_handle id k : s_handles w !! id = Some k →
    ∃ a inner, s_tasks w !! k = Some (mkTask a true inner) ∧ ag_id a = id;
  inv_task k a inner : s_tasks w !! k = Some (mkTask a true inner) →
    s_handles w !! ag_id a = Some k ∧ s_agents w !! ag_id a = Some a ∧
    s_registry w !! ag_id a = Some (mkEntry (ag_id a) (ag_capabilities a));
  inv_agent id a : s_agents w !! id = Some a → is_Some (s_handles w !! id);
  inv_registry id e : s_registry w !! id = Some e → is_Some (s_handles w !! id);
}.

Lemma sup_inv_new : sup_inv sup_new.
Proof. by split. Qed.

Lemma sup_inv_spawn a w : s_agents w !! ag_id a = None → sup_inv w → sup_inv (spawn_commit a w).
Proof.
  intros Hn [Hh Ht Ha Hr]. split; simpl.
  - intros id k [[<- <-]|[Hne Hk]]%lookup_insert_Some.
    + exists a, true. by rewrite lookup_app_r, Nat.sub_diag by done.
    + destruct (Hh id k Hk) as (a' & inner & Hk' & Hid). exists a', inner.
      by rewrite (lookup_app_l_Some _ _ _ _ Hk').
  - intros k a' inner [Hk|[Hle Hk]]%lookup_app_Some.
    + destruct (Ht k a' inner Hk) as (H1 & H2 & H3).
      assert (ag_id a ≠ ag_id a') by congruence. unfold register.
      by rewrite !lookup_insert_ne.
    + apply list_lookup_singleton_Some in Hk as [Hz Heq]. simplify_eq. unfold register.
      rewrite !lookup_insert_eq. repeat split. f_equal. lia.
  - intros id a' [[<- _]|[Hne Hk]]%lookup_insert_Some; [by rewrite lookup_insert_eq|].
    rewrite lookup_insert_ne by done. by eapply Ha.
  - unfold register. intros id e [[<- _]|[Hne Hk]]%lookup_insert_Some;
      [by rewrite lookup_insert_eq|].
    rewrite lookup_insert_ne by done. by eapply Hr.
Qed.

(** Forgetting the agent of a handle whose outer task ends. *)
Lemma sup_inv_drop id k a inner w :
  sup_inv w → s_handles w !! id = Some k →
  sup_inv (mkSworld (unregister id (s_registry w)) (delete id (s_handles w))
             (delete id (s_agents w)) (<[k := mkTask a false inner]> (s_tasks w))).
Proof.
  intros [Hh Ht Ha Hr] Hk. split; simpl.
  - intros id' k' [Hne Hk']%lookup_delete_Some.
    destruct (Hh id' k' Hk') as (a' & inner' & Ht' & Hid). exists a', inner'.
    rewrite list_lookup_insert_ne; [done|]. intros ->.
    destruct (Hh id k' Hk) as (a'' & inner'' & Ht'' & Hid'). congruence.
  - intros k' a' inner' [(<- & Heq & _)|(Hne & Hk')]%list_lookup_insert_Some; [done|].
    destruct (Ht k' a' inner' Hk') as (H1 & H2 & H3).
    assert (id ≠ ag_id a') by congruence. unfold unregister. by rewrite !lookup_delete_ne.
  - intros id' a' [Hne Hk']%lookup_delete_Some. rewrite lookup_delete_ne by done. by eapply Ha.
  - unfold unregister. intros id' e [Hne Hk']%lookup_delete_Some.
    rewrite lookup_delete_ne by done. by eapply Hr.
Qed.

Lemma sup_inv_stop id w : sup_inv w → sup_inv (sup_stop id w).
Proof.
  intros Hi. unfold sup_stop. destruct (s_handles w !! id) as [k|] eqn:Hk.
  - destruct (inv_handle _ Hi id k Hk) as (a & inner & Ht & _).
    assert (alter abort_outer k (s_tasks w) = <[k := mkTask a false inner]> (s_tasks w)) as ->.
    { rewrite list_insert_alter. apply list_alter_ext; [|done]. intros t Ht'. by simplify_eq. }
    by apply (sup_inv_drop id k a inner).
  - destruct Hi as [Hh Ht Ha Hr]. split; simpl.
    + intros id' k' [_ Hk']%lookup_delete_Some. by apply Hh.
    + intros k' a inner Hk'. destruct (Ht k' a inner Hk') as (H1 & H2 & H3).
      assert (id ≠ ag_id a) by congruence. unfold unregister. by rewrite !lookup_delete_ne.
    + intros id' a [Hne Hk']%lookup_delete_Some. rewrite lookup_delete_ne by done. by eapply Ha.
    + unfold unregister. intros id' e [Hne Hk']%lookup_delete_Some.
      rewrite lookup_delete_ne by done. by eapply Hr.
Qed.

(** The inner task starting or ending changes no table. *)
Lemma sup_inv_inner k a outer i1 i2 w :
  s_tasks w !! k = Some (mkTask a outer i1) → sup_inv w →
  sup_inv (mkSworld (s_registry w) (s_handles w) (s_agents w)
             (<[k := mkTask a outer i2]> (s_tasks w))).
Proof.
  intros Hk [Hh Ht Ha Hr]. split; simpl; [| |done|done].
  - intros id k' Hk'. destruct (Hh id k' Hk') as (a' & inner & Ht' & Hid).
    destruct (decide (k = k')) as [<-|]; [|exists a', inner; by rewrite list_lookup_insert_ne].
    rewrite Hk in Ht'. injection Ht' as -> -> ->. exists a', i2. rewrite list_lookup_insert_eq; [done|by eapply lookup_lt_Some].
  - intros k' a' inner [(<- & Heq & _)|(Hne & Hk')]%list_lookup_insert_Some; [|by eapply Ht].
    simplify_eq. by eapply Ht.
Qed.

Lemma sup_inv_step w w' : sup_step w w' → sup_inv w → sup_inv w'.
Proof.
  destruct 1 as [a r w w' Hs|id w|k w w' Hs|k w w' Hs|k w w' Hs]; intros Hi.
  - revert Hs. unfold sup_spawn, spawn_check, modify, mbind, io_bind.
    destruct (s_agents w !! ag_id a) eqn:Ha; intros [= _ <-]; [done|].
    by apply sup_inv_spawn.
  - by apply sup_inv_stop.
  - unfold inner_end in Hs. destruct (s_tasks w !! k) as [[a o []]|] eqn:Hk; [|done..].
    simplify_eq. by eapply sup_inv_inner.
  - unfold inner_restart in Hs. destruct (s_tasks w !! k) as [[a [] []]|] eqn:Hk; try done.
    simplify_eq. by eapply sup_inv_inner.
  - unfold outer_end in Hs. destruct (s_tasks w !! k) as [[a [] []]|] eqn:Hk; try done.
    simplify_eq. apply sup_inv_drop; [done|]. by eapply inv_task.
Qed.

Lemma sup_inv_steps w w' : rtc sup_step w w' → sup_inv w → sup_inv w'.
Proof. induction 1; eauto using sup_inv_step. Qed.


(** A capability-addressed envelope is handled by every running agent that
    provides the capability, not by one of them: the runtime does not pick. *)
Lemma by_capability_fans_out env w name req a :
  env_to env = ByCapability name req →
  a ∈ handlers env w ↔
  existsb (provides name req) (ag_capabilities a) = true ∧
  ∃ outer, mkTask a outer true ∈ s_tasks w.
Proof.
  intros Hto. unfold handlers, envelope_addressed_to. rewrite Hto.
  rewrite list_elem_of_fmap. setoid_rewrite list_elem_of_In. setoid_rewrite List.filter_In. split.
  - intros ([a' outer inner] & -> & Hin & [Hi Hp]%andb_true_iff). simpl in *. subst.
    by split; [|exists outer].
  - intros (Hp & outer & Hin). exists (mkTask a outer true). by simpl; rewrite Hp.
Qed.

(** Stopping an agent does not stop its handler. After [Supervisor::stop]
    the agent is gone from the registry, and can be spawned again, but every
    envelope is still handled exactly as before the stop; respawning it makes
    each envelope addressed to it be handled twice. *)
Theorem stop_detaches_handler a w w1 w2 env :
  sup_spawn a w = (Ok tt, w1) → sup_spawn a (sup_stop (ag_id a) w1) = (Ok tt, w2) →
  env_to env = Direct (ag_id a) →
  reg_get (ag_id a) (s_registry (sup_stop (ag_id a) w1)) = None ∧
  handlers env (sup_stop (ag_id a) w1) = handlers env w1 ∧
  handlers env w2 = handlers env w ++ [a; a].
Proof.
  unfold sup_spawn, spawn_check, modify, mbind, io_bind.
  destruct (s_agents w !! ag_id a); [done|]. intros [= <-].
  destruct (s_agents (sup_stop _ _) !! ag_id a); [done|]. intros [= <-] Hto.
  split; [unfold reg_get; simpl; unfold unregister; by rewrite lookup_delete_eq|].
  assert (envelope_addressed_to env (ag_id a) (ag_capabilities a) = true) as Ha.
  { unfold envelope_addressed_to. rewrite Hto. by apply string_eqb_eq. }
  assert (alter abort_outer (length (s_tasks w)) (s_tasks w ++ [mkTask a true true])
    = s_tasks w ++ [mkTask a false true]) as Hal by (by rewrite alter_app_r_alt, Nat.sub_diag).
  unfold handlers. simpl. rewrite lookup_insert_eq, Hal, !List.filter_app, !map_app. simpl.
  rewrite Ha. simpl. split; [done|]. by rewrite <- app_assoc.
Qed.

(** Two overlapping [spawn] calls for one id can both pass the duplicate check:
    both then succeed, two handler loops run, and only the second task's handle
    is kept. *)
Lemma spawn_race a b w :
  ag_id a = ag_id b → s_agents w !! ag_id a = None →
  (spawn_check a w).1 = Ok tt ∧ (spawn_check b w).1 = Ok tt ∧
  let w' := spawn_commit b (spawn_commit a w) in
  s_tasks w' = s_tasks w ++ [mkTask a true true; mkTask b true true] ∧
  s_handles w' !! ag_id a = Some (S (length (s_tasks w))).
Proof.
  intros He Hn. unfold spawn_check. rewrite <- He, Hn. do 2 (split; [done|]). simpl.
  rewrite He, lookup_insert_eq, length_app. simpl. split; [by rewrite <- app_assoc|].
  f_equal. lia.
Qed.
End Supervisor.

(** ** Witnesses *)

Module SupervisorDemo.
Import DemoSemVer.
Definition agent : Agent := mkAgent "fw" RuntimeDemo.caps.
(** Spawned; stopped and spawned again. *)
Definition w1 : sworld := (sup_spawn agent sup_new).2.
Definition w2 : sworld := (sup_spawn agent (sup_stop "fw" w1)).2.
End SupervisorDemo.
Import DemoSemVer SupervisorDemo.


Lemma stop_detaches_handler_witness :
  let env := envelope_new "corr-1" 0 "chat" (Direct "fw") JNull in
  handlers env w2 = handlers env sup_new ++ [agent; agent].
Proof.
  intros env. destruct (stop_detaches_handler agent sup_new w1 w2 env) as (_ & _ & Hh).
  - exact (run_split _ _ eq_refl).
  - apply run_split. vm_compute. reflexivity.
  - reflexivity.
  - exact Hh.
Defined.
