(* ===== verification/Bus.v ===== *)
(** * The agent bus (daimon-runtime/src/bus.rs, nats_bus.rs)

    Both buses hand out receivers of a tokio broadcast channel: [InProcBus] sends
    on it directly, [NatsBus] publishes JSON to a NATS subject and a forwarder
    task sends what the subscription yields. The channel is a parameter
    ({!Broadcast}) with its documented behaviour as laws; so are the texts of
    timestamps and JSON. The runs of a bus interleave sends, subscriptions,
    receives and drops of receivers in any order. *)

From S2P Require Import Prelude RustStd Json Core.
From S2P Require Import Channels Runtime Supervisor.
From Stdlib Require Import ZArith Ascii.

(** ** tokio::sync::broadcast *)

(** What a receive on a channel with a live sender yields. Every owner of a receiver
    holds a clone of the bus, so [RecvError::Closed] is not among it. *)
Inductive received (M : Type) :=
| Value (m : M)
| Lag (missed : nat)
| Pending.
Arguments Value {M} m.
Arguments Lag {M} missed.
Arguments Pending {M}.

Class Broadcast (M : Type) := {
  chan : Type;
  receiver : Type;
  channel : nat → chan;
  (** [Sender::send]: how many receivers there were, or the value back. *)
  chan_send : M → chan → result M nat * chan;
  chan_subscribe : chan → receiver * chan;
  chan_recv : receiver → chan → received M * receiver;
  chan_drop : receiver → chan → chan;
}.

(** The documented behaviour: a channel retains at least as many values as it was
    made for, a receiver sees the values sent after its subscription in order, and
    one that has fallen behind what is retained is told how many values it missed
    and continues with the oldest retained. A send without receivers fails. *)
Class BroadcastLaws (M : Type) `{Broadcast M} := {
  sent : chan → list M;
  retained : chan → nat;
  live : chan → nat;
  cursor : receiver → nat;
  channel_law n : sent (channel n) = [] ∧ n ≤ retained (channel n) ∧ live (channel n) = 0;
  send_law m c : (chan_send m c).2 = c ∧ live c = 0 ∨
    0 < live c ∧ sent (chan_send m c).2 = sent c ++ [m] ∧
    retained (chan_send m c).2 = retained c ∧ live (chan_send m c).2 = live c;
  subscribe_law c : cursor (chan_subscribe c).1 = length (sent c) ∧
    sent (chan_subscribe c).2 = sent c ∧ retained (chan_subscribe c).2 = retained c ∧
    live (chan_subscribe c).2 = S (live c);
  drop_law r c : sent (chan_drop r c) = sent c ∧ retained (chan_drop r c) = retained c ∧
    live (chan_drop r c) = pred (live c);
  recv_law r c : cursor r ≤ length (sent c) →
    match drop (cursor r) (sent c) with
    | [] => chan_recv r c = (Pending, r)
    | m :: rest =>
        if decide (length (m :: rest) ≤ retained c) then
          (chan_recv r c).1 = Value m ∧ cursor (chan_recv r c).2 = S (cursor r)
        else
          (chan_recv r c).1 = Lag (length (m :: rest) - retained c) ∧
          cursor (chan_recv r c).2 = length (sent c) - retained c
    end;
}.

(** ** The trait *)

Section Bus.
Context `{SemVer} `{BL : BroadcastLaws AgentEnvelope}.

Definition IN_PROC_BUS_CAPACITY : nat := 1024.

(** [BusHandle] and [AgentBus]. *)
Class AgentBus (B : Type) := {
  bus_send : AgentEnvelope → B → result CoreError unit * B;
  subscribe_raw : B → receiver * B;
}.

(** [InProcBus] is its sender. *)
Definition InProcBus : Type := chan.

Definition in_proc_bus_new : InProcBus := channel IN_PROC_BUS_CAPACITY.

(** [InProcBus::send]: the outcome of the channel's send is discarded. *)
Definition in_proc_send (env : AgentEnvelope) (b : InProcBus) : result CoreError unit * InProcBus :=
  (Ok tt, (chan_send env b).2).

Definition in_proc_subscribe (b : InProcBus) : receiver * InProcBus := chan_subscribe b.

#[export] Instance in_proc_bus : AgentBus InProcBus :=
  {| bus_send := in_proc_send; subscribe_raw := in_proc_subscribe |}.

(** ** Runs *)

(** A subscription: its receiver, the envelopes sent since it was made, and what it
    has yielded so far. *)
Record subscription := mkSub {
  sub_rx : receiver;
  sub_owed : list AgentEnvelope;
  sub_got : list recv_event;
}.

Record bstate := mkBstate { bs_bus : InProcBus; bs_subs : list (option subscription) }.

Inductive bus_op :=
| OSend (env : AgentEnvelope)
| OSubscribe
| ORecv (i : nat)
| ODrop (i : nat).

Definition owe (env : AgentEnvelope) (s : subscription) : subscription :=
  mkSub (sub_rx s) (sub_owed s ++ [env]) (sub_got s).

Definition owe_all (env : AgentEnvelope) (l : list (option subscription)) :
    list (option subscription) :=
  fmap (M := list) (fmap (M := option) (owe env)) l.

(** A receive that would wait leaves the receiver as it is. *)
Definition receive (b : InProcBus) (s : subscription) : subscription :=
  match chan_recv (sub_rx s) b with
  | (Value env, r) => mkSub r (sub_owed s) (sub_got s ++ [Recv env])
  | (Lag n, r) => mkSub r (sub_owed s) (sub_got s ++ [Lagged (Z.of_nat n)])
  | (Pending, r) => mkSub r (sub_owed s) (sub_got s)
  end.

Definition bus_step (st : bstate) (op : bus_op) : bstate :=
  match op with
  | OSend env =>
      mkBstate (in_proc_send env (bs_bus st)).2 (owe_all env (bs_subs st))
  | OSubscribe =>
      let '(r, b) := in_proc_subscribe (bs_bus st) in
      mkBstate b (bs_subs st ++ [Some (mkSub r [] [])])
  | ORecv i =>
      match bs_subs st !! i with
      | Some (Some s) => mkBstate (bs_bus st) (<[i := Some (receive (bs_bus st) s)]> (bs_subs st))
      | _ => st
      end
  | ODrop i =>
      match bs_subs st !! i with
      | Some (Some s) => mkBstate (chan_drop (sub_rx s) (bs_bus st)) (<[i := None]> (bs_subs st))
      | _ => st
      end
  end.

Definition bus_run (b : InProcBus) (ops : list bus_op) : bstate :=
  foldl bus_step (mkBstate b []) ops.

(** What a receiver has yielded accounts for a prefix of what it was owed: each
    envelope in order, or counted in a lag notice. *)
Inductive delivered : list AgentEnvelope → list recv_event → list AgentEnvelope → Prop :=
| delivered_nil log : delivered log [] log
| delivered_recv env log evs rest :
    delivered log evs rest → delivered (env :: log) (Recv env :: evs) rest
| delivered_lag lost log evs rest :
    lost ≠ [] → delivered log evs rest →
    delivered (lost ++ log) (Lagged (Z.of_nat (length lost)) :: evs) rest.

Lemma delivered_trans log evs mid evs' rest :
  delivered log evs mid → delivered mid evs' rest → delivered log (evs ++ evs') rest.
Proof. induction 1; simpl; intros; eauto using delivered_recv, delivered_lag. Qed.

Lemma delivered_more log evs rest more :
  delivered log evs rest → delivered (log ++ more) evs (rest ++ more).
Proof.
  induction 1; simpl; [constructor|by constructor|].
  rewrite <- app_assoc. by constructor.
Qed.

Lemma delivered_suffix log evs rest : delivered log evs rest → ∃ pre, log = pre ++ rest.
Proof.
  induction 1 as [|env log evs rest _ [pre ->]|lost log evs rest _ _ [pre ->]].
  - by exists [].
  - by exists (env :: pre).
  - exists (lost ++ pre). by rewrite app_assoc.
Qed.

(** Without lag notices it is that prefix, envelope by envelope. *)
Lemma delivered_no_lag log evs rest :
  delivered log evs rest → (∀ n, Lagged n ∉ evs) →
  ∃ pre, log = pre ++ rest ∧ evs = Recv <$> pre.
Proof.
  induction 1 as [|env log evs rest _ IH|lost log evs rest _ _ _]; intros Hno.
  - by exists [].
  - destruct IH as (pre & -> & ->); [intros n Hn; apply (Hno n); by right|].
    by exists (env :: pre).
  - exfalso. eapply Hno. left.
Qed.

(** The invariant of a run over a channel made for [cap] envelopes. *)
Definition sub_ok (cap : nat) (b : InProcBus) (s : subscription) : Prop :=
  cursor (sub_rx s) ≤ length (sent b) ∧
  delivered (sub_owed s) (sub_got s) (drop (cursor (sub_rx s)) (sent b)) ∧
  ∀ n, Lagged n ∈ sub_got s → cap < length (sub_owed s).

Definition live_count (l : list (option subscription)) : nat :=
  length (List.filter (λ o, match o with Some _ => true | None => false end) l).

Record bus_inv (cap : nat) (st : bstate) : Prop := {
  inv_cap : cap ≤ retained (bs_bus st);
  inv_live : live (bs_bus st) = live_count (bs_subs st);
  inv_subs : ∀ i s, bs_subs st !! i = Some (Some s) → sub_ok cap (bs_bus st) s;
}.

Lemma live_count_pos l i s : l !! i = Some (Some s) → 0 < live_count l.
Proof.
  unfold live_count. revert i; induction l as [|o l IH]; intros [|i] Hi; simplify_eq/=; [lia|].
  apply IH in Hi. destruct o; simpl; lia.
Qed.

Lemma live_count_fmap env l : live_count (owe_all env l) = live_count l.
Proof. unfold live_count. induction l as [|[s|] l IH]; simpl; by rewrite ?IH. Qed.

Lemma live_count_insert i (s t : subscription) l :
  l !! i = Some (Some s) →
  live_count (<[i := Some t]> l) = live_count l ∧ live_count (<[i := None]> l) = pred (live_count l).
Proof.
  unfold live_count. revert i; induction l as [|o l IH]; intros [|i] Hi; simplify_eq/=; [done|].
  destruct (IH i Hi) as [IH1 IH2].
  pose proof (live_count_pos l i s Hi) as Hp. unfold live_count in Hp.
  destruct o; simpl; rewrite ?IH1, ?IH2; split; lia.
Qed.

Lemma receive_ok cap b s : cap ≤ retained b → sub_ok cap b s → sub_ok cap b (receive b s).
Proof.
  intros Hcap (Hc & Hd & Hl). pose proof (recv_law (sub_rx s) b Hc) as Hr. unfold receive.
  destruct (drop _ _) as [|m rest] eqn:Hdrop.
  { rewrite Hr. unfold sub_ok; simpl. by rewrite Hdrop. }
  assert (length (m :: rest) = length (sent b) - cursor (sub_rx s)) as Hlen
    by (by rewrite <- Hdrop, length_drop).
  destruct (chan_recv _ b) as [ev r] eqn:Hev; cbn [fst snd] in Hr.
  case_decide; destruct Hr as [-> Hr]; unfold sub_ok; cbn [sub_rx sub_owed sub_got]; rewrite Hr.
  - split; [simpl in Hlen; lia|]. split.
    + eapply delivered_trans; [exact Hd|].
      replace (drop (S (cursor (sub_rx s))) (sent b)) with rest; [apply delivered_recv, delivered_nil|].
      by rewrite <- Nat.add_1_r, <- drop_drop, Hdrop.
    + intros n [Hn|Hn]%elem_of_app; [eauto|]. by apply list_elem_of_singleton in Hn.
  - split; [lia|]. remember (length (m :: rest) - retained b) as k eqn:Hk. split.
    + eapply delivered_trans; [exact Hd|].
      replace (drop (length (sent b) - retained b) (sent b)) with (drop k (m :: rest)).
      2:{ rewrite <- Hdrop, drop_drop. f_equal. lia. }
      replace (delivered (m :: rest)) with (delivered (take k (m :: rest) ++ drop k (m :: rest)))
        by (by rewrite take_drop).
      replace k with (length (take k (m :: rest))) at 3 by (rewrite length_take; lia).
      apply delivered_lag; [|constructor].
      intros Hnil. apply (f_equal length) in Hnil. rewrite length_take in Hnil. simpl in Hnil. lia.
    + intros n _. apply delivered_suffix in Hd as [pre Hpre]. rewrite Hpre, length_app. lia.
Qed.

Lemma send_ok cap b env s :
  0 < live b → sub_ok cap b s → sub_ok cap (in_proc_send env b).2 (owe env s).
Proof.
  intros Hlive (Hc & Hd & Hl). unfold in_proc_send; cbn [snd].
  destruct (send_law env b) as [[_ ?]|(_ & Hs & _)]; [lia|]. unfold sub_ok, owe; cbn.
  rewrite Hs, length_app. split; [lia|]. split.
  - rewrite drop_app_le by done. by apply delivered_more.
  - intros n Hn. rewrite length_app. specialize (Hl n Hn). lia.
Qed.

Lemma bus_step_inv cap st op : bus_inv cap st → bus_inv cap (bus_step st op).
Proof.
  intros [Hcap Hlive Hsubs]. destruct op as [env| |i|i]; cbn [bus_step].
  - assert (retained (in_proc_send env (bs_bus st)).2 = retained (bs_bus st) ∧
            live (in_proc_send env (bs_bus st)).2 = live (bs_bus st)) as [Hr Hl].
    { unfold in_proc_send; cbn [snd]. by destruct (send_law env (bs_bus st)) as [[-> _]|(_ & _ & ? & ?)]. }
    split; cbn [bs_bus bs_subs]; [by rewrite Hr|by rewrite Hl, live_count_fmap|].
    intros j s Hj. unfold owe_all in Hj. rewrite list_lookup_fmap in Hj.
    destruct (bs_subs st !! j) as [[s0|]|] eqn:Hs0; simplify_eq/=.
    apply send_ok; [|eauto]. rewrite Hlive. by eapply live_count_pos.
  - unfold in_proc_subscribe. pose proof (subscribe_law (bs_bus st)) as (Hc & Hs & Hr & Hl).
    destruct (chan_subscribe (bs_bus st)) as [r b]; cbn [fst snd] in *.
    split; cbn [bs_bus bs_subs]; [by rewrite Hr| |].
    + rewrite Hl, Hlive. unfold live_count. rewrite List.filter_app, length_app. simpl. lia.
    + intros j s [Hj|[Hj Hj']]%lookup_app_Some.
      * destruct (Hsubs j s Hj) as (? & ? & ?). unfold sub_ok. by rewrite Hs.
      * destruct (j - length (bs_subs st)) as [|[|k]]; simplify_eq/=.
        unfold sub_ok; simpl. rewrite Hc, Hs, drop_all. split; [done|]. split; [constructor|].
        intros n Hn. by apply elem_of_nil in Hn.
  - destruct (bs_subs st !! i) as [[s|]|] eqn:Hi; try by split.
    split; cbn [bs_bus bs_subs]; [done| |].
    + by rewrite (proj1 (live_count_insert i s _ _ Hi)).
    + intros j s' Hj. apply list_lookup_insert_Some in Hj as [(<- & Heq & _)|[_ Hj]]; [|eauto].
      simplify_eq. apply receive_ok; eauto.
  - destruct (bs_subs st !! i) as [[s|]|] eqn:Hi; try by split.
    destruct (drop_law (sub_rx s) (bs_bus st)) as (Hs & Hr & Hl).
    split; cbn [bs_bus bs_subs]; [by rewrite Hr| |].
    + rewrite Hl, Hlive. by rewrite (proj2 (live_count_insert i s s _ Hi)).
    + intros j s' Hj. apply list_lookup_insert_Some in Hj as [(_ & ? & _)|[_ Hj]]; [done|].
      destruct (Hsubs j s' Hj) as (? & ? & ?). unfold sub_ok. by rewrite Hs.
Qed.

Lemma bus_run_inv cap b ops :
  sent b = [] → cap ≤ retained b → live b = 0 → bus_inv cap (bus_run b ops).
Proof.
  intros Hs Hr Hl. unfold bus_run.
  assert (bus_inv cap (mkBstate b [])) as Hinv by (by split).
  revert Hinv. generalize (mkBstate b []). induction ops as [|op ops IH]; simpl; [done|].
  intros st Hst. by apply IH, bus_step_inv.
Qed.

Lemma in_proc_inv ops : bus_inv IN_PROC_BUS_CAPACITY (bus_run in_proc_bus_new ops).
Proof.
  destruct (channel_law IN_PROC_BUS_CAPACITY) as (? & ? & ?). by apply bus_run_inv.
Qed.

(** A receiver waits only when it is owed nothing. *)
Lemma recv_pending cap b s :
  sub_ok cap b s →
  (chan_recv (sub_rx s) b).1 = Pending ↔ drop (cursor (sub_rx s)) (sent b) = [].
Proof.
  intros (Hc & _ & _). pose proof (recv_law (sub_rx s) b Hc) as Hr.
  destruct (drop _ _) as [|m rest]; [by rewrite Hr|].
  destruct (decide _); destruct Hr as [-> _]; done.
Qed.

(** The in-process bus loses nothing silently. Whatever sends, subscriptions,
    receives and drops come in whatever order, what a receiver has yielded accounts
    for the envelopes sent since it subscribed, each delivered in order or counted in
    a lag notice; it waits only when nothing is left; and while no more than the
    capacity were sent it has yielded exactly the first of them. *)
Theorem bus_delivers ops i s :
  bs_subs (bus_run in_proc_bus_new ops) !! i = Some (Some s) →
  ∃ rest, delivered (sub_owed s) (sub_got s) rest ∧
    ((chan_recv (sub_rx s) (bs_bus (bus_run in_proc_bus_new ops))).1 = Pending ↔ rest = []) ∧
    (length (sub_owed s) ≤ IN_PROC_BUS_CAPACITY →
       ∃ pre, sub_owed s = pre ++ rest ∧ sub_got s = Recv <$> pre).
Proof.
  intros Hs. pose proof (inv_subs _ _ (in_proc_inv ops) i s Hs) as Hok.
  pose proof (recv_pending _ _ _ Hok) as Hp. destruct Hok as (Hc & Hd & Hl).
  eexists. split; [exact Hd|]. split; [exact Hp|].
  intros Hlen. apply delivered_no_lag; [done|]. intros n Hn. specialize (Hl n Hn). lia.
Qed.

(** ** The agents' receive loop ([run_agent_loop]) *)

(** The outcome of a handler is only logged. *)
Fixpoint run_agent_loop {S} (handle : AgentEnvelope → S → result CoreError unit * S)
    (me : AgentId) (caps : list Capability) (evs : list recv_event) (s : S) : S :=
  match evs with
  | [] => s
  | Recv env :: evs =>
      if envelope_addressed_to env me caps
      then let '(_, s) := handle env s in run_agent_loop handle me caps evs s
      else run_agent_loop handle me caps evs s
  | Lagged _ :: evs => run_agent_loop handle me caps evs s
  | Closed :: _ => s
  end.

(** An agent that has read all its receiver has, and was owed no more than the
    capacity, has handled every envelope addressed to it, once and in order. *)
Lemma agent_handles_all {S} (handle : AgentEnvelope → S → result CoreError unit * S)
    me caps ops i sub s :
  bs_subs (bus_run in_proc_bus_new ops) !! i = Some (Some sub) →
  (chan_recv (sub_rx sub) (bs_bus (bus_run in_proc_bus_new ops))).1 = Pending →
  length (sub_owed sub) ≤ IN_PROC_BUS_CAPACITY →
  run_agent_loop handle me caps (sub_got sub) s =
  foldl (λ s env, (handle env s).2) s
    (List.filter (λ env, envelope_addressed_to env me caps) (sub_owed sub)).
Proof.
  intros Hs Hp Hlen. pose proof (inv_subs _ _ (in_proc_inv ops) i sub Hs) as Hok.
  pose proof (proj1 (recv_pending _ _ _ Hok) Hp) as Hnil. destruct Hok as (_ & Hd & Hl).
  rewrite Hnil in Hd. apply delivered_no_lag in Hd as (pre & Hpre & ->).
  2:{ intros n Hn. specialize (Hl n Hn). lia. }
  rewrite app_nil_r in Hpre. rewrite Hpre. clear. revert s.
  induction pre as [|env pre IH]; intros s; simpl; [done|].
  destruct (envelope_addressed_to env me caps); simpl; [|done].
  destruct (handle env s); simpl; done.
Qed.

(** ** The dispatcher on this bus *)

Definition is_reply (corr : Uuid) (from : AgentId) (env : AgentEnvelope) : bool :=
  string_eqb (env_correlation_id env) corr &&
  match env_to env with Direct id => string_eqb id from | ByCapability _ _ => false end.

Lemma is_reply_spec corr from env :
  is_reply corr from env = true ↔ env_correlation_id env = corr ∧ env_to env = Direct from.
Proof.
  unfold is_reply. rewrite andb_true_iff, string_eqb_eq. destruct (env_to env); simpl.
  - rewrite string_eqb_eq. naive_solver.
  - naive_solver.
Qed.

Lemma arrivals_snd now events : (arrivals now events).*2 = events.*2.
Proof. revert now; induction events as [|[dt ev] l IH]; intros now; simpl; by rewrite ?IH. Qed.

Lemma arrivals_ge now events i t ev :
  arrivals now events !! i = Some (t, ev) → (now ≤ t)%Z.
Proof.
  revert now i; induction events as [|[dt e] l IH]; intros now [|i] Hi; simplify_eq/=; [lia|].
  apply IH in Hi. lia.
Qed.

Lemma arrivals_mono now events i j t ev t' ev' :
  i < j → arrivals now events !! i = Some (t, ev) → arrivals now events !! j = Some (t', ev') →
  (t ≤ t')%Z.
Proof.
  revert now i j; induction events as [|[dt e] l IH]; intros now [|i] [|j] Hij Hi Hj; simplify_eq/=;
    try lia; [by eapply arrivals_ge|]. eapply (IH _ i j); [lia|done|done].
Qed.

Lemma find_first {A} (p : A → bool) l x :
  List.find p l = Some x →
  ∃ i, l !! i = Some x ∧ p x = true ∧ ∀ j y, j < i → l !! j = Some y → p y = false.
Proof.
  induction l as [|a l IH]; simpl; [done|]. destruct (p a) eqn:Ha; intros Hf; simplify_eq.
  - exists 0. repeat split; try done. intros; lia.
  - destruct (IH Hf) as (i & Hi & Hp & Hj). exists (S i). repeat split; try done.
    intros [|j] y Hlt Hy; simplify_eq/=; [done|]. apply (Hj j); [lia|done].
Qed.

(** A call whose receiver is owed no more than the capacity and reads all of it in
    time returns the body of the first reply on the bus. *)
Theorem dispatch_over_bus `{HashOrder RegistryEntry} ops i sub from name req body timeout w env :
  bs_subs (bus_run in_proc_bus_new ops) !! i = Some (Some sub) →
  (chan_recv (sub_rx sub) (bs_bus (bus_run in_proc_bus_new ops))).1 = Pending →
  length (sub_owed sub) ≤ IN_PROC_BUS_CAPACITY →
  (hd [] (d_streams w)).*2 = sub_got sub →
  Forall (λ a, a.1 < d_now w + timeout)%Z (arrivals (d_now w) (hd [] (d_streams w))) →
  is_ok (require_by_capability name req (d_registry w)) = true → (0 < timeout)%Z →
  List.find (is_reply (d_uuid w (d_next w)) from) (sub_owed sub) = Some env →
  (dispatch from name req body timeout w).1 = Ok (env_body env).
Proof.
  intros Hs Hp Hlen Hstream Htime Hok Hto Hfind.
  pose proof (inv_subs _ _ (in_proc_inv ops) i sub Hs) as Hinv.
  pose proof (proj1 (recv_pending _ _ _ Hinv) Hp) as Hnil. destruct Hinv as (_ & Hd & Hl).
  rewrite Hnil in Hd. apply delivered_no_lag in Hd as (pre & Hpre & Hgot).
  2:{ intros n Hn. specialize (Hl n Hn). lia. }
  rewrite app_nil_r in Hpre. rewrite Hpre in Hfind. rewrite Hgot in Hstream.
  apply find_first in Hfind as (k & Hk & Hrep & Hbefore).
  rewrite <- (arrivals_snd (d_now w)) in Hstream.
  assert (∀ j t ev, arrivals (d_now w) (hd [] (d_streams w)) !! j = Some (t, ev) →
    ∃ e, ev = Recv e ∧ pre !! j = Some e) as Hev.
  { intros j t ev Hj. apply (f_equal (λ l, l !! j)) in Hstream.
    rewrite !list_lookup_fmap, Hj in Hstream. simpl in Hstream.
    destruct (pre !! j); simplify_eq/=; eauto. }
  assert (∃ t, arrivals (d_now w) (hd [] (d_streams w)) !! k = Some (t, Recv env)) as [t Ht].
  { apply (f_equal (λ l, l !! k)) in Hstream. rewrite !list_lookup_fmap, Hk in Hstream.
    destruct (arrivals _ _ !! k) as [[t e]|]; simplify_eq/=; eauto. }
  apply is_reply_spec in Hrep as [Hc Hdir].
  eapply (dispatch_reply_complete _ _ _ _ _ _ k t env); try done.
  { by apply (Forall_lookup_1 _ _ _ _ Htime) in Ht. }
  intros j t' ev Hj Hjl. destruct (Hev j t' ev Hjl) as (e & -> & He). split; [done|].
  split; [by eapply (arrivals_mono _ _ j k)|]. intros env' Heq Hc' Hd'. simplify_eq.
  assert (is_reply (d_uuid w (d_next w)) from env' = true) as Hr by (by apply is_reply_spec).
  by rewrite (Hbefore j env' Hj He) in Hr.
Qed.
End Bus.

(** ** Envelopes on the wire *)

(** [DateTime<Utc>] as serde writes it. *)
Class TimeText := {
  time_show : Z → string;
  time_parse : string → option Z;
  time_roundtrip t : time_parse (time_show t) = Some t;
}.

Section Wire.
Context `{SemVer} `{UuidParse} `{TimeText} `{JsonTextLaws}.

(** [Recipient] is internally tagged by [kind]; serde cannot add the tag to a variant
    that holds a bare string. *)
Definition encode_recipient (to : Recipient) : result string json :=
  match to with
  | Direct _ => Err "cannot serialize tagged newtype variant Recipient::Direct containing a string"
  | ByCapability name req =>
      Ok (jobj [("kind", JString "by_capability"); ("name", JString name);
                ("version_req", JString (req_show req))])
  end.

Definition encode_audit (a : AuditMetadata) : json :=
  jobj (("ts", JString (time_show (am_ts a))) ::
        match am_parent_correlation_id a with
        | Some p => [("parent_correlation_id", JString p)]
        | None => []
        end).

Definition encode_envelope (env : AgentEnvelope) : result string json :=
  to ← encode_recipient (env_to env);
  Ok (jobj ([("correlation_id", JString (env_correlation_id env)); ("from", JString (env_from env));
             ("to", to)] ++
            match env_reply_to env with Some r => [("reply_to", JString r)] | None => [] end ++
            [("body", env_body env); ("audit", encode_audit (env_audit env))])).

(** The derived [Deserialize]. A struct is read from an object, or from an array of
    its fields in the order of their declaration, where only trailing defaulted fields may
    be missing; a tagged enum from an object with its tag or from an array that starts with
    it. What is left beside the tag is a map or a sequence, never the bare string [direct]
    holds. An object with a repeated key, which serde refuses, is not a {!json}. *)
Definition recipient_fields (name text : json) : option Recipient :=
  name ← as_str name;
  text ← as_str text;
  req ← ok (req_parse text);
  Some (ByCapability name req).

Definition decode_recipient (j : json) : option Recipient :=
  match j with
  | JObject _ =>
      kind ← req_field as_str j "kind";
      if string_eqb kind "by_capability" then
        name ← jget j "name"; text ← jget j "version_req"; recipient_fields name text
      else None
  | JArray [JString kind; name; text] =>
      if string_eqb kind "by_capability" then recipient_fields name text else None
  | _ => None
  end.

(** An [Option] that may be missing. *)
Definition optional {A} (dec : json → option A) (o : option json) : option (option A) :=
  match o with None | Some JNull => Some None | Some v => Some <$> dec v end.

Definition audit_fields (ts : json) (parent : option json) : option AuditMetadata :=
  ts ← as_str ts ≫= time_parse;
  parent ← optional (λ v, as_str v ≫= uuid_parse) parent;
  Some (mkAuditMetadata ts parent).

Definition decode_audit (j : json) : option AuditMetadata :=
  match j with
  | JObject _ => ts ← jget j "ts"; audit_fields ts (jget j "parent_correlation_id")
  | JArray [ts] => audit_fields ts None
  | JArray [ts; parent] => audit_fields ts (Some parent)
  | _ => None
  end.

(** A [serde_json::Value] takes any value, but has to be there. *)
Definition envelope_fields (corr from to : json) (reply : option json) (body audit : json) :
    option AgentEnvelope :=
  corr ← as_str corr ≫= uuid_parse;
  from ← as_str from;
  to ← decode_recipient to;
  reply ← optional as_str reply;
  audit ← decode_audit audit;
  Some (mkEnvelope corr from to reply body audit).

Definition decode_envelope (j : json) : option AgentEnvelope :=
  match j with
  | JObject _ =>
      corr ← jget j "correlation_id"; from ← jget j "from"; to ← jget j "to";
      body ← jget j "body"; audit ← jget j "audit";
      envelope_fields corr from to (jget j "reply_to") body audit
  | JArray [corr; from; to; reply; body; audit] =>
      envelope_fields corr from to (Some reply) body audit
  | _ => None
  end.

(** [serde_json::from_slice]. *)
Definition envelope_of_payload (payload : string) : option AgentEnvelope :=
  ok (json_from_str payload) ≫= decode_envelope.

(** What reads back: ids and version requirements, as the crates show and parse them, and
    a body with 64-bit integers, no fractions and at most 126 levels of nesting. *)
Definition wire_ok (env : AgentEnvelope) : Prop :=
  uuid_parse (env_correlation_id env) = Some (env_correlation_id env) ∧
  (∀ p, am_parent_correlation_id (env_audit env) = Some p → uuid_parse p = Some p) ∧
  (∀ name req, env_to env = ByCapability name req → req_parse (req_show req) = Ok req) ∧
  json_plain 126 (env_body env) = true.

Lemma decode_audit_encode a :
  (∀ p, am_parent_correlation_id a = Some p → uuid_parse p = Some p) →
  decode_audit (encode_audit a) = Some a.
Proof.
  intros Hp. destruct a as [ts [p|]]; lazy -[time_show time_parse uuid_parse];
    rewrite time_roundtrip; [by rewrite (Hp p eq_refl)|done].
Qed.

Lemma decode_recipient_encode to j :
  encode_recipient to = Ok j →
  (∀ name req, to = ByCapability name req → req_parse (req_show req) = Ok req) →
  decode_recipient j = Some to.
Proof.
  destruct to as [id|name req]; simpl; [done|]. intros Hj Hr. simplify_eq.
  lazy -[req_parse req_show]. by rewrite (Hr name req eq_refl).
Qed.

Lemma encoded_plain env j :
  encode_envelope env = Ok j → json_plain 126 (env_body env) = true →
  json_plain MAX_DEPTH j = true.
Proof.
  intros Hj Hb. unfold encode_envelope in Hj.
  destruct (env_to env) as [id|name req]; [done|]. unfold encode_recipient in Hj.
  cbn [mbind result_bind] in Hj. injection Hj as <-. unfold MAX_DEPTH. apply plain_jobj.
  assert (json_plain 126 (encode_audit (env_audit env)) = true) as Ha.
  { apply plain_jobj. cbn [forallb snd]. by destruct (am_parent_correlation_id _). }
  assert (json_plain 126 (jobj [("kind", JString "by_capability"); ("name", JString name);
    ("version_req", JString (req_show req))]) = true) as Ht by (by apply plain_jobj).
  cbn [forallb snd]. rewrite Ht, forallb_app. cbn [forallb snd]. rewrite Hb, Ha.
  by destruct (env_reply_to env).
Qed.

Lemma wire_envelope_roundtrip env j :
  encode_envelope env = Ok j → wire_ok env → envelope_of_payload (json_to_string j) = Some env.
Proof.
  intros Hj (Hc & Hp & Hr & Hb). unfold envelope_of_payload.
  rewrite json_text_roundtrip by exact (encoded_plain env j Hj Hb). cbn [ok mbind option_bind].
  unfold encode_envelope in Hj. destruct (encode_recipient (env_to env)) as [to|] eqn:Hto; [|done].
  apply decode_recipient_encode in Hto; [|done].
  clear Hb. destruct env as [corr from t r body audit]; cbn in *. simplify_eq.
  pose proof (decode_audit_encode audit Hp) as Ha.
  destruct r as [r|]; lazy -[uuid_parse decode_recipient decode_audit encode_audit];
    by rewrite Hc, Hto, Ha.
Qed.

(** A decoded envelope is addressed by capability. *)
Lemma recipient_by_capability j to :
  decode_recipient j = Some to → ∃ name req, to = ByCapability name req.
Proof.
  assert (∀ n t, recipient_fields n t = Some to → ∃ name req, to = ByCapability name req) as Hf.
  { intros n t (name & _ & Hx)%bind_Some. repeat (apply bind_Some in Hx as (? & _ & Hx)).
    simplify_eq. eauto. }
  destruct j as [| | | | |[|[] [|n [|t []]]]|l]; try done; cbn [decode_recipient].
  - case_match; [apply Hf|done].
  - intros (kind & _ & Hx)%bind_Some. case_match; [|done].
    apply bind_Some in Hx as (n & _ & Hx). apply bind_Some in Hx as (t & _ & Hx). by eapply Hf.
Qed.

Lemma decoded_by_capability payload env :
  envelope_of_payload payload = Some env → ∃ name req, env_to env = ByCapability name req.
Proof.
  assert (∀ c f t r b a, envelope_fields c f t r b a = Some env →
    ∃ name req, env_to env = ByCapability name req) as Hf.
  { intros c f t r b a (corr & _ & Hx)%bind_Some. apply bind_Some in Hx as (from & _ & Hx).
    apply bind_Some in Hx as (to & Hto & Hx). repeat (apply bind_Some in Hx as (? & _ & Hx)).
    simplify_eq. simpl. by eapply recipient_by_capability. }
  unfold envelope_of_payload. destruct (ok _) as [j|]; [|done]. simpl.
  destruct j as [| | | | |[|c [|f [|t [|r [|b [|a []]]]]]]|l]; try done; cbn [decode_envelope];
    [apply Hf|].
  intros Hx. do 5 (apply bind_Some in Hx as (? & _ & Hx)). by eapply Hf.
Qed.

(** An envelope as an array of its fields is read like one as an object. *)
Lemma array_envelope corr from name req body ts :
  uuid_parse corr = Some corr → req_parse (req_show req) = Ok req →
  decode_envelope (JArray [JString corr; JString from;
    JArray [JString "by_capability"; JString name; JString (req_show req)];
    JNull; body; JArray [JString (time_show ts)]]) =
  Some (mkEnvelope corr from (ByCapability name req) None body (mkAuditMetadata ts None)).
Proof.
  intros Hc Hr. lazy -[uuid_parse req_parse req_show time_show time_parse].
  by rewrite Hc, Hr, time_roundtrip.
Qed.
End Wire.

(** ** The NATS bus *)

Definition NATS_MIRROR_CAPACITY : nat := 4096.
Definition NATS_SUBJECT : string := "daimon.envelopes".

Inductive NatsBusError := NConnect (msg : string).

(** The forwarder task: before its subscription is made, after, and once it ended. *)
Inductive forwarder := FSubscribing | FActive | FEnded.

(** What became of a publish: delivered to the subscribers, lost (core NATS delivers
    at most once), or refused with a message. *)
Inductive publish_outcome := PDelivered | PLost | PFailed (msg : string).

Section Nats.
Context `{SemVer} `{UuidParse} `{TimeText} `{JsonTextLaws} `{BL : BroadcastLaws AgentEnvelope}.

(** The client's connection is its subscription: the payloads it holds for the
    forwarder. *)
Record NatsBus := mkNatsBus {
  nb_subject : string;
  nb_forwarder : forwarder;
  nb_queue : list string;
  nb_mirror : chan;
}.

(** [NatsBus::connect]; [connect] is the client's, given the url and the seed. It
    returns before the forwarder has subscribed. *)
Definition nats_connect (connect : string → option string → result string unit) (url : string)
    (nkey_seed : option string) : result NatsBusError NatsBus :=
  match connect url nkey_seed with
  | Err e => Err (NConnect e)
  | Ok _ => Ok (mkNatsBus NATS_SUBJECT FSubscribing [] (channel NATS_MIRROR_CAPACITY))
  end.

(** The forwarder's [subscribe] returns. *)
Definition nats_subscribed (r : result string unit) (b : NatsBus) : NatsBus :=
  match nb_forwarder b with
  | FSubscribing =>
      mkNatsBus (nb_subject b) (if is_ok r then FActive else FEnded) (nb_queue b) (nb_mirror b)
  | _ => b
  end.

(** A payload published on the subject reaches an active subscription. *)
Definition nats_deliver (payload : string) (b : NatsBus) : NatsBus :=
  match nb_forwarder b with
  | FActive => mkNatsBus (nb_subject b) FActive (nb_queue b ++ [payload]) (nb_mirror b)
  | _ => b
  end.

(** [NatsBus::send]. *)
Definition nats_send (p : publish_outcome) (env : AgentEnvelope) (b : NatsBus) :
    result CoreError unit * NatsBus :=
  match encode_envelope env with
  | Err e => (Err (BusSend ("encode envelope: " +:+ e)), b)
  | Ok j =>
      match p with
      | PFailed e => (Err (BusSend ("nats publish: " +:+ e)), b)
      | PDelivered => (Ok tt, nats_deliver (json_to_string j) b)
      | PLost => (Ok tt, b)
      end
  end.

(** One turn of the forwarder's loop: what does not decode is dropped. *)
Definition nats_forward (b : NatsBus) : NatsBus :=
  match nb_forwarder b, nb_queue b with
  | FActive, payload :: queue =>
      mkNatsBus (nb_subject b) FActive queue
        (match envelope_of_payload payload with
         | Some env => (chan_send env (nb_mirror b)).2
         | None => nb_mirror b
         end)
  | _, _ => b
  end.

(** The subscription yields no more. *)
Definition nats_end (b : NatsBus) : NatsBus :=
  match nb_forwarder b, nb_queue b with
  | FActive, [] => mkNatsBus (nb_subject b) FEnded [] (nb_mirror b)
  | _, _ => b
  end.

Definition nats_subscribe_raw (b : NatsBus) : receiver * NatsBus :=
  let '(r, m) := chan_subscribe (nb_mirror b) in
  (r, mkNatsBus (nb_subject b) (nb_forwarder b) (nb_queue b) m).

#[export] Instance nats_bus (p : publish_outcome) : AgentBus NatsBus :=
  {| bus_send := nats_send p; subscribe_raw := nats_subscribe_raw |}.

(** *** Runs *)

Inductive nats_op :=
| NSend (p : publish_outcome) (env : AgentEnvelope)
| NForeign (payload : string)
| NSubscribed (r : result string unit)
| NForward
| NEnd
| NSubscribe
| NRecv (i : nat)
| NDrop (i : nat).

Record nstate := mkNstate { ns_bus : NatsBus; ns_subs : list (option subscription) }.

Definition set_mirror (m : chan) (b : NatsBus) : NatsBus :=
  mkNatsBus (nb_subject b) (nb_forwarder b) (nb_queue b) m.

(** The receivers are the mirror's: what the forwarder sends is owed to them. *)
Definition nats_step (st : nstate) (op : nats_op) : nstate :=
  let b := ns_bus st in
  match op with
  | NSend p env => mkNstate (nats_send p env b).2 (ns_subs st)
  | NForeign payload => mkNstate (nats_deliver payload b) (ns_subs st)
  | NSubscribed r => mkNstate (nats_subscribed r b) (ns_subs st)
  | NForward =>
      mkNstate (nats_forward b)
        (match nb_forwarder b, nb_queue b with
         | FActive, payload :: _ =>
             match envelope_of_payload payload with
             | Some env => owe_all env (ns_subs st)
             | None => ns_subs st
             end
         | _, _ => ns_subs st
         end)
  | NEnd => mkNstate (nats_end b) (ns_subs st)
  | NSubscribe =>
      let '(r, b) := nats_subscribe_raw b in mkNstate b (ns_subs st ++ [Some (mkSub r [] [])])
  | NRecv i =>
      let st' := bus_step (mkBstate (nb_mirror b) (ns_subs st)) (ORecv i) in
      mkNstate (set_mirror (bs_bus st') b) (bs_subs st')
  | NDrop i =>
      let st' := bus_step (mkBstate (nb_mirror b) (ns_subs st)) (ODrop i) in
      mkNstate (set_mirror (bs_bus st') b) (bs_subs st')
  end.

Definition nats_run (b : NatsBus) (ops : list nats_op) : nstate :=
  foldl nats_step (mkNstate b []) ops.

(** The payloads handed to the subject in a run, in order, decoded. *)
Definition incoming (op : nats_op) : list AgentEnvelope :=
  match op with
  | NSend PDelivered env =>
      match encode_envelope env with
      | Ok j => option_list (envelope_of_payload (json_to_string j))
      | Err _ => []
      end
  | NForeign payload => option_list (envelope_of_payload payload)
  | _ => []
  end.

Definition sends (ops : list bus_op) : list AgentEnvelope :=
  omap (λ op, match op with OSend env => Some env | _ => None end) ops.

(** *** The mirror is an in-process bus *)

Lemma bus_run_snoc b ops op : bus_run b (ops ++ [op]) = bus_step (bus_run b ops) op.
Proof. unfold bus_run. by rewrite foldl_app. Qed.

Lemma nats_run_snoc b ops op : nats_run b (ops ++ [op]) = nats_step (nats_run b ops) op.
Proof. unfold nats_run. by rewrite foldl_app. Qed.

(** A state of the NATS bus as one of an in-process bus made for as many envelopes,
    and the envelopes still to be forwarded. *)
Definition mirrors (ops : list nats_op) (st : nstate) : Prop :=
  ∃ ops', bus_run (channel NATS_MIRROR_CAPACITY) ops' =
      mkBstate (nb_mirror (ns_bus st)) (ns_subs st) ∧
    sublist (sends ops' ++ omap envelope_of_payload (nb_queue (ns_bus st))) (ops ≫= incoming) ∧
    Forall (λ env, ∃ payload, envelope_of_payload payload = Some env) (sends ops').

Lemma sends_snoc ops op : sends (ops ++ [op]) = sends ops ++ sends [op].
Proof. unfold sends. by rewrite omap_app. Qed.

(** A step of the NATS bus that takes one step of the mirror, and one that takes none. *)
Lemma mirrors_op ops op st st' bop :
  mirrors ops st → sends [bop] = [] →
  bus_step (mkBstate (nb_mirror (ns_bus st)) (ns_subs st)) bop =
    mkBstate (nb_mirror (ns_bus st')) (ns_subs st') →
  nb_queue (ns_bus st') = nb_queue (ns_bus st) →
  mirrors (ops ++ [op]) st'.
Proof.
  intros (ops' & Hrun & Hsub & Hall) Hb Hstep Hq. exists (ops' ++ [bop]).
  rewrite bus_run_snoc, Hrun, sends_snoc, Hb, app_nil_r, Hq, bind_app.
  split; [done|]. split; [|done]. by apply sublist_inserts_r.
Qed.

Lemma mirrors_idle ops op st st' :
  mirrors ops st → ns_subs st' = ns_subs st →
  nb_mirror (ns_bus st') = nb_mirror (ns_bus st) →
  (∃ more, nb_queue (ns_bus st') = nb_queue (ns_bus st) ++ more ∧
     sublist (omap envelope_of_payload more) (incoming op)) →
  mirrors (ops ++ [op]) st'.
Proof.
  intros (ops' & Hrun & Hsub & Hall) Hs Hm (more & Hq & Hmore). exists ops'.
  rewrite Hs, Hm, Hq, omap_app, bind_app, app_assoc. split; [done|]. split; [|done].
  apply sublist_app; [done|]. simpl. by rewrite app_nil_r.
Qed.

Lemma deliver_queue payload b :
  nb_mirror (nats_deliver payload b) = nb_mirror b ∧
  ∃ more, nb_queue (nats_deliver payload b) = nb_queue b ++ more ∧
    sublist (omap envelope_of_payload more) (option_list (envelope_of_payload payload)).
Proof.
  unfold nats_deliver. split; [by destruct (nb_forwarder b)|].
  destruct (nb_forwarder b); simpl.
  1,3: exists []; rewrite app_nil_r; split; [done|apply sublist_nil_l].
  exists [payload]. split; [done|]. simpl. by destruct (envelope_of_payload payload).
Qed.

Lemma nats_step_mirrors ops op st :
  mirrors ops st → mirrors (ops ++ [op]) (nats_step st op).
Proof.
  intros Hm.
  assert (∀ b, nb_mirror b = nb_mirror (ns_bus st) → nb_queue b = nb_queue (ns_bus st) →
    mirrors (ops ++ [op]) (mkNstate b (ns_subs st))) as Hidle.
  { intros b Hb Hq. apply (mirrors_idle _ _ st); [done..|].
    exists []. rewrite app_nil_r. split; [done|apply sublist_nil_l]. }
  destruct op as [p env|payload|r| | | |i|i]; cbn [nats_step].
  - unfold nats_send. destruct (encode_envelope env) as [j|] eqn:Hj; cbn [snd]; [|by apply Hidle].
    destruct p; cbn [snd]; [|by apply Hidle..].
    destruct (deliver_queue (json_to_string j) (ns_bus st)) as [Hmi Hq].
    apply (mirrors_idle _ _ st); [done|done|done|]. simpl. by rewrite Hj.
  - destruct (deliver_queue payload (ns_bus st)) as [Hmi Hq].
    by apply (mirrors_idle _ _ st).
  - apply Hidle; unfold nats_subscribed; by destruct (nb_forwarder (ns_bus st)).
  - unfold nats_forward. destruct (nb_forwarder (ns_bus st)); try by apply Hidle.
    destruct (nb_queue (ns_bus st)) as [|payload queue] eqn:Hq; [by apply Hidle|].
    destruct Hm as (ops' & Hrun & Hsub & Hall). rewrite Hq in Hsub. simpl in Hsub.
    destruct (envelope_of_payload payload) as [env|] eqn:Hp; cycle 1.
    { exists ops'. split; [done|]. split; [|done]. rewrite bind_app.
      by apply sublist_inserts_r. }
    exists (ops' ++ [OSend env]). rewrite bus_run_snoc, Hrun, sends_snoc, bind_app.
    split; [done|]. split; cbn [ns_bus nb_queue].
    + rewrite <- app_assoc. by apply sublist_inserts_r.
    + apply Forall_app. split; [done|]. apply Forall_singleton. eauto.
  - apply Hidle; unfold nats_end; destruct (nb_forwarder (ns_bus st)); try done;
      by destruct (nb_queue (ns_bus st)) eqn:?.
  - eapply (mirrors_op _ _ _ _ OSubscribe Hm); [done|..];
      unfold nats_subscribe_raw; simpl; unfold in_proc_subscribe;
      by destruct (chan_subscribe (nb_mirror (ns_bus st))).
  - eapply (mirrors_op _ _ _ _ (ORecv i) Hm); [done|..]; [|done].
    cbn [ns_bus nb_mirror ns_subs set_mirror]. by destruct (bus_step _ _).
  - eapply (mirrors_op _ _ _ _ (ODrop i) Hm); [done|..]; [|done].
    cbn [ns_bus nb_mirror ns_subs set_mirror]. by destruct (bus_step _ _).
Qed.

Lemma nats_run_mirrors connect url seed b ops :
  nats_connect connect url seed = Ok b → mirrors ops (nats_run b ops).
Proof.
  unfold nats_connect. destruct (connect url seed); [|done]. intros Hb. simplify_eq.
  induction ops as [|op ops IH] using rev_ind.
  - exists []. split; [done|]. split; constructor.
  - rewrite nats_run_snoc. by apply nats_step_mirrors.
Qed.

Lemma incoming_sent op env :
  env ∈ incoming op → (∀ p e, op = NSend p e → wire_ok e) →
  op = NSend PDelivered env ∨
  ∃ payload, op = NForeign payload ∧ envelope_of_payload payload = Some env.
Proof.
  intros Hin Hw. destruct op as [[| |m] e|payload| | | | | |]; simpl in Hin;
    try (by apply elem_of_nil in Hin).
  - destruct (encode_envelope e) as [j|] eqn:Hj; [|by apply elem_of_nil in Hin].
    rewrite (wire_envelope_roundtrip e j Hj (Hw _ _ eq_refl)) in Hin. simpl in Hin.
    apply list_elem_of_singleton in Hin as ->. by left.
  - right. exists payload. split; [done|].
    destruct (envelope_of_payload payload); simpl in Hin; [|by apply elem_of_nil in Hin].
    by apply list_elem_of_singleton in Hin as ->.
Qed.

(** C32: the NATS bus implements the in-process one. Every run of it, with lost and
    refused publishes, foreign payloads and a forwarder that starts late or ends, leaves
    its receivers where a run of an in-process bus of the mirror's capacity leaves them;
    the envelopes of that run are, in order and each at most once, ones sent here
    unchanged or decoded from a foreign payload, and all addressed by capability. The
    envelopes sent here are ones whose text reads back ({!wire_ok}): ids and version
    requirements in their printed form, and a body with 64-bit integers, no fractions and
    at most 126 levels of nesting. *)
Theorem nats_refines connect url seed b ops :
  nats_connect connect url seed = Ok b → (∀ p env, NSend p env ∈ ops → wire_ok env) →
  let st := nats_run b ops in
  ∃ ops', bus_run (channel NATS_MIRROR_CAPACITY) ops' =
      mkBstate (nb_mirror (ns_bus st)) (ns_subs st) ∧
    sublist (sends ops') (ops ≫= incoming) ∧
    ∀ env, env ∈ sends ops' →
      (∃ name req, env_to env = ByCapability name req) ∧
      (NSend PDelivered env ∈ ops ∨
       ∃ payload, NForeign payload ∈ ops ∧ envelope_of_payload payload = Some env).
Proof.
  intros Hb Hw st. destruct (nats_run_mirrors _ _ _ _ ops Hb) as (ops' & Hrun & Hsub & Hall).
  exists ops'. assert (sublist (sends ops') (ops ≫= incoming)) as Hsub'.
  { etrans; [|exact Hsub]. by apply sublist_inserts_r. }
  split; [done|]. split; [done|]. intros env Henv. split.
  - rewrite Forall_forall in Hall. destruct (Hall env Henv) as [payload Hp].
    by eapply decoded_by_capability.
  - apply (sublist_subseteq _ _ Hsub'), list_elem_of_bind in Henv as (op & Henv & Hop).
    apply incoming_sent in Henv as [->|(payload & -> & Hp)]; [by left|right; eauto|].
    intros p e ->. eauto.
Qed.

(** *** Replies *)

(** An envelope addressed to an agent, as every reply is, is refused by the encoder. *)
Lemma nats_direct_refused p env id b :
  env_to env = Direct id →
  nats_send p env b =
    (Err (BusSend "encode envelope: cannot serialize tagged newtype variant Recipient::Direct containing a string"), b).
Proof. unfold nats_send, encode_envelope. by intros ->. Qed.

(** What a receiver yields was sent while it was subscribed. *)
Lemma owed_sent b ops i s env :
  bs_subs (bus_run b ops) !! i = Some (Some s) → env ∈ sub_owed s → env ∈ sends ops.
Proof.
  revert i s. induction ops as [|op ops IH] using rev_ind; intros i s; [done|].
  rewrite bus_run_snoc, sends_snoc. intros Hs He. apply elem_of_app.
  destruct op as [e| |j|j]; cbn [bus_step] in Hs.
  - cbn [bs_subs] in Hs. unfold owe_all in Hs. rewrite list_lookup_fmap in Hs.
    destruct (bs_subs (bus_run b ops) !! i) as [[s0|]|] eqn:Hs0; simplify_eq/=.
    apply elem_of_app in He as [He|He]; [left; by eapply IH|right; exact He].
  - destruct (in_proc_subscribe _) as [r b']. cbn [bs_subs] in Hs. left.
    apply lookup_app_Some in Hs as [Hs|[_ Hs]]; [by eapply IH|].
    destruct (i - length _) as [|[|]]; simplify_eq/=. by apply elem_of_nil in He.
  - left. destruct (bs_subs (bus_run b ops) !! j) as [[s0|]|] eqn:Hj; [|by eapply IH..].
    cbn [bs_subs] in Hs. apply list_lookup_insert_Some in Hs as [(<- & Heq & _)|[_ Hs]]; [|by eapply IH].
    simplify_eq. eapply IH; [exact Hj|]. revert He. unfold receive.
    by destruct (chan_recv _ _) as [[] ?].
  - left. destruct (bs_subs (bus_run b ops) !! j) as [[s0|]|] eqn:Hj; [|by eapply IH..].
    cbn [bs_subs] in Hs. apply list_lookup_insert_Some in Hs as [(_ & ? & _)|[_ Hs]]; [done|].
    by eapply IH.
Qed.

Lemma delivered_from log evs rest ev :
  delivered log evs rest → ev ∈ evs → (∃ n, ev = Lagged n) ∨ ∃ env, ev = Recv env ∧ env ∈ log.
Proof.
  induction 1 as [|env log evs rest _ IH|lost log evs rest _ _ IH]; intros Hin.
  - by apply elem_of_nil in Hin.
  - apply elem_of_cons in Hin as [->|Hin]; [right; exists env; split; [done|left]|].
    destruct (IH Hin) as [?|(e & ? & ?)]; [by left|right; exists e; split; [done|by right]].
  - apply elem_of_cons in Hin as [->|Hin]; [left; eauto|].
    destruct (IH Hin) as [?|(e & ? & ?)]; [by left|right; exists e; split; [done|]].
    apply elem_of_app. by right.
Qed.

(** C33: nothing addressed to an agent crosses the NATS bus. Every such envelope, a reply
    among them, is refused when it is sent, with the encoder's error and nothing published;
    and whatever is published on the subject, by this process or another, no receiver ever
    yields an envelope addressed to an agent. *)
Theorem nats_direct_never_crosses connect url seed b ops :
  nats_connect connect url seed = Ok b →
  let st := nats_run b ops in
  (∀ p env id, env_to env = Direct id →
     ∃ e, nats_send p env (ns_bus st) = (Err (BusSend ("encode envelope: " +:+ e)), ns_bus st)) ∧
  (∀ p request now from body,
     is_ok (nats_send p (reply_to request now from body) (ns_bus st)).1 = false) ∧
  ∀ i sub env id, ns_subs st !! i = Some (Some sub) → Recv env ∈ sub_got sub → env_to env ≠ Direct id.
Proof.
  intros Hb st. split; [|split].
  - intros p env id Hto. eexists. by apply nats_direct_refused with (id := id).
  - intros p request now from body. erewrite nats_direct_refused; done.
  - intros i sub env id Hs Hev Hto.
    destruct (nats_run_mirrors _ _ _ _ ops Hb) as (ops' & Hrun & _ & Hdec).
    assert (bs_subs (bus_run (channel NATS_MIRROR_CAPACITY) ops') !! i = Some (Some sub)) as Hs'
      by (by rewrite Hrun).
    destruct (channel_law NATS_MIRROR_CAPACITY) as (? & ? & ?).
    destruct (inv_subs _ _ (bus_run_inv NATS_MIRROR_CAPACITY _ ops' ltac:(done) ltac:(done)
      ltac:(done)) i sub Hs') as (_ & Hd & _).
    destruct (delivered_from _ _ _ _ Hd Hev) as [[n ?]|(env' & [= <-] & He)]; [done|].
    rewrite Forall_forall in Hdec. destruct (Hdec env (owed_sent _ _ _ _ _ Hs' He)) as [payload Hp].
    apply decoded_by_capability in Hp as (n & r & Hto'). congruence.
Qed.
End Nats.

(** ** Witnesses *)

Module BusDemo.
Import DemoSemVer ChannelsDemo RuntimeDemo.

(** A channel that keeps every value, and shows the last ones. *)
Record dchan (M : Type) := mkDchan { dc_sent : list M; dc_retained : nat; dc_live : nat }.
Arguments mkDchan {M}.
Arguments dc_sent {M}.
Arguments dc_retained {M}.
Arguments dc_live {M}.

#[export] Instance demo_broadcast M : Broadcast M := {|
  chan := dchan M; receiver := nat;
  channel n := mkDchan [] n 0;
  chan_send m c :=
    if decide (dc_live c = 0) then (Err m, c)
    else (Ok (dc_live c), mkDchan (dc_sent c ++ [m]) (dc_retained c) (dc_live c));
  chan_subscribe c := (length (dc_sent c), mkDchan (dc_sent c) (dc_retained c) (S (dc_live c)));
  chan_recv r c :=
    match drop r (dc_sent c) with
    | [] => (Pending, r)
    | m :: rest =>
        if decide (length (m :: rest) ≤ dc_retained c) then (Value m, S r)
        else (Lag (length (m :: rest) - dc_retained c), length (dc_sent c) - dc_retained c)
    end;
  chan_drop r c := mkDchan (dc_sent c) (dc_retained c) (pred (dc_live c));
|}.

#[export] Instance demo_broadcast_laws M : BroadcastLaws M.
Proof.
  refine {| sent := dc_sent; retained := dc_retained; live := dc_live; cursor := λ r : @receiver M _, r |}; simpl.
  - done.
  - intros m c. case_decide; simpl; [by left|right]. repeat split; try done. lia.
  - done.
  - done.
  - intros r c Hr. destruct (drop r (dc_sent c)); [done|]. by case_decide.
Defined.

#[export] Instance demo_time : TimeText.
Proof.
  refine {| time_show := λ t, bits (encode t); time_parse := λ s, decode (unbits s) |}.
  intros t. by rewrite unbits_bits, decode_encode.
Defined.

#[export] Existing Instance demo_json_text.
#[export] Existing Instance demo_json_laws.

Definition probe : AgentEnvelope :=
  envelope_new "c0ffee-0" 5 "chat" (ByCapability "test.fw.add" Star) (JInt 7).

Definition in_proc_ops : list bus_op := [OSubscribe; OSend probe; ORecv 0].

Lemma bus_delivers_witness :
  bs_subs (bus_run in_proc_bus_new in_proc_ops) !! 0 = Some (Some (mkSub 1 [probe] [Recv probe])) ∧
  ∃ rest, delivered [probe] [Recv probe] rest ∧
    ((chan_recv 1 (bs_bus (bus_run in_proc_bus_new in_proc_ops))).1 = Pending ↔ rest = []) ∧
    (length [probe] ≤ IN_PROC_BUS_CAPACITY → ∃ pre, [probe] = pre ++ rest ∧ [Recv probe] = Recv <$> pre).
Proof.
  assert (bs_subs (bus_run in_proc_bus_new in_proc_ops) !! 0
    = Some (Some (mkSub 1 [probe] [Recv probe]))) as Hs by reflexivity.
  split; [exact Hs|]. exact (bus_delivers in_proc_ops 0 _ Hs).
Defined.

Definition nats_ops : list nats_op :=
  [NSubscribed (Ok tt); NSubscribe; NSend PDelivered probe; NForeign "noise"; NForward; NForward;
   NRecv 0].

Definition nats_up (url : string) (seed : option string) : result string unit := Ok tt.

Definition nats0 : NatsBus :=
  mkNatsBus NATS_SUBJECT FSubscribing [] (channel NATS_MIRROR_CAPACITY).

Lemma nats_refines_witness :
  nats_connect nats_up "nats://127.0.0.1:4222" None = Ok nats0 ∧
  ns_subs (nats_run nats0 nats_ops) = [Some (mkSub 1 [probe] [Recv probe])] ∧
  ∃ ops', bus_run (channel NATS_MIRROR_CAPACITY) ops' =
      mkBstate (nb_mirror (ns_bus (nats_run nats0 nats_ops))) (ns_subs (nats_run nats0 nats_ops)) ∧
    sublist (sends ops') (nats_ops ≫= incoming) ∧
    ∀ env, env ∈ sends ops' →
      (∃ name req, env_to env = ByCapability name req) ∧
      (NSend PDelivered env ∈ nats_ops ∨
       ∃ payload, NForeign payload ∈ nats_ops ∧ envelope_of_payload payload = Some env).
Proof.
  split; [reflexivity|]. split; [reflexivity|].
  refine (nats_refines nats_up "nats://127.0.0.1:4222" None nats0 nats_ops eq_refl _).
  intros p env Hin. unfold nats_ops in Hin.
  repeat (apply elem_of_cons in Hin as [Hin|Hin]; [simplify_eq|]); [|by apply elem_of_nil in Hin].
  split; [vm_compute; reflexivity|]. split; [done|]. split; [|reflexivity].
  intros name req Hto. unfold probe in Hto. simpl in Hto. simplify_eq. reflexivity.
Defined.

(** A reply does not get through, nor does a foreign payload that names an agent, in
    either form. *)
Lemma nats_direct_never_crosses_witness :
  let named := jobj [("kind", JString "direct"); ("0", JString "chat")] in
  ¬ is_Some (decode_recipient named) ∧
  ¬ is_Some (decode_recipient (JArray [JString "direct"; JString "chat"])) ∧
  is_ok (nats_send PDelivered (reply_to probe 9 "fw" JNull) (ns_bus (nats_run nats0 nats_ops))).1 = false.
Proof.
  split; [by intros [? ?]|]. split; [by intros [? ?]|].
  destruct (nats_direct_never_crosses nats_up "nats://127.0.0.1:4222" None nats0 nats_ops eq_refl)
    as (_ & Hr & _). exact (Hr PDelivered probe 9%Z "fw" JNull).
Defined.
End BusDemo.
