(* ===== verification/Orchestrator.v ===== *)
(** * daimon-orchestrator: plans and saga execution ([daimon-orchestrator/src])

    Plans and steps live in Postgres; [run_plan] executes a plan's steps over the
    bus in dependency order, stops at the first failure and compensates what
    succeeded in reverse. The tables are maps from row ids to rows, every
    database call may fail, before the server did the work or after it, when only
    the acknowledgement is lost, and the bus is used through {!BusDispatcher}: a
    registry to resolve against and a dispatch effect on a state of its own.
    Every dispatch is logged. *)

From stdpp Require Import sorting.
From S2P Require Import Prelude RustStd Json Core Approvals Runtime Memory.
From Stdlib Require Import ZArith Ascii.

Local Open Scope Z_scope.

(** ** Statuses ([plan.rs]) *)

Inductive PlanStatus :=
| Planning | AwaitingApproval | Executing | PSucceeded | PFailed | Cancelled | RolledBack.

#[export] Instance PlanStatus_eq_dec : EqDecision PlanStatus.
Proof. solve_decision. Defined.

Definition plan_status_as_str (s : PlanStatus) : string :=
  match s with
  | Planning => "planning"
  | AwaitingApproval => "awaiting_approval"
  | Executing => "executing"
  | PSucceeded => "succeeded"
  | PFailed => "failed"
  | Cancelled => "cancelled"
  | RolledBack => "rolled_back"
  end.

Definition plan_status_from_str (s : string) : PlanStatus :=
  if string_eqb s "planning" then Planning
  else if string_eqb s "awaiting_approval" then AwaitingApproval
  else if string_eqb s "executing" then Executing
  else if string_eqb s "succeeded" then PSucceeded
  else if string_eqb s "failed" then PFailed
  else if string_eqb s "cancelled" then Cancelled
  else if string_eqb s "rolled_back" then RolledBack
  else PFailed.

Inductive StepStatus := SPending | SRunning | SSucceeded | SFailed | SSkipped | SCompensated.

#[export] Instance StepStatus_eq_dec : EqDecision StepStatus.
Proof. solve_decision. Defined.

Definition step_status_as_str (s : StepStatus) : string :=
  match s with
  | SPending => "pending"
  | SRunning => "running"
  | SSucceeded => "succeeded"
  | SFailed => "failed"
  | SSkipped => "skipped"
  | SCompensated => "compensated"
  end.

Definition step_status_from_str (s : string) : StepStatus :=
  if string_eqb s "pending" then SPending
  else if string_eqb s "running" then SRunning
  else if string_eqb s "succeeded" then SSucceeded
  else if string_eqb s "failed" then SFailed
  else if string_eqb s "skipped" then SSkipped
  else if string_eqb s "compensated" then SCompensated
  else SFailed.

Lemma plan_status_roundtrip s : plan_status_from_str (plan_status_as_str s) = s.
Proof. by destruct s. Qed.
Lemma step_status_roundtrip s : step_status_from_str (step_status_as_str s) = s.
Proof. by destruct s. Qed.

(** ** Data *)

Record StepDef := mkStepDef {
  sd_capability_name : string;
  sd_capability_version : string;
  sd_target_ref : option string;
  sd_credential_ref : option string;
  sd_params : json;
  sd_depends_on_index : list nat;
}.

Record Plan := mkPlan {
  pl_id : Uuid;
  pl_created_by : option Uuid;
  pl_intent : string;
  pl_status : PlanStatus;
  pl_metadata : json;
  pl_created_at : Z;
  pl_updated_at : Z;
  pl_started_at : option Z;
  pl_finished_at : option Z;
}.

Record Step := mkStep {
  st_id : Uuid;
  st_plan_id : Uuid;
  st_step_index : Z;
  st_capability_name : string;
  st_capability_version : string;
  st_target_ref : option string;
  st_credential_ref : option string;
  st_params : json;
  st_depends_on : list Uuid;
  st_compensating_step_id : option Uuid;
  st_status : StepStatus;
  st_result : option json;
  st_started_at : option Z;
  st_finished_at : option Z;
}.

(** Rows: the same columns, with the status as text. *)
Record PlanRow := mkPlanRow {
  pr_created_by : option Uuid;
  pr_intent : string;
  pr_status : string;
  pr_metadata : json;
  pr_created_at : Z;
  pr_updated_at : Z;
  pr_started_at : option Z;
  pr_finished_at : option Z;
}.

Record StepRow := mkStepRow {
  sr_plan_id : Uuid;
  sr_step_index : Z;
  sr_capability_name : string;
  sr_capability_version : string;
  sr_target_ref : option string;
  sr_credential_ref : option string;
  sr_params : json;
  sr_depends_on : list Uuid;
  sr_compensating_step_id : option Uuid;
  sr_status : string;
  sr_result : option json;
  sr_started_at : option Z;
  sr_finished_at : option Z;
}.

(** [row_to_plan], [row_to_step]. *)
Definition row_to_plan (id : Uuid) (r : PlanRow) : Plan :=
  {| pl_id := id; pl_created_by := pr_created_by r; pl_intent := pr_intent r;
     pl_status := plan_status_from_str (pr_status r); pl_metadata := pr_metadata r;
     pl_created_at := pr_created_at r; pl_updated_at := pr_updated_at r;
     pl_started_at := pr_started_at r; pl_finished_at := pr_finished_at r |}.

Definition row_to_step (id : Uuid) (r : StepRow) : Step :=
  {| st_id := id; st_plan_id := sr_plan_id r; st_step_index := sr_step_index r;
     st_capability_name := sr_capability_name r;
     st_capability_version := sr_capability_version r;
     st_target_ref := sr_target_ref r; st_credential_ref := sr_credential_ref r;
     st_params := sr_params r; st_depends_on := sr_depends_on r;
     st_compensating_step_id := sr_compensating_step_id r;
     st_status := step_status_from_str (sr_status r); st_result := sr_result r;
     st_started_at := sr_started_at r; st_finished_at := sr_finished_at r |}.

(** [error.rs]. *)
Inductive OError :=
| OPg (msg : string)
| OPool (msg : string)
| OPlanNotFound (id : Uuid)
| ODispatch (msg : string)
| ODagCycle
| ODecode (msg : string)
| OOther (msg : string).

Definition show_oerror (e : OError) : string :=
  match e with
  | OPg m => "db: " +:+ m
  | OPool m => "pool: " +:+ m
  | OPlanNotFound i => "plan not found: " +:+ i
  | ODispatch m => "step dispatch: " +:+ m
  | ODagCycle => "dag cycle detected"
  | ODecode m => "decode: " +:+ m
  | OOther m => m
  end.

(** What the graph mirror and the memory receive. *)
Record GraphPlanStep := mkGraphStep {
  gs_id : Uuid;
  gs_capability_name : string;
  gs_capability_version : string;
  gs_target_ref : string;
  gs_depends_on : list Uuid;
}.

Record GraphPlan := mkGraphPlan {
  gp_id : Uuid;
  gp_intent : string;
  gp_created_at : Z;
  gp_steps : list GraphPlanStep;
}.

(** [terminal_record]; the namespace is always absent. *)
Definition terminal_record (status : PlanStatus) (plan_id : Uuid) (intent : string) :
    option TypedBody :=
  match status with
  | PSucceeded =>
      Some (RecDecision ("plan completed: " +:+ intent) intent "plan completed"
              ("plan " +:+ plan_id +:+ " reached terminal state Succeeded"))
  | PFailed =>
      Some (RecIncident ("plan failed: " +:+ intent) intent
              ("plan " +:+ plan_id +:+ " failed / rolled back (compensation pass ran for succeeded write steps)"))
  | _ => None
  end.

(** ** Dispatch bodies *)

(** [capability_body]. *)
Definition capability_body (capability target_ref : string) (params : json) : json :=
  let timeout_secs := default 30 (jget params "timeout_secs" ≫= as_u64) in
  jobj [("capability", JString capability); ("target_ref", JString target_ref);
        ("timeout_secs", JInt timeout_secs); ("params", params)].

(** [compensation_params]. *)
Definition compensation_params (original : json) (result : option json) : json :=
  match original with
  | JObject obj =>
      match assoc "match" obj with
      | Some _ => original
      | None =>
          match assoc "comment" obj ≫= as_str with
          | Some comment => JObject (assoc_insert "match" (JString comment) obj)
          | None => original
          end
      end
  | _ => original
  end.

Definition STEP_DISPATCH_TIMEOUT : Z := 60000.

(** ** The bus, as the orchestrator sees it *)

Class BusDispatcher `{SemVer} (X : Type) := {
  disp_registry : X → CapabilityRegistry;
  disp_call : AgentId → string → version_req → json → Z → io X DispatchError json;
}.

(** The runtime's dispatcher is one. *)
#[export] Instance runtime_dispatcher `{SemVer} `{HashOrder RegistryEntry} :
    BusDispatcher dworld := {|
  disp_registry := d_registry;
  disp_call := dispatch;
|}.

(** The outcome of one database call: served, no pool connection, rejected by
    the server, or carried out by the server with the answer lost on the way
    back, which the caller cannot tell from a rejection. *)
Inductive ofault :=
| OServed
| OPoolFault (msg : string)
| OPgFault (msg : string)
| OLost (msg : string).

Section Orchestrator.
Context `{SemVer} `{HashOrder RegistryEntry} {X : Type} `{!BusDispatcher X}.

(** One dispatch on the bus. *)
Record call := mkCall {
  call_from : AgentId;
  call_capability : string;
  call_req : version_req;
  call_body : json;
}.

Record oworld := mkOworld {
  o_plans : gmap Uuid PlanRow;          (** [public.plans] *)
  o_steps : gmap Uuid StepRow;          (** [public.plan_steps] *)
  o_faults : list ofault;               (** outcome of the next database calls *)
  o_now : Z;
  o_uuid : nat → Uuid;
  o_next : nat;
  o_bus : X;
  o_log : list call;                    (** every dispatch, oldest first *)
  o_graph : list GraphPlan;             (** plans the graph mirror accepted *)
  o_memory : list TypedBody;            (** records the memory accepted *)
}.

Definition set_plans p w := mkOworld p (o_steps w) (o_faults w) (o_now w) (o_uuid w)
  (o_next w) (o_bus w) (o_log w) (o_graph w) (o_memory w).
Definition set_steps s w := mkOworld (o_plans w) s (o_faults w) (o_now w) (o_uuid w)
  (o_next w) (o_bus w) (o_log w) (o_graph w) (o_memory w).
Definition set_ofaults f w := mkOworld (o_plans w) (o_steps w) f (o_now w) (o_uuid w)
  (o_next w) (o_bus w) (o_log w) (o_graph w) (o_memory w).
Definition set_onext n w := mkOworld (o_plans w) (o_steps w) (o_faults w) (o_now w) (o_uuid w)
  n (o_bus w) (o_log w) (o_graph w) (o_memory w).
Definition set_bus_log x l w := mkOworld (o_plans w) (o_steps w) (o_faults w) (o_now w)
  (o_uuid w) (o_next w) x l (o_graph w) (o_memory w).
Definition set_graph g w := mkOworld (o_plans w) (o_steps w) (o_faults w) (o_now w)
  (o_uuid w) (o_next w) (o_bus w) (o_log w) g (o_memory w).
Definition set_memory m w := mkOworld (o_plans w) (o_steps w) (o_faults w) (o_now w)
  (o_uuid w) (o_next w) (o_bus w) (o_log w) (o_graph w) m.

Abbreviation oio := (io oworld OError).

(** The service: its optional graph mirror and memory. *)
Record Service := mkService {
  svc_graph : option (GraphPlan → result string unit);
  svc_memory : option (TypedBody → result string string);
}.

(** A statement outside a transaction, or a commit: [write] is what the server
    does to the tables. *)
Definition odb_write (write : oworld → oworld) : oio unit := λ w,
  match o_faults w with
  | [] | OServed :: _ => (Ok tt, write (set_ofaults (tail (o_faults w)) w))
  | OPoolFault m :: f => (Err (OPool m), set_ofaults f w)
  | OPgFault m :: f => (Err (OPg m), set_ofaults f w)
  | OLost m :: f => (Err (OPg m), write (set_ofaults f w))
  end.

(** A call that changes no table by itself: a connection from the pool, a query,
    a statement of a transaction that is not committed yet. *)
Definition odb_call : oio unit := odb_write (λ w, w).

(** ** Creating plans *)

(** [filter_map(|&idx| step_ids.get(idx).copied())]: indices out of range
    disappear. *)
Definition resolve_deps (step_ids : list Uuid) (deps : list nat) : list Uuid :=
  omap (λ i, step_ids !! i) deps.

Definition step_row (plan_id : Uuid) (step_ids : list Uuid) (i : nat) (def : StepDef) :
    StepRow :=
  {| sr_plan_id := plan_id; sr_step_index := Z.of_nat i;
     sr_capability_name := sd_capability_name def;
     sr_capability_version := sd_capability_version def;
     sr_target_ref := sd_target_ref def; sr_credential_ref := sd_credential_ref def;
     sr_params := sd_params def; sr_depends_on := resolve_deps step_ids (sd_depends_on_index def);
     sr_compensating_step_id := None; sr_status := "pending"; sr_result := None;
     sr_started_at := None; sr_finished_at := None |}.

(** The graph steps: only those with a target. *)
Definition graph_step (step_ids : list Uuid) (i : nat) (def : StepDef) :
    option GraphPlanStep :=
  tref ← sd_target_ref def;
  id ← step_ids !! i;
  Some (mkGraphStep id (sd_capability_name def) (sd_capability_version def) tref
          (resolve_deps step_ids (sd_depends_on_index def))).

(** [(0..n).map(|_| Uuid::new_v4())]. *)
Definition fresh_ids (n : nat) : oio (list Uuid) := λ w,
  (Ok (map (o_uuid w) (seq (o_next w) n)), set_onext (o_next w + n) w).

(** The insertions of the transaction, one statement each. *)
Fixpoint insert_steps (rows : list (Uuid * StepRow)) (t : gmap Uuid StepRow) :
    oio (gmap Uuid StepRow) :=
  match rows with
  | [] => mret t
  | (id, r) :: rows =>
      odb_call ≫= λ _,
      match t !! id with
      | Some _ => throw (OPg "duplicate key value violates unique constraint")
      | None => insert_steps rows (<[id := r]> t)
      end
  end.

(** [create_plan]. Nothing of the transaction is visible before the commit. *)
Definition create_plan (svc : Service) (created_by : option Uuid) (intent : string)
    (steps : list StepDef) : oio Plan :=
  odb_call ≫= λ _,                                            (** pool.get *)
  odb_call ≫= λ _,                                            (** begin *)
  odb_call ≫= λ _,                                            (** insert the plan *)
  fresh_ids 1 ≫= λ pid,
  gets o_now ≫= λ now,
  let plan_id := hd "" pid in
  let prow := mkPlanRow created_by intent "planning" (JObject []) now now None None in
  gets o_plans ≫= λ plans,
  match plans !! plan_id with
  | Some _ => throw (OPg "duplicate key value violates unique constraint")
  | None =>
      fresh_ids (length steps) ≫= λ step_ids,
      gets o_steps ≫= λ table,
      insert_steps (zip step_ids (imap (step_row plan_id step_ids) steps)) table ≫= λ table',
      odb_write (λ w, set_steps table' (set_plans (<[plan_id := prow]> (o_plans w)) w))
        ≫= λ _,                                               (** commit *)
      match svc_graph svc with
      | None => mret tt
      | Some persist =>
          let gp := mkGraphPlan plan_id intent now
                      (omap id (imap (graph_step step_ids) steps)) in
          match persist gp with
          | Ok _ => modify (λ w, set_graph (o_graph w ++ [gp]) w)
          | Err _ => mret tt
          end
      end ≫= λ _,
      mret (row_to_plan plan_id prow)
  end.

(** ** Reading *)

Definition newer_plan (x y : Uuid * PlanRow) : Prop := pr_created_at y.2 ≤ pr_created_at x.2.
#[export] Instance newer_plan_dec : RelDecision newer_plan.
Proof. intros x y. unfold newer_plan. apply _. Defined.

Definition step_before (x y : Uuid * StepRow) : Prop := sr_step_index x.2 ≤ sr_step_index y.2.
#[export] Instance step_before_dec : RelDecision step_before.
Proof. intros x y. unfold step_before. apply _. Defined.

(** [list_plans], [get_plan], [list_steps]. *)
Definition list_plans (limit : Z) : oio (list Plan) :=
  odb_call ≫= λ _,
  gets o_plans ≫= λ t,
  mret (map (λ x, row_to_plan x.1 x.2)
          (take (Z.to_nat limit) (merge_sort newer_plan (map_to_list t)))).

Definition get_plan (id : Uuid) : oio (option Plan) :=
  odb_call ≫= λ _, gets o_plans ≫= λ t, mret (row_to_plan id <$> t !! id).

Definition steps_of (plan_id : Uuid) (t : gmap Uuid StepRow) : list Step :=
  map (λ x, row_to_step x.1 x.2)
    (merge_sort step_before
       (List.filter (λ x, string_eqb (sr_plan_id x.2) plan_id) (map_to_list t))).

Definition list_steps (plan_id : Uuid) : oio (list Step) :=
  odb_call ≫= λ _, gets o_steps ≫= λ t, mret (steps_of plan_id t).
(** ** Dispatching a step *)

(** [dispatcher.dispatch(..)], logged. *)
Definition bus_call (c : call) : io oworld DispatchError json := λ w,
  let '(r, x) := disp_call (call_from c) (call_capability c) (call_req c) (call_body c)
                   STEP_DISPATCH_TIMEOUT (o_bus w) in
  (r, set_bus_log x (o_log w ++ [c]) w).

(** [reply.get(success).and_then(as_bool) == Some(false)]. *)
Definition reports_failure (reply : json) : bool :=
  match jget reply "success" ≫= as_bool with Some false => true | _ => false end.

(** The call [dispatch_step] makes, when its version and target are there. *)
Definition forward_call (step : Step) : result OError call :=
  match req_parse (st_capability_version step) with
  | Err e => Err (ODispatch ("bad capability_version `" +:+ st_capability_version step +:+
                             "` for step " +:+ st_id step +:+ ": " +:+ e))
  | Ok req =>
      match st_target_ref step with
      | None => Err (ODispatch ("step " +:+ st_id step +:+ " has no target_ref"))
      | Some target_ref =>
          Ok (mkCall ("orchestrator:" +:+ st_plan_id step +:+ ":" +:+ st_id step)
                (st_capability_name step) req
                (capability_body (st_capability_name step) target_ref (st_params step)))
      end
  end.

(** [dispatch_step]. *)
Definition dispatch_step (step : Step) : oio json :=
  lift (forward_call step) ≫= λ c,
  io_map_err (λ e, ODispatch (show_dispatch_error e)) (bus_call c) ≫= λ reply,
  if reports_failure reply then
    throw (ODispatch ("step " +:+ st_id step +:+ " capability `" +:+ st_capability_name step +:+
           "` failed: " +:+
           default "capability reported failure" (jget reply "error" ≫= as_str)))
  else mret reply.

(** [set_step_status]: a missing row is not an error. *)
Definition step_update (status : StepStatus) (result : option json) (set_started : bool)
    (now : Z) (r : StepRow) : StepRow :=
  let started := if set_started then Some (default now (sr_started_at r)) else sr_started_at r in
  let res := if set_started then sr_result r else Some (default JNull result) in
  let finished :=
    if set_started then sr_finished_at r
    else match status with
         | SSucceeded | SFailed | SCompensated => Some now
         | _ => sr_finished_at r
         end in
  {| sr_plan_id := sr_plan_id r; sr_step_index := sr_step_index r;
     sr_capability_name := sr_capability_name r;
     sr_capability_version := sr_capability_version r;
     sr_target_ref := sr_target_ref r; sr_credential_ref := sr_credential_ref r;
     sr_params := sr_params r; sr_depends_on := sr_depends_on r;
     sr_compensating_step_id := sr_compensating_step_id r;
     sr_status := step_status_as_str status; sr_result := res;
     sr_started_at := started; sr_finished_at := finished |}.

Definition set_step_status (id : Uuid) (status : StepStatus) (result : option json)
    (set_started : bool) : oio unit :=
  odb_write (λ w,
    set_steps (alter (step_update status result set_started (o_now w)) id (o_steps w)) w).

(** [finish_plan]: [query_one] fails when the plan is gone; the memory capture
    is best effort. *)
Definition finish_plan (svc : Service) (plan_id : Uuid) (status : PlanStatus) : oio unit :=
  gets o_now ≫= λ now,
  gets o_plans ≫= λ plans,
  match plans !! plan_id with
  | None =>
      odb_call ≫= λ _, throw (OPg "query returned an unexpected number of rows")
  | Some r =>
      odb_write (set_plans (<[plan_id :=
        mkPlanRow (pr_created_by r) (pr_intent r) (plan_status_as_str status) (pr_metadata r)
          (pr_created_at r) now (pr_started_at r) (Some now)]> plans)) ≫= λ _,
      match svc_memory svc, terminal_record status plan_id (pr_intent r) with
      | Some capture, Some record =>
          match capture record with
          | Ok _ => modify (λ w, set_memory (o_memory w ++ [record]) w)
          | Err _ => mret tt
          end
      | _, _ => mret tt
      end
  end.

(** ** Compensation *)

(** [compensator_for]. *)
Definition compensator_for (r : CapabilityRegistry) (capability_name : string) :
    option CompensatingCapability :=
  any ← ok (req_parse "*");
  entry ← ok (require_by_capability capability_name any r);
  cap ← find (λ c, string_eqb (cap_name c) capability_name) (re_capabilities entry);
  cap_compensating cap.

(** [.parse().expect(..)] of the star requirement panics when it does not parse,
    which {!SemVerLaws} excludes; the model reports it as an error. *)
Definition compensating_req (comp : CompensatingCapability) : result OError version_req :=
  match comp_version_req comp with
  | Some s => map_err (λ e, ODispatch ("bad compensating version_req `" +:+ s +:+ "`: " +:+ e))
                (req_parse s)
  | None => map_err OOther (req_parse "*")
  end.

Definition compensating_call (step : Step) (comp : CompensatingCapability) :
    result OError call :=
  comp_req ← compensating_req comp;
  match st_target_ref step with
  | None => Err (ODispatch ("step " +:+ st_id step +:+ " has no target_ref"))
  | Some target_ref =>
      let params := compensation_params (st_params step) (st_result step) in
      Ok (mkCall ("orchestrator:" +:+ st_plan_id step +:+ ":" +:+ st_id step +:+ ":compensate")
            (comp_name comp) comp_req (capability_body (comp_name comp) target_ref params))
  end.

(** [dispatch_compensator]. *)
Definition dispatch_compensator (step : Step) : oio (option json) :=
  gets (λ w, disp_registry (o_bus w)) ≫= λ reg,
  match compensator_for reg (st_capability_name step) with
  | None => mret None
  | Some comp =>
      lift (compensating_call step comp) ≫= λ c,
      io_map_err (λ e, ODispatch (show_dispatch_error e)) (bus_call c) ≫= λ reply,
      mret (Some reply)
  end.

(** [compensate_step]. *)
Definition compensate_step (step : Step) : oio bool :=
  dispatch_compensator step ≫= λ o,
  match o with
  | Some reply =>
      set_step_status (st_id step) SCompensated (Some reply) false ≫= λ _, mret true
  | None => mret false
  end.

(** ** Running a plan *)

Definition with_status (s : StepStatus) (st : Step) : Step :=
  mkStep (st_id st) (st_plan_id st) (st_step_index st) (st_capability_name st)
    (st_capability_version st) (st_target_ref st) (st_credential_ref st) (st_params st)
    (st_depends_on st) (st_compensating_step_id st) s (st_result st) (st_started_at st)
    (st_finished_at st).

Definition with_result (s : StepStatus) (r : json) (st : Step) : Step :=
  mkStep (st_id st) (st_plan_id st) (st_step_index st) (st_capability_name st)
    (st_capability_version st) (st_target_ref st) (st_credential_ref st) (st_params st)
    (st_depends_on st) (st_compensating_step_id st) s (Some r) (st_started_at st)
    (st_finished_at st).

Definition is_pending (s : Step) : bool := bool_decide (st_status s = SPending).

(** Pending, and every dependency done. *)
Definition runnable (done : gset Uuid) (s : Step) : bool :=
  is_pending s && forallb (λ d, bool_decide (d ∈ done)) (st_depends_on s).

Definition unfinished (s : Step) : bool :=
  match st_status s with SPending | SRunning => true | _ => false end.

(** The main loop. The result is the steps, the indices that succeeded in the
    order they ran, and whether the run failed; [None] when out of fuel. *)
Fixpoint exec_loop (fuel : nat) (steps : list Step) (done : gset Uuid) (order : list nat)
    (w : oworld) : option (result OError (list Step * list nat * bool) * oworld) :=
  match fuel with
  | O => None
  | S fuel =>
      match position (runnable done) steps with
      | None => Some (Ok (steps, order, existsb unfinished steps), w)
      | Some idx =>
          match steps !! idx with
          | None => None
          | Some step =>
              match set_step_status (st_id step) SRunning None true w with
              | (Err e, w1) => Some (Err e, w1)
              | (Ok _, w1) =>
                  match dispatch_step step w1 with
                  | (Ok result, w2) =>
                      match set_step_status (st_id step) SSucceeded (Some result) false w2 with
                      | (Err e, w3) => Some (Err e, w3)
                      | (Ok _, w3) =>
                          exec_loop fuel (<[idx := with_result SSucceeded result step]> steps)
                            ({[st_id step]} ∪ done) (order ++ [idx]) w3
                      end
                  | (Err e, w2) =>
                      let err_json := jobj [("error", JString (show_oerror e))] in
                      match set_step_status (st_id step) SFailed (Some err_json) false w2 with
                      | (Err e, w3) => Some (Err e, w3)
                      | (Ok _, w3) =>
                          Some (Ok (<[idx := with_status SFailed step]> steps, order, true), w3)
                      end
                  end
              end
          end
      end
  end.

(** The saga pass: [succeeded_order] in reverse; a failed compensation does not
    stop it. *)
Fixpoint compensate_all (idxs : list nat) (steps : list Step) (w : oworld) :
    list Step * oworld :=
  match idxs with
  | [] => (steps, w)
  | idx :: idxs =>
      match steps !! idx with
      | None => (steps, w)
      | Some step =>
          match compensate_step step w with
          | (Ok true, w1) =>
              compensate_all idxs (<[idx := with_status SCompensated step]> steps) w1
          | (_, w1) => compensate_all idxs steps w1
          end
      end
  end.

(** [run_plan] from the point where the steps are loaded: an empty plan
    succeeds; otherwise the loop, the saga pass when it failed, and the terminal
    write. {!exec_loop_total} shows the fuel never runs out. *)
Definition run_steps (svc : Service) (plan_id : Uuid) (steps : list Step) : oio PlanStatus :=
  match steps with
  | [] => finish_plan svc plan_id PSucceeded ≫= λ _, mret PSucceeded
  | _ =>
      (λ w, default (Err (OOther "run_plan: out of fuel"), w)
              (exec_loop (S (length steps)) steps ∅ [] w)) ≫= λ res,
      let '(steps, order, failed) := res in
      (if failed : bool
       then (λ w, (Ok tt, (compensate_all (rev order) steps w).2))
       else mret tt) ≫= λ _,
      let final := if failed : bool then PFailed else PSucceeded in
      finish_plan svc plan_id final ≫= λ _,
      mret final
  end.

(** [run_plan]. *)
Definition run_plan (svc : Service) (plan_id : Uuid) : oio PlanStatus :=
  gets o_now ≫= λ now,
  odb_write (λ w, set_plans (alter (λ r, mkPlanRow (pr_created_by r) (pr_intent r) "executing"
      (pr_metadata r) (pr_created_at r) now (Some (default now (pr_started_at r)))
      (pr_finished_at r)) plan_id (o_plans w)) w) ≫= λ _,
  list_steps plan_id ≫= λ steps,
  run_steps svc plan_id steps.

(** ** Plans from an intent *)

(** The cleaning of the model's answer. *)
Definition strip_fences (text : string) : string :=
  trim (trim_end_matches "```"
    (trim_start_matches "```" (trim_start_matches "```json" (trim text)))).

(** [plan_from_intent]: the language model and the JSON reader are parameters;
    the step definitions the reader yields are persisted as they are. *)
Definition plan_from_intent (svc : Service) (created_by : option Uuid) (intent catalog : string)
    (llm : string → result string string)
    (read_plan : string → result string (list StepDef)) : oio Plan :=
  let nl := String "010"%char EmptyString in
  let prompt := "CAPABILITY CATALOG" +:+ nl +:+ catalog +:+ nl +:+ nl +:+ "INTENT" +:+ nl +:+
                intent +:+ nl +:+ nl +:+ "Return the JSON plan." in
  lift (map_err (λ e, ODispatch ("llm: " +:+ e)) (llm prompt)) ≫= λ text,
  let cleaned := strip_fences text in
  lift (map_err (λ e, ODecode ("LLM plan JSON: " +:+ e +:+ " (body: " +:+ cleaned +:+ ")"))
          (read_plan cleaned)) ≫= λ steps,
  create_plan svc created_by intent steps.
End Orchestrator.
