(* ===== verification/Triage.v ===== *)
(** * daimon-triage: from anomaly to plan ([daimon-triage/src/lib.rs])

    The agent that turns an anomaly on the bus into a plan without steps and an
    incident record. It uses the orchestrator and the memory tier; its own state is
    the time each signature was last let in. *)

From S2P Require Import Prelude RustStd Json Core KillSwitch Policy Approvals Guard.
From S2P Require Import Gateway Channels Observer Runtime Memory Orchestrator.
From Stdlib Require Import ZArith Ascii SpecFloat.

Local Open Scope Z_scope.

Definition DEDUPE_TTL : Z := 600000.

Section Triage.
Context `{SemVer} `{HashOrder RegistryEntry} {X : Type} `{!BusDispatcher X}.
Context `{F64Text} `{UuidParse} {T M : Type} `{!MemoryService T M}.
(** serde's message for a body that is not an anomaly. *)
Context (serde_error : json → string).
Abbreviation ow := (@oworld _ X).

(** [TriageAgent]; the dispatcher it holds is not used. *)
Record TriageAgent := mkTriage {
  ta_id : AgentId;
  ta_caps : list Capability;
  ta_orchestrator : Service;
  ta_memory : T;
  ta_dedupe_ttl : Z;
}.

Definition triage_new (orchestrator : Service) (memory : T) : TriageAgent :=
  mkTriage "agent:triage" [read_only TRIAGE_CAPABILITY (version_new 1 0 0)] orchestrator memory
    DEDUPE_TTL.

Definition with_dedupe_ttl (ttl : Z) (a : TriageAgent) : TriageAgent :=
  mkTriage (ta_id a) (ta_caps a) (ta_orchestrator a) (ta_memory a) ttl.

(** The orchestrator's tables, the memory, the signatures and the clock. *)
Record tworld := mkTworld {
  tw_orch : ow;
  tw_mem : M;
  tw_seen : gmap (string * string) Z;
  tw_now : Z;
}.
Abbreviation tio := (io tworld CoreError).

Definition set_orch x w := mkTworld x (tw_mem w) (tw_seen w) (tw_now w).
Definition set_mem x w := mkTworld (tw_orch w) x (tw_seen w) (tw_now w).
Definition set_seen x w := mkTworld (tw_orch w) (tw_mem w) x (tw_now w).

(** The method [admit]: whether the signature is fresh. *)
Definition let_in (a : TriageAgent) (source_id metric_name : string) : tio bool := λ w,
  let key := (source_id, metric_name) in
  match tw_seen w !! key with
  | Some prev =>
      if tw_now w - prev <? ta_dedupe_ttl a then (Ok false, w)
      else (Ok true, set_seen (<[key := tw_now w]> (tw_seen w)) w)
  | None => (Ok true, set_seen (<[key := tw_now w]> (tw_seen w)) w)
  end.

Definition triage_intent (a : AnomalyEvent) : string :=
  "triage: " +:+ ae_title a +:+ " (" +:+ ae_metric_name a +:+ " = " +:+
  f64_display (ae_metric_value a) +:+ " > " +:+ f64_display (ae_threshold a) +:+ ")".

(** The dash of the impact line: U+2014. *)
Definition dash : string := utf8 [226; 128; 148]%N.

Definition incident_record (a : AnomalyEvent) (plan_id : Uuid) : TypedRecord :=
  let impact := ae_title a +:+ " on " +:+ ae_source_id a +:+ " " +:+ dash +:+ " " +:+
    ae_metric_name a +:+ " = " +:+ f64_display (ae_metric_value a) +:+
    " (breached threshold " +:+ f64_display (ae_threshold a) +:+ ")" in
  mkRecord (RecIncident ("anomaly: " +:+ ae_title a) impact
              ("triage plan " +:+ plan_id +:+ " created (pending operator)")) None.

(** Best effort. *)
Definition capture_incident (a : TriageAgent) (anomaly : AnomalyEvent) (plan_id : Uuid) : tio unit :=
  attempt (zoom tw_mem set_mem (capture (ta_memory a) (incident_record anomaly plan_id))) ≫= λ _,
  mret tt.

(** [Agent::handle]. *)
Definition triage_handle (a : TriageAgent) (env : AgentEnvelope) : tio unit :=
  lift (ok_or (decode_event (env_body env)) (Serde (serde_error (env_body env)))) ≫= λ anomaly,
  let_in a (ae_source_id anomaly) (ae_metric_name anomaly) ≫= λ fresh,
  if negb fresh then mret tt
  else
    attempt (zoom tw_orch set_orch
      (create_plan (ta_orchestrator a) None (triage_intent anomaly) [])) ≫= λ r,
    match r with
    | Err _ => mret tt
    | Ok plan => capture_incident a anomaly (pl_id plan)
    end.

(** ** Triage opens plans and runs none *)

(** Nothing was dispatched and no step touched; at most one plan was added, without
    steps, waiting, with this intent. *)
Definition opens (intent : string) (w w' : ow) : Prop :=
  o_log w' = o_log w ∧ o_bus w' = o_bus w ∧ o_steps w' = o_steps w ∧
  (o_plans w' = o_plans w ∨
   ∃ id row, o_plans w !! id = None ∧ o_plans w' = <[id := row]> (o_plans w) ∧
     pr_intent row = intent ∧ pr_status row = "planning" ∧ pr_started_at row = None).

Definition idle (w w' : ow) : Prop :=
  o_log w' = o_log w ∧ o_bus w' = o_bus w ∧ o_steps w' = o_steps w ∧ o_plans w' = o_plans w.

Lemma idle_opens intent w w' : idle w w' → opens intent w w'.
Proof. intros (Hl & Hb & Hs & Hp). repeat split; auto. Qed.

Lemma opens_after intent w w1 w2 : idle w w1 → opens intent w1 w2 → opens intent w w2.
Proof.
  intros (Hl & Hb & Hs & Hp) (Hl' & Hb' & Hs' & Hp'). rewrite Hp in Hp'.
  repeat split; congruence || done.
Qed.

Lemma odb_call_idle w : idle w (odb_call w).2.
Proof. unfold odb_call, odb_write. by destruct (o_faults w) as [|[]]. Qed.

(** A database call first: it fails, or the rest runs. *)
Lemma opens_db {A} intent (f : unit → io ow OError A) w :
  (∀ w, opens intent w (f tt w).2) → opens intent w ((odb_call ≫= f) w).2.
Proof.
  intros Hf. pose proof (odb_call_idle w) as Hi. unfold mbind, io_bind.
  destruct (odb_call w) as [[[]|e] w1]; simpl in Hi; [|by apply idle_opens].
  by eapply opens_after.
Qed.

Lemma create_empty_opens svc intent (w : ow) :
  opens intent w (create_plan svc None intent [] w).2.
Proof.
  unfold create_plan. do 3 (apply opens_db; clear w; intros w).
  unfold mbind, io_bind, fresh_ids, gets. simpl.
  destruct (o_plans w !! o_uuid w (o_next w)) eqn:Hid; [by apply idle_opens|].
  eapply opens_after; [by instantiate (1 := set_onext (o_next w + 1 + 0) (set_onext (o_next w + 1) w))|].
  set (w1 := set_onext _ _). unfold odb_write, modify.
  destruct (o_faults w1) as [|[]]; try (by apply idle_opens); simpl;
    try (destruct (svc_graph svc) as [persist|]; [destruct (persist _)|]); simpl;
    (repeat split); right; (do 2 eexists; split; [exact Hid|]); by split.
Qed.

Lemma let_in_orch a s m w :
  tw_orch (let_in a s m w).2 = tw_orch w ∧ tw_now (let_in a s m w).2 = tw_now w.
Proof. unfold let_in. destruct (tw_seen w !! _); [destruct (_ <? _)|]; done. Qed.

Lemma triage_handle_opens a env w :
  let w' := (triage_handle a env w).2 in
  match decode_event (env_body env) with
  | None => w' = w
  | Some anomaly => opens (triage_intent anomaly) (tw_orch w) (tw_orch w')
  end.
Proof.
  simpl. unfold triage_handle, lift. destruct (decode_event (env_body env)) as [anomaly|]; [|done].
  unfold mbind at 1, io_bind at 1. simpl. unfold mbind at 1, io_bind at 1.
  pose proof (let_in_orch a (ae_source_id anomaly) (ae_metric_name anomaly) w) as [Ho _].
  destruct (let_in a _ _ w) as [[[]|e] w1]; simpl in *; rewrite <- Ho; try by apply idle_opens.
  unfold mbind, io_bind, attempt, zoom.
  pose proof (create_empty_opens (ta_orchestrator a) (triage_intent anomaly) (tw_orch w1)) as Hc.
  destruct (create_plan _ _ _ _ (tw_orch w1)) as [[plan|e] o]; simpl in *; [|done].
  unfold capture_incident, mbind, io_bind, attempt, zoom. by destruct (capture _ _ _).
Qed.

(** Whatever arrives and whatever fails, handling an envelope dispatches nothing on
    the bus, touches no step and no existing plan, and opens at most one plan: an
    empty one, waiting, that names the anomaly. *)
Theorem triage_never_runs a env w :
  let w' := (triage_handle a env w).2 in
  match decode_event (env_body env) with
  | None => w' = w
  | Some anomaly => opens (triage_intent anomaly) (tw_orch w) (tw_orch w')
  end.
Proof. apply triage_handle_opens. Qed.

(** ** One plan per signature and window *)

Definition at_time (t : Z) (w : tworld) : tworld := mkTworld (tw_orch w) (tw_mem w) (tw_seen w) t.

(** Envelopes handled one after the other, each at its time. *)
Fixpoint triage_run (a : TriageAgent) (l : list (Z * AgentEnvelope)) (w : tworld) : tworld :=
  match l with
  | [] => w
  | (t, env) :: l => triage_run a l (triage_handle a env (at_time t w)).2
  end.

Definition signature (env : AgentEnvelope) : option (string * string) :=
  (λ a, (ae_source_id a, ae_metric_name a)) <$> decode_event (env_body env).

(** A signature seen within the window is swallowed. *)
Lemma triage_handle_seen a env w sig prev :
  signature env = Some sig → tw_seen w !! sig = Some prev → tw_now w - prev < ta_dedupe_ttl a →
  triage_handle a env w = (Ok tt, w).
Proof.
  unfold signature, triage_handle, lift. destruct (decode_event (env_body env)) as [x|]; [|done].
  intros [= <-] Hp Ht. unfold mbind at 1, io_bind at 1. simpl. unfold mbind at 1, io_bind at 1.
  unfold let_in at 1. by rewrite Hp, (proj2 (Z.ltb_lt _ _) Ht).
Qed.

(** Otherwise it is remembered. *)
Lemma triage_handle_remembers a env w sig :
  signature env = Some sig →
  (∀ prev, tw_seen w !! sig = Some prev → ta_dedupe_ttl a ≤ tw_now w - prev) →
  tw_seen (triage_handle a env w).2 !! sig = Some (tw_now w).
Proof.
  unfold signature, triage_handle, lift. destruct (decode_event (env_body env)) as [x|]; [|done].
  intros [= <-] Hp. unfold mbind at 1, io_bind at 1. simpl. unfold mbind at 1, io_bind at 1.
  set (key := (ae_source_id x, ae_metric_name x)) in *.
  assert (let_in a (ae_source_id x) (ae_metric_name x) w =
          (Ok true, set_seen (<[key := tw_now w]> (tw_seen w)) w)) as ->.
  { unfold let_in. fold key. destruct (tw_seen w !! key) as [prev|]; [|done].
    by rewrite (proj2 (Z.ltb_ge _ _) (Hp prev eq_refl)). }
  simpl. unfold mbind, io_bind, attempt, zoom.
  destruct (create_plan _ _ _ _ _) as [[plan|e] o]; simpl; [|by rewrite lookup_insert_eq].
  unfold capture_incident, mbind, io_bind, attempt, zoom. destruct (capture _ _ _). simpl.
  by rewrite lookup_insert_eq.
Qed.

Lemma opens_size intent w w' :
  opens intent w w' → (size (o_plans w') ≤ S (size (o_plans w)))%nat.
Proof.
  intros (_ & _ & _ & [->|(id & row & Hid & -> & _)]); [lia|]. by rewrite map_size_insert_None.
Qed.

Lemma triage_run_swallows a sig t0 prev l w :
  Forall (λ x, t0 ≤ x.1 < t0 + ta_dedupe_ttl a ∧ signature x.2 = Some sig) l →
  tw_seen w !! sig = Some prev → t0 ≤ prev → tw_orch (triage_run a l w) = tw_orch w.
Proof.
  revert w. induction l as [|[t env] l IH]; intros w Hl Hp Ht; [done|].
  apply Forall_cons in Hl as [[Ht' Hs] Hl]. simpl in *.
  rewrite (triage_handle_seen a env (at_time t w) sig prev); [|done|done|simpl; lia].
  simpl. by rewrite IH.
Qed.

(** However often one breach fires, the agent opens at most one plan for it in any
    window of the length of its TTL. *)
Theorem triage_one_plan_per_window a sig t0 l w :
  Forall (λ x, t0 ≤ x.1 < t0 + ta_dedupe_ttl a ∧ signature x.2 = Some sig) l →
  (size (o_plans (tw_orch (triage_run a l w))) ≤ S (size (o_plans (tw_orch w))))%nat.
Proof.
  revert w. induction l as [|[t env] l IH]; intros w Hl; [simpl; lia|].
  apply Forall_cons in Hl as [[Ht Hs] Hl]. cbn [triage_run fst snd] in *.
  assert ((∃ prev, tw_seen w !! sig = Some prev ∧ t - prev < ta_dedupe_ttl a) ∨
          (∀ prev, tw_seen w !! sig = Some prev → ta_dedupe_ttl a ≤ t - prev))
    as [(prev & Hp & Hlt)|Hno].
  { destruct (tw_seen w !! sig) as [prev|]; [|by right].
    destruct (Z.lt_ge_cases (t - prev) (ta_dedupe_ttl a)); [left; eauto|right; by intros ? [= <-]]. }
  - rewrite (triage_handle_seen a env (at_time t w) sig prev) by done. apply (IH (at_time t w)). done.
  - pose proof (triage_handle_remembers a env (at_time t w) sig Hs Hno) as Hr. simpl in Hr.
    rewrite (triage_run_swallows a sig t0 t) by (done || lia).
    pose proof (triage_handle_opens a env (at_time t w)) as Hn. simpl in Hn.
    unfold signature in Hs. destruct (decode_event (env_body env)); [|done].
    by apply opens_size in Hn.
Qed.

(** ** An anomaly nobody hears of

    The event of an infinite sample carries null for its value: triage fails to
    decode it, and the alert router takes it for something else. *)
Theorem infinite_anomaly_unheard a (an : AnomalyEvent) corr now req (w : tworld) :
  is_finite (ae_metric_value an) = false →
  let env := envelope_new corr now "observer" (ByCapability TRIAGE_CAPABILITY req) (anomaly_json an) in
  (∃ e, triage_handle a env w = (Err (Serde e), w)) ∧ classify env = None.
Proof.
  intros Hf env. pose proof (infinite_event_undecodable an Hf) as Hd. split.
  - eexists. unfold triage_handle, env. simpl. unfold lift, mbind, io_bind. by rewrite Hd.
  - unfold classify, env. simpl. rewrite Hd. unfold classify_approval. simpl.
    destruct (ae_target_ref an); done.
Qed.
End Triage.

(** ** On concrete input *)

Section Witnesses.
Import ObserverDemo MemoryDemo DemoSemVer ChannelsDemo.
#[local] Existing Instance observer_anomalies | 0.

#[local] Instance quiet_bus : BusDispatcher unit := {|
  disp_registry _ := ∅;
  disp_call _ _ _ _ _ := throw DBusClosed;
|}.

Abbreviation any := (Star : @version_req demo_semver).
Abbreviation agent := (triage_new (mkService None None) (mkDmem "http://localhost:7071" "t")).
Abbreviation cpu_event :=
  (mkAnomaly "a0" "prometheus" "node-01:9100" "warning" "CPU saturation > 90%"
     "node.cpu.saturation_pct" (f64_of_Z 99) (f64_of_Z 90) "node_cpu_saturation"
     (Some "target://node-01")).
Abbreviation cpu_envelope :=
  (envelope_new "c" 0 "observer" (ByCapability TRIAGE_CAPABILITY any) (anomaly_json cpu_event)).
Abbreviation quiet := (mkTworld (mkOworld ∅ ∅ [] 0 ids 0 tt [] [] []) tt ∅ 0).
Abbreviation twice := (triage_run shape agent [(0, cpu_envelope); (599999, cpu_envelope)] quiet).

(** The same anomaly twice within ten minutes: one plan. *)
Lemma triage_one_plan_per_window_witness :
  size (o_plans (tw_orch twice)) = 1%nat ∧
  (size (o_plans (tw_orch twice)) ≤ S (size (o_plans (tw_orch quiet))))%nat.
Proof.
  split; [vm_compute; reflexivity|].
  apply (triage_one_plan_per_window shape agent ("node-01:9100", "node.cpu.saturation_pct") 0
    [(0, cpu_envelope); (599999, cpu_envelope)] quiet).
  repeat constructor; vm_compute; congruence.
Defined.

(** A disk that is full to infinity. *)
Lemma infinite_anomaly_unheard_witness :
  classify (envelope_new "c" 0 "observer" (ByCapability TRIAGE_CAPABILITY any)
    (anomaly_json (mkAnomaly "a0" "prometheus" "n" "warning" "Disk usage > 85%" "node.disk.used_pct"
       (S754_infinity false) (f64_of_Z 85) "node_disk_full" None))) = None.
Proof.
  apply (infinite_anomaly_unheard shape agent (mkAnomaly "a0" "prometheus" "n" "warning"
    "Disk usage > 85%" "node.disk.used_pct" (S754_infinity false) (f64_of_Z 85) "node_disk_full" None)
    "c" 0 any quiet eq_refl).
Defined.
End Witnesses.
