(* ===== verification/Saga.v ===== *)
(** * Properties of plan execution

    What [run_plan] guarantees: it terminates, runs steps in dependency order
    and each at most once, stops at the first failure, compensates in reverse,
    and reports success only when everything ran. The main loop is related to
    an inductive relation, one constructor per way an iteration can go, and the
    properties are proved by rule induction on it. *)

From stdpp Require Import sorting.
From S2P Require Import Prelude RustStd Json Core Approvals Runtime Orchestrator.
From Stdlib Require Import ZArith.

Section Saga.
Context `{SemVer} `{HashOrder RegistryEntry} {X : Type} `{!BusDispatcher X}.
Abbreviation ow := (oworld (X := X)).

(** ** What the building blocks do to the log *)

(** What the bus answers to a call, and what a sequence of calls leaves it as. *)
Definition asked (x : X) (c : call) : result DispatchError json * X :=
  disp_call (call_from c) (call_capability c) (call_req c) (call_body c) STEP_DISPATCH_TIMEOUT x.

Definition bus_after (x : X) (l : list call) : X := foldl (λ x c, (asked x c).2) x l.

(** A reply came and does not report failure. *)
Definition accepted (x : X) (c : call) : Prop :=
  ∃ reply, (asked x c).1 = Ok reply ∧ reports_failure reply = false.

(** [w'] is [w] after exactly these calls, as far as the bus is concerned. *)
Definition made (l : list call) (w w' : ow) : Prop :=
  o_log w' = o_log w ++ l ∧ o_bus w' = bus_after (o_bus w) l.

Lemma made_nil w w' : o_log w' = o_log w → o_bus w' = o_bus w → made [] w w'.
Proof. intros Hl Hb. split; [by rewrite app_nil_r|done]. Qed.

Lemma bus_after_app x l l' : bus_after x (l ++ l') = bus_after (bus_after x l) l'.
Proof. apply foldl_app. Qed.

Lemma made_trans l l' w1 w2 w3 : made l w1 w2 → made l' w2 w3 → made (l ++ l') w1 w3.
Proof.
  intros [Hl Hb] [Hl' Hb']. split; [by rewrite Hl', Hl, <- app_assoc|].
  by rewrite Hb', Hb, bus_after_app.
Qed.

Lemma odb_write_made f (w : ow) :
  (∀ w1, made [] w1 (f w1)) → made [] w (odb_write f w).2.
Proof.
  intros Hf. unfold odb_write. destruct (o_faults w) as [|[] ?]; simpl; try by apply made_nil.
  all: refine (made_trans [] [] _ _ _ _ (Hf _)); by apply made_nil.
Qed.

Lemma odb_call_log (w : ow) :
  made [] w (odb_call w).2 ∧
  o_steps (odb_call w).2 = o_steps w ∧ o_plans (odb_call w).2 = o_plans w.
Proof.
  split; [apply odb_write_made; intros; by apply made_nil|].
  unfold odb_call, odb_write. by destruct (o_faults w) as [|[] ?].
Qed.

Lemma set_step_status_log id st res b (w : ow) :
  made [] w (set_step_status id st res b w).2 ∧
  o_plans (set_step_status id st res b w).2 = o_plans w.
Proof.
  unfold set_step_status. split; [apply odb_write_made; intros; by apply made_nil|].
  unfold odb_write. by destruct (o_faults w) as [|[] ?].
Qed.

Lemma bus_call_made c (w : ow) r w' :
  bus_call c w = (r, w') → made [c] w w' ∧ r = (asked (o_bus w) c).1.
Proof.
  unfold bus_call, made, bus_after, asked. destruct (disp_call _ _ _ _ _ (o_bus w)) as [r' x] eqn:Hd.
  intros [= <- <-]. simpl. by rewrite Hd.
Qed.

(** A dispatch makes the step's call, and succeeds when the bus accepts it, or
    fails before reaching the bus. *)
Lemma dispatch_step_made step (w : ow) r w' :
  dispatch_step step w = (r, w') →
  (∃ c, forward_call step = Ok c ∧ made [c] w w' ∧
     (is_ok r = true ↔ accepted (o_bus w) c)) ∨
  (∃ e, forward_call step = Err e ∧ r = Err e ∧ w' = w).
Proof.
  unfold dispatch_step, lift, io_map_err, throw, mbind, io_bind, mret, io_ret.
  destruct (forward_call step) as [c|e]; [|naive_solver].
  destruct (bus_call c w) as [r1 w1] eqn:Hb. apply bus_call_made in Hb as [Hm Hr1].
  intros Hr. left. exists c. split; [done|]. unfold accepted. rewrite <- Hr1.
  destruct r1 as [reply|e]; simpl in Hr; [destruct (reports_failure reply) eqn:Hf|];
    injection Hr as <- <-; (split; [done|]); simpl; naive_solver.
Qed.

(** With no fault pending, a database call succeeds and leaves none. *)
Lemma set_step_status_served id st res b (w : ow) :
  o_faults w = [] →
  ∃ w1, set_step_status id st res b w = (Ok tt, w1) ∧ o_faults w1 = [].
Proof.
  intros Hf. unfold set_step_status, odb_write. rewrite Hf. by eexists.
Qed.

Lemma dispatch_step_faults step (w : ow) r w' :
  dispatch_step step w = (r, w') → o_faults w' = o_faults w.
Proof.
  unfold dispatch_step, lift, io_map_err, bus_call, throw, mbind, io_bind, mret, io_ret.
  destruct (forward_call step); [|naive_solver].
  destruct (disp_call _ _ _ _ _ (o_bus w)) as [[reply|e] x]; simpl; [case_match|];
    intros; by simplify_eq.
Qed.

(** ** The loop as a relation *)

Inductive saga : list Step → gset Uuid → list nat → ow →
    result OError (list Step * list nat * bool) → ow → Prop :=
| saga_stop steps done order w :
    position (runnable done) steps = None →
    saga steps done order w (Ok (steps, order, existsb unfinished steps)) w
| saga_db steps done order w idx step e w' :
    position (runnable done) steps = Some idx → steps !! idx = Some step →
    o_faults w ≠ [] → saga steps done order w (Err e) w'
| saga_fail steps done order w idx step e w1 w2 w3 :
    position (runnable done) steps = Some idx → steps !! idx = Some step →
    set_step_status (st_id step) SRunning None true w = (Ok tt, w1) →
    dispatch_step step w1 = (Err e, w2) →
    set_step_status (st_id step) SFailed (Some (jobj [("error", JString (show_oerror e))]))
      false w2 = (Ok tt, w3) →
    saga steps done order w (Ok (<[idx := with_status SFailed step]> steps, order, true)) w3
| saga_next steps done order w idx step reply w1 w2 w3 r w' :
    position (runnable done) steps = Some idx → steps !! idx = Some step →
    set_step_status (st_id step) SRunning None true w = (Ok tt, w1) →
    dispatch_step step w1 = (Ok reply, w2) →
    set_step_status (st_id step) SSucceeded (Some reply) false w2 = (Ok tt, w3) →
    saga (<[idx := with_result SSucceeded reply step]> steps) ({[st_id step]} ∪ done)
      (order ++ [idx]) w3 r w' →
    saga steps done order w r w'.

Lemma exec_loop_saga fuel steps done order w r w' :
  exec_loop fuel steps done order w = Some (r, w') → saga steps done order w r w'.
Proof.
  revert steps done order w; induction fuel as [|fuel IH]; intros steps done order w; [done|].
  cbn [exec_loop]. destruct (position _ steps) as [idx|] eqn:Hp.
  2: { intros [= <- <-]. by apply saga_stop. }
  destruct (steps !! idx) as [step|] eqn:Hi; [|done].
  destruct (set_step_status _ SRunning _ _ w) as [[[]|e] w1] eqn:H1.
  2: { intros [= <- <-]. apply (saga_db _ _ _ _ idx step); [done..|]. intros Hf.
       destruct (set_step_status_served (st_id step) SRunning None true w Hf) as (? & ? & _).
       congruence. }
  destruct (dispatch_step step w1) as [r2 w2] eqn:H2.
  assert (∀ st res e3 w3, set_step_status (st_id step) st res false w2 = (Err e3, w3) →
    o_faults w ≠ []) as Hfault.
  { intros st res e3 w3 H3 Hf.
    destruct (set_step_status_served (st_id step) SRunning None true w Hf) as (w1' & Hw1 & Hf1).
    rewrite H1 in Hw1. injection Hw1 as <-. apply dispatch_step_faults in H2. rewrite Hf1 in H2.
    destruct (set_step_status_served (st_id step) st res false w2 H2) as (? & ? & _).
    congruence. }
  destruct r2 as [reply|e].
  - destruct (set_step_status _ SSucceeded _ _ w2) as [[[]|e3] w3] eqn:H3.
    + intros Hrest. eapply saga_next; eauto.
    + intros [= <- <-]. eapply saga_db; [done|done|by eapply Hfault].
  - destruct (set_step_status _ SFailed _ _ w2) as [[[]|e3] w3] eqn:H3.
    + intros [= <- <-]. by eapply saga_fail.
    + intros [= <- <-]. eapply saga_db; [done|done|by eapply Hfault].
Qed.

(** ** Termination *)

Definition pending_count (steps : list Step) : nat := length (List.filter is_pending steps).

Lemma pending_count_insert steps idx step step' :
  steps !! idx = Some step → is_pending step = true → is_pending step' = false →
  pending_count steps = S (pending_count (<[idx := step']> steps)).
Proof.
  unfold pending_count. revert idx; induction steps as [|s steps IH]; intros [|idx] Hi Hp Hp';
    simplify_eq/=; [by rewrite Hp, Hp'|].
  destruct (is_pending s); simpl; by erewrite IH.
Qed.

Lemma runnable_pending done s : runnable done s = true → is_pending s = true.
Proof. unfold runnable. by intros [? _]%andb_true_iff. Qed.

Lemma exec_loop_total fuel steps done order w :
  (pending_count steps < fuel)%nat → is_Some (exec_loop fuel steps done order w).
Proof.
  revert steps done order w; induction fuel as [|fuel IH]; intros steps done order w Hf; [lia|].
  cbn [exec_loop]. destruct (position _ steps) as [idx|] eqn:Hp; [|by eexists].
  apply position_Some in Hp as [(step & Hi & Hr) _]. rewrite Hi.
  apply runnable_pending in Hr.
  repeat (case_match; try by eexists).
  apply IH. pose proof (pending_count_insert steps idx step (with_result SSucceeded a0 step) Hi Hr
    eq_refl). lia.
Qed.

Lemma pending_count_le steps : (pending_count steps ≤ length steps)%nat.
Proof. apply List.filter_length_le. Qed.

(** ** Order *)

Definition executed (steps : list Step) (i : nat) (c : call) : Prop :=
  ∃ s, steps !! i = Some s ∧ is_pending s = true ∧ forward_call s = Ok c.

(** Every dependency of the [k]-th executed step was done before: either at the
    start or by an earlier executed step. *)
Definition deps_respected (steps : list Step) (done : gset Uuid) (new : list nat) : Prop :=
  ∀ k i s d, new !! k = Some i → steps !! i = Some s → d ∈ st_depends_on s →
    d ∈ done ∨ ∃ j i' s', (j < k)%nat ∧ new !! j = Some i' ∧ steps !! i' = Some s' ∧ st_id s' = d.

Lemma executed_insert steps idx step reply i c :
  steps !! idx = Some step →
  executed (<[idx := with_result SSucceeded reply step]> steps) i c →
  i ≠ idx ∧ executed steps i c.
Proof.
  intros Hidx (s & Hs & Hp & Hc). rewrite list_lookup_insert in Hs. case_decide as Hcase.
  - destruct Hcase as [-> _]. by simplify_eq.
  - assert (i ≠ idx) as Hne.
    { intros ->. apply Hcase. split; [done|]. by eapply lookup_lt_Some. }
    split; [done|]. by exists s.
Qed.

(** Every call of the sequence is accepted by the bus as it finds it. *)
Fixpoint all_accepted (x : X) (l : list call) : Prop :=
  match l with
  | [] => True
  | c :: l => accepted x c ∧ all_accepted (asked x c).2 l
  end.

(** Nothing that has run carries one of the ids the step waits for. *)
Definition waits (steps : list Step) (done : gset Uuid) (new : list nat) (s : Step) : Prop :=
  ∃ d, d ∈ st_depends_on s ∧ d ∉ done ∧
    ∀ i s', i ∈ new → steps !! i = Some s' → st_id s' ≠ d.

(** How a failed run ends after the steps of [new] ran, with what it still
    dispatches on a bus in state [x]: a pending step whose dependencies have all
    run fails, because its call is not accepted or because it has no call, or
    some step is left and every pending one waits. *)
Inductive ending (x : X) (steps : list Step) (done : gset Uuid) (new : list nat) :
    list call → Prop :=
| end_refused j s c :
    steps !! j = Some s → is_pending s = true → j ∉ new →
    deps_respected steps done (new ++ [j]) →
    forward_call s = Ok c → ¬ accepted x c → ending x steps done new [c]
| end_no_call j s e :
    steps !! j = Some s → is_pending s = true → j ∉ new →
    deps_respected steps done (new ++ [j]) →
    forward_call s = Err e → ending x steps done new []
| end_stuck j s :
    steps !! j = Some s → unfinished s = true → j ∉ new →
    (∀ i s, steps !! i = Some s → is_pending s = true → i ∉ new → waits steps done new s) →
    ending x steps done new [].

(** The order in which the loop runs the steps, and the calls it makes. *)
Record run_order (steps : list Step) (done : gset Uuid) (order order' : list nat)
    (w w' : ow) (failed : bool) (new : list nat) : Prop := {
  ro_order : order' = order ++ new;
  ro_nodup : NoDup new;
  ro_deps : deps_respected steps done new;
  ro_calls : ∃ calls extra, Forall2 (executed steps) new calls ∧
      made (calls ++ extra) w w' ∧ all_accepted (o_bus w) calls ∧
      (failed = false → extra = []) ∧
      (failed = true → ending (bus_after (o_bus w) calls) steps done new extra);
}.

Lemma runnable_deps done step d :
  runnable done step = true → d ∈ st_depends_on step → d ∈ done.
Proof.
  unfold runnable. intros [_ Hall]%andb_true_iff Hd. rewrite forallb_elem in Hall.
  by apply Hall, bool_decide_eq_true in Hd.
Qed.

Lemma deps_respected_cons steps done idx step reply new :
  steps !! idx = Some step → runnable done step = true →
  Forall (λ i, i ≠ idx) new →
  deps_respected (<[idx := with_result SSucceeded reply step]> steps)
    ({[st_id step]} ∪ done) new →
  deps_respected steps done (idx :: new).
Proof.
  intros Hidx Hrun Hne Hd [|k] i s d Hk Hs Hdep; simplify_eq/=.
  - left. by eapply runnable_deps.
  - assert (i ≠ idx) as Hi by (rewrite Forall_lookup in Hne; by eapply Hne).
    destruct (Hd k i s d Hk) as [Hin|(j & i' & s' & Hj & Hn & Hs' & Hid)]; [|done| |].
    + by rewrite list_lookup_insert_ne.
    + apply elem_of_union in Hin as [->%elem_of_singleton|Hin]; [|by left].
      right. exists 0%nat, idx, step. split; [lia|done].
    + right. exists (S j), i', s'. assert (i' ≠ idx) by (rewrite Forall_lookup in Hne; by eapply Hne).
      rewrite list_lookup_insert_ne in Hs' by done. split; [lia|done].
Qed.

(** The step picked now respects the order. *)
Lemma deps_respected_one steps done idx step :
  steps !! idx = Some step → runnable done step = true → deps_respected steps done [idx].
Proof.
  intros Hi Hr [|k] i s d Hk Hs Hd; simplify_eq/=. left. by eapply runnable_deps.
Qed.

Lemma forallb_false {A} (p : A → bool) l : forallb p l = false → ∃ a, a ∈ l ∧ p a = false.
Proof.
  induction l as [|a l IH]; [done|]. simpl. destruct (p a) eqn:Ha.
  - intros (b & Hb & Hp)%IH. exists b. split; [by right|done].
  - intros _. exists a. split; [left|done].
Qed.

(** No step is runnable: those left wait. *)
Lemma ending_stuck x steps done :
  position (runnable done) steps = None → existsb unfinished steps = true →
  ending x steps done [] [].
Proof.
  intros Hp (s & [i Hi]%list_elem_of_lookup_1 & Hu)%existsb_elem.
  apply (end_stuck _ _ _ _ i s); [done..|set_solver|]. clear s i Hi Hu.
  intros i s Hi Hps _. rewrite position_None in Hp.
  specialize (Hp s (list_elem_of_lookup_2 _ _ _ Hi)). unfold runnable in Hp.
  rewrite Hps in Hp. simpl in Hp. apply forallb_false in Hp as (d & Hd & Hn).
  apply bool_decide_eq_false in Hn. exists d. split; [done|]. split; [done|]. set_solver.
Qed.

(** An ending after the rest of the run is an ending after the whole run. *)
Lemma ending_cons x steps done idx step reply new extra :
  steps !! idx = Some step → runnable done step = true →
  Forall (λ i, i ≠ idx) new →
  ending x (<[idx := with_result SSucceeded reply step]> steps) ({[st_id step]} ∪ done) new extra →
  ending x steps done (idx :: new) extra.
Proof.
  intros Hidx Hrun Hne He.
  assert (∀ j s, <[idx := with_result SSucceeded reply step]> steps !! j = Some s →
    unfinished s = true → j ≠ idx ∧ steps !! j = Some s) as Hback.
  { intros j s Hj Hu. destruct (decide (j = idx)) as [->|Hj'].
    - rewrite list_lookup_insert_eq in Hj by (by eapply lookup_lt_Some). by simplify_eq.
    - by rewrite list_lookup_insert_ne in Hj. }
  assert (∀ s, is_pending s = true → unfinished s = true) as Hpu.
  { intros s Hp. apply bool_decide_eq_true in Hp. unfold unfinished. by rewrite Hp. }
  destruct He as [j s c Hj Hp Hn Hd Hf Ha|j s e Hj Hp Hn Hd Hf|j s Hj Hu Hn Hw].
  1,2: destruct (Hback j s Hj (Hpu s Hp)) as [Hji Hj0];
    assert (deps_respected steps done (idx :: new ++ [j])) as Hd' by
      (eapply deps_respected_cons; [done..| |done]; apply Forall_app; by split; [|constructor]).
  - eapply (end_refused _ _ _ _ j s); [done..|set_solver|done|done|done].
  - eapply (end_no_call _ _ _ _ j s); [done..|set_solver|done|done].
  - destruct (Hback j s Hj Hu) as [Hji Hj0]. apply (end_stuck _ _ _ _ j s); [done..|set_solver|].
    intros i s1 Hi Hp1 Hn1. assert (i ≠ idx) by set_solver.
    destruct (Hw i s1) as (d & Hdep & Hnd & Hids); [by rewrite list_lookup_insert_ne|done|set_solver|].
    exists d. split; [done|]. split; [set_solver|]. intros i' s' [->|Hi']%elem_of_cons Hs'.
    + rewrite Hidx in Hs'. simplify_eq. set_solver.
    + apply (Hids i' s' Hi'). rewrite Forall_forall in Hne.
      rewrite list_lookup_insert_ne; [done|]. intros ->. by apply (Hne i').
Qed.

Lemma saga_order steps done order w r w' :
  saga steps done order w r w' →
  ∀ steps' order' failed, r = Ok (steps', order', failed) →
  ∃ new, run_order steps done order order' w w' failed new.
Proof.
  induction 1 as [steps done order w Hp| |steps done order w idx step e w1 w2 w3 Hp Hi H1 H2 H3
    |steps done order w idx step reply w1 w2 w3 r w' Hp Hi H1 H2 H3 Hs IH];
    intros steps' order' failed Heq; simplify_eq.
  - exists []. split; [by rewrite app_nil_r|constructor|by intros k|].
    exists [], []. split; [constructor|]. split; [by apply made_nil|]. do 2 (split; [done|]).
    intros Hu. by apply ending_stuck.
  - pose proof (set_step_status_log (st_id step) SRunning None true w) as [Hm1 _].
    rewrite H1 in Hm1. simpl in Hm1.
    pose proof (set_step_status_log (st_id step) SFailed
      (Some (jobj [("error", JString (show_oerror e))])) false w2) as [Hm3 _].
    rewrite H3 in Hm3. simpl in Hm3.
    apply position_Some in Hp as [(step' & Hi' & Hrun) _].
    rewrite Hi in Hi'. injection Hi' as <-.
    exists []. split; [by rewrite app_nil_r|constructor|by intros k|].
    destruct (dispatch_step_made _ _ _ _ H2) as [(c & Hc & Hm & Ha)|(e' & Hc & _ & ->)].
    + exists [], [c]. split; [constructor|].
      split; [exact (made_trans [] [c] _ _ _ Hm1 (made_trans [c] [] _ _ _ Hm Hm3))|].
      do 2 (split; [done|]). intros _. simpl.
      apply (end_refused _ _ _ _ idx step); [done|by eapply runnable_pending|set_solver| |done|].
      * by eapply deps_respected_one.
      * intros Hacc. destruct Hm1 as [_ Hb]. simpl in Hb. rewrite <- Hb in Hacc. by apply Ha in Hacc.
    + exists [], []. split; [constructor|].
      split; [exact (made_trans [] [] _ _ _ Hm1 Hm3)|]. do 2 (split; [done|]). intros _.
      eapply (end_no_call _ _ _ _ idx step); [done|by eapply runnable_pending|set_solver| |done].
      by eapply deps_respected_one.
  - destruct (IH steps' order' failed eq_refl)
      as (new & [Ho Hn Hd (calls & extra & Hf & Hm & Hacc & Hx & He)]).
    pose proof (set_step_status_log (st_id step) SRunning None true w) as [Hm1 _].
    rewrite H1 in Hm1. simpl in Hm1.
    pose proof (set_step_status_log (st_id step) SSucceeded (Some reply) false w2) as [Hm3 _].
    rewrite H3 in Hm3. simpl in Hm3.
    apply position_Some in Hp as [(step' & Hi' & Hrun) _].
    rewrite Hi in Hi'. injection Hi' as <-.
    destruct (dispatch_step_made _ _ _ _ H2) as [(c & Hc & Hm2 & Ha)|(e' & _ & ? & _)]; [|done].
    pose proof (made_trans [] [c] _ _ _ Hm1 (made_trans [c] [] _ _ _ Hm2 Hm3)) as Hm03.
    destruct Hm1 as [_ Hb1]. simpl in Hb1.
    assert (accepted (o_bus w) c) as Hac by (rewrite <- Hb1; by apply Ha).
    assert (o_bus w3 = (asked (o_bus w) c).2) as Hb3 by apply Hm03.
    assert (Forall (λ i, i ≠ idx) new) as Hne.
    { apply Forall_lookup. intros k i Hk. eapply Forall2_lookup_l in Hf as (c' & _ & Hx'); [|done].
      by eapply executed_insert in Hx' as [? _]. }
    exists (idx :: new). split.
    + by rewrite Ho, <- app_assoc.
    + constructor; [|done]. intros Hin. rewrite Forall_forall in Hne. by eapply Hne.
    + by eapply deps_respected_cons.
    + exists (c :: calls), extra. split; [|split; [|split; [|split; [done|]]]].
      * constructor; [by exists step; repeat split; [|eapply runnable_pending|]|].
        eapply Forall2_impl; [done|]. intros i c' Hx'. by eapply executed_insert in Hx' as [_ ?].
      * exact (made_trans [c] (calls ++ extra) _ _ _ Hm03 Hm).
      * simpl. by rewrite <- Hb3.
      * intros Hfail. eapply ending_cons; [done..|]. simpl. rewrite <- Hb3. by apply He.
Qed.

(** ** What the steps keep *)

(** The fields a run never changes. *)
Definition static (s : Step) :=
  (st_id s, st_plan_id s, st_capability_name s, st_capability_version s, st_target_ref s,
   st_params s, st_depends_on s).

Lemma static_insert steps idx step step' :
  steps !! idx = Some step → static step' = static step →
  map static (<[idx := step']> steps) = map static steps.
Proof.
  revert idx; induction steps as [|s steps IH]; intros [|idx] Hi Hs; [done..| |];
    simpl in Hi; [injection Hi as ->; exact (f_equal (λ x, x :: map static steps) Hs)|].
  exact (f_equal (cons (static s)) (IH idx Hi Hs)).
Qed.

Lemma saga_static steps done order w r w' :
  saga steps done order w r w' →
  ∀ steps' order' failed, r = Ok (steps', order', failed) → map static steps' = map static steps.
Proof.
  induction 1; intros steps' order' failed Heq; simplify_eq; [done| |].
  - by erewrite static_insert.
  - erewrite IHsaga by done. by erewrite static_insert.
Qed.

(** A step that was pending and did not run is still pending, unless it is the
    one that failed the run. *)
Lemma saga_complete steps done order w r w' :
  saga steps done order w r w' →
  ∀ steps' order' i s, r = Ok (steps', order', false) →
  steps !! i = Some s → is_pending s = true → i ∈ order'.
Proof.
  induction 1 as [steps done order w Hp| | |steps done order w idx step reply w1 w2 w3 r w'
    Hp Hi H1 H2 H3 Hs IH]; intros steps' order' i s Heq Hl Hpend; simplify_eq.
  - exfalso. match goal with He : existsb unfinished steps' = false |- _ => rename He into Hu end.
    assert (existsb unfinished steps' = true); [|congruence].
    apply existsb_elem. exists s. split; [by eapply list_elem_of_lookup_2|].
    unfold is_pending in Hpend. apply bool_decide_eq_true in Hpend.
    unfold unfinished. by rewrite Hpend.
  - destruct (decide (i = idx)) as [->|Hne].
    + destruct (saga_order _ _ _ _ _ _ Hs _ _ _ eq_refl) as (new & [-> _ _ _]). set_solver.
    + eapply IH; [done| |exact Hpend]. by rewrite list_lookup_insert_ne.
Qed.

Lemma saga_plans steps done order w r w' :
  saga steps done order w r w' → (∃ x, r = Ok x) → o_plans w' = o_plans w.
Proof.
  assert (∀ step (w1 : ow) r w2, dispatch_step step w1 = (r, w2) → o_plans w2 = o_plans w1) as Hds.
  { intros step w1 r' w2. unfold dispatch_step, lift, io_map_err, bus_call, throw, mbind, io_bind,
      mret, io_ret. destruct (forward_call step); [|naive_solver].
    destruct (disp_call _ _ _ _ _ _) as [[reply|e] x]; simpl; [case_match|];
      intros; by simplify_eq. }
  induction 1 as [| |steps done order w idx step e w1 w2 w3 Hp Hi H1 H2 H3
    |steps done order w idx step reply w1 w2 w3 r w' Hp Hi H1 H2 H3 Hs IH]; intros [x Hx]; [done..| |].
  all: pose proof (set_step_status_log (st_id step) SRunning None true w) as [_ Hp1];
    rewrite H1 in Hp1; apply Hds in H2; simpl in Hp1.
  - pose proof (set_step_status_log (st_id step) SFailed
      (Some (jobj [("error", JString (show_oerror e))])) false w2) as [_ Hp3].
    rewrite H3 in Hp3. simpl in Hp3. congruence.
  - pose proof (set_step_status_log (st_id step) SSucceeded (Some reply) false w2) as [_ Hp3].
    rewrite H3 in Hp3. simpl in Hp3. rewrite IH by (by eexists). congruence.
Qed.

(** ** The compensation pass *)

(** The compensator a registry declares for a capability: that of the first
    capability of this name of the agent the registry resolves it to, any version
    allowed. *)
Definition declares (x : X) (capability : string) (comp : CompensatingCapability) : Prop :=
  ∃ any entry before cap after, req_parse "*" = Ok any ∧
    require_by_capability capability any (disp_registry x) = Ok entry ∧
    re_capabilities entry = before ++ cap :: after ∧ cap_name cap = capability ∧
    Forall (λ c, cap_name c ≠ capability) before ∧ cap_compensating cap = Some comp.

(** The call that undoes a step: the compensator at the version it asks for, on
    the step's target, in the step's name. *)
Definition undoes (s : Step) (comp : CompensatingCapability) (c : call) : Prop :=
  ∃ target, st_target_ref s = Some target ∧
    req_parse (default "*" (comp_version_req comp)) = Ok (call_req c) ∧
    call_from c = "orchestrator:" +:+ st_plan_id s +:+ ":" +:+ st_id s +:+ ":compensate" ∧
    call_capability c = comp_name comp ∧
    call_body c = capability_body (comp_name comp) target (compensation_params (st_params s) (st_result s)).

(** The rollback of the steps at these indices on a bus in state [x]: the call
    that undoes each, when there is one. *)
Inductive rolled_back (steps : list Step) : X → list nat → list call → Prop :=
| rb_nil x : rolled_back steps x [] []
| rb_undo x i s comp c idxs cs :
    steps !! i = Some s → declares x (st_capability_name s) comp → undoes s comp c →
    rolled_back steps (asked x c).2 idxs cs → rolled_back steps x (i :: idxs) (c :: cs)
| rb_skip x i s idxs cs :
    steps !! i = Some s →
    (∀ comp c, declares x (st_capability_name s) comp → ¬ undoes s comp c) →
    rolled_back steps x idxs cs → rolled_back steps x (i :: idxs) cs.

Lemma find_split {A} (p : A → bool) l a :
  find p l = Some a ↔
  ∃ before after, l = before ++ a :: after ∧ p a = true ∧ Forall (λ b, p b = false) before.
Proof.
  split.
  - induction l as [|b l IH]; [done|]. simpl. destruct (p b) eqn:Hb.
    + intros [= ->]. by exists [], l.
    + intros (before & after & -> & Ha & Hf)%IH. exists (b :: before), after. by repeat constructor.
  - intros (before & after & -> & Ha & Hf). induction Hf as [|b before Hb _ IH]; simpl;
      [by rewrite Ha|by rewrite Hb].
Qed.

Lemma compensator_for_declares x name comp :
  compensator_for (disp_registry x) name = Some comp ↔ declares x name comp.
Proof.
  unfold compensator_for, declares. split.
  - intros Hc. apply bind_Some in Hc as (any & Hany & Hc). destruct (req_parse "*") as [any'|]; [|done].
    injection Hany as ->. apply bind_Some in Hc as (entry & He & Hc).
    destruct (require_by_capability _ _ _) as [entry'|] eqn:Hr; [|done]. injection He as ->.
    apply bind_Some in Hc as (cap & Hf & Hcap).
    apply find_split in Hf as (before & after & Hl & Hn%string_eqb_eq & Hb).
    exists any, entry, before, cap, after. repeat split; try done.
    eapply Forall_impl; [exact Hb|]. simpl. intros c Hc'. by apply string_eqb_neq.
  - intros (any & entry & before & cap & after & Hany & Hr & Hl & Hn & Hb & Hcap).
    rewrite Hany. simpl. rewrite Hr. simpl.
    rewrite (proj2 (find_split _ _ cap)); [done|]. exists before, after.
    split; [done|]. split; [by apply string_eqb_eq|].
    eapply Forall_impl; [exact Hb|]. simpl. intros c Hc'. by apply string_eqb_neq.
Qed.

Lemma compensating_call_undoes s comp c :
  compensating_call s comp = Ok c ↔ undoes s comp c.
Proof.
  unfold compensating_call, compensating_req, undoes, map_err, mbind, result_bind.
  destruct (comp_version_req comp) as [v|]; simpl;
    (destruct (req_parse _) as [req|]; [|split; [done|]; by intros (? & _ & ? & _)]);
    (destruct (st_target_ref s) as [t|]; [|split; [done|]; by intros (? & ? & _)]);
    (split; [intros [= <-]; by exists t|]);
    intros (t' & [= <-] & [= Hr] & Hf & Hc & Hb); destruct c; simpl in *; by subst.
Qed.

Lemma compensating_call_static s s' comp :
  static s = static s' → compensating_call s comp = compensating_call s' comp.
Proof.
  destruct s, s'. unfold static, compensating_call. simpl. intros. by simplify_eq.
Qed.

Lemma static_lookup steps steps' (i : nat) s' :
  map static steps' = map static steps → steps' !! i = Some s' →
  ∃ s, steps !! i = Some s ∧ static s = static s'.
Proof.
  intros Hm Hi. assert (map static steps' !! i = Some (static s')) as Hs
    by (by rewrite list_lookup_fmap, Hi).
  rewrite Hm, list_lookup_fmap in Hs. destruct (steps !! i) as [s|]; [|done].
  apply (inj Some) in Hs. by exists s.
Qed.

Lemma undoes_static s s' comp c : static s = static s' → undoes s comp c → undoes s' comp c.
Proof.
  intros Hst. by rewrite <- !compensating_call_undoes, (compensating_call_static s s').
Qed.

(** One compensation: the undoing call, or none when there is no such call. *)
Lemma compensate_step_made step (w : ow) r w' :
  compensate_step step w = (r, w') →
  (∃ comp c, declares (o_bus w) (st_capability_name step) comp ∧ undoes step comp c ∧
     made [c] w w') ∨
  (∀ comp c, declares (o_bus w) (st_capability_name step) comp → ¬ undoes step comp c) ∧
    made [] w w'.
Proof.
  setoid_rewrite <- compensator_for_declares. setoid_rewrite <- compensating_call_undoes.
  unfold compensate_step, dispatch_compensator, gets, lift, io_map_err.
  unfold mbind, io_bind, mret, io_ret.
  destruct (compensator_for _ _) as [comp|]; simpl;
    [|intros [= <- <-]; right; split; [done|by apply made_nil]].
  destruct (compensating_call step comp) as [c|] eqn:Hc; simpl;
    [|intros ?; simplify_eq/=; right; split; [by intros ? ? [= <-]; rewrite Hc|by apply made_nil]].
  intros Hr. left. exists comp, c. do 2 (split; [done|]).
  destruct (bus_call c w) as [[reply|e] w1] eqn:Hb; apply bus_call_made in Hb as [Hm _]; simpl in Hr.
  - pose proof (set_step_status_log (st_id step) SCompensated (Some reply) false w1) as [Hm1 _].
    destruct (set_step_status _ _ _ _ _) as [[|] w2]; simplify_eq/=;
      exact (made_trans [c] [] _ _ _ Hm Hm1).
  - by injection Hr as <- <-.
Qed.

Lemma compensate_all_made steps0 idxs steps (w : ow) :
  map static steps = map static steps0 →
  Forall (λ i, is_Some (steps !! i)) idxs →
  ∃ cs, rolled_back steps0 (o_bus w) idxs cs ∧ made cs w (compensate_all idxs steps w).2.
Proof.
  revert steps w; induction idxs as [|i idxs IH]; intros steps w Hst Hf.
  { exists []. split; [constructor|]. by apply made_nil. }
  apply Forall_cons in Hf as [[step Hi] Hf]. cbn [compensate_all]. rewrite Hi.
  destruct (static_lookup _ _ _ _ Hst Hi) as (s & Hs & Heq).
  assert (st_capability_name s = st_capability_name step) as Hname by (unfold static in Heq; congruence).
  destruct (compensate_step step w) as [r w1] eqn:Hc.
  assert (∀ steps1, map static steps1 = map static steps0 →
    Forall (λ j, is_Some (steps1 !! j)) idxs →
    ∃ cs, rolled_back steps0 (o_bus w) (i :: idxs) cs ∧
      made cs w (compensate_all idxs steps1 w1).2) as Hrest.
  { intros steps1 H1 H2. destruct (IH steps1 w1 H1 H2) as (cs & Hcs & Hm).
    apply compensate_step_made in Hc as [(comp & c & Hd & Hu & Hm1)|[Hno Hm1]].
    - exists (c :: cs). split; [|exact (made_trans [c] cs _ _ _ Hm1 Hm)].
      destruct Hm1 as [_ Hb]. simpl in Hb. rewrite Hb in Hcs.
      eapply rb_undo; [exact Hs|by rewrite Hname| |exact Hcs]. by eapply undoes_static.
    - exists cs. split; [|exact (made_trans [] cs _ _ _ Hm1 Hm)].
      destruct Hm1 as [_ Hb]. simpl in Hb. rewrite Hb in Hcs.
      eapply rb_skip; [exact Hs| |exact Hcs]. intros comp c. rewrite Hname. intros Hd Hu.
      by apply (Hno comp c Hd), (undoes_static s). }
  assert (∃ cs, rolled_back steps0 (o_bus w) (i :: idxs) cs ∧
    made cs w (compensate_all idxs (<[i := with_status SCompensated step]> steps) w1).2) as Hyes.
  { apply Hrest; [by erewrite static_insert|].
    eapply Forall_impl; [done|]. intros j [x Hj]. rewrite list_lookup_insert.
    case_decide; by eexists. }
  destruct r as [[]|e]; [done|by apply Hrest..].
Qed.

(** The pass over what a run executed. *)
Lemma saga_rollback steps w1 steps' order failed w2 calls :
  saga steps ∅ [] w1 (Ok (steps', order, failed)) w2 →
  Forall2 (executed steps) order calls →
  ∃ back, rolled_back steps (o_bus w2) (rev order) back ∧
    made back w2 (compensate_all (rev order) steps' w2).2.
Proof.
  intros Hs Hf. pose proof (saga_static _ _ _ _ _ _ Hs _ _ _ eq_refl) as Hst.
  apply compensate_all_made; [done|]. apply Forall_rev, Forall_lookup. intros k i Hk.
  eapply Forall2_lookup_l in Hf as (c & _ & s & Hi & _); [|done].
  apply lookup_lt_is_Some. apply lookup_lt_Some in Hi.
  by rewrite <- (length_map static), Hst, length_map.
Qed.

Lemma finish_plan_ok svc pid st (w w' : ow) :
  finish_plan svc pid st w = (Ok tt, w') →
  made [] w w' ∧
  ∃ row, o_plans w' !! pid = Some row ∧ pr_status row = plan_status_as_str st.
Proof.
  unfold finish_plan, gets, throw, mbind, io_bind, mret, io_ret.
  destruct (o_plans w !! pid) as [row|] eqn:Hrow; [|by destruct (odb_call w) as [[]]].
  set (row' := mkPlanRow _ _ _ _ _ _ _ _).
  pose proof (odb_write_made (set_plans (<[pid := row']> (o_plans w))) w
    ltac:(intros; by apply made_nil)) as Hm.
  destruct (odb_write _ w) as [[[]|] w1] eqn:Hw; simpl in Hm; [|done].
  assert (o_plans w1 !! pid = Some row') as Hp.
  { unfold odb_write in Hw. destruct (o_faults w) as [|[]]; simplify_eq/=; by rewrite lookup_insert_eq. }
  intros Hr. assert (made [] w1 w' ∧ o_plans w' = o_plans w1) as [Hm' Hp'].
  { unfold modify in Hr. repeat case_match; simplify_eq/=; (split; [by apply made_nil|done]). }
  split; [exact (made_trans [] [] _ _ _ Hm Hm')|]. rewrite Hp', Hp. by exists row'.
Qed.

(** ** [run_plan] *)

(** [run_plan], unrolled: the loop on the plan's steps, the saga pass when it
    failed, and the terminal write. *)
Lemma run_plan_ok svc pid (w w' : ow) st :
  run_plan svc pid w = (Ok st, w') →
  ∃ w1 steps' order failed w2,
    made [] w w1 ∧
    saga (steps_of pid (o_steps w)) ∅ [] w1 (Ok (steps', order, failed)) w2 ∧
    st = (if failed then PFailed else PSucceeded) ∧
    made [] (if failed then (compensate_all (rev order) steps' w2).2 else w2) w' ∧
    ∃ row, o_plans w' !! pid = Some row ∧ pr_status row = plan_status_as_str st.
Proof.
  intros Hrun. unfold run_plan in Hrun.
  rewrite (io_bind_run_ok _ _ _ (o_now w) w) in Hrun by done.
  apply io_bind_ok in Hrun as ([] & w1 & Hm & Hrun).
  assert (made [] w w1 ∧ o_steps w1 = o_steps w) as [Hm1 Hs1].
  { match type of Hm with odb_write ?f w = _ =>
      pose proof (odb_write_made f w ltac:(intros; by apply made_nil)) as Hx end.
    rewrite Hm in Hx. split; [exact Hx|]. unfold odb_write in Hm.
    destruct (o_faults w) as [|[]]; by simplify_eq/=. }
  clear Hm. apply io_bind_ok in Hrun as (steps & w2 & Hlist & Hrun).
  assert (steps = steps_of pid (o_steps w) ∧ made [] w w2) as [-> Hm2].
  { unfold list_steps in Hlist. apply io_bind_ok in Hlist as ([] & wd & Hd & Hlist).
    pose proof (odb_call_log w1) as (Hl & Hs & _). rewrite Hd in Hl, Hs. simpl in Hl, Hs.
    unfold gets, mbind, io_bind, mret, io_ret in Hlist. simplify_eq. rewrite Hs, Hs1.
    split; [done|exact (made_trans [] [] _ _ _ Hm1 Hl)]. }
  set (steps := steps_of pid (o_steps w)) in *. unfold run_steps in Hrun.
  assert (∃ r w3, exec_loop (S (length steps)) steps ∅ [] w2 = Some (r, w3)) as (r & w3 & Hex).
  { destruct (exec_loop_total (S (length steps)) steps ∅ [] w2) as [[r w3] Hex];
      [pose proof (pending_count_le steps); lia|by exists r, w3]. }
  pose proof (exec_loop_saga _ _ _ _ _ _ _ Hex) as Hsaga.
  destruct steps as [|s0 ss] eqn:Hsteps.
  - simpl in Hex. simplify_eq. inv_io.
    match goal with Hf : finish_plan _ _ _ _ = _ |- _ => rename Hf into Hfin end.
    destruct a. apply finish_plan_ok in Hfin as [Hl3 Hrow].
    exists w3, [], [], false, w3. by do 4 (split; [done|]).
  - apply io_bind_ok in Hrun as (res & w4 & Hx & Hrun).
    rewrite Hex in Hx. simpl in Hx. injection Hx as -> ->.
    destruct res as [[steps' order] failed].
    exists w2, steps', order, failed, w4. split; [done|]. split; [done|].
    apply io_bind_ok in Hrun as ([] & w5 & Hc & Hrun).
    apply io_bind_ok in Hrun as ([] & w6 & Hfin & Hrun).
    unfold mret, io_ret in Hrun. simplify_eq. apply finish_plan_ok in Hfin as [Hl3 Hrow].
    split; [done|]. split; [|done]. unfold mret, io_ret in Hc.
    by destruct failed; simplify_eq.
Qed.

(** C7: a run is a saga. When [run_plan] returns a status, what it dispatched on
    the bus is exactly this. First one call per step of a sequence of distinct
    pending steps, in an order in which every step comes after all its
    dependencies, each answered without a reported failure. If the run
    succeeded, nothing else. If it failed, then the call of the step that failed
    it: a pending step whose dependencies have all run and whose call is not
    answered, or is answered with a failure; no call when that step has none (no
    target, an unreadable version) or when the run is stuck because every step
    left waits for one that has not run. Then, for the succeeded steps in exactly
    the reverse order, the compensating call, wherever the registry declares a
    compensator for the step's capability that can be called. *)
Theorem run_plan_saga svc pid (w w' : ow) st :
  run_plan svc pid w = (Ok st, w') →
  let steps := steps_of pid (o_steps w) in
  ∃ order fwd extra back,
    NoDup order ∧ deps_respected steps ∅ order ∧ Forall2 (executed steps) order fwd ∧
    all_accepted (o_bus w) fwd ∧
    o_log w' = o_log w ++ fwd ++ extra ++ back ∧
    (st = PSucceeded ∧ extra = [] ∧ back = [] ∨
     st = PFailed ∧ ending (bus_after (o_bus w) fwd) steps ∅ order extra ∧
       rolled_back steps (bus_after (o_bus w) (fwd ++ extra)) (rev order) back).
Proof.
  intros (w1 & steps' & order & failed & w2 & Hm1 & Hs & Hst & Hm & _)%run_plan_ok steps.
  destruct (saga_order _ _ _ _ _ _ Hs _ _ _ eq_refl)
    as (new & [-> Hn Hd (fwd & extra & Hf & Hmade & Hacc & Hx & He)]). simpl in *.
  destruct (saga_rollback _ _ _ _ _ _ _ Hs Hf) as (back & Hback & Hmb).
  pose proof (proj2 Hm1) as Hb. simpl in Hb. pose proof (proj2 Hmade) as Hb2. rewrite Hb in *.
  exists new, fwd, extra, (if failed then back else []). do 4 (split; [done|]). destruct failed.
  - split; [|right; by rewrite Hb2 in Hback; auto].
    pose proof (made_trans _ _ _ _ _ (made_trans _ _ _ _ _ Hm1 Hmade)
      (made_trans _ _ _ _ _ Hmb Hm)) as [Hl _].
    simpl in Hl. by rewrite app_nil_r, <- app_assoc in Hl.
  - rewrite Hx in * by done. split; [|by left].
    pose proof (made_trans _ _ _ _ _ (made_trans _ _ _ _ _ Hm1 Hmade) Hm) as [Hl _].
    simpl in Hl. by rewrite !app_nil_r in *.
Qed.

(** C8: success means everything ran. When [run_plan] reports [Succeeded], every
    step that was pending when it started has been dispatched, nothing was
    compensated, and the plan row says so. *)
Theorem run_plan_success svc pid (w w' : ow) :
  run_plan svc pid w = (Ok PSucceeded, w') →
  (∃ row, o_plans w' !! pid = Some row ∧ pr_status row = "succeeded") ∧
  ∀ s, s ∈ steps_of pid (o_steps w) → is_pending s = true →
    ∃ c, forward_call s = Ok c ∧ c ∈ o_log w'.
Proof.
  intros (w1 & steps' & order & failed & w2 & Hm1 & Hs & Hst & Hm & Hrow)%run_plan_ok.
  destruct failed; [done|]. split; [done|]. intros s [i Hi]%list_elem_of_lookup_1 Hp.
  pose proof (saga_complete _ _ _ _ _ _ Hs _ _ i s eq_refl Hi Hp) as Hin.
  destruct (saga_order _ _ _ _ _ _ Hs _ _ _ eq_refl)
    as (new & [-> _ _ (fwd & extra & Hf & [Hlog _] & _)]). simpl in Hin.
  apply list_elem_of_lookup_1 in Hin as [k Hk].
  eapply Forall2_lookup_l in Hf as (c & Hc & s' & Hi' & _ & Hfc); [|done]. simplify_eq.
  exists c. split; [done|]. rewrite (proj1 Hm), app_nil_r, Hlog.
  apply elem_of_app. right. apply elem_of_app. left. by eapply list_elem_of_lookup_2.
Qed.

(** ** Deadlock *)

(** A set of pending steps each of which waits for an id that only members of the
    set, or steps that are not pending, carry: a dependency cycle, a step that
    depends on itself, a step whose dependency is not in the plan, or one whose
    dependency already ran (the loop starts with no step done, so what succeeded
    in an earlier run does not count). *)
Definition blocked (steps : list Step) (B : nat → Prop) : Prop :=
  ∀ i, B i → ∃ s d, steps !! i = Some s ∧ is_pending s = true ∧ d ∈ st_depends_on s ∧
    ∀ j s', steps !! j = Some s' → st_id s' = d → B j ∨ is_pending s' = false.

Lemma blocked_never_runs steps B order calls :
  blocked steps B → deps_respected steps ∅ order → Forall2 (executed steps) order calls →
  ∀ k i, order !! k = Some i → ¬ B i.
Proof.
  intros Hb Hd Hex k. induction k as [k IH] using lt_wf_ind. intros i Hk HB.
  destruct (Hb i HB) as (s & d & Hs & _ & Hdep & Hall).
  destruct (Hd k i s d Hk Hs Hdep) as [Hin|(j & i' & s' & Hj & Hi' & Hs' & Hid)].
  - by apply elem_of_empty in Hin.
  - destruct (Hall i' s' Hs' Hid) as [HB'|Hnp]; [by apply (IH j Hj i' Hi')|].
    eapply Forall2_lookup_l in Hex as (c & _ & s2 & Hs2 & Hp & _); [|exact Hi']. congruence.
Qed.

(** A deadlocked plan fails. If some steps of the plan are blocked, by a
    cycle, by a dependency that is not in the plan or by one that was finished in
    an earlier run, a run that returns a status returns [Failed], and dispatched
    no blocked step going forward. *)
Theorem run_plan_deadlock svc pid (w w' : ow) st B :
  blocked (steps_of pid (o_steps w)) B → (∃ i, B i) →
  run_plan svc pid w = (Ok st, w') →
  st = PFailed ∧ ∃ order fwd rest, o_log w' = o_log w ++ fwd ++ rest ∧
    Forall2 (executed (steps_of pid (o_steps w))) order fwd ∧ ∀ i, i ∈ order → ¬ B i.
Proof.
  intros Hb [i0 HB0] (w1 & steps' & order & failed & w2 & Hm1 & Hs & Hst & Hm & _)%run_plan_ok.
  destruct (saga_order _ _ _ _ _ _ Hs _ _ _ eq_refl)
    as (new & [-> _ Hd (fwd & extra & Hf & Hmade & _)]). simpl in *.
  assert (∀ i, i ∈ new → ¬ B i) as Hnew.
  { intros i [k Hk]%list_elem_of_lookup_1. by eapply blocked_never_runs. }
  destruct failed; simpl in *; last first.
  { exfalso. destruct (Hb i0 HB0) as (s & d & Hs0 & Hp0 & _).
    by apply (Hnew i0 (saga_complete _ _ _ _ _ _ Hs _ _ i0 s eq_refl Hs0 Hp0)). }
  split; [done|]. destruct (saga_rollback _ _ _ _ _ _ _ Hs Hf) as (back & _ & Hmb).
  pose proof (made_trans _ _ _ _ _ (made_trans _ _ _ _ _ Hm1 Hmade)
    (made_trans _ _ _ _ _ Hmb Hm)) as [Hl _].
  exists new, fwd, (extra ++ back). split; [|done].
  simpl in Hl. by rewrite app_nil_r, <- app_assoc in Hl.
Qed.

(** ** Liveness *)

(** Every dependency of a step is an earlier step of the list. *)
Definition topological (steps : list Step) : Prop :=
  ∀ i s d, steps !! i = Some s → d ∈ st_depends_on s →
    ∃ j s', (j < i)%nat ∧ steps !! j = Some s' ∧ st_id s' = d.

(** Every dispatch on the bus is answered, and not with a failure. *)
Definition bus_healthy : Prop :=
  ∀ from name req body t x, ∃ reply x',
    disp_call from name req body t x = (Ok reply, x') ∧ reports_failure reply = false.

Definition on_track (steps : list Step) (done : gset Uuid) : Prop :=
  ∀ i s, steps !! i = Some s →
    is_ok (forward_call s) = true ∧
    (is_pending s = true ∨ st_status s = SSucceeded ∧ st_id s ∈ done).

Lemma topological_static steps steps' :
  map static steps' = map static steps → topological steps → topological steps'.
Proof.
  intros Hm Ht i s' d Hi Hd. destruct (static_lookup _ _ _ _ Hm Hi) as (s & Hs & Heq).
  assert (d ∈ st_depends_on s) as Hd'.
  { unfold static in Heq. injection Heq. intros Hdeps. intros. by rewrite Hdeps. }
  destruct (Ht i s d Hs Hd') as (j & s1 & Hj & Hs1 & Hid).
  destruct (static_lookup _ _ _ _ (eq_sym Hm) Hs1) as (s2 & Hs2 & Heq2).
  exists j, s2. split; [done|]. split; [done|]. unfold static in Heq2. injection Heq2. congruence.
Qed.

Lemma dispatch_step_healthy step (w : ow) :
  bus_healthy → is_ok (forward_call step) = true →
  ∃ reply w', dispatch_step step w = (Ok reply, w').
Proof.
  intros Hb Hok. unfold dispatch_step, lift, io_map_err, bus_call, mbind, io_bind, mret, io_ret.
  destruct (forward_call step) as [c|]; [|done].
  destruct (Hb (call_from c) (call_capability c) (call_req c) (call_body c)
    STEP_DISPATCH_TIMEOUT (o_bus w)) as (reply & x & Hd & Hr).
  rewrite Hd. simpl. rewrite Hr. by do 2 eexists.
Qed.

(** On track and stuck means finished: the first pending step would be runnable. *)
Lemma on_track_stuck steps done :
  topological steps → on_track steps done → position (runnable done) steps = None →
  existsb unfinished steps = false.
Proof.
  intros Ht Ho Hp. rewrite position_None in Hp.
  assert (∀ i s, steps !! i = Some s → is_pending s = false) as Hnone.
  { intros i. induction i as [i IH] using lt_wf_ind. intros s Hi.
    destruct (is_pending s) eqn:Hps; [|done]. exfalso.
    assert (runnable done s = true); [|by rewrite Hp in * by (by eapply list_elem_of_lookup_2)].
    unfold runnable. rewrite Hps. simpl. apply forallb_elem. intros d Hd.
    apply bool_decide_eq_true. destruct (Ht i s d Hi Hd) as (j & s' & Hj & Hs' & <-).
    destruct (Ho j s' Hs') as [_ [Hps'|[_ ?]]]; [|done]. by rewrite (IH j Hj s' Hs') in Hps'. }
  destruct (existsb unfinished steps) eqn:Hu; [|done]. exfalso.
  apply existsb_elem in Hu as (s & [i Hi]%list_elem_of_lookup_1 & Hu).
  destruct (Ho i s Hi) as [_ [Hps|[Hs _]]].
  - by rewrite (Hnone i s Hi) in Hps.
  - unfold unfinished in Hu. by rewrite Hs in Hu.
Qed.

Lemma saga_live steps done order w r w' :
  saga steps done order w r w' →
  bus_healthy → o_faults w = [] → topological steps → on_track steps done →
  ∃ steps' order', r = Ok (steps', order', false) ∧ o_faults w' = [].
Proof.
  induction 1 as [steps done order w Hp|steps done order w idx step calls e w' Hp Hi Hl Hlen Hne
    |steps done order w idx step e w1 w2 w3 Hp Hi H1 H2 H3
    |steps done order w idx step reply w1 w2 w3 r w' Hp Hi H1 H2 H3 Hs IH]; intros Hb Hf Ht Ho.
  - rewrite (on_track_stuck _ _ Ht Ho Hp). by do 2 eexists.
  - done.
  - exfalso. destruct (Ho idx step Hi) as [Hok _].
    destruct (dispatch_step_healthy step w1 Hb Hok) as (? & ? & ?). congruence.
  - assert (o_faults w3 = []) as Hf3.
    { destruct (set_step_status_served (st_id step) SRunning None true w Hf) as (w1' & Hw1 & Hf1).
      rewrite H1 in Hw1. injection Hw1 as <-. apply dispatch_step_faults in H2. rewrite Hf1 in H2.
      destruct (set_step_status_served (st_id step) SSucceeded (Some reply) false w2 H2)
        as (w3' & Hw3 & Hf3). rewrite H3 in Hw3. by injection Hw3 as <-. }
    apply IH; [done|done| |].
    + eapply topological_static; [|done]. by erewrite static_insert.
    + intros i s His. rewrite list_lookup_insert in His. case_decide as Hc.
      * destruct Hc as [<- _]. injection His as <-. destruct (Ho idx step Hi) as [Hok _].
        split; [exact Hok|]. right. split; [done|]. set_solver.
      * destruct (Ho i s His) as [Hok [?|[? ?]]]; (split; [done|]); [by left|right]. set_solver.
Qed.

Lemma finish_plan_served svc pid st (w : ow) :
  o_faults w = [] → is_Some (o_plans w !! pid) → (finish_plan svc pid st w).1 = Ok tt.
Proof.
  intros Hf [row Hrow]. unfold finish_plan, gets, modify, throw, mbind, io_bind, mret, io_ret,
    odb_write. rewrite Hrow, Hf. by repeat case_match.
Qed.

Lemma run_steps_live svc pid steps (w : ow) :
  bus_healthy → o_faults w = [] → is_Some (o_plans w !! pid) → topological steps →
  (∀ s, s ∈ steps → is_pending s = true ∧ is_ok (forward_call s) = true) →
  (run_steps svc pid steps w).1 = Ok PSucceeded.
Proof.
  intros Hb Hf Hrow Ht Hall. unfold run_steps.
  assert (∀ w1 : ow, o_faults w1 = [] → is_Some (o_plans w1 !! pid) →
    ((finish_plan svc pid PSucceeded ≫= λ _, mret PSucceeded) w1).1 = Ok PSucceeded) as Hfin.
  { intros w1 Hf1 Hr1. pose proof (finish_plan_served svc pid PSucceeded w1 Hf1 Hr1) as Hok.
    apply run_split in Hok. by rewrite (io_bind_run_ok _ _ _ _ _ Hok). }
  destruct steps as [|s0 ss] eqn:Hsteps; [by apply Hfin|]. rewrite <- Hsteps in *.
  destruct (exec_loop_total (S (length steps)) steps ∅ [] w) as [[r w3] Hex];
    [pose proof (pending_count_le steps); lia|].
  pose proof (exec_loop_saga _ _ _ _ _ _ _ Hex) as Hs.
  destruct (saga_live _ _ _ _ _ _ Hs) as (steps' & order' & -> & Hf3); [done|done|done| |].
  { intros i s Hi. destruct (Hall s) as [Hp Hok]; [by eapply list_elem_of_lookup_2|]. auto. }
  pose proof (saga_plans _ _ _ _ _ _ Hs ltac:(by eexists)) as Hpl.
  rewrite (io_bind_run_ok _ _ _ (steps', order', false) w3) by (by rewrite Hex).
  rewrite (io_bind_run_ok _ _ _ tt w3) by done. apply Hfin; [done|by rewrite Hpl].
Qed.

(** C9: a well-formed plan succeeds. If every step is pending, has a target and a
    readable version, and depends only on earlier steps, the bus answers every
    call without reporting failure, the plan row exists and the database is up,
    then [run_plan] returns [Succeeded]. *)
Theorem run_plan_live svc pid (w : ow) :
  bus_healthy → o_faults w = [] → is_Some (o_plans w !! pid) →
  topological (steps_of pid (o_steps w)) →
  (∀ s, s ∈ steps_of pid (o_steps w) →
     is_pending s = true ∧ is_ok (forward_call s) = true) →
  (run_plan svc pid w).1 = Ok PSucceeded.
Proof.
  intros Hb Hf [row Hrow] Ht Hall. unfold run_plan, list_steps, gets, mbind, io_bind,
    mret, io_ret, odb_call, odb_write. rewrite Hf. simpl.
  match goal with |- (run_steps _ _ _ ?w2).1 = _ => apply (run_steps_live svc pid _ w2) end;
    [done|done| |done|done].
  simpl. rewrite lookup_alter_eq, Hrow. by eexists.
Qed.

(** C39: the loop terminates: one more iteration than there are steps is always
    enough, whatever the bus answers and whichever database calls fail. *)
Theorem run_loop_terminates steps done order (w : ow) :
  is_Some (exec_loop (S (length steps)) steps done order w).
Proof. apply exec_loop_total. pose proof (pending_count_le steps). lia. Qed.

(** ** Creating plans *)

(** The tables are as before, and no outcome came up that was not due. *)
Definition same_tables (w w' : ow) : Prop :=
  o_plans w' = o_plans w ∧ o_steps w' = o_steps w ∧ o_faults w' ⊆ o_faults w.

#[export] Instance same_tables_refl : Reflexive same_tables.
Proof. by intros w. Qed.
#[export] Instance same_tables_trans : Transitive same_tables.
Proof. intros w1 w2 w3 (Hp & Hs & Hf) (Hp' & Hs' & Hf'). repeat split; [congruence..|set_solver]. Qed.

(** The rows of the steps, each under its id, added to the table. *)
Definition with_steps (rows : list (Uuid * StepRow)) (t : gmap Uuid StepRow) :
    gmap Uuid StepRow := foldl (λ t x, <[x.1 := x.2]> t) t rows.

(** The tables with the whole plan [pid]: its row, and one row per step, all
    under ids that were free. *)
Definition whole_plan (by_ : option Uuid) (intent : string) (defs : list StepDef)
    (pid : Uuid) (w w' : ow) : Prop :=
  ∃ ids now, length ids = length defs ∧ NoDup ids ∧ o_plans w !! pid = None ∧
    Forall (λ i, o_steps w !! i = None) ids ∧
    o_plans w' =
      <[pid := mkPlanRow by_ intent "planning" (JObject []) now now None None]> (o_plans w) ∧
    o_steps w' = with_steps (zip ids (imap (step_row pid ids) defs)) (o_steps w).

Lemma odb_call_same : evolves same_tables odb_call.
Proof.
  intros w. destruct (odb_call_log w) as (_ & ? & ?). repeat split; [done..|].
  unfold odb_call, odb_write. destruct (o_faults w) as [|[] f]; set_solver.
Qed.

Lemma insert_steps_same rows t : evolves same_tables (insert_steps rows t).
Proof.
  revert t; induction rows as [|[id row] rows IH]; intros t; [by intros w|].
  apply evolves_bind; [apply _|apply odb_call_same|]. intros [] w.
  destruct (t !! id); [done|apply IH].
Qed.

Lemma insert_steps_ok rows t (w : ow) t' w' :
  insert_steps rows t w = (Ok t', w') →
  t' = with_steps rows t ∧ NoDup (map fst rows) ∧ Forall (λ x, t !! x.1 = None) rows.
Proof.
  revert t w; induction rows as [|[id row] rows IH]; intros t w; simpl.
  { intros [= <- <-]. by repeat constructor. }
  intros ([] & w1 & _ & Hr)%io_bind_ok. destruct (t !! id) as [|] eqn:Hid; [done|].
  apply IH in Hr as (-> & Hn & Hf). split; [done|].
  assert (∀ x, x ∈ rows → x.1 ≠ id ∧ t !! x.1 = None) as Hrows.
  { intros x Hx. rewrite Forall_forall in Hf. specialize (Hf x Hx).
    destruct (decide (x.1 = id)) as [Heq|Hne]; [by rewrite Heq, lookup_insert_eq in Hf|].
    by rewrite lookup_insert_ne in Hf. }
  split; constructor; try done.
  - intros (x & Hx & Hin)%list_elem_of_fmap. by destruct (Hrows x Hin) as [? _].
  - apply Forall_forall. intros x Hx. by apply Hrows.
Qed.

(** All or nothing: success leaves the whole plan; failure leaves the tables as
    they were, unless an acknowledgement was lost, and then it may have left the
    whole plan. *)
Definition all_or_nothing (by_ : option Uuid) (intent : string) (defs : list StepDef)
    (w : ow) (r : result OError Plan * ow) : Prop :=
  match r.1 with
  | Ok plan => whole_plan by_ intent defs (pl_id plan) w r.2
  | Err _ =>
      o_plans r.2 = o_plans w ∧ o_steps r.2 = o_steps w ∨
      (∃ m, OLost m ∈ o_faults w) ∧ ∃ pid, whole_plan by_ intent defs pid w r.2
  end.

(** An effect that leaves the tables alone, first. *)
Lemma all_or_nothing_bind {A} by_ intent defs (m : io ow OError A) (f : A → io ow OError Plan) w w1 :
  same_tables w w1 → evolves same_tables m →
  (∀ a w2, m w1 = (Ok a, w2) → same_tables w w2 → all_or_nothing by_ intent defs w (f a w2)) →
  all_or_nothing by_ intent defs w ((m ≫= f) w1).
Proof.
  intros Hw Hm Hf. specialize (Hm w1). unfold mbind, io_bind.
  destruct (m w1) as [[a|e] w2]; simpl in Hm; (assert (same_tables w w2) as Hw2 by (by etrans)).
  - by apply Hf.
  - left. split; apply Hw2.
Qed.

(** The commit, and what follows it, which writes no table. *)
Lemma all_or_nothing_commit by_ intent defs pid plans steps (f : unit → io ow OError Plan) w w1 :
  same_tables w w1 →
  (∀ w2, o_plans w2 = plans (o_plans w) → o_steps w2 = steps → whole_plan by_ intent defs pid w w2) →
  (∀ w2, ∃ plan w3, f tt w2 = (Ok plan, w3) ∧ pl_id plan = pid ∧
     o_plans w3 = o_plans w2 ∧ o_steps w3 = o_steps w2) →
  all_or_nothing by_ intent defs w
    ((odb_write (λ w, set_steps steps (set_plans (plans (o_plans w)) w)) ≫= f) w1).
Proof.
  intros (Hp & Hs & Hsub) Hwhole Hf. unfold mbind, io_bind, odb_write.
  assert (∀ fs, all_or_nothing by_ intent defs w
    (f tt (set_steps steps (set_plans (plans (o_plans w1)) (set_ofaults fs w1))))) as Hok.
  { intros fs. destruct (Hf (set_steps steps (set_plans (plans (o_plans w1)) (set_ofaults fs w1))))
      as (plan & w3 & -> & Hid & Hp3 & Hs3).
    unfold all_or_nothing. simpl. rewrite Hid. apply Hwhole; rewrite ?Hp3, ?Hs3; simpl; congruence. }
  destruct (o_faults w1) as [|[] fs] eqn:Hfs; [apply Hok|apply Hok|by left|by left|].
  right. split; [exists msg; set_solver|]. exists pid. apply Hwhole; simpl; congruence.
Qed.

Lemma with_ids_fst (ids : list Uuid) (rows : list StepRow) :
  length ids = length rows → map fst (zip ids rows) = ids.
Proof. intros Hl. apply fst_zip. lia. Qed.

Lemma create_plan_all_or_nothing svc by_ intent defs (w : ow) :
  all_or_nothing by_ intent defs w (create_plan svc by_ intent defs w).
Proof.
  unfold create_plan.
  do 3 (eapply all_or_nothing_bind; [reflexivity || eassumption|apply odb_call_same|];
    intros [] ? _ ?).
  eapply all_or_nothing_bind; [eassumption|by intros ?|]. intros pid w4 _ H4.
  eapply all_or_nothing_bind; [eassumption|by intros ?|]. intros now w5 _ H5.
  eapply all_or_nothing_bind; [eassumption|by intros ?|]. intros plans w6 [= <- <-] H6.
  destruct (o_plans w5 !! hd "" pid) as [|] eqn:Hid; [left; split; apply H6|].
  eapply all_or_nothing_bind; [eassumption|by intros ?|]. intros ids w7 Hids H7.
  assert (length ids = length defs) as Hlen.
  { unfold fresh_ids in Hids. injection Hids as <- _. by rewrite length_map, length_seq. }
  eapply all_or_nothing_bind; [eassumption|by intros ?|]. intros table w8 [= <- <-] H8.
  eapply all_or_nothing_bind; [eassumption|apply insert_steps_same|]. intros table' w9 Hins H9.
  apply insert_steps_ok in Hins as (-> & Hn & Hfree).
  assert (length ids = length (imap (step_row (hd "" pid) ids) defs)) as Hlen'
    by (by rewrite length_imap).
  rewrite with_ids_fst in Hn by done.
  eapply (all_or_nothing_commit _ _ _ (hd "" pid) (λ t, <[hd "" pid := _]> t)); [eassumption|..].
  - intros wc Hp Hs. exists ids, now. destruct H7 as (Hp7 & Hs7 & _), H6 as (Hp6 & _).
    repeat split; [done|done|by rewrite <- Hp6| |done|by rewrite Hs, Hs7].
    rewrite <- (with_ids_fst ids _ Hlen'). apply Forall_fmap. eapply Forall_impl; [exact Hfree|].
    simpl. intros x. by rewrite Hs7.
  - intros wc. unfold mbind, io_bind, modify, mret, io_ret.
    destruct (svc_graph svc) as [persist|]; [destruct (persist _)|]; by do 2 eexists.
Qed.

(** C30: creating a plan is all or nothing, whichever database calls fail. When
    [create_plan] succeeds, the plan's row and one row per step are there, pending,
    with their dependencies, under fresh distinct ids, and nothing else changed.
    When it fails, neither the plan nor any of its steps is visible, except that
    when the database's answer was lost the caller may have been told of a
    failure although the whole plan was committed; a part of a plan is never
    visible. *)
Theorem create_plan_atomic svc by_ intent defs (w : ow) :
  all_or_nothing by_ intent defs w (create_plan svc by_ intent defs w).
Proof. apply create_plan_all_or_nothing. Qed.

(** ** Compensation, as the code has it *)

(** A compensator's own failure is not noticed. If the compensating call
    comes back, with whatever body, a reported failure included, and the
    database is up, the step is recorded as compensated. *)
Theorem compensated_whatever_reply step (w : ow) comp c reply x row :
  compensator_for (disp_registry (o_bus w)) (st_capability_name step) = Some comp →
  compensating_call step comp = Ok c →
  disp_call (call_from c) (call_capability c) (call_req c) (call_body c)
    STEP_DISPATCH_TIMEOUT (o_bus w) = (Ok reply, x) →
  o_faults w = [] → o_steps w !! st_id step = Some row →
  ∃ w' row', compensate_step step w = (Ok true, w') ∧
    o_steps w' !! st_id step = Some row' ∧ sr_status row' = "compensated" ∧
    sr_result row' = Some reply.
Proof.
  intros Hcomp Hc Hd Hf Hrow.
  unfold compensate_step, dispatch_compensator, gets, lift, io_map_err, bus_call, set_step_status,
    odb_write, mbind, io_bind, mret, io_ret.
  rewrite Hcomp, Hc. simpl. rewrite Hd. simpl. rewrite Hf. simpl.
  do 2 eexists. split; [done|]. simpl. rewrite lookup_alter_eq, Hrow. by simpl.
Qed.

(** A dependency index outside the plan constrains nothing. *)
Lemma resolve_deps_out_of_range ids deps :
  (∀ i, i ∈ deps → (length ids ≤ i)%nat) → resolve_deps ids deps = [].
Proof.
  intros Hall. unfold resolve_deps. induction deps as [|i deps IH]; [done|]. simpl.
  rewrite lookup_ge_None_2 by (apply Hall; left). apply IH. intros j Hj. apply Hall. by right.
Qed.
End Saga.

(** ** Witnesses *)

Module SagaDemo.
Import DemoSemVer.

(** A bus that answers from a script; when the script is over, every call
    succeeds. *)
Definition script := list (result DispatchError json).

Definition caps : list Capability :=
  [mkCapability "fw.add" (version_new 1 0 0) None None
     (Some (mkCompensating "fw.remove" None)) false;
   mkCapability "fw.remove" (version_new 1 0 0) None None None true].

Definition reg : CapabilityRegistry := register "fw" caps ∅.

#[export] Instance script_dispatcher : BusDispatcher script := {|
  disp_registry := λ _, reg;
  disp_call := λ _ _ _ _ _ x,
    (hd (Ok (JObject [("success", JBool true)])) x, tail x);
|}.

#[export] Instance unit_dispatcher : BusDispatcher unit := {|
  disp_registry := λ _, reg;
  disp_call := λ _ _ _ _ _ x, (Ok (JObject [("success", JBool true)]), x);
|}.

Definition star : @version_req demo_semver := Star.
Definition ids (n : nat) : Uuid := "u" +:+ show_Z (Z.of_nat n).
Definition svc : Service := mkService None None.
Definition def (deps : list nat) : StepDef :=
  mkStepDef "fw.add" "^1" (Some "target://r1") None (JObject []) deps.

Definition empty {X} (x : X) : oworld :=
  mkOworld ∅ ∅ [] 0 ids 0 x [] [] [].

(** A plan of two steps, the second depending on the first; the plan is [u0] and
    its steps [u1] and [u2]. *)
Definition two {X} (x : X) (faults : list ofault) (deps0 : list nat) : oworld :=
  set_ofaults faults (create_plan svc None "demo" [def deps0; def [0%nat]] (empty x)).2.

Definition failed_reply : result DispatchError json :=
  Ok (jobj [("success", JBool false); ("error", JString "no such rule")]).
End SagaDemo.
Import DemoSemVer SagaDemo.

(** The second step fails, so the first is compensated. *)
Definition demo_run := run_plan svc "u0" (two [Ok JNull; failed_reply] [] []).

Lemma run_plan_saga_witness :
  ∃ order fwd extra back,
    deps_respected (steps_of "u0" (o_steps (two [Ok JNull; failed_reply] [] []))) ∅ order ∧
    o_log demo_run.2 = [] ++ fwd ++ extra ++ back ∧
    map call_capability (o_log demo_run.2) = ["fw.add"; "fw.add"; "fw.remove"].
Proof.
  destruct (run_plan_saga svc "u0" (two [Ok JNull; failed_reply] [] []) demo_run.2 PFailed)
    as (order & fwd & extra & back & _ & Hd & _ & _ & Hl & _).
  { apply run_split. vm_compute. reflexivity. }
  exists order, fwd, extra, back. split; [exact Hd|]. split; [exact Hl|].
  vm_compute. reflexivity.
Defined.

Lemma run_plan_success_witness :
  ∃ row, o_plans (run_plan svc "u0" (two tt [] [])).2 !! "u0" = Some row ∧
    pr_status row = "succeeded".
Proof.
  destruct (run_plan_success svc "u0" (two tt [] []) (run_plan svc "u0" (two tt [] [])).2)
    as [Hrow _]; [apply run_split; vm_compute; reflexivity|exact Hrow].
Defined.

(** The first step depends on itself. *)
Lemma run_plan_deadlock_witness :
  (run_plan svc "u0" (two tt [] [0%nat])).1 = Ok PFailed.
Proof.
  assert (steps_of "u0" (o_steps (two tt [] [0%nat])) !! 0%nat =
    Some (mkStep "u1" "u0" 0 "fw.add" "^1" (Some "target://r1") None (JObject []) ["u1"] None
      SPending None None None)) as H0 by (vm_compute; reflexivity).
  assert (map st_id (steps_of "u0" (o_steps (two tt [] [0%nat]))) = ["u1"; "u2"]) as Hids
    by (vm_compute; reflexivity).
  assert (is_ok (run_plan svc "u0" (two tt [] [0%nat])).1 = true) as Hok
    by (vm_compute; reflexivity).
  destruct (run_plan svc "u0" (two tt [] [0%nat])) as [[st|e] w'] eqn:Hrun; [|discriminate Hok].
  cbn [fst]. apply f_equal.
  apply (run_plan_deadlock svc "u0" (two tt [] [0%nat]) w' st (λ i, i = 0%nat));
    [|by exists 0%nat|exact Hrun].
  intros i ->. eexists _, "u1". split; [exact H0|]. split; [reflexivity|]. split; [left|].
  intros j s' Hj Hid. assert (map st_id (steps_of "u0" (o_steps (two tt [] [0%nat]))) !! j
    = Some "u1") as Hm by (rewrite list_lookup_fmap, Hj; simpl; by rewrite Hid).
  rewrite Hids in Hm. left. destruct j as [|[|j]]; [done|discriminate Hm|discriminate Hm].
Defined.

Lemma run_plan_live_witness : (run_plan svc "u0" (two tt [] [])).1 = Ok PSucceeded.
Proof.
  assert (steps_of "u0" (o_steps (two tt [] [])) =
    [mkStep "u1" "u0" 0 "fw.add" "^1" (Some "target://r1") None (JObject []) [] None
       SPending None None None;
     mkStep "u2" "u0" 1 "fw.add" "^1" (Some "target://r1") None (JObject []) ["u1"] None
       SPending None None None]) as Hsteps by (vm_compute; reflexivity).
  apply (run_plan_live svc "u0" (two tt [] [])).
  - intros from name req body t x. exists (JObject [("success", JBool true)]), x.
    split; reflexivity.
  - reflexivity.
  - apply not_eq_None_Some. vm_compute. discriminate.
  - rewrite Hsteps. intros [|[|i]] s d Hi Hd; [| |discriminate Hi]; injection Hi as <-.
    + by apply not_elem_of_nil in Hd.
    + apply list_elem_of_singleton in Hd as ->. exists 0%nat. eexists. split; [lia|].
      split; reflexivity.
  - rewrite Hsteps. intros s Hs. apply elem_of_cons in Hs as [->|Hs]; [split; reflexivity|].
    apply list_elem_of_singleton in Hs as ->. split; reflexivity.
Defined.

(** A lost acknowledgement of the commit: the caller is told of a failure, the
    plan is there. *)
Example lost_commit :
  let w := set_ofaults [OServed; OServed; OServed; OServed; OServed; OLost "closed"] (empty tt) in
  let '(r, w') := create_plan svc None "demo" [def []; def []] w in
  r = Err (OPg "closed") ∧ size (o_plans w') = 1%nat ∧ size (o_steps w') = 2%nat.
Proof. vm_compute. by repeat split. Qed.

(** The first step of {!two}, succeeded, about to be compensated. *)
Definition demo_step : Step :=
  mkStep "u1" "u0" 0 "fw.add" "^1" (Some "target://r1") None (JObject []) [] None
    SSucceeded None None None.

Lemma compensated_whatever_reply_witness :
  ∃ w' row', compensate_step demo_step (two [failed_reply] [] []) = (Ok true, w') ∧
    o_steps w' !! "u1" = Some row' ∧ sr_status row' = "compensated".
Proof.
  destruct (compensated_whatever_reply demo_step (two [failed_reply] [] [])
    (mkCompensating "fw.remove" None)
    (mkCall "orchestrator:u0:u1:compensate" "fw.remove" star
       (capability_body "fw.remove" "target://r1" (JObject [])))
    (jobj [("success", JBool false); ("error", JString "no such rule")]) []
    (step_row "u0" ["u1"; "u2"] 0 (def []))) as (w' & row' & Hr & Hrow & Hs & _).
  - vm_compute. reflexivity.
  - reflexivity.
  - reflexivity.
  - reflexivity.
  - vm_compute. reflexivity.
  - by exists w', row'.
Defined.

(** A database error in the middle of a run ends it without compensation and
    without a terminal status: here the first step's device call succeeds, the
    write that should record it fails, and the run returns the error with one
    call made, no compensating call, the step still [running] and the plan
    still [executing]. *)
Theorem run_plan_db_error_leaves_executing :
  let w := two [Ok JNull] [OServed; OServed; OServed; OPgFault "connection reset"] [] in
  let '(r, w') := run_plan svc "u0" w in
  r = Err (OPg "connection reset") ∧
  map call_capability (o_log w') = ["fw.add"] ∧
  (pr_status <$> o_plans w' !! "u0") = Some "executing" ∧
  (sr_status <$> o_steps w' !! "u1") = Some "running".
Proof. vm_compute. by repeat split. Qed.

(** Running the plan of {!run_plan_db_error_leaves_executing} again, after the
    first step's row was set to [succeeded] by hand, does not resume it: the
    second step waits for a step that is not run again, and the plan fails
    without a call. *)
Lemma rerun_does_not_resume :
  let w := two tt [] [] in
  let w := set_steps (alter (step_update SSucceeded None false 0) "u1" (o_steps w)) w in
  let '(r, w') := run_plan svc "u0" w in
  r = Ok PFailed ∧ o_log w' = [] ∧ (sr_status <$> o_steps w' !! "u2") = Some "pending".
Proof. vm_compute. exact (conj eq_refl (conj eq_refl eq_refl)). Qed.
