(* ===== verification/Param.v ===== *)
(** * daimon-driver: parameters, classes and verbs ([daimon-driver/src])

    [validate], the chokepoint every parameter passes before it is put into a
    command, path or OID; [parse_class]; the driver's typed results and
    errors. *)

From S2P Require Import Prelude RustStd Json.
From Stdlib Require Import ZArith Ascii.

(** ** Classes ([lib.rs]) *)

Inductive TargetClass := CCompute | CNetwork | CStorage | COrchestrator | CFirewall.

#[export] Instance TargetClass_eq_dec : EqDecision TargetClass.
Proof. solve_decision. Defined.

Definition FIREWALL_SUBSYSTEMS : list string :=
  ["firewall"; "routeros"; "fortigate"; "palo"; "paloalto"].

(** [parse_class]. *)
Definition parse_class (capability_name : string) : TargetClass :=
  let segments := split "."%char capability_name in
  let head := default "" (segments !! 0) in
  if string_eqb head "network" then
    let second := default "" (segments !! 1) in
    if existsb (string_eqb second) FIREWALL_SUBSYSTEMS then CFirewall else CNetwork
  else if string_eqb head "compute" then CCompute
  else if string_eqb head "storage" then CStorage
  else if string_eqb head "orchestrator" then COrchestrator
  else CCompute.

(** ** Parameter classes ([param.rs]) *)

Inductive ParamClass := SafeText | Cidr | Identifier | Int | Enum (allowed : list string).

Inductive ParamError :=
| PEmpty
| PDisallowedChar (ch : char) (class value : string)
| PMalformed (value class : string)
| PNotInEnum (value : string) (allowed : list string).

Definition safe_text_char (c : char) : bool :=
  is_ascii_alphanumeric c ||
  char_in c [" "; "."; "/"; "-"; "_"; ":"; "!"; "@"]%char.

Definition cidr_char (c : char) : bool :=
  is_ascii_hexdigit c || char_in c ["."; ":"; "/"]%char.

Definition identifier_char (c : char) : bool :=
  is_ascii_alphanumeric c || char_in c ["_"; "-"]%char.

(** [for c in value.chars() { if !ok { return Err(..) } }]. *)
Definition check_chars (p : char → bool) (class value : string) : result ParamError unit :=
  match find (λ c, negb (p c)) (chars value) with
  | Some c => Err (PDisallowedChar c class value)
  | None => Ok tt
  end.

Definition non_empty (value : string) : result ParamError unit :=
  if string_eqb value "" then Err PEmpty else Ok tt.

(** [validate]. *)
Definition validate (value : string) (class : ParamClass) : result ParamError unit :=
  match class with
  | SafeText => non_empty value ≫= λ _, check_chars safe_text_char "SafeText" value
  | Cidr =>
      non_empty value ≫= λ _,
      check_chars cidr_char "Cidr" value ≫= λ _,
      let '(addr, prefix) := match split_once "/"%char value with
                             | Some (a, p) => (a, Some p)
                             | None => (value, None)
                             end in
      if string_eqb addr "" then Err (PMalformed value "Cidr")
      else match prefix with
           | Some p =>
               match parse_u8 p with
               | Some n => if (n <=? 128)%Z then Ok tt else Err (PMalformed value "Cidr")
               | None => Err (PMalformed value "Cidr")
               end
           | None => Ok tt
           end
  | Identifier => non_empty value ≫= λ _, check_chars identifier_char "Identifier" value
  | Int => match parse_i64 value with Some _ => Ok tt | None => Err (PMalformed value "Int") end
  | Enum allowed =>
      if existsb (λ a, string_eqb a value) allowed then Ok tt
      else Err (PNotInEnum value allowed)
  end.

(** [Display for ParamError]; [debug_str] is the standard library's [Debug] text
    of a string (quotes and Unicode escapes). *)
Definition show_param_error (debug_str : string → string) (e : ParamError) : string :=
  match e with
  | PEmpty => "empty parameter is not allowed"
  | PDisallowedChar ch class value =>
      "value contains disallowed char `" +:+ ch +:+ "` for class " +:+ class +:+
      " (value=`" +:+ value +:+ "`)"
  | PMalformed value class => "value `" +:+ value +:+ "` is not a valid " +:+ class
  | PNotInEnum value allowed =>
      "value `" +:+ value +:+ "` is not one of the allowed enum members [" +:+
      string_concat (match map debug_str allowed with
                     | [] => []
                     | x :: l => x :: map (λ y, ", " +:+ y) l
                     end) +:+ "]"
  end.

(** ** Driver errors and typed results ([error.rs], [types.rs]) *)

Inductive DriverError :=
| DrvParam (e : ParamError)
| DrvUnsupported (msg : string)
| DrvBroker (msg : string)
| DrvParse (msg : string)
| DrvOther (msg : string).

Record TargetShape := mkShape {
  ts_class : TargetClass;
  ts_identity : json;
  ts_summary : string;
}.

Record StateDoc := mkStateDoc { sdoc_target : string; sdoc_doc : json }.

Inductive Severity := SevInfo | SevWarning | SevError | SevCritical.

Record Finding := mkFinding {
  fi_title : string;
  fi_severity : Severity;
  fi_detail : string;
  fi_suggested_capability : option string;
  fi_suggested_params : json;
}.

Record Receipt := mkReceipt { rc_capability : string; rc_changed : json }.

(** ** What an accepted value is made of *)

(** The bytes an accepted value of a character class may have. *)
Definition safe_byte (a : ascii) : bool :=
  byte_is_alphanumeric a ||
  bool_decide (a ∈ [" "; "."; "/"; "-"; "_"; ":"; "!"; "@"; "+"]%char).

(** The characters by which a value could break out of a command, a quoted
    string or a template slot: control characters, quotes, backslash and the
    shell metacharacters. *)
Definition meta_byte (a : ascii) : bool :=
  (byte_val a <? 32)%Z ||
  bool_decide (a ∈ [";"; "|"; "&"; "$"; "`"; "<"; ">"; "("; ")"; "{"; "}"; "["; "]"; "'";
                    "034"; "\"; "*"; "?"; "#"; "~"; "="; "%"; "^"; ","]%char).

Lemma safe_not_meta a : safe_byte a = true → meta_byte a = false.
Proof. by destruct a as [[] [] [] [] [] [] [] []]; vm_compute. Qed.

Lemma check_chars_ok p class value :
  check_chars p class value = Ok tt → Forall (λ c, p c = true) (chars value).
Proof.
  unfold check_chars. destruct (find _ (chars value)) as [c|] eqn:Hf; [done|]. intros _.
  apply Forall_forall. intros c Hc. apply list_elem_of_In in Hc.
  pose proof (List.find_none _ _ Hf c Hc) as Hn. simpl in Hn. by destruct (p c).
Qed.

Lemma ascii_class_or p l q :
  ascii_class p q → (∀ a, a ∈ l → q a = true) → ascii_class (λ c, p c || char_in c l) q.
Proof.
  intros Hp Hl c [Hc|Hc]%orb_true_iff; [by apply Hp|].
  destruct c as [|a [|b s]]; try done. exists a. split; [done|].
  apply Hl. by apply bool_decide_eq_true in Hc.
Qed.

Lemma alnum_safe : ascii_class is_ascii_alphanumeric safe_byte.
Proof.
  intros [|a [|b s]] Hc; try done. exists a. split; [done|].
  unfold safe_byte. simpl in Hc. by rewrite Hc.
Qed.

Lemma hex_safe : ascii_class is_ascii_hexdigit safe_byte.
Proof.
  intros [|a [|b s]] Hc; try done. exists a. split; [done|]. simpl in Hc. revert Hc.
  by destruct a as [[] [] [] [] [] [] [] []]; vm_compute.
Qed.

Lemma listed_safe (l : list ascii) :
  forallb safe_byte l = true → ∀ a, a ∈ l → safe_byte a = true.
Proof. intros Hl a Ha. rewrite forallb_elem in Hl. by apply Hl. Qed.

Lemma non_empty_ok v r :
  (non_empty v ≫= λ _, r) = Ok tt → r = Ok tt.
Proof. unfold non_empty. by destruct (string_eqb v ""). Qed.

(** Every byte of a value accepted for a character class is a safe byte. *)
Lemma validate_safe_bytes value class :
  validate value class = Ok tt → (∀ allowed, class ≠ Enum allowed) →
  Forall (λ a, safe_byte a = true) (bytes value).
Proof.
  intros Hv Hne. destruct class as [| | | |allowed]; simpl in Hv.
  - apply non_empty_ok, check_chars_ok in Hv. eapply chars_ascii_bytes; [|exact Hv].
    apply ascii_class_or; [apply alnum_safe|by apply listed_safe].
  - apply non_empty_ok in Hv. unfold mbind, result_bind in Hv.
    destruct (check_chars cidr_char "Cidr" value) as [[]|] eqn:Hc; [|done].
    apply check_chars_ok in Hc. eapply chars_ascii_bytes; [|exact Hc].
    apply ascii_class_or; [apply hex_safe|by apply listed_safe].
  - apply non_empty_ok, check_chars_ok in Hv. eapply chars_ascii_bytes; [|exact Hv].
    apply ascii_class_or; [apply alnum_safe|by apply listed_safe].
  - destruct (parse_i64 value) as [z|] eqn:Hz; [|done].
    apply parse_int_bytes in Hz. eapply Forall_impl; [exact Hz|].
    intros a. by destruct a as [[] [] [] [] [] [] [] []]; vm_compute.
  - by destruct (Hne allowed).
Qed.

(** The parameter chokepoint. A value that [validate] accepts contains no
    control character, quote, backslash, shell metacharacter or template brace,
    unless its class is an enumeration that lists the value itself. *)
Theorem validate_no_metachars value class :
  validate value class = Ok tt →
  (∃ allowed, class = Enum allowed ∧ value ∈ allowed) ∨
  ∀ a, a ∈ bytes value → meta_byte a = false.
Proof.
  intros Hv. destruct class as [| | | |allowed]; [right..|left].
  5: { simpl in Hv. destruct (existsb _ allowed) eqn:He; [|done].
       apply existsb_elem in He as (x & Hx & ->%string_eqb_eq). by exists allowed. }
  all: intros a Ha; apply safe_not_meta; eapply validate_safe_bytes in Hv; [|done].
  all: rewrite Forall_forall in Hv; by apply Hv.
Qed.

Lemma validate_no_metachars_witness :
  ∀ a, a ∈ bytes "block 10.0.0.1/24 by admin@noc" → meta_byte a = false.
Proof.
  destruct (validate_no_metachars "block 10.0.0.1/24 by admin@noc" SafeText)
    as [(allowed & He & _)|Hm]; [vm_compute; reflexivity|discriminate He|exact Hm].
Defined.
