(* ===== verification/Connector.v ===== *)
(** * daimon-driver: the declarative connector ([daimon-driver/src/connector.rs])

    A connector profile declares capabilities by data: parameter classes and an
    operation template. The driver validates every parameter, renders the
    template, sends the operation through the broker and turns the result into a
    bus reply. The TOML reader, serde's decoding of the request and the printer
    of JSON documents are parameters. *)

From S2P Require Import Prelude RustStd Json Core KillSwitch Policy Approvals Guard.
From S2P Require Import Inventory AuditLog Broker Param.
From Stdlib Require Import ZArith Ascii.

Local Open Scope Z_scope.

Definition DEFAULT_TIMEOUT_SECS : Z := 30.

(** ** Profiles *)

Record ProfileAuth := mkProfileAuth {
  pa_scheme : option string;
  pa_header : option string;
  pa_value : option string;
}.

(** [ProfileAuth::to_scheme]. *)
Definition to_scheme (a : ProfileAuth) : AuthScheme :=
  match pa_scheme a with
  | Some s =>
      if string_eqb s "none" then NoAuth
      else if string_eqb s "header" then
        match pa_header a, pa_value a with
        | Some h, Some v => Header h v
        | _, _ => Bearer
        end
      else Bearer
  | None => Bearer
  end.

Inductive ProfileTransport := PRest | PSsh | PSnmp.

(** The text form of a parameter class ([Deserialize for ProfileParamClass]). *)
Definition param_class_parse (s : string) : result string ParamClass :=
  if string_eqb s "safe_text" then Ok SafeText
  else if string_eqb s "cidr" then Ok Cidr
  else if string_eqb s "identifier" then Ok Identifier
  else if string_eqb s "int" then Ok Int
  else match strip_prefix "enum:" s with
       | Some members =>
           let variants := List.filter (λ m, negb (string_eqb m ""))
                             (map trim (split ","%char members)) in
           match variants with
           | [] => Err "enum: param class needs at least one member"
           | _ => Ok (Enum variants)
           end
       | None =>
           Err ("unknown param class `" +:+ s +:+
                "` (expected safe_text|cidr|identifier|int|enum:a,b,c)")
       end.

Record ProfileOp := mkProfileOp {
  po_method : HttpMethod;
  po_path : string;
  po_body : option json;
  po_command : option string;
  po_timeout_secs : option Z;
  po_oid : option string;
  po_walk : bool;
}.

Inductive ParseHint := ParseJson.

Section Profile.
Context `{SemVer}.

Record ProfileCapability := mkProfileCap {
  pc_name : string;
  pc_version : version;
  pc_description : option string;
  pc_compensating : option string;
  pc_irreversible : bool;
  pc_read_only : bool;
  pc_params : gmap string ParamClass;
  pc_op : ProfileOp;
  pc_parse : option ParseHint;
}.

(** [class] is read into {!TargetClass} directly: [ProfileClass] mirrors it. *)
Record ConnectorProfile := mkProfile {
  cp_name : string;
  cp_class : TargetClass;
  cp_transport : ProfileTransport;
  cp_auth : option ProfileAuth;
  cp_capabilities : list ProfileCapability;
}.
End Profile.

(** ** Errors *)

Inductive ConnectorError :=
| CIo (path source : string)
| CParse (path source : string)
| CUnknownCapability (c : string)
| CMissingParam (capability param : string)
| CUndeclaredParamClass (capability param : string)
| CParam (param : string) (source : ParamError)
| CBadTarget (t : string)
| CBroker (msg : string)
| CWrongOpResult (what : string)
| CBadProfile (msg : string)
| CCapabilityFailed (capability : string) (status : Z).

(** ** Substitution *)

(** [substitute]: the loop on [rest], with enough fuel for one slot per byte of
    the template. *)
Fixpoint substitute_fuel (fuel : nat) (capability : string) (validated : gmap string string)
    (rest : string) : result ConnectorError string :=
  match split_once "{"%char rest with
  | None => Ok rest
  | Some (before, after) =>
      match split_once "}"%char after with
      | None => Err (CMissingParam capability "<unterminated slot>")
      | Some (name, rest) =>
          match validated !! name with
          | None => Err (CMissingParam capability name)
          | Some value =>
              match fuel with
              | O => Ok ""
              | S fuel =>
                  tail ← substitute_fuel fuel capability validated rest;
                  Ok (before +:+ value +:+ tail)
              end
          end
      end
  end.

Definition substitute (template capability : string) (validated : gmap string string) :
    result ConnectorError string :=
  substitute_fuel (length (bytes template)) capability validated template.

(** [substitute_json]. *)
Fixpoint substitute_json (capability : string) (validated : gmap string string) (v : json) :
    result ConnectorError json :=
  match v with
  | JString s => JString <$> substitute s capability validated
  | JArray items =>
      JArray <$> (fix go l := match l with
                              | [] => Ok []
                              | x :: l =>
                                  y ← substitute_json capability validated x;
                                  ys ← go l;
                                  Ok (y :: ys)
                              end) items
  | JObject entries =>
      JObject <$> (fix go l := match l with
                               | [] => Ok []
                               | (k, x) :: l =>
                                   y ← substitute_json capability validated x;
                                   ys ← go l;
                                   Ok ((k, y) :: ys)
                               end) entries
  | other => Ok other
  end.

(** [render_http_op], [render_ssh_op], [render_snmp_op]. *)
Definition render_http_op (op : ProfileOp) (capability : string)
    (validated : gmap string string) (auth : AuthScheme) : result ConnectorError Op :=
  path ← substitute (po_path op) capability validated;
  body ← match po_body op with
         | Some v => Some <$> substitute_json capability validated v
         | None => Ok None
         end;
  Ok (Http (po_method op) path ∅ body auth).

Definition render_ssh_op (op : ProfileOp) (capability : string)
    (validated : gmap string string) (timeout_secs : Z) : result ConnectorError Op :=
  template ← ok_or (po_command op)
    (CBadProfile ("ssh capability `" +:+ capability +:+ "` has no `command` template"));
  command ← substitute template capability validated;
  Ok (ShellCommand command (default timeout_secs (po_timeout_secs op))).

Definition render_snmp_op (op : ProfileOp) (capability : string)
    (validated : gmap string string) : result ConnectorError Op :=
  template ← ok_or (po_oid op)
    (CBadProfile ("snmp capability `" +:+ capability +:+ "` has no `oid`"));
  oid ← substitute template capability validated;
  Ok (if po_walk op then SnmpWalk oid else SnmpGet oid).

(** [extract_param]. *)
Definition extract_param (params : json) (name : string) : option string :=
  match jget params name with
  | Some (JString s) => Some s
  | Some (JInt z) => Some (show_Z z)
  | Some (JFloat r) => Some r
  | Some (JBool b) => Some (if b then "true" else "false")
  | _ => None
  end.

(** The validation loop of [dispatch], over the declared parameters in key
    order. *)
Fixpoint validate_params (capability : string) (params : json)
    (decl : list (string * ParamClass)) (acc : gmap string string) :
    result ConnectorError (gmap string string) :=
  match decl with
  | [] => Ok acc
  | (pname, pclass) :: decl =>
      raw ← ok_or (extract_param params pname) (CMissingParam capability pname);
      _ ← map_err (CParam pname) (validate raw pclass);
      validate_params capability params decl (<[pname := raw]> acc)
  end.

(** ** Results *)

Definition snmp_json (v : SnmpValue) : json :=
  match v with
  | SInt z | SUInt z => JInt z
  | SString s | SOid s => JString s
  end.

(** [parse_result]: success, raw status, payload. *)
Definition parse_result (hint : option ParseHint) (r : OpResult) :
    result ConnectorError (bool * Z * json) :=
  match r with
  | RHttp status body _ => Ok ((200 <=? status) && (status <=? 299), status, body)
  | RStructured doc => Ok (true, 0, doc)
  | RShell stdout stderr exit_status =>
      Ok (exit_status =? 0, exit_status,
          jobj [("stdout", JString stdout); ("stderr", JString stderr);
                ("exit_status", JInt exit_status)])
  | RSnmp values =>
      Ok (true, 0, JObject (map (λ kv, (kv.1, snmp_json kv.2)) (btree_iter values)))
  | RSnmpSetAck => Err (CWrongOpResult "SnmpSetAck")
  end.

Record ConnectorOutput := mkOutput {
  out_capability : string;
  out_success : bool;
  out_status : Z;
  out_payload : json;
}.

Record ConnectorReply := mkReply {
  rep_success : bool;
  rep_output : option (string * string * Z);   (** stdout, stderr, exit_status *)
  rep_error : option string;
}.

Section Reply.
(** [serde_json::to_string]. *)
Variable json_to_string : json → string.

(** The two output streams of [ConnectorReply::from_output]. *)
Definition reply_streams (payload : json) : string * string :=
  match payload with
  | JObject o =>
      match assoc "stdout" o, assoc "stderr" o with
      | None, None => (json_to_string (JObject o), "")
      | so, se => (default "" (so ≫= as_str), default "" (se ≫= as_str))
      end
  | JString s => (s, "")
  | other => (json_to_string other, "")
  end.

(** [ConnectorReply::from_output]. *)
Definition from_output (out : ConnectorOutput) : ConnectorReply :=
  let '(stdout, stderr) := reply_streams (out_payload out) in
  let exit_status :=
    if out_success out then 0 else if out_status out =? 0 then 1 else out_status out in
  let error :=
    if out_success out then None
    else if negb (string_eqb (trim stderr) "") then Some stderr
    else Some ("capability `" +:+ out_capability out +:+ "` failed (status " +:+
               show_Z (out_status out) +:+ ")") in
  mkReply (out_success out) (Some (stdout, stderr, exit_status)) error.

Lemma from_output_honest out :
  let reply := from_output out in
  rep_success reply = out_success out ∧
  (rep_error reply = None ↔ out_success out = true) ∧
  ∃ so se x, rep_output reply = Some (so, se, x) ∧ (x = 0 ↔ out_success out = true).
Proof.
  unfold from_output. destruct (reply_streams (out_payload out)) as [so se]. simpl.
  split; [done|]. destruct (out_success out); [split; [done|by exists so, se, 0]|].
  split; [by case_match|]. exists so, se. eexists. split; [done|].
  split; [|done]. destruct (out_status out =? 0) eqn:Hz; lia.
Qed.
End Reply.

(** [ConnectorReply::err]. *)
Definition reply_err (msg : string) : ConnectorReply := mkReply false None (Some msg).

(** [serde_json::to_value] of a reply: absent fields are skipped. *)
Definition reply_json (r : ConnectorReply) : json :=
  jobj (("success", JBool (rep_success r)) ::
        match rep_output r with
        | Some (so, se, x) =>
            [("output", jobj [("stdout", JString so); ("stderr", JString se);
                              ("exit_status", JInt x)])]
        | None => []
        end ++
        match rep_error r with Some e => [("error", JString e)] | None => [] end).

(** ** Capabilities *)

(** [class_slug]. *)
Definition class_slug (c : TargetClass) : string :=
  match c with
  | CCompute => "compute"
  | CNetwork => "network"
  | CStorage => "storage"
  | COrchestrator => "orchestrator"
  | CFirewall => "firewall"
  end.

(** [schema_from_params]. *)
Definition schema_from_params (params : gmap string ParamClass) : json :=
  let entries := btree_iter params in
  jobj [("type", JString "object");
        ("required", JArray (map (λ kv, JString kv.1) entries));
        ("properties", jobj (map (λ kv,
           (kv.1, jobj [("type", JString (match kv.2 with Int => "integer" | _ => "string" end))]))
           entries))].

Section Connector.
Context `{SemVer} {I V D : Type} `{Inventory I} `{VaultClient V}.
Abbreviation bw := (bworld I V D).
Abbreviation cio := (io bw ConnectorError).

(** [project_capability]. *)
Definition project_capability (cap : ProfileCapability) : Capability :=
  if pc_read_only cap then read_only (pc_name cap) (pc_version cap)
  else mkCapability (pc_name cap) (pc_version cap) (pc_description cap)
         (Some (schema_from_params (pc_params cap)))
         ((λ n, mkCompensating n None) <$> pc_compensating cap) (pc_irreversible cap).

Record DeclaredCap := mkDeclared {
  dc_cap : ProfileCapability;
  dc_auth : AuthScheme;
  dc_transport : ProfileTransport;
}.

Record ConnectorDriver := mkDriver {
  cd_id : AgentId;
  cd_class : TargetClass;
  cd_capabilities : list Capability;
  cd_declared : gmap string DeclaredCap;
  cd_actor_id : string;
}.

(** One profile of the loop of [from_profiles]; a profile of another class is
    skipped. *)
Definition load_profile (class : TargetClass)
    (st : list Capability * gmap string DeclaredCap) (p : ConnectorProfile) :
    list Capability * gmap string DeclaredCap :=
  if bool_decide (cp_class p = class) then
    let auth := match cp_auth p with Some a => to_scheme a | None => Bearer end in
    fold_left (λ st cap,
      (st.1 ++ [project_capability cap],
       <[pc_name cap := mkDeclared cap auth (cp_transport p)]> st.2)) (cp_capabilities p) st
  else st.

(** [ConnectorDriver::from_profiles]. *)
Definition from_profiles (id : AgentId) (profiles : list ConnectorProfile) (actor_id : string) :
    ConnectorDriver :=
  let class := match profiles with p :: _ => cp_class p | [] => CCompute end in
  let '(caps, declared) := fold_left (load_profile class) profiles ([], ∅) in
  mkDriver id class caps declared actor_id.

(** The grouping of [from_dir]: a profile joins the group of its class, or opens
    one at the end. *)
Fixpoint add_to_group (p : ConnectorProfile)
    (groups : list (TargetClass * list ConnectorProfile)) :
    list (TargetClass * list ConnectorProfile) :=
  match groups with
  | [] => [(cp_class p, [p])]
  | (c, ps) :: groups =>
      if bool_decide (c = cp_class p) then (c, ps ++ [p]) :: groups
      else (c, ps) :: add_to_group p groups
  end.

Definition group_by_class (profiles : list ConnectorProfile) :
    list (TargetClass * list ConnectorProfile) :=
  fold_left (λ gs p, add_to_group p gs) profiles [].

(** A directory entry: its path, whether its extension is [toml], and what
    reading it gives. *)
Record dir_entry := mkDirEntry {
  de_path : string;
  de_toml : bool;
  de_text : result string string;
}.

(** The reading loop of [from_dir]; an entry that cannot be read or parsed ends
    it. *)
Fixpoint load_entries (toml_parse : string → result string ConnectorProfile)
    (dir : string) (entries : list (result string dir_entry)) :
    result ConnectorError (list ConnectorProfile) :=
  match entries with
  | [] => Ok []
  | Err e :: _ => Err (CIo dir e)
  | Ok entry :: entries =>
      if negb (de_toml entry) then load_entries toml_parse dir entries
      else
        text ← map_err (CIo (de_path entry)) (de_text entry);
        p ← map_err (CParse (de_path entry)) (toml_parse text);
        ps ← load_entries toml_parse dir entries;
        Ok (p :: ps)
  end.

(** [ConnectorDriver::from_dir]; [listing] is absent when the directory is. *)
Definition from_dir (toml_parse : string → result string ConnectorProfile)
    (id_prefix dir : string) (listing : option (result string (list (result string dir_entry))))
    (actor_id : string) : result ConnectorError (list ConnectorDriver) :=
  match listing with
  | None => Ok []
  | Some listing =>
      entries ← map_err (CIo dir) listing;
      profiles ← load_entries toml_parse dir entries;
      Ok (map (λ g, from_profiles (id_prefix +:+ ":" +:+ class_slug g.1) g.2 actor_id)
            (group_by_class profiles))
  end.

(** ** Dispatch *)

Definition render_op (d : DeclaredCap) (capability : string) (validated : gmap string string)
    (timeout_secs : Z) : result ConnectorError Op :=
  match dc_transport d with
  | PRest => render_http_op (pc_op (dc_cap d)) capability validated (dc_auth d)
  | PSsh => render_ssh_op (pc_op (dc_cap d)) capability validated timeout_secs
  | PSnmp => render_snmp_op (pc_op (dc_cap d)) capability validated
  end.

Definition show_target_error (e : TargetRefParseError) : string :=
  match e with
  | TMissingScheme => "target ref must begin with `target://`"
  | TEmptyName => "target ref name is empty"
  | TInvalidShape => "target ref must be a single name segment (no slashes)"
  end.

(** The request [dispatch] submits to the broker. *)
Definition connector_request (drv : ConnectorDriver) (actor_id capability target_ref : string)
    (params : json) (timeout_secs : Z) : result ConnectorError (ExecRequest * DeclaredCap) :=
  d ← ok_or (cd_declared drv !! capability) (CUnknownCapability capability);
  validated ← validate_params capability params (btree_iter (pc_params (dc_cap d))) ∅;
  op ← render_op d capability validated timeout_secs;
  target ← map_err (λ e, CBadTarget (show_target_error e)) (target_parse target_ref);
  Ok (with_capability_meta (project_capability (dc_cap d)) (exec_new actor_id target op), d).

(** [ConnectorDriver::dispatch]. *)
Definition connector_dispatch (b : Broker) (drv : ConnectorDriver)
    (actor_id capability target_ref : string) (params : json) (timeout_secs : Z) :
    cio ConnectorOutput :=
  lift (connector_request drv actor_id capability target_ref params timeout_secs) ≫= λ rd,
  io_map_err (λ e, CBroker (show_broker_error e)) (execute b rd.1) ≫= λ op_result,
  lift (parse_result (pc_parse (dc_cap rd.2)) op_result) ≫= λ spp,
  let '(success, status, payload) := spp in
  mret (mkOutput capability success status payload).

(** ** The driver verbs *)

(** The [Display] of a connector error, needed by the fallback of
    [From<ConnectorError> for DriverError] and by the bus reply; [debug_str] is
    the standard library's [Debug] text of a string. *)
Variable debug_str : string → string.

Definition show_connector_error (e : ConnectorError) : string :=
  match e with
  | CIo p s => "io reading connector dir `" +:+ p +:+ "`: " +:+ s
  | CParse p s => "parse profile `" +:+ p +:+ "`: " +:+ s
  | CUnknownCapability c => "unknown capability `" +:+ c +:+ "`"
  | CMissingParam c p =>
      "missing required param `" +:+ p +:+ "` for capability `" +:+ c +:+ "`"
  | CUndeclaredParamClass c p =>
      "param `" +:+ p +:+ "` has no declared class in capability `" +:+ c +:+
      "` — a `{param}` slot cannot be substituted without a class (injection chokepoint)"
  | CParam p s => "parameter validation for `" +:+ p +:+ "`: " +:+ show_param_error debug_str s
  | CBadTarget t => "invalid target_ref `" +:+ t +:+ "`"
  | CBroker m => "broker: " +:+ m
  | CWrongOpResult w => "unexpected OpResult variant: " +:+ w
  | CBadProfile m => "malformed connector profile: " +:+ m
  | CCapabilityFailed c s =>
      "capability `" +:+ c +:+ "` failed (status " +:+ show_Z s +:+ ")"
  end.

(** [From<ConnectorError> for DriverError]. *)
Definition to_driver_error (e : ConnectorError) : DriverError :=
  match e with
  | CParam _ source => DrvParam source
  | CBroker m => DrvBroker m
  | CUnknownCapability m => DrvUnsupported m
  | CWrongOpResult m => DrvParse m
  | other => DrvOther (show_connector_error other)
  end.

Definition show_class (c : TargetClass) : string :=
  match c with
  | CCompute => "Compute" | CNetwork => "Network" | CStorage => "Storage"
  | COrchestrator => "Orchestrator" | CFirewall => "Firewall"
  end.

(** [describe]. *)
Definition describe (drv : ConnectorDriver) (target : string) : TargetShape :=
  mkShape (cd_class drv) (jobj [("target", JString target)])
    (show_class (cd_class drv) +:+ " connector target " +:+ target).

(** [read_state]. *)
Definition read_state (b : Broker) (drv : ConnectorDriver) (target : string) (selector : json) :
    io bw DriverError StateDoc :=
  lift (ok_or (jget selector "capability" ≫= as_str)
          (DrvUnsupported "read_state selector must carry a `capability` field")) ≫= λ capability,
  let params := default (JObject []) (jget selector "params") in
  io_map_err to_driver_error
    (connector_dispatch b drv (cd_actor_id drv) capability target params DEFAULT_TIMEOUT_SECS)
    ≫= λ out,
  mret (mkStateDoc target (jobj [("capability", JString (out_capability out));
                                 ("status", JInt (out_status out));
                                 ("result", out_payload out)])).

(** [diagnose]. *)
Definition diagnose (drv : ConnectorDriver) (symptom : string) : list Finding :=
  [mkFinding ("connector `" +:+ cd_id drv +:+ "` has no built-in diagnostics") SevInfo
     ("symptom `" +:+ symptom +:+ "`: use the read capabilities to gather state")
     None (JObject [])].

(** [remediate]. *)
Definition remediate (b : Broker) (drv : ConnectorDriver) (target capability : string)
    (params : json) : io bw DriverError Receipt :=
  io_map_err to_driver_error
    (connector_dispatch b drv (cd_actor_id drv) capability target params DEFAULT_TIMEOUT_SECS)
    ≫= λ out,
  if negb (out_success out)
  then throw (to_driver_error (CCapabilityFailed capability (out_status out)))
  else mret (mkReceipt capability
               (jobj [("target", JString target); ("params", params);
                      ("status", JInt (out_status out)); ("result", out_payload out)])).

(** ** The bus adapter *)

Record ConnectorRequest := mkRequest {
  cr_capability : string;
  cr_target_ref : string;
  cr_timeout_secs : option Z;
  cr_params : option json;
}.

(** serde's decoding of a request body, and the printer of JSON documents. *)
Variable decode_request : json → result string ConnectorRequest.
Variable json_to_string : json → string.

(** [Agent::handle]: the envelope sent back, at time [now]. *)
Definition connector_handle (b : Broker) (drv : ConnectorDriver) (env : AgentEnvelope) (now : Z)
    (w : bw) : AgentEnvelope * bw :=
  match decode_request (env_body env) with
  | Err e =>
      (reply_to env now (cd_id drv) (reply_json (reply_err ("invalid request: " +:+ e))), w)
  | Ok req =>
      let timeout_secs := default DEFAULT_TIMEOUT_SECS (cr_timeout_secs req) in
      let params := default (JObject []) (cr_params req) in
      let '(r, w') := connector_dispatch b drv (env_from env) (cr_capability req)
                        (cr_target_ref req) params timeout_secs w in
      let reply := match r with
                   | Ok out => from_output json_to_string out
                   | Err e => reply_err (show_connector_error e)
                   end in
      (reply_to env now (cd_id drv) (reply_json reply), w')
  end.

(** ** Properties: substitution *)

(** What a template means: literal text, and slots replaced by the values of
    their names. *)
Inductive renders (vals : gmap string string) : string → string → Prop :=
| renders_end rest : "{"%char ∉ bytes rest → renders vals rest rest
| renders_slot lit name v rest out :
    "{"%char ∉ bytes lit → "}"%char ∉ bytes name → vals !! name = Some v →
    renders vals rest out →
    renders vals (lit +:+ String "{" (name +:+ String "}" rest)) (lit +:+ v +:+ out).

Lemma substitute_fuel_renders fuel cap vals t out :
  (length (bytes t) ≤ fuel)%nat →
  substitute_fuel fuel cap vals t = Ok out ↔ renders vals t out.
Proof.
  revert t out; induction fuel as [fuel IH] using lt_wf_ind; intros t out Hlen. split.
  - destruct fuel as [|fuel]; cbn [substitute_fuel];
      destruct (split_once "{"%char t) as [[lit after]|] eqn:Ho.
    2, 4: intros [= <-]; apply renders_end; by apply split_once_None.
    all: apply split_once_Some in Ho as [-> Hlit];
      rewrite bytes_app, length_app in Hlen; simpl in Hlen.
    1: lia.
    destruct (split_once "}"%char after) as [[name rest]|] eqn:Hcl; [|done].
    apply split_once_Some in Hcl as [-> Hname].
    destruct (vals !! name) as [v|] eqn:Hv; [|done].
    rewrite bytes_app, length_app in Hlen; simpl in Hlen.
    destruct (substitute_fuel fuel cap vals rest) as [tail|] eqn:Hs; simpl; [|done].
    intros [= <-]. apply renders_slot; [done..|]. apply (IH fuel); [lia|lia|done].
  - inversion 1 as [rest Hr|lit name v rest out' Hlit Hname Hv Hr]; subst.
    + destruct fuel; cbn [substitute_fuel]; by rewrite (proj2 (split_once_None _ _) Hr).
    + rewrite bytes_app, length_app in Hlen. simpl in Hlen.
      rewrite bytes_app, length_app in Hlen. simpl in Hlen.
      destruct fuel as [|fuel]; [lia|]. cbn [substitute_fuel].
      rewrite !split_once_app by done. rewrite Hv.
      by rewrite (proj2 (IH fuel ltac:(lia) rest out' ltac:(lia)) Hr).
Qed.

(** Template substitution is exactly the intended one: [substitute] returns
    a text iff every slot of the template is closed and has a validated value,
    and then the text is the template with the values in the slots' places. *)
Theorem substitute_spec template cap vals out :
  substitute template cap vals = Ok out ↔ renders vals template out.
Proof. apply substitute_fuel_renders. lia. Qed.

(** Every byte of a rendered text comes from the template or from a value. *)
Lemma renders_bytes vals t out a :
  renders vals t out → a ∈ bytes out →
  a ∈ bytes t ∨ ∃ k v, vals !! k = Some v ∧ a ∈ bytes v.
Proof.
  induction 1 as [rest Hr|lit name v rest out Hlit Hname Hv Hr IH]; [by left|].
  rewrite !bytes_app, !elem_of_app. simpl. rewrite elem_of_cons, bytes_app, elem_of_app.
  simpl. rewrite elem_of_cons. intros [?|[?|Hout]]; [by auto|by right; eauto|].
  destruct (IH Hout) as [?|?]; auto 6.
Qed.

(** A text cut into what the template says and what fills its slots. *)
Inductive piece := Lit (text : string) | Slot (name value : string).

(** The template the pieces come from, and the text they make. *)
Definition piece_template (p : piece) : string :=
  match p with Lit t => t | Slot name _ => "{" +:+ name +:+ "}" end.
Definition piece_text (p : piece) : string :=
  match p with Lit t => t | Slot _ value => value end.

Definition template_of (ps : list piece) : string := string_concat (map piece_template ps).
Definition text_of (ps : list piece) : string := string_concat (map piece_text ps).

(** The literal text has no slot of its own, and no slot's name a closing
    brace: the pieces are the slots of the template. *)
Definition piece_ok (p : piece) : Prop :=
  match p with Lit t => "{"%char ∉ bytes t | Slot name _ => "}"%char ∉ bytes name end.

Lemma renders_pieces vals t out :
  renders vals t out →
  ∃ ps, t = template_of ps ∧ out = text_of ps ∧ Forall piece_ok ps ∧
    ∀ name v, Slot name v ∈ ps → vals !! name = Some v.
Proof.
  induction 1 as [rest Hr|lit name v rest out Hlit Hname Hv Hr (ps & -> & -> & Hok & Hvals)].
  - exists [Lit rest]. unfold template_of, text_of. simpl. rewrite string_app_nil_r.
    do 2 (split; [done|]). split; [by repeat constructor|].
    by intros name v ?%list_elem_of_singleton.
  - exists (Lit lit :: Slot name v :: ps). unfold template_of, text_of. simpl.
    split; [by rewrite <- !string_app_assoc|]. split; [done|]. split; [by repeat constructor|].
    intros name' v' [?|[[= -> ->]|?]%elem_of_cons]%elem_of_cons; [done|done|by apply Hvals].
Qed.

(** ** Properties: validation *)

Lemma validate_params_ok cap params decl acc validated :
  validate_params cap params decl acc = Ok validated →
  ∀ k v, validated !! k = Some v → acc !! k = Some v ∨
    ∃ c, (k, c) ∈ decl ∧ extract_param params k = Some v ∧ validate v c = Ok tt.
Proof.
  revert acc; induction decl as [|[pname pclass] decl IH]; intros acc; simpl.
  { intros [= <-] k v Hk. by left. }
  unfold mbind, result_bind. destruct (extract_param params pname) as [raw|] eqn:Hex; simpl; [|done].
  destruct (validate raw pclass) as [[]|e] eqn:Hval; simpl; [|done].
  intros Hr k v Hk. destruct (IH _ Hr k v Hk) as [Hacc|(c & Hc & Hv)].
  - rewrite lookup_insert in Hacc. case_decide; [|by left]. simplify_eq. right.
    exists pclass. split; [left|done].
  - right. exists c. split; [by right|done].
Qed.

(** What may fill a slot of a capability: the value the caller passed under the
    slot's name, of the class the profile declares for it. It is one of the
    members the profile lists when the class is an enumeration, and otherwise has
    no metacharacter at all. *)
Definition slot_ok (d : DeclaredCap) (params : json) (name value : string) : Prop :=
  extract_param params name = Some value ∧
  ∃ class, pc_params (dc_cap d) !! name = Some class ∧
    match class with
    | Enum allowed => value ∈ allowed
    | _ => ∀ a, a ∈ bytes value → meta_byte a = false
    end.

Lemma validated_slot_ok d cap params validated name value :
  validate_params cap params (btree_iter (pc_params (dc_cap d))) ∅ = Ok validated →
  validated !! name = Some value → slot_ok d params name value.
Proof.
  intros Hval Hk. destruct (validate_params_ok _ _ _ _ _ Hval _ _ Hk) as [He|(c & Hc & Hex & Hok)].
  { by rewrite lookup_empty in He. }
  apply elem_of_btree_iter in Hc. split; [done|]. exists c. split; [done|].
  destruct c as [| | | |allowed].
  5: { simpl in Hok. destruct (existsb _ allowed) eqn:He; [|done].
       by apply existsb_elem in He as (x & Hx & ->%string_eqb_eq). }
  all: intros a Ha; apply safe_not_meta; eapply validate_safe_bytes in Hok; [|done];
    rewrite Forall_forall in Hok; by apply Hok.
Qed.

(** The request a dispatch submits: its operation is rendered from validated
    parameters. *)
Lemma connector_request_ok drv actor cap target params t req d :
  connector_request drv actor cap target params t = Ok (req, d) →
  cd_declared drv !! cap = Some d ∧
  ∃ validated, validate_params cap params (btree_iter (pc_params (dc_cap d))) ∅ = Ok validated ∧
    render_op d cap validated t = Ok (rq_op req) ∧ rq_actor_id req = actor ∧
    rq_capability_meta req = Some (project_capability (dc_cap d)).
Proof.
  unfold connector_request, mbind, result_bind.
  destruct (cd_declared drv !! cap) as [d'|] eqn:Hd; simpl; [|done].
  destruct (validate_params _ _ _ _) as [validated|] eqn:Hv; [|done].
  destruct (render_op d' cap validated t) as [op|] eqn:Ho; [|done].
  destruct (target_parse target) as [tr|]; simpl; [|done]. intros [= <- <-].
  split; [done|]. by exists validated.
Qed.

(** C19: no command injection through the connector. Whatever parameters a caller
    supplies, if a dispatch makes a shell call on a device, the command line is the
    profile's command template for this capability with its slots filled, and
    nothing else: it is cut into the template's own text, piece by piece, and slot
    values. Each value is what the caller passed under the slot's name, and is a
    member of the enumeration the profile declares for it or has no control
    character, quote, backslash, brace, bracket or other shell metacharacter. *)
Theorem connector_no_injection b drv actor cap target params t w r w' tgt cmd secs cred :
  connector_dispatch b drv actor cap target params t w = (r, w') →
  b_calls w' = b_calls w ++ [(tgt, ShellCommand cmd secs, cred)] →
  ∃ d ps, cd_declared drv !! cap = Some d ∧
    po_command (pc_op (dc_cap d)) = Some (template_of ps) ∧ cmd = text_of ps ∧
    Forall piece_ok ps ∧ ∀ name value, Slot name value ∈ ps → slot_ok d params name value.
Proof.
  unfold connector_dispatch. intros Hrun Hcalls.
  destruct (connector_request drv actor cap target params t) as [[req d]|e] eqn:Hreq; last first.
  { exfalso. unfold lift, mbind, io_bind in Hrun. simplify_eq.
    by apply (f_equal length) in Hcalls; rewrite length_app in Hcalls; simpl in Hcalls; lia. }
  rewrite (io_bind_run_ok _ _ _ (req, d) w) in Hrun by done. cbn [fst snd] in Hrun.
  assert (b_calls w' = b_calls (execute b req w).2) as Hc.
  { revert Hrun. unfold io_map_err, lift, mbind, io_bind, mret, io_ret.
    destruct (execute b req w) as [[res|e] w1]; simpl; [|by intros [= <- <-]].
    destruct (parse_result _ res) as [[[s st] p]|e]; by intros [= <- <-]. }
  rewrite Hc in Hcalls. pose proof (execute_calls b req w) as [He|(call & He & Hop)].
  { exfalso. rewrite He in Hcalls. apply (f_equal length) in Hcalls.
    rewrite length_app in Hcalls. simpl in Hcalls. lia. }
  rewrite He in Hcalls. simplify_list_eq. apply connector_request_ok in Hreq
    as (Hd & validated & Hval & Hrender & _). exists d. rewrite <- Hop in Hrender.
  unfold render_op in Hrender. destruct (dc_transport d).
  - exfalso. unfold render_http_op, mbind, result_bind in Hrender. by repeat case_match.
  - unfold render_ssh_op, mbind, result_bind in Hrender.
    destruct (po_command (pc_op (dc_cap d))) as [template|]; simpl in Hrender; [|done].
    destruct (substitute template cap validated) as [command|] eqn:Hs; [|done].
    injection Hrender as <- _. apply substitute_fuel_renders in Hs; [|done].
    destruct (renders_pieces _ _ _ Hs) as (ps & -> & -> & Hok & Hvals). exists ps.
    do 4 (split; [done|]). intros name value Hin. by eapply validated_slot_ok, Hvals.
  - exfalso. unfold render_snmp_op, mbind, result_bind in Hrender. by repeat case_match.
Qed.

(** ** Properties: honesty *)

(** What counts as success on each transport. *)
Definition op_succeeded (r : OpResult) : bool :=
  match r with
  | RHttp status _ _ => (200 <=? status) && (status <=? 299)
  | RShell _ _ exit_status => exit_status =? 0
  | _ => true
  end.

(** Results are reported as they are. A dispatch that returns an output got
    an operation result from the broker; the output, the bus reply built from
    it, its error text and its exit status all say success exactly when the
    device did (HTTP 2xx, exit status 0). *)
Theorem connector_honest b drv actor cap target params t w out w' :
  connector_dispatch b drv actor cap target params t w = (Ok out, w') →
  ∃ req d r, connector_request drv actor cap target params t = Ok (req, d) ∧
    (execute b req w).1 = Ok r ∧ out_success out = op_succeeded r ∧
    let reply := from_output json_to_string out in
    rep_success reply = op_succeeded r ∧
    (rep_error reply = None ↔ op_succeeded r = true) ∧
    ∃ so se x, rep_output reply = Some (so, se, x) ∧ (x = 0 ↔ op_succeeded r = true).
Proof.
  unfold connector_dispatch. intros Hrun.
  destruct (connector_request drv actor cap target params t) as [[req d]|e] eqn:Hreq;
    [|unfold lift, mbind, io_bind in Hrun; done].
  rewrite (io_bind_run_ok _ _ _ (req, d) w) in Hrun by done. cbn [fst snd] in Hrun.
  revert Hrun. unfold io_map_err, lift, mbind, io_bind, mret, io_ret.
  destruct (execute b req w) as [[r|e] w1] eqn:He; simpl; [|done].
  destruct (parse_result _ r) as [[[s st] p]|e] eqn:Hp; [|done]. intros [= <- <-].
  exists req, d, r. rewrite He.
  assert (s = op_succeeded r) as -> by (by destruct r; simplify_eq/=).
  do 3 (split; [done|]).
  exact (from_output_honest json_to_string (mkOutput cap (op_succeeded r) st p)).
Qed.

(** ** Properties: loading *)

Lemma add_to_group_perm p gs :
  concat (add_to_group p gs).*2 ≡ₚ p :: concat gs.*2.
Proof.
  induction gs as [|[c ps] gs IH]; simpl; [done|]. case_bool_decide; simpl.
  - rewrite <- app_assoc. simpl. symmetry. apply Permutation_middle.
  - rewrite IH. symmetry. apply Permutation_middle.
Qed.

Definition grouped (gs : list (TargetClass * list ConnectorProfile)) : Prop :=
  NoDup gs.*1 ∧ ∀ c ps, (c, ps) ∈ gs → ps ≠ [] ∧ ∀ p, p ∈ ps → cp_class p = c.

Lemma add_to_group_classes p gs c :
  c ∈ (add_to_group p gs).*1 ↔ c = cp_class p ∨ c ∈ gs.*1.
Proof.
  induction gs as [|[c' ps] gs IH]; simpl.
  - rewrite list_elem_of_singleton. split; [by left|]. intros [?|Hn]; [done|].
    by apply not_elem_of_nil in Hn.
  - case_bool_decide as Hc; simpl; rewrite !elem_of_cons; [|rewrite IH]; naive_solver.
Qed.

Lemma add_to_group_grouped p gs : grouped gs → grouped (add_to_group p gs).
Proof.
  induction gs as [|[c ps] gs IH]; intros [Hn Hg].
  - split; [apply NoDup_singleton|]. intros c ps Hin. apply list_elem_of_singleton in Hin.
    simplify_eq. split; [done|]. intros p' Hp'. by apply list_elem_of_singleton in Hp' as ->.
  - assert (grouped gs) as Hgs.
    { split; [by apply NoDup_cons in Hn as [_ ?]|]. intros. apply Hg. by right. }
    simpl. case_bool_decide as Hc.
    + subst c. split; [done|]. intros c' ps' [Heq|Hin]%elem_of_cons; [|apply Hg; by right].
      simplify_eq. split; [by destruct ps|]. intros p' [Hp'|Hp']%elem_of_app.
      * eapply Hg; [left|done].
      * by apply list_elem_of_singleton in Hp' as ->.
    + destruct (IH Hgs) as [Hn' Hg']. split.
      * simpl. apply NoDup_cons. split; [|done]. rewrite add_to_group_classes.
        apply NoDup_cons in Hn as [Hn _]. naive_solver.
      * intros c' ps' [Heq|Hin]%elem_of_cons; [|by apply Hg'].
        simplify_eq. eapply Hg. left.
Qed.

Lemma group_by_class_spec profiles gs :
  grouped gs →
  grouped (fold_left (λ gs p, add_to_group p gs) profiles gs) ∧
  concat (fold_left (λ gs p, add_to_group p gs) profiles gs).*2 ≡ₚ concat gs.*2 ++ profiles.
Proof.
  revert gs; induction profiles as [|p profiles IH]; intros gs Hg; simpl.
  { by rewrite app_nil_r. }
  destruct (IH _ (add_to_group_grouped p gs Hg)) as [Hg' Hp]. split; [done|].
  rewrite Hp, add_to_group_perm. simpl. apply Permutation_middle.
Qed.

Lemma load_profile_caps class caps declared p name :
  cp_class p = class → (is_Some (declared !! name) ∨
    ∃ cap, cap ∈ cp_capabilities p ∧ pc_name cap = name) →
  is_Some ((load_profile class (caps, declared) p).2 !! name).
Proof.
  intros Hc. unfold load_profile. rewrite bool_decide_eq_true_2 by done.
  generalize (match cp_auth p with Some a => to_scheme a | None => Bearer end) as auth.
  intros auth. generalize (cp_transport p) as tr. intros tr.
  revert caps declared; induction (cp_capabilities p) as [|cap l IH]; intros caps declared; simpl.
  { intros [?|(cap & Hn & _)]; [done|by apply not_elem_of_nil in Hn]. }
  intros Hor. apply IH. destruct (decide (pc_name cap = name)) as [<-|Hne].
  - left. rewrite lookup_insert_eq. by eexists.
  - destruct Hor as [[x Hx]|(cap' & [->|Hin]%elem_of_cons & Hn)]; [left|done|right; by exists cap'].
    rewrite lookup_insert_ne by done. by eexists.
Qed.

Lemma load_profiles_caps class profiles st name :
  (∀ p, p ∈ profiles → cp_class p = class) →
  (is_Some (st.2 !! name) ∨
   ∃ p cap, p ∈ profiles ∧ cap ∈ cp_capabilities p ∧ pc_name cap = name) →
  is_Some ((fold_left (load_profile class) profiles st).2 !! name).
Proof.
  revert st; induction profiles as [|p profiles IH]; intros [caps declared] Hc; simpl.
  { intros [?|(p & ? & Hn & _)]; [done|by apply not_elem_of_nil in Hn]. }
  intros Hor. apply IH; [intros; apply Hc; by right|].
  destruct Hor as [?|(p' & cap & [->|Hin]%elem_of_cons & Hcap & Hn)].
  - left. apply load_profile_caps; [apply Hc; left|by left].
  - left. apply load_profile_caps; [apply Hc; left|right; by exists cap].
  - right. by exists p', cap.
Qed.

Lemma class_slug_inj c c' : class_slug c = class_slug c' → c = c'.
Proof. by destruct c, c'. Qed.

(** No profile shadows another class. When the connector directory loads,
    the drivers have distinct agent ids, and every capability of every
    loaded profile is declared by a driver of the profile's own class. *)
Theorem from_dir_serves toml_parse prefix dir entries actor drivers profiles :
  from_dir toml_parse prefix dir (Some (Ok entries)) actor = Ok drivers →
  load_entries toml_parse dir entries = Ok profiles →
  NoDup (map cd_id drivers) ∧
  ∀ p cap, p ∈ profiles → cap ∈ cp_capabilities p →
    ∃ drv, drv ∈ drivers ∧ cd_class drv = cp_class p ∧
      is_Some (cd_declared drv !! pc_name cap).
Proof.
  unfold from_dir, mbind, result_bind. simpl. intros Hd Hl. rewrite Hl in Hd. injection Hd as <-.
  destruct (group_by_class_spec profiles []) as [[Hn Hg] Hp].
  { split; [constructor|]. intros c ps Hin. by apply not_elem_of_nil in Hin. }
  fold (group_by_class profiles) in *. simpl in Hp.
  assert (∀ g, cd_id (from_profiles (prefix +:+ ":" +:+ class_slug g.1) g.2 actor)
    = prefix +:+ ":" +:+ class_slug g.1) as Hid.
  { intros [c ps]. unfold from_profiles. by destruct (fold_left _ _ _). }
  split.
  - rewrite map_map. rewrite (map_ext _ (λ g, prefix +:+ ":" +:+ class_slug g.1) Hid).
    clear Hid Hp Hg Hl. revert Hn. generalize (group_by_class profiles) as gs.
    induction gs as [|[c ps] gs IH]; [constructor|]. cbn [fmap list_fmap fst map].
    rewrite !NoDup_cons. intros [Hc Hn]. split; [|by apply IH]. intros Hin. apply Hc.
    apply list_elem_of_In, in_map_iff in Hin as ([c' ps'] & Heq & Hin). simpl in Heq.
    apply (inj (String.app prefix)), (inj (String.app ":")), class_slug_inj in Heq as ->.
    apply list_elem_of_fmap. exists (c, ps'). split; [done|]. by apply list_elem_of_In.
  - intros p cap Hin Hcap. rewrite <- Hp in Hin.
    apply list_elem_of_In, in_concat in Hin as (ps & Hin & Hps).
    apply list_elem_of_In, list_elem_of_fmap in Hin as ([c ps'] & -> & Hin).
    apply list_elem_of_In in Hps. simpl in Hps.
    destruct (Hg c ps' Hin) as [Hne Hall].
    exists (from_profiles (prefix +:+ ":" +:+ class_slug c) ps' actor). split; [|split].
    + apply list_elem_of_In, in_map_iff. exists (c, ps'). split; [done|]. by apply list_elem_of_In.
    + unfold from_profiles. destruct ps' as [|p0 ps']; [done|].
      destruct (fold_left _ _ _). simpl. rewrite (Hall p Hps). apply Hall. left.
    + unfold from_profiles. destruct ps' as [|p0 ps']; [done|].
      pose proof (load_profiles_caps (cp_class p0) (p0 :: ps') ([], ∅) (pc_name cap)) as Hl'.
      destruct (fold_left _ _ _) as [caps declared]. simpl in *. apply Hl'.
      * intros q Hq. rewrite (Hall q Hq). symmetry. apply Hall. left.
      * right. by exists p, cap.
Qed.
End Connector.

(** ** Witnesses: an SSH host profile *)

Module ConnectorDemo.
Import DemoSemVer.

Definition restart : ProfileCapability :=
  mkProfileCap "compute.host.service.restart" (version_new 1 0 0) None None true false
    {[ "service" := Identifier ]}
    (mkProfileOp Get "" None (Some "systemctl restart {service} && echo ok") None None false) None.

Definition profile : ConnectorProfile :=
  mkProfile "linux-host" CCompute PSsh None [restart].

Definition driver : ConnectorDriver := from_profiles "conn:compute" [profile] "agent:connector".

Definition policy : PolicyEngine := policy_new [mkRule "compute.*" Allow None].
Definition broker := BrokerDemo.broker policy.
Definition world := BrokerDemo.world kill_new [].
Definition params : json := jobj [("service", JString "nginx")].

Definition run := connector_dispatch broker driver "alice" "compute.host.service.restart"
  "target://mikrotik-edge" params 30 world.

Definition demo_entries : list (result string dir_entry) :=
  [Ok (mkDirEntry "a.toml" true (Ok "text")); Ok (mkDirEntry "b.md" false (Ok ""))].
Definition demo_drivers : list ConnectorDriver :=
  default [] (ok (from_dir (λ _, Ok profile) "conn" "/etc/connectors" (Some (Ok demo_entries)) "x")).

Definition print (_ : json) : string := "".
End ConnectorDemo.
Import ConnectorDemo.

Lemma connector_no_injection_witness :
  ∃ d ps, cd_declared driver !! "compute.host.service.restart" = Some d ∧
    po_command (pc_op (dc_cap d)) = Some (template_of ps) ∧
    text_of ps = "systemctl restart nginx && echo ok".
Proof.
  destruct (connector_no_injection broker driver "alice" "compute.host.service.restart"
    "target://mikrotik-edge" params 30 world run.1 run.2
    (mkTransportTarget "10.0.0.1" 22) "systemctl restart nginx && echo ok" 30
    (SshPassword "admin" "s3cret")) as (d & ps & Hd & Ht & Hc & _).
  - exact (surjective_pairing run).
  - vm_compute. reflexivity.
  - by exists d, ps.
Defined.

Lemma connector_honest_witness :
  ∃ req r, (execute broker req world).1 = Ok r ∧ op_succeeded r = true.
Proof.
  assert (out_success <$> ok run.1 = Some true) as Hs by (vm_compute; reflexivity).
  destruct run.1 as [out|e] eqn:Hr; [|discriminate Hs].
  destruct (connector_honest print broker driver "alice" "compute.host.service.restart"
    "target://mikrotik-edge" params 30 world out run.2) as (req & d & r & _ & He & Ho & _).
  - apply run_split. exact Hr.
  - exists req, r. split; [exact He|]. rewrite <- Ho. by injection Hs.
Defined.

Lemma from_dir_serves_witness :
  ∃ drv, drv ∈ demo_drivers ∧ cd_class drv = CCompute ∧
    is_Some (cd_declared drv !! "compute.host.service.restart").
Proof.
  destruct (from_dir_serves (λ _, Ok profile) "conn" "/etc/connectors" demo_entries "x"
    demo_drivers [profile] eq_refl eq_refl) as [_ Hserve].
  destruct (Hserve profile restart) as (drv & ? & ? & ?); [left|left|]. by exists drv.
Defined.
