(* ===== verification/RouterOs.v ===== *)
(** * daimon-driver-firewall-routeros ([src/lib.rs])

    The RouterOS reference driver: its capability catalog, the command builder,
    the request it submits to the broker, the four verbs and the bus adapter.
    The [Debug] text of an operation result, serde's request decoding and the
    standard library's [Debug] of a string are parameters. *)

From S2P Require Import Prelude RustStd Json Core KillSwitch Policy Approvals Guard.
From S2P Require Import Inventory AuditLog Broker Param Connector.
From Stdlib Require Import ZArith Ascii.

Local Open Scope Z_scope.

Inductive RouterOsError :=
| RUnknownCapability (c : string)
| RMissingParam (m : string)
| RParam (e : ParamError)
| RBadTarget (m : string)
| RBroker (e : BrokerError)
| RWrongOpResult (m : string).

Record NetworkOutput := mkNetOut {
  no_command : string;
  no_stdout : string;
  no_stderr : string;
  no_exit_status : Z;
}.

Record NetworkResponse := mkNetResp {
  nr_success : bool;
  nr_output : option NetworkOutput;
  nr_error : option string;
}.

Record NetworkRequest := mkNetReq {
  nq_capability : string;
  nq_target_ref : string;
  nq_timeout_secs : option Z;
  nq_params : option json;
}.

(** [NetworkResponse::ok], [NetworkResponse::error]. *)
Definition response_ok (out : NetworkOutput) : NetworkResponse := mkNetResp true (Some out) None.
Definition response_error (msg : string) : NetworkResponse := mkNetResp false None (Some msg).

(** [serde_json::to_value] of a response. *)
Definition response_json (r : NetworkResponse) : json :=
  jobj (("success", JBool (nr_success r)) ::
        match nr_output r with
        | Some o =>
            [("output", jobj [("command", JString (no_command o));
                              ("stdout", JString (no_stdout o));
                              ("stderr", JString (no_stderr o));
                              ("exit_status", JInt (no_exit_status o))])]
        | None => []
        end ++
        match nr_error r with Some e => [("error", JString e)] | None => [] end).

(** ** The command builder *)

Definition str_param (p : json) (name : string) : option string := jget p name ≫= as_str.

Definition check (value : string) (class : ParamClass) : result RouterOsError unit :=
  map_err RParam (validate value class).

(** [if let Some(v) = p.get(name).and_then(as_str) { validate(v)?; cmd.push_str(..) }]. *)
Definition push_param (p : json) (name : string) (class : ParamClass)
    (render : string → string) (cmd : string) : result RouterOsError string :=
  match str_param p name with
  | Some v => check v class ≫= λ _, Ok (cmd +:+ render v)
  | None => Ok cmd
  end.

Definition quote : string := String "034"%char EmptyString.

(** [build_command]. *)
Definition build_command (capability : string) (params : option json) :
    result RouterOsError string :=
  if string_eqb capability "network.routeros.system_info" then Ok "/system identity print"
  else if string_eqb capability "network.routeros.interface_list" then Ok "/interface print"
  else if string_eqb capability "network.routeros.ip_addresses" then Ok "/ip address print"
  else if string_eqb capability "network.routeros.firewall_filter_list" then
    Ok "/ip firewall filter print"
  else if string_eqb capability "network.routeros.firewall_add_drop_rule" then
    p ← ok_or params (RMissingParam "firewall_add_drop_rule requires params");
    dst ← ok_or (str_param p "dst_address")
      (RMissingParam "firewall_add_drop_rule.dst_address is required");
    _ ← check dst Cidr;
    cmd ← push_param p "src_address" Cidr (λ src, " src-address=" +:+ src)
            ("/ip firewall filter add chain=forward action=drop dst-address=" +:+ dst);
    cmd ← push_param p "in_interface" Identifier (λ i, " in-interface=" +:+ i) cmd;
    push_param p "comment" SafeText (λ c, " comment=" +:+ quote +:+ c +:+ quote) cmd
  else if string_eqb capability "network.routeros.firewall_remove_rule" then
    p ← ok_or params (RMissingParam "firewall_remove_rule requires params");
    m ← ok_or (str_param p "match") (RMissingParam "firewall_remove_rule.match is required");
    _ ← check m Identifier;
    Ok ("/ip firewall filter remove [find " +:+ m +:+ "]")
  else if string_eqb capability "network.routeros.user_ssh_key_import" then
    p ← ok_or params (RMissingParam "user_ssh_key_import requires params");
    user ← ok_or (str_param p "user") (RMissingParam "user_ssh_key_import.user is required");
    file ← ok_or (str_param p "file") (RMissingParam "user_ssh_key_import.file is required");
    _ ← check user Identifier;
    _ ← check file SafeText;
    Ok ("/user ssh-keys import user=" +:+ user +:+ " public-key-file=" +:+ file)
  else if string_eqb capability "network.routeros.user_ssh_key_remove" then
    p ← ok_or params (RMissingParam "user_ssh_key_remove requires params");
    n ← ok_or (str_param p "number") (RMissingParam "user_ssh_key_remove.number is required");
    _ ← check n Int;
    Ok ("/user ssh-keys remove " +:+ n)
  else Err (RUnknownCapability capability).

(** [is_write_capability]. *)
Definition is_write_capability (capability : string) : bool :=
  existsb (string_eqb capability)
    ["network.routeros.firewall_add_drop_rule"; "network.routeros.firewall_remove_rule";
     "network.routeros.user_ssh_key_import"; "network.routeros.user_ssh_key_remove"].

Section RouterOs.
Context `{SemVer} {I V D : Type} `{Inventory I} `{VaultClient V}.
Abbreviation bw := (bworld I V D).
Abbreviation rio := (io bw RouterOsError).

Definition string_schema (required props : list string) : json :=
  jobj [("type", JString "object"); ("required", JArray (map JString required));
        ("properties", jobj (map (λ p, (p, jobj [("type", JString "string")])) props))].

(** [build_capabilities]. *)
Definition build_capabilities : list Capability :=
  [read_only "network.routeros.system_info" (version_new 1 0 0);
   read_only "network.routeros.interface_list" (version_new 1 0 0);
   read_only "network.routeros.ip_addresses" (version_new 1 0 0);
   read_only "network.routeros.firewall_filter_list" (version_new 1 0 0);
   mkCapability "network.routeros.firewall_add_drop_rule" (version_new 1 0 0)
     (Some "Append a drop-action rule to `/ip firewall filter`. Params: src_address (CIDR), dst_address (CIDR or address-list name), in_interface (optional), comment (optional).")
     (Some (string_schema ["dst_address"]
              ["src_address"; "dst_address"; "in_interface"; "comment"]))
     (Some (mkCompensating "network.routeros.firewall_remove_rule" None)) false;
   mkCapability "network.routeros.user_ssh_key_import" (version_new 1 0 0)
     (Some "Import a public SSH key into RouterOS `/user ssh-keys`. Params: user (RouterOS user name), file (basename of the uploaded .pub key on the device).")
     (Some (string_schema ["user"; "file"] ["user"; "file"]))
     (Some (mkCompensating "network.routeros.user_ssh_key_remove" None)) false;
   mkCapability "network.routeros.user_ssh_key_remove" (version_new 1 0 0)
     (Some "Remove an SSH key entry from `/user ssh-keys`. Params: number (the row number from ssh-keys print).")
     (Some (string_schema ["number"] ["number"])) None true;
   mkCapability "network.routeros.firewall_remove_rule" (version_new 1 0 0)
     (Some "Remove a rule from `/ip firewall filter` by id or comment match.")
     (Some (string_schema ["match"] ["match"])) None true].

(** [build_exec_request]. *)
Definition build_exec_request (actor_id capability target_ref command : string)
    (timeout_secs : Z) (capabilities : list Capability) : result RouterOsError ExecRequest :=
  target ← map_err (λ e, RBadTarget (show_target_error e)) (target_parse target_ref);
  let req := exec_new actor_id target (ShellCommand command (Z.max timeout_secs 1)) in
  Ok (match find (λ c, string_eqb (cap_name c) capability) capabilities with
      | Some cap => with_capability_meta cap req
      | None => with_capability capability false req
      end).

Record RouterOsDriver := mkRouterOs { ro_id : AgentId; ro_actor_id : string }.

Variable debug_op_result : OpResult → string.

(** [RouterOsDriver::dispatch]. *)
Definition ros_dispatch (b : Broker) (actor_id capability target_ref : string)
    (params : option json) (timeout_secs : Z) : rio NetworkOutput :=
  lift (build_command capability params) ≫= λ command,
  lift (build_exec_request actor_id capability target_ref command timeout_secs
          build_capabilities) ≫= λ req,
  io_map_err RBroker (execute b req) ≫= λ op_result,
  match op_result with
  | RShell stdout stderr exit_status => mret (mkNetOut command stdout stderr exit_status)
  | other => throw (RWrongOpResult (debug_op_result other))
  end.

(** [driver_err]. *)
Definition driver_err (e : RouterOsError) : DriverError :=
  match e with
  | RParam pe => DrvParam pe
  | RBroker be => DrvBroker (show_broker_error be)
  | RBadTarget m => DrvOther ("invalid target_ref: " +:+ m)
  | RUnknownCapability m => DrvUnsupported m
  | RMissingParam m => DrvOther m
  | RWrongOpResult m => DrvParse m
  end.

(** ** The verbs *)

Definition ros_describe (b : Broker) (drv : RouterOsDriver) (target : string) :
    io bw DriverError TargetShape :=
  io_map_err driver_err (ros_dispatch b (ro_actor_id drv) "network.routeros.system_info" target
    None DEFAULT_TIMEOUT_SECS) ≫= λ out,
  mret (mkShape CFirewall (jobj [("system_identity", JString (trim (no_stdout out)))])
          ("RouterOS device " +:+ target)).

Definition table_capability (table : string) : result DriverError string :=
  if existsb (string_eqb table) ["system"; "system_info"] then Ok "network.routeros.system_info"
  else if existsb (string_eqb table) ["interface"; "interface_list"] then
    Ok "network.routeros.interface_list"
  else if existsb (string_eqb table) ["ip.address"; "ip_addresses"] then
    Ok "network.routeros.ip_addresses"
  else if existsb (string_eqb table) ["firewall.filter"; "firewall_filter_list"] then
    Ok "network.routeros.firewall_filter_list"
  else Err (DrvUnsupported ("read_state: unknown selector table `" +:+ table +:+ "`")).

Definition ros_read_state (b : Broker) (drv : RouterOsDriver) (target : string)
    (selector : json) : io bw DriverError StateDoc :=
  let table := default "system" (jget selector "table" ≫= as_str) in
  lift (table_capability table) ≫= λ capability,
  io_map_err driver_err (ros_dispatch b (ro_actor_id drv) capability target None
    DEFAULT_TIMEOUT_SECS) ≫= λ out,
  mret (mkStateDoc target (jobj [("table", JString table); ("command", JString (no_command out));
          ("raw", JString (no_stdout out)); ("exit_status", JInt (no_exit_status out))])).

Definition ros_diagnose (b : Broker) (drv : RouterOsDriver) (target symptom : string) :
    io bw DriverError (list Finding) :=
  io_map_err driver_err (ros_dispatch b (ro_actor_id drv)
    "network.routeros.firewall_filter_list" target None DEFAULT_TIMEOUT_SECS) ≫= λ out,
  mret [mkFinding ("firewall filter table for symptom `" +:+ symptom +:+ "`") SevInfo
          (no_stdout out) (Some "network.routeros.firewall_remove_rule") (JObject [])].

Definition ros_remediate (b : Broker) (drv : RouterOsDriver) (target capability : string)
    (params : json) : io bw DriverError Receipt :=
  if negb (is_write_capability capability) then
    throw (DrvUnsupported ("remediate: `" +:+ capability +:+
             "` is not a RouterOS write capability"))
  else
    io_map_err driver_err (ros_dispatch b (ro_actor_id drv) capability target (Some params)
      DEFAULT_TIMEOUT_SECS) ≫= λ out,
    mret (mkReceipt capability
      (jobj [("target", JString target); ("params", params);
             ("command", JString (no_command out)); ("exit_status", JInt (no_exit_status out))])).

(** ** The bus adapter *)

Variable debug_str : string → string.
Variable decode_request : json → result string NetworkRequest.

Definition show_routeros_error (e : RouterOsError) : string :=
  match e with
  | RUnknownCapability c => "unknown capability: " +:+ c
  | RMissingParam m => "missing param: " +:+ m
  | RParam e => "parameter validation: " +:+ show_param_error debug_str e
  | RBadTarget m => "invalid target_ref: " +:+ m
  | RBroker e => "broker: " +:+ show_broker_error e
  | RWrongOpResult m => "unexpected OpResult variant: " +:+ m
  end.

(** [Agent::handle]. *)
Definition ros_handle (b : Broker) (drv : RouterOsDriver) (env : AgentEnvelope) (now : Z)
    (w : bw) : AgentEnvelope * bw :=
  match decode_request (env_body env) with
  | Err e => (reply_to env now (ro_id drv)
                (response_json (response_error ("invalid request: " +:+ e))), w)
  | Ok req =>
      let timeout_secs := default DEFAULT_TIMEOUT_SECS (nq_timeout_secs req) in
      let '(r, w') := ros_dispatch b (env_from env) (nq_capability req) (nq_target_ref req)
                        (nq_params req) timeout_secs w in
      let resp := match r with
                  | Ok out => response_ok out
                  | Err e => response_error (show_routeros_error e)
                  end in
      (reply_to env now (ro_id drv) (response_json resp), w')
  end.
End RouterOs.

(** ** Properties *)

(** What each capability's command looks like: fixed text, and parameters with
    the text around them, some of which may be left out. *)
Inductive slot :=
| Fixed (text : string)
| Given (before name after : string)
| Optional (before name after : string).

Definition ros_template (capability : string) : list slot :=
  match capability with
  | "network.routeros.system_info" => [Fixed "/system identity print"]
  | "network.routeros.interface_list" => [Fixed "/interface print"]
  | "network.routeros.ip_addresses" => [Fixed "/ip address print"]
  | "network.routeros.firewall_filter_list" => [Fixed "/ip firewall filter print"]
  | "network.routeros.firewall_add_drop_rule" =>
      [Fixed "/ip firewall filter add chain=forward action=drop";
       Given " dst-address=" "dst_address" ""; Optional " src-address=" "src_address" "";
       Optional " in-interface=" "in_interface" "";
       Optional (" comment=" +:+ quote) "comment" quote]
  | "network.routeros.firewall_remove_rule" =>
      [Fixed "/ip firewall filter remove "; Given "[find " "match" "]"]
  | "network.routeros.user_ssh_key_import" =>
      [Fixed "/user ssh-keys import"; Given " user=" "user" "";
       Given " public-key-file=" "file" ""]
  | "network.routeros.user_ssh_key_remove" =>
      [Fixed "/user ssh-keys remove"; Given " " "number" ""]
  | _ => []
  end.

Definition supplied (params : option json) (name : string) : option string :=
  params ≫= λ p, str_param p name.

(** A value with no metacharacter, the [=], quote and brackets of the templates
    included. *)
Definition harmless (value : string) : Prop := ∀ a, a ∈ bytes value → meta_byte a = false.

(** The text of a slot filled with what the caller supplied. *)
Inductive fills (params : option json) : slot → string → Prop :=
| fills_fixed text : fills params (Fixed text) text
| fills_given before name after v :
    supplied params name = Some v → harmless v →
    fills params (Given before name after) (before +:+ v +:+ after)
| fills_some before name after v :
    supplied params name = Some v → harmless v →
    fills params (Optional before name after) (before +:+ v +:+ after)
| fills_none before name after :
    supplied params name = None → fills params (Optional before name after) "".

Lemma check_harmless v class :
  check v class = Ok tt → (∀ allowed, class ≠ Enum allowed) → harmless v.
Proof.
  unfold check. intros Hv Hne. destruct (validate v class) as [[]|] eqn:E; [|done].
  intros a Ha. apply safe_not_meta. eapply validate_safe_bytes in E; [|done].
  rewrite Forall_forall in E. by apply E.
Qed.

Lemma push_param_fills p before name class after render cmd out :
  push_param p name class render cmd = Ok out →
  (∀ allowed, class ≠ Enum allowed) → (∀ v, render v = before +:+ v +:+ after) →
  ∃ t, fills (Some p) (Optional before name after) t ∧ out = cmd +:+ t.
Proof.
  unfold push_param. destruct (str_param p name) as [v|] eqn:Hv.
  - unfold mbind, result_bind. destruct (check v class) as [[]|] eqn:Hc; [|done].
    intros [= <-] Hne Hr. rewrite Hr. eexists. split; [|done].
    apply fills_some; [done|by eapply check_harmless].
  - intros [= <-] _ _. exists "". split; [by apply fills_none|]. by rewrite string_app_nil_r.
Qed.

(** A command is its capability's template, filled. *)
Definition follows_template (capability : string) (params : option json) (cmd : string) : Prop :=
  ∃ ts, Forall2 (fills params) (ros_template capability) ts ∧ cmd = string_concat ts.

(** The rule with its three optional parameters. *)
Lemma add_drop_rule_follows p cmd :
  (dst ← ok_or (str_param p "dst_address")
     (RMissingParam "firewall_add_drop_rule.dst_address is required");
   _ ← check dst Cidr;
   cmd ← push_param p "src_address" Cidr (λ src, " src-address=" +:+ src)
           ("/ip firewall filter add chain=forward action=drop dst-address=" +:+ dst);
   cmd ← push_param p "in_interface" Identifier (λ i, " in-interface=" +:+ i) cmd;
   push_param p "comment" SafeText (λ c, " comment=" +:+ quote +:+ c +:+ quote) cmd) = Ok cmd →
  follows_template "network.routeros.firewall_add_drop_rule" (Some p) cmd.
Proof.
  unfold mbind, result_bind.
  destruct (str_param p "dst_address") as [dst|] eqn:Hdst; simpl; [|done].
  destruct (check dst Cidr) as [[]|] eqn:Hd; [|done].
  destruct (push_param p "src_address" _ _ _) as [c1|] eqn:H1; [|done].
  destruct (push_param p "in_interface" _ _ _) as [c2|] eqn:H2; [|done]. intros H3.
  apply (push_param_fills _ " src-address=" _ _ "") in H1 as (t1 & Hf1 & ->);
    [|done|intros v; by rewrite string_app_nil_r].
  apply (push_param_fills _ " in-interface=" _ _ "") in H2 as (t2 & Hf2 & ->);
    [|done|intros v; by rewrite string_app_nil_r].
  apply (push_param_fills _ (" comment=" +:+ quote) _ _ quote) in H3 as (t3 & Hf3 & ->);
    [|done|intros v; by rewrite <- string_app_assoc].
  eexists [_; _; t1; t2; t3]. split.
  - constructor; [constructor|]. constructor; [|by repeat constructor].
    apply fills_given; [exact Hdst|by eapply check_harmless].
  - simpl. rewrite !string_app_nil_r, <- !string_app_assoc. done.
Qed.

(** A template whose parameters are all given. *)
Ltac follow_tac :=
  eexists _; (split; [repeat constructor; first [eassumption | by eapply check_harmless]|]);
  simpl; rewrite ?string_app_nil_r, <- ?string_app_assoc; reflexivity.

(** C20: no command injection through the RouterOS driver. Whatever parameters the
    caller supplies, a command line the builder returns is the template of the
    capability: its fixed text, and the supplied values in their places. No
    such value contains a metacharacter: no control character, separator,
    redirection, substitution or backslash, and no [=], quote or bracket either, so
    those of the command line are the template's own. *)
Theorem build_command_clean capability params cmd :
  build_command capability params = Ok cmd →
  ∃ ts, Forall2 (fills params) (ros_template capability) ts ∧ cmd = string_concat ts.
Proof.
  change (build_command capability params = Ok cmd → follows_template capability params cmd).
  unfold build_command.
  repeat (match goal with |- context [string_eqb capability ?s] =>
            destruct (string_eqb capability s) eqn:E; [apply string_eqb_eq in E as ->|clear E] end).
  1-4: intros [= <-]; by eexists [_]; split; [repeat constructor|].
  5: done.
  - destruct params as [p|]; [|done]. apply add_drop_rule_follows.
  - destruct params as [p|]; [|done]. unfold mbind, result_bind. simpl.
    destruct (str_param p "match") as [m|] eqn:Hm; simpl; [|done].
    destruct (check m Identifier) as [[]|] eqn:Hc; [|done]. intros [= <-]. follow_tac.
  - destruct params as [p|]; [|done]. unfold mbind, result_bind. simpl.
    destruct (str_param p "user") as [u|] eqn:Hu; simpl; [|done].
    destruct (str_param p "file") as [f|] eqn:Hf; simpl; [|done].
    destruct (check u Identifier) as [[]|] eqn:Hcu; [|done].
    destruct (check f SafeText) as [[]|] eqn:Hcf; [|done]. intros [= <-]. follow_tac.
  - destruct params as [p|]; [|done]. unfold mbind, result_bind. simpl.
    destruct (str_param p "number") as [n|] eqn:Hn; simpl; [|done].
    destruct (check n Int) as [[]|] eqn:Hc; [|done]. intros [= <-]. follow_tac.
Qed.

Lemma build_command_clean_witness :
  let params := Some (jobj [("dst_address", JString "10.0.0.0/8"); ("comment", JString "block scan")]) in
  ∃ cmd ts, build_command "network.routeros.firewall_add_drop_rule" params = Ok cmd ∧
    Forall2 (fills params) (ros_template "network.routeros.firewall_add_drop_rule") ts ∧
    cmd = string_concat ts.
Proof.
  intros params. eexists.
  destruct (build_command_clean "network.routeros.firewall_add_drop_rule" params
    ("/ip firewall filter add chain=forward action=drop dst-address=10.0.0.0/8 comment=" +:+
     quote +:+ "block scan" +:+ quote)) as (ts & Hts & Hcmd).
  - vm_compute. reflexivity.
  - exists ts. split; [vm_compute; reflexivity|]. split; [exact Hts|exact Hcmd].
Defined.
