(* ===== verification/Ws.v ===== *)
(** * daimon-app: the chat socket and the channels' turns
    ([daimon-app/src/ws.rs], the chat branch of [gw.rs])

    The browser's socket: its messages, the sink a turn writes to, and the loop that
    serves a connection; and the turn a message from a channel starts, whose sink
    sends one message. A socket is the list of texts sent on it; what arrives is a
    list of events. *)

From S2P Require Import Prelude RustStd Json Core KillSwitch Policy Approvals Guard.
From S2P Require Import Gateway Inventory AuditLog Broker Admin Llm Memory HotMemory.
From S2P Require Import AppDb Iam Config Runtime Orchestrator RouterOs Chat.
From Stdlib Require Import ZArith Ascii.

Local Open Scope Z_scope.

(** ** Messages *)

Inductive WsScope := Placeholder.

#[export] Instance ws_scope_eq_dec : EqDecision WsScope.
Proof. solve_decision. Defined.

Inductive WsClientMsg :=
| Subscribe (scope : WsScope)
| Unsubscribe (scope : WsScope)
| Ping
| ChatSend (session_id user_message : string) (model effort : option string).

Inductive WsServerMsg :=
| WsSnapshot (scope : WsScope) (data : json)
| WsUpdate (scope : WsScope) (data : json)
| Pong
| WsError (message : string)
| AgentTokenDelta (agent_id session_id content_delta : string)
| AgentToolUse (agent_id session_id tool : string) (params : json)
| AgentToolResult (agent_id session_id tool output : string) (is_error : bool)
| AgentDone (agent_id session_id stop_reason : string) (input_tokens output_tokens : Z).

(** serde's derived encoders and decoders, tagged by [type] and [kind]. *)
Definition scope_json (s : WsScope) : json := jobj [("kind", JString "Placeholder")].

Definition decode_scope (j : json) : option WsScope :=
  req_str j "kind" ≫= λ k, if string_eqb k "Placeholder" then Some Placeholder else None.

Definition opt_json (o : option string) : json := default JNull (JString <$> o).

Definition client_json (m : WsClientMsg) : json :=
  match m with
  | Subscribe s => jobj [("type", JString "Subscribe"); ("scope", scope_json s)]
  | Unsubscribe s => jobj [("type", JString "Unsubscribe"); ("scope", scope_json s)]
  | Ping => jobj [("type", JString "Ping")]
  | ChatSend s u m e =>
      jobj [("type", JString "ChatSend"); ("session_id", JString s); ("user_message", JString u);
            ("model", opt_json m); ("effort", opt_json e)]
  end.

Definition decode_client (j : json) : option WsClientMsg :=
  req_str j "type" ≫= λ t,
  if string_eqb t "Subscribe" then Subscribe <$> req_struct decode_scope j "scope"
  else if string_eqb t "Unsubscribe" then Unsubscribe <$> req_struct decode_scope j "scope"
  else if string_eqb t "Ping" then Some Ping
  else if string_eqb t "ChatSend" then
    req_str j "session_id" ≫= λ s, req_str j "user_message" ≫= λ u,
    opt_str j "model" ≫= λ m, opt_str j "effort" ≫= λ e, Some (ChatSend s u m e)
  else None.

Definition agent_json (ty agent session : string) (fields : list (string * json)) : json :=
  jobj ([("type", JString ty); ("agent_id", JString agent); ("session_id", JString session)] ++ fields).

Definition server_json (m : WsServerMsg) : json :=
  match m with
  | WsSnapshot s d => jobj [("type", JString "Snapshot"); ("scope", scope_json s); ("data", d)]
  | WsUpdate s d => jobj [("type", JString "Update"); ("scope", scope_json s); ("data", d)]
  | Pong => jobj [("type", JString "Pong")]
  | WsError e => jobj [("type", JString "Error"); ("message", JString e)]
  | AgentTokenDelta a s c => agent_json "AgentTokenDelta" a s [("content_delta", JString c)]
  | AgentToolUse a s t p => agent_json "AgentToolUse" a s [("tool", JString t); ("params", p)]
  | AgentToolResult a s t o e =>
      agent_json "AgentToolResult" a s
        [("tool", JString t); ("output", JString o); ("is_error", JBool e)]
  | AgentDone a s r i o =>
      agent_json "AgentDone" a s
        [("stop_reason", JString r); ("input_tokens", JInt i); ("output_tokens", JInt o)]
  end.

Definition decode_agent {A} (f : string → string → option A) (j : json) : option A :=
  req_str j "agent_id" ≫= λ a, req_str j "session_id" ≫= λ s, f a s.

Definition decode_server (j : json) : option WsServerMsg :=
  req_str j "type" ≫= λ t,
  let scoped f := req_struct decode_scope j "scope" ≫= λ s, jget j "data" ≫= λ d, Some (f s d) in
  if string_eqb t "Snapshot" then scoped WsSnapshot
  else if string_eqb t "Update" then scoped WsUpdate
  else if string_eqb t "Pong" then Some Pong
  else if string_eqb t "Error" then WsError <$> req_str j "message"
  else if string_eqb t "AgentTokenDelta" then
    decode_agent (λ a s, AgentTokenDelta a s <$> req_str j "content_delta") j
  else if string_eqb t "AgentToolUse" then
    decode_agent (λ a s, req_str j "tool" ≫= λ n, AgentToolUse a s n <$> jget j "params") j
  else if string_eqb t "AgentToolResult" then
    decode_agent (λ a s, req_str j "tool" ≫= λ n, req_str j "output" ≫= λ o,
      AgentToolResult a s n o <$> (jget j "is_error" ≫= as_bool)) j
  else if string_eqb t "AgentDone" then
    decode_agent (λ a s, req_str j "stop_reason" ≫= λ r, req_u32 j "input_tokens" ≫= λ i,
      AgentDone a s r i <$> req_u32 j "output_tokens") j
  else None.

(** ** The sink *)

Definition ws_message (e : TurnEvent) : WsServerMsg :=
  match e with
  | TokenDelta s c => AgentTokenDelta "chat" s c
  | ToolUse s t p => AgentToolUse "chat" s t p
  | ToolResult s t o e => AgentToolResult "chat" s t o e
  | Done s r i o => AgentDone "chat" s r i o
  | TurnError m => WsError m
  end.

(** The texts sent on the socket, oldest first; a failed send is ignored. *)
Record WsSink := mkWs { ws_texts : list string }.

Section Socket.
Context `{JsonText}.

Definition send_msg (m : WsServerMsg) (s : WsSink) : WsSink :=
  mkWs (ws_texts s ++ [json_to_string (server_json m)]).

#[export] Instance ws_sink : ReplySink WsSink := {|
  sink_emit e s := send_msg (ws_message e) s;
  sink_finish s := s;
|}.

Lemma ws_emitted events s :
  ws_texts (fold_left (λ k e, sink_emit e k) events s) =
  ws_texts s ++ map (λ e, json_to_string (server_json (ws_message e))) events.
Proof.
  revert s. induction events as [|e events IH]; intros s; simpl; [by rewrite app_nil_r|].
  rewrite IH. unfold send_msg. simpl. by rewrite <- app_assoc.
Qed.

Definition tokens_ok (m : WsServerMsg) : Prop :=
  match m with AgentDone _ _ _ i o => 0 ≤ i < 2^32 ∧ 0 ≤ o < 2^32 | _ => True end.

(** A message the server sends decodes, at the browser, to itself, and so does one of
    the browser's at the server. *)
Lemma ws_roundtrip m :
  tokens_ok m → decode_server (server_json m) = Some m.
Proof.
  destruct m as [[] d|[] d| | | | | |a s r i o]; intros Hm; try done.
  destruct Hm as [Hi Ho]. unfold decode_server. lazy -[as_u32]. by rewrite !as_u32_ok.
Qed.

Lemma ws_client_roundtrip m : decode_client (client_json m) = Some m.
Proof. by destruct m as [[]|[]| |s u [m|] [e|]]. Qed.
End Socket.

(** ** Serving a connection *)

(** What [select!] sees: a text, a close or the end, any other frame or an error; a
    broadcast or a lagging receiver. *)
Inductive ws_event :=
| ClientText (text : string)
| ClientClose
| ClientGone
| ClientOther
| Broadcast (text : string)
| BroadcastError.

Inductive ws_flow := WsOpen (subscriptions : list WsScope) | WsClosed | WsUnwound.

Section Serve.
Context `{SemVer} {I V D M : Type} `{VaultAdmin V} `{PgMessages} `{WorkingMemory M}.
Context `{Jwt} `{Bcrypt}.
Context `{HashOrder RegistryEntry} `{!SemVerOrder} {X : Type} `{!BusDispatcher X}.
Context {T MW : Type} `{!MemoryService T MW}.
Context {HW : Type} `{LlmHost HW} `{JsonText}.
Context (env : string → option string) (debug_duration : Z → string)
        (serde_error : string → json → string) (utf8_error : list ascii → string)
        (with_extension : string → string → string) (builder : result string unit).
Abbreviation chat :=
  (chatw (I := I) (V := V) (D := D) (M := M) (X := X) (MW := MW) (HW := HW) (K := WsSink)).
Abbreviation turn := (handle_chat_send env debug_duration serde_error utf8_error with_extension builder).

Definition from_text {A} (decode : json → option A) (text : string) : option A :=
  ok (json_from_str text) ≫= of_object decode.

Definition send_text (text : string) (w : chat) : chat :=
  set_sink (mkWs (ws_texts (cw_sink w) ++ [text])) w.

(** The scope of a broadcast. *)
Definition message_scope (m : WsServerMsg) : option WsScope :=
  match m with WsUpdate s _ | WsSnapshot s _ => Some s | _ => None end.

Definition subscribe (s : WsScope) (l : list WsScope) : list WsScope :=
  if bool_decide (s ∈ l) then l else s :: l.
Definition unsubscribe (s : WsScope) (l : list WsScope) : list WsScope :=
  filter (λ t, t ≠ s) l.

(** One iteration of [handle_ws]. *)
Definition ws_step (st : AppState (D := D)) (mem : T) (actor : string) (ev : ws_event)
    (subs : list WsScope) (w : chat) : ws_flow * chat :=
  match ev with
  | ClientText text =>
      match from_text decode_client text with
      | Some (Subscribe s) => (WsOpen (subscribe s subs), w)
      | Some (Unsubscribe s) => (WsOpen (unsubscribe s subs), w)
      | Some Ping => (WsOpen subs, send_text (json_to_string (server_json Pong)) w)
      | Some (ChatSend session message model effort) =>
          match turn st mem actor session message model effort w with
          | (Ok _, w) => (WsOpen subs, w)
          | (Err _, w) => (WsUnwound, w)
          end
      | None => (WsOpen subs, w)
      end
  | ClientClose | ClientGone => (WsClosed, w)
  | ClientOther | BroadcastError => (WsOpen subs, w)
  | Broadcast text =>
      match from_text decode_server text ≫= message_scope with
      | Some s => (WsOpen subs, if bool_decide (s ∈ subs) then send_text text w else w)
      | None => (WsOpen subs, w)
      end
  end.

Fixpoint handle_ws (st : AppState (D := D)) (mem : T) (actor : string) (l : list ws_event)
    (subs : list WsScope) (w : chat) : ws_flow * chat :=
  match l with
  | [] => (WsOpen subs, w)
  | ev :: l =>
      match ws_step st mem actor ev subs w with
      | (WsOpen subs, w) => handle_ws st mem actor l subs w
      | r => r
      end
  end.

(** [ws_handler]: 401, or the upgraded connection served for the user. *)
Definition ws_handler (st : AppState (D := D)) (mem : T) (req : request) (l : list ws_event)
    (w : chat) : option ws_flow * chat :=
  let '(claims, a) := authenticate_headers st req (cw_app w) in
  let w := set_app a w in
  match claims with
  | None => (None, w)
  | Some c =>
      let '(flow, w) := handle_ws st mem ("user:" +:+ c_sub c) l [] w in (Some flow, w)
  end.

(** *** What the browser sees *)

Definition wire (e : TurnEvent) : string := json_to_string (server_json (ws_message e)).

Lemma ws_calls_wire (l : list sink_call) (s : WsSink) :
  ∃ events, ws_texts (fold_left sink_apply l s) = ws_texts s ++ map wire events.
Proof.
  revert s. induction l as [|[e|] l IH]; intros s; simpl.
  - exists []. by rewrite app_nil_r.
  - destruct (IH (send_msg (ws_message e) s)) as [events Hl]. exists (e :: events). rewrite Hl.
    unfold send_msg. simpl. by rewrite <- app_assoc.
  - apply IH.
Qed.

(** A chat message on the socket: the browser receives the turn's events, one text
    each and in order, of which the last and no other ends the turn; each decodes to
    the event's message. *)
Lemma ws_turn_delivers st mem actor text session message model effort subs subs' w w' :
  from_text decode_client text = Some (ChatSend session message model effort) →
  ws_step st mem actor (ClientText text) subs w = (WsOpen subs', w') →
  subs' = subs ∧ ∃ before last,
    ws_texts (cw_sink w') = ws_texts (cw_sink w) ++ map wire (before ++ [last]) ∧
    Forall (λ e, streaming e = true) before ∧ streaming last = false.
Proof.
  intros Ht. unfold ws_step. rewrite Ht.
  pose proof (handle_chat_send_run env debug_duration serde_error utf8_error with_extension builder
    st mem actor session message model effort w) as (t & (Hk & _ & _) & _ & Hr & _).
  destruct (turn st mem actor session message model effort w) as [[[]|[]] w1]; [|done].
  intros [= <- <-]. split; [done|]. simpl in *.
  destruct Hr as (l & Hl & Hend). destruct (ends_once_events l Hend) as (before & last & -> & Hb & Hlast).
  exists before, last. split; [|done]. rewrite Hk, Hl, fold_left_app. simpl.
  rewrite fold_emits. apply ws_emitted.
Qed.

(** *** What a connection does

    Texts go out for turns, pings and broadcasts; dispatches are the turns'. *)

Definition served (actor : string) (w w' : chat) : Prop :=
  ∃ calls, cw_calls w' = cw_calls w ++ calls ∧ Forall (λ c, call_from c = actor) calls.

#[local] Instance served_refl actor : Reflexive (served actor).
Proof. intros w. exists []. by rewrite app_nil_r. Qed.

#[local] Instance served_trans actor : Transitive (served actor).
Proof.
  intros w1 w2 w3 (l1 & H1' & F1) (l2 & H2' & F2). exists (l1 ++ l2). rewrite H2', H1', app_assoc.
  split; [done|by apply Forall_app].
Qed.

Lemma ws_step_served st mem actor ev subs w : served actor w (ws_step st mem actor ev subs w).2.
Proof.
  assert (∀ text, served actor w (send_text text w)) as Hsend.
  { intros text. exists []. by rewrite app_nil_r. }
  destruct ev as [text| | | |text|]; simpl; try done.
  - destruct (from_text decode_client text) as [[s|s| |session message model effort]|]; try done;
      [apply Hsend|].
    destruct (handle_chat_send_run env debug_duration serde_error utf8_error with_extension builder
      st mem actor session message model effort w) as (t & (_ & _ & Hc) & Ha & _).
    assert (served actor w (turn st mem actor session message model effort w).2) as Hs.
    { exists (tr_calls t). split; [done|]. eapply Forall_impl; [exact Ha|].
      by intros c (tc & [_ [req ->]] & _). }
    by destruct (turn st mem actor session message model effort w) as [[] w1].
  - destruct (from_text decode_server text ≫= message_scope) as [s|]; [|done].
    simpl. destruct (bool_decide _); [apply Hsend|done].
Qed.

Lemma handle_ws_served st mem actor l subs w : served actor w (handle_ws st mem actor l subs w).2.
Proof.
  revert subs w. induction l as [|ev l IH]; intros subs w; simpl; [done|].
  pose proof (ws_step_served st mem actor ev subs w) as Hs.
  destruct (ws_step st mem actor ev subs w) as [[subs'| |] w1]; simpl in *; [|done..].
  by etrans; [|apply IH].
Qed.

(** C27: without a live session there is no socket and nothing happens; with one, whatever
    the client sends for as long as it likes, every dispatch on the bus is made in the
    name of the user the session belongs to. *)
Theorem ws_acts_as_session_user st mem req l w :
  match ws_handler st mem req l w with
  | (None, w') => (authenticate_headers st req (cw_app w)).1 = None ∧
      cw_calls w' = cw_calls w ∧ cw_asked w' = cw_asked w ∧ cw_sink w' = cw_sink w
  | (Some _, w') => ∃ c calls, (authenticate_headers st req (cw_app w)).1 = Some c ∧
      cw_calls w' = cw_calls w ++ calls ∧
      Forall (λ x, call_from x = "user:" +:+ c_sub c) calls
  end.
Proof.
  unfold ws_handler. destruct (authenticate_headers st req (cw_app w)) as [[c|] a]; simpl; [|done].
  pose proof (handle_ws_served st mem ("user:" +:+ c_sub c) l [] (set_app a w)) as (calls & Hc & Hf).
  destruct (handle_ws _ _ _ _ _ _) as [flow w']. simpl in *. by exists c, calls.
Qed.

(** A broadcast reaches the browser unchanged if it is an update or a snapshot of a
    scope the connection has subscribed to, and not at all otherwise. *)
Lemma ws_broadcast_filtered st mem actor text subs w :
  ws_texts (cw_sink (ws_step st mem actor (Broadcast text) subs w).2) =
  ws_texts (cw_sink w) ++
    match from_text decode_server text ≫= message_scope with
    | Some s => if bool_decide (s ∈ subs) then [text] else []
    | None => []
    end.
Proof.
  simpl. destruct (from_text decode_server text ≫= message_scope) as [s|]; [|by rewrite app_nil_r].
  simpl. destruct (bool_decide _); [done|by rewrite app_nil_r].
Qed.
End Serve.

(** ** A turn started from a channel *)

Section Gateway.
Context `{SemVer} {I V D M : Type} `{VaultAdmin V} `{PgMessages} `{WorkingMemory M}.
Context `{HashOrder RegistryEntry} `{!SemVerOrder} {X : Type} `{!BusDispatcher X}.
Context {T MW : Type} `{!MemoryService T MW}.
Context {HW : Type} `{LlmHost HW} `{JsonText}.
Context (env : string → option string) (debug_duration : Z → string)
        (serde_error : string → json → string) (utf8_error : list ascii → string)
        (with_extension : string → string → string) (builder : result string unit).
Abbreviation chat :=
  (chatw (I := I) (V := V) (D := D) (M := M) (X := X) (MW := MW) (HW := HW) (K := BufferSink)).

(** The last statement of [AppInboundHandler::handle]: actor, session and text of the
    message; the model is the default. *)
Definition gateway_turn (st : AppState (D := D)) (mem : T) (t : string * string * string) :
    io chat unwound unit :=
  let '(actor, session, text) := t in
  handle_chat_send env debug_duration serde_error utf8_error with_extension builder
    st mem actor session text None None.

(** *** One message per turn *)

Lemma take_drop_while {A} (p : A → bool) l :
  l = take_while p l ++ drop_while p l ∧ Forall (λ x, p x = true) (take_while p l).
Proof.
  induction l as [|x l [IH Hl]]; simpl; [done|]. destruct (p x) eqn:Hx; simpl; [|done].
  split; [by rewrite <- IH|by constructor].
Qed.

Lemma bytes_in_concat a l : a ∈ bytes (string_concat l) ↔ ∃ c, c ∈ l ∧ a ∈ bytes c.
Proof.
  induction l as [|c l IH]; simpl.
  { split; [by intros ?%not_elem_of_nil|by intros (? & ?%not_elem_of_nil & _)]. }
  rewrite bytes_app, elem_of_app, IH. split.
  - intros [Ha|(d & Hd & Ha)]; [exists c|exists d]; (split; [|done]); [by left|by right].
  - intros (d & [->|Hd]%elem_of_cons & Ha); eauto.
Qed.

(** A text trims to nothing only if its characters are white space. *)
Lemma trim_blank s a :
  trim s = "" → a ∈ bytes s → ∃ c, is_whitespace c = true ∧ a ∈ bytes c.
Proof.
  unfold trim. intros Ht Ha. rewrite <- (chars_concat s) in Ha.
  apply bytes_in_concat in Ha as (c & Hc & Ha). exists c. split; [|done].
  destruct (take_drop_while is_whitespace (chars s)) as [Hs Hw]. rewrite Hs in Hc.
  rewrite Forall_forall in Hw. apply elem_of_app in Hc as [Hc|Hc]; [by apply Hw|].
  set (l := drop_while is_whitespace (chars s)) in *. apply elem_of_reverse_2 in Hc.
  destruct (take_drop_while is_whitespace (reverse l)) as [Hr Hw'].
  assert (c ∈ take_while is_whitespace (reverse l) ++ drop_while is_whitespace (reverse l))
    as [Hd|Hd]%elem_of_app by by rewrite <- Hr.
  { rewrite Forall_forall in Hw'. by apply Hw'. }
  apply elem_of_reverse_2 in Hd.
  assert (a ∈ bytes "") as []%not_elem_of_nil. rewrite <- Ht. apply bytes_in_concat. eauto.
Qed.

Lemma whitespace_byte c a : is_whitespace c = true → a ∈ bytes c → a ≠ "239"%char.
Proof.
  intros Hc Ha ->. apply bool_decide_eq_true in Hc. revert Ha.
  assert (Forall (λ c, "239"%char ∉ bytes c) whitespace_chars) as Hf
    by (apply (bool_decide_unpack _); by vm_compute).
  rewrite Forall_forall in Hf. by apply Hf.
Qed.

Lemma warning_not_blank s t : string_eqb (trim (s +:+ warning_sign +:+ t)) "" = false.
Proof.
  apply string_eqb_neq. intros Ht. destruct (trim_blank _ "239"%char Ht) as (c & Hc & Ha).
  { rewrite !bytes_app, !elem_of_app. right. left. by apply (bool_decide_unpack _). }
  by apply (whitespace_byte c _ Hc Ha).
Qed.

Lemma buffered events s :
  sk_sent (fold_left (λ k e, sink_emit e k) events s) = sk_sent s ∧
  (Forall (λ e, streaming e = true) events →
   sk_had_error (fold_left (λ k e, sink_emit e k) events s) = sk_had_error s).
Proof.
  revert s. induction events as [|e events IH]; intros s; simpl; [done|].
  destruct (IH (emit e s)) as [Hs He]. split; [etrans; [exact Hs|]; by destruct e|].
  intros [Hst Hf]%Forall_cons. etrans; [exact (He Hf)|]. by destruct e.
Qed.

(** Whatever happens in a turn that ends, an operator on a messaging channel gets
    exactly one message for it. *)
Theorem gateway_turn_one_message st mem t w w' :
  cw_sink w = sink_new → gateway_turn st mem t w = (Ok tt, w') → length (sk_sent (cw_sink w')) = 1%nat.
Proof.
  destruct t as [[actor session] text]. intros Hw Hrun.
  pose proof (handle_chat_send_run env debug_duration serde_error utf8_error with_extension builder
    st mem actor session text None None w) as (u & (Hk & _ & _) & _ & Hr & _).
  unfold gateway_turn in Hrun. rewrite Hrun in Hk, Hr. simpl in Hk, Hr.
  destruct Hr as (l & Hl & Hend). destruct (ends_once_events l Hend) as (before & last & -> & Hb & Hlast).
  rewrite Hk, Hl, fold_left_app, fold_emits, fold_left_app, Hw. simpl.
  destruct (buffered before sink_new) as [Hs He]. specialize (He Hb).
  set (k := fold_left _ before sink_new) in *. clearbody k. unfold finish.
  destruct last as [| | |s r i o|m]; try done; simpl.
  - destruct (string_eqb _ ""); simpl; rewrite ?He, ?Hs; done.
  - rewrite warning_not_blank. simpl. by rewrite Hs.
Qed.
End Gateway.

Section Witnesses.
Import DemoSemVer AppDbDemo IamDemo LlmDemo AdminDemo ChatDemo.

Abbreviation channel_turn :=
  (gateway_turn env0 seconds message utf8_message extension (Ok tt) st nullMemory
     ("user:alice", "gw:telegram:555", "which rules?") (chat_on sink_new two_rounds)).

Lemma gateway_turn_one_message_witness :
  sk_sent (cw_sink channel_turn.2) = ["Let me look.No rules."] ∧
  length (sk_sent (cw_sink channel_turn.2)) = 1%nat.
Proof.
  split; [vm_compute; reflexivity|].
  refine (gateway_turn_one_message env0 seconds message utf8_message extension (Ok tt) st nullMemory
    ("user:alice", "gw:telegram:555", "which rules?") (chat_on sink_new two_rounds) _ eq_refl _).
  apply run_split. vm_compute. reflexivity.
Defined.

(** A turn over the socket, then a ping. *)
Definition browser : list ws_event :=
  [ClientText (json_to_string (client_json (ChatSend "s1" "which rules?" None None)));
   ClientText (json_to_string (client_json Ping)); ClientClose].

Lemma demo_socket :
  let '(flow, w) := ws_handler env0 seconds message utf8_message extension (Ok tt) st nullMemory
    (as_user alice) browser (chat_on (mkWs []) two_rounds) in
  flow = Some WsClosed ∧ map call_from (cw_calls w) = ["user:alice"] ∧
  omap (from_text decode_server) (ws_texts (cw_sink w)) =
    [AgentTokenDelta "chat" "s1" "Let me "; AgentTokenDelta "chat" "s1" "look.";
     AgentToolUse "chat" "s1" "fw.list" args;
     AgentToolResult "chat" "s1" "fw.list"
       (output_summary (mkNetOut "/ip firewall filter print" "0 rules" "" 0)) false;
     AgentTokenDelta "chat" "s1" "No rules."; AgentDone "chat" "s1" "endturn" 0 7; Pong].
Proof. vm_compute. repeat split. Qed.
End Witnesses.
