(* ===== verification/Adapters.v ===== *)
(** * daimon-gateway: the channel adapters
    ([daimon-gateway/src/adapters/{telegram,matrix}.rs], the webhook route, the registry
    and the cursor store of [daimon-app/src/gw.rs])

    How messages of the Telegram and the Matrix service reach the inbound pipeline and
    how answers and alerts get back. The services, the HTTP client, the clock, the
    inbound handler and the cursor store are parameters; for the Telegram poller the
    service, the process and its crashes are a transition system, because what matters
    there is which updates survive a crash. Decoders are serde's, on objects. *)

From S2P Require Import Prelude RustStd Json Gateway AppDb.
From Stdlib Require Import ZArith Ascii Sorted.

Local Open Scope Z_scope.

(** ** HTTP *)

(** A [reqwest] error: its text, and the URL its [Display] appends unless
    [without_url] took it away. *)
Record ReqwestError := mkReqwestError { te_text : string; te_url : option string }.

Definition te_display (e : ReqwestError) : string :=
  te_text e +:+ match te_url e with Some u => " for url (" +:+ u +:+ ")" | None => "" end.

Definition without_url (e : ReqwestError) : ReqwestError := mkReqwestError (te_text e) None.

Inductive HttpVerb := GET | POST | PUT.

Record ChannelRequest := mkChannelRequest {
  rq_method : HttpVerb;
  rq_url : string;
  rq_query : list (string * string);
  rq_bearer : option string;
  rq_json : option json;
}.

Record ChannelReply := mkChannelReply { cr_status : Z; cr_json : result string json }.

(** Where a reply sink posts: [TelegramOutbound], [MatrixOutbound] without the client
    and the counter they share with their adapter. *)
Inductive Outbound :=
| TelegramOutbound (api_base bot_token chat_id : string)
| MatrixOutbound (homeserver access_token room_id : string).

(** The HTTP client with the [Display] of a status, serde's message for a value of
    another shape, the clock, and the [InboundHandler]. *)
Class ChannelHost (HW : Type) := {
  channel_send : ChannelRequest → io HW ReqwestError ChannelReply;
  status_text : Z → string;
  shape_error : json → string;
  channel_now : HW → Z;
  inbound_handle : InboundMessage → Outbound → HW → HW;
}.

(** [CursorStore]. *)
Class CursorStore (C HW : Type) := {
  cursor_load : C → HW → option string * HW;
  cursor_save : C → string → HW → HW;
}.

(** ** The world of an adapter

    The host, the transaction counter of the Matrix adapter, and what the adapter did
    that others see. *)

Inductive ChEvent {B : Type} :=
| EvSynced (since : option string) (batch : B)
| EvDispatched (m : InboundMessage) (sink : Outbound)
| EvSaved (cursor : string)
| EvBackoff (ms : Z).
Arguments ChEvent : clear implicits.

Record chw {HW B : Type} := mkChw { ch_host : HW; ch_txn : Z; ch_log : list (ChEvent B) }.
Arguments chw : clear implicits.
Arguments mkChw {HW B}.

Section World.
Context {HW B : Type} `{ChannelHost HW} {C : Type} `{CursorStore C HW}.

Definition set_host (h : HW) (w : chw HW B) : chw HW B := mkChw h (ch_txn w) (ch_log w).

Definition log_event {E} (e : ChEvent B) : io (chw HW B) E unit :=
  modify (λ w, mkChw (ch_host w) (ch_txn w) (ch_log w ++ [e])).

Definition http_send (r : ChannelRequest) : io (chw HW B) ReqwestError ChannelReply :=
  zoom ch_host set_host (channel_send r).

Definition load_cursor {E} (c : C) : io (chw HW B) E (option string) := λ w,
  let '(o, h) := cursor_load c (ch_host w) in (Ok o, set_host h w).

Definition save_cursor {E} (c : C) (s : string) : io (chw HW B) E unit :=
  modify (λ w, set_host (cursor_save c s (ch_host w)) w) ≫= λ _, log_event (EvSaved s).

Definition dispatch_inbound {E} (m : InboundMessage) (sink : Outbound) : io (chw HW B) E unit :=
  modify (λ w, set_host (inbound_handle m sink (ch_host w)) w) ≫= λ _, log_event (EvDispatched m sink).

(** [txn.fetch_add(1)]: a [u64] that wraps. *)
Definition fetch_add_txn {E} : io (chw HW B) E Z := λ w,
  (Ok (ch_txn w), mkChw (ch_host w) ((ch_txn w + 1) mod 2^64) (ch_log w)).
End World.

(** ** Telegram: calls ([telegram.rs]) *)

Definition DEFAULT_API_BASE : string := "https://api.telegram.org".
Definition POLL_TIMEOUT_SECS : Z := 30.
Definition POLL_BACKOFF : Z := 5000.

Record TelegramAdapter := mkTelegramAdapter {
  ta_bot_token : string;
  ta_webhook_secret : string;
  ta_api_base : string;
}.

(** [with_api_base], [new]. *)
Definition telegram_with_api_base (bot_token webhook_secret api_base : string) : TelegramAdapter :=
  mkTelegramAdapter bot_token webhook_secret (trim_end_matches "/" api_base).

Definition telegram_new (bot_token webhook_secret : string) : TelegramAdapter :=
  telegram_with_api_base bot_token webhook_secret DEFAULT_API_BASE.

Record TelegramPollAdapter := mkTelegramPoll { tp_bot_token : string; tp_api_base : string }.

Definition telegram_poll_with_api_base (bot_token api_base : string) : TelegramPollAdapter :=
  mkTelegramPoll bot_token (trim_end_matches "/" api_base).

Definition telegram_poll_new (bot_token : string) : TelegramPollAdapter :=
  telegram_poll_with_api_base bot_token DEFAULT_API_BASE.

(** The wire types. *)
Definition decode_id (k : string) (j : json) : option Z := on_object j (req_field as_i64 j k).

Definition decode_tg_message (j : json) : option TgMessage := on_object j (
  opt_field as_str j "text" ≫= λ text,
  opt_field (decode_id "id") j "from" ≫= λ from,
  req_field (decode_id "id") j "chat" ≫= λ chat,
  opt_field (decode_id "message_id") j "reply_to_message" ≫= λ reply,
  Some (mkTgMessage text from chat reply)).

Definition decode_update (j : json) : option Update := on_object j (
  default_field as_i64 0 j "update_id" ≫= λ id,
  opt_field decode_tg_message j "message" ≫= λ message,
  Some (mkUpdate id message)).

Definition decode_updates (j : json) : option (list Update) :=
  on_object j (default_field (decode_list decode_update) [] j "result").

Definition bot_url (api_base bot_token method : string) : string :=
  api_base +:+ "/bot" +:+ bot_token +:+ "/" +:+ method.

Definition send_message (api_base bot_token chat_id text : string) : ChannelRequest :=
  mkChannelRequest POST (bot_url api_base bot_token "sendMessage") [] None
    (Some (jobj [("chat_id", JString chat_id); ("text", JString text)])).

Definition get_updates_request (a : TelegramPollAdapter) (offset : option Z) : ChannelRequest :=
  mkChannelRequest GET (bot_url (tp_api_base a) (tp_bot_token a) "getUpdates")
    (("timeout", show_Z POLL_TIMEOUT_SECS) ::
     match offset with Some o => [("offset", show_Z o)] | None => [] end)
    None None.

(** The id of a sent message, when the answer has one. *)
Definition sent_message_id (j : json) : option string :=
  show_Z <$> (jget j "result" ≫= λ r, jget r "message_id" ≫= as_i64).

Section Telegram.
Context {HW B : Type} `{ChannelHost HW} {C : Type} `{CursorStore C HW}.
Abbreviation hio := (io (chw HW B)).

(** [telegram_send_alert]; [deliver_alert] of both adapters. *)
Definition telegram_send_alert (api_base bot_token chat_id text : string) :
    hio GatewayError (option string) :=
  io_map_err (λ e, GwChannel ("telegram deliver_alert: " +:+ te_display (without_url e)))
    (http_send (send_message api_base bot_token chat_id text)) ≫= λ resp,
  if negb (is_success (cr_status resp))
  then throw (GwChannel ("telegram deliver_alert HTTP " +:+ status_text (cr_status resp)))
  else mret (ok (cr_json resp) ≫= sent_message_id).

Definition telegram_deliver_alert (a : TelegramAdapter) (to : AlertRecipient) (body : AlertBody) :
    hio GatewayError (option string) :=
  telegram_send_alert (ta_api_base a) (ta_bot_token a) (rc_to to) (render body).

(** [telegram_sink]. *)
Definition telegram_sink (api_base bot_token reply_to : string) : Outbound :=
  TelegramOutbound api_base bot_token reply_to.

(** [TelegramOutbound::send]. *)
Definition telegram_send (api_base bot_token chat_id text : string) : hio string unit :=
  io_map_err (λ e, "telegram sendMessage: " +:+ te_display (without_url e))
    (http_send (send_message api_base bot_token chat_id text)) ≫= λ resp,
  if negb (is_success (cr_status resp))
  then throw ("telegram sendMessage HTTP " +:+ status_text (cr_status resp))
  else mret tt.

(** [delete_webhook]: the outcome is only logged. *)
Definition delete_webhook {E} (a : TelegramPollAdapter) : hio E unit :=
  attempt (http_send (mkChannelRequest POST (bot_url (tp_api_base a) (tp_bot_token a) "deleteWebhook")
    [] None None)) ≫= λ _, mret tt.

(** [get_updates]: what is made of the answer, and the call. *)
Definition updates_of_reply (r : result ReqwestError ChannelReply) : result GatewayError (list Update) :=
  resp ← map_err (λ e, GwChannel ("getUpdates: " +:+ te_display (without_url e))) r;
  if negb (is_success (cr_status resp))
  then Err (GwChannel ("getUpdates HTTP " +:+ status_text (cr_status resp)))
  else map_err (λ e, GwChannel ("getUpdates decode: " +:+ e))
    (cr_json resp ≫= λ j, ok_or (decode_updates j) (shape_error j)).

Definition get_updates (a : TelegramPollAdapter) (offset : option Z) : hio GatewayError (list Update) :=
  attempt (http_send (get_updates_request a offset)) ≫= λ r, lift (updates_of_reply r).

(** [PollingGateway::run_ingress]. The offset after an update, the offset a persisted
    cursor stands for, and the messages an update is worth. *)
Definition wrap_i64 (z : Z) : Z := (z + 2^63) mod 2^64 - 2^63.

Definition next_offset (u : Update) : Z := wrap_i64 (up_update_id u + 1).

Definition resume_offset (cursor : option string) : option Z := cursor ≫= parse_i64.

Definition inbound_of (now : Z) (u : Update) : option InboundMessage := ok (update_to_inbound now u).

(** One batch: each update is handled, then the offset moves and is saved. *)
Fixpoint telegram_batch (a : TelegramPollAdapter) (c : C) (updates : list Update) (offset : option Z) :
    hio GatewayError (option Z) :=
  match updates with
  | [] => mret offset
  | u :: rest =>
      gets (λ w, channel_now (ch_host w)) ≫= λ now,
      match inbound_of now u with
      | Some m => dispatch_inbound m
          (telegram_sink (tp_api_base a) (tp_bot_token a) (co_reply_to (im_correlation m)))
      | None => mret tt
      end ≫= λ _,
      save_cursor c (show_Z (next_offset u)) ≫= λ _,
      telegram_batch a c rest (Some (next_offset u))
  end.

(** The loop has no exit: [fuel] iterations of it. *)
Fixpoint telegram_loop (fuel : nat) (a : TelegramPollAdapter) (c : C) (offset : option Z) :
    hio GatewayError (option Z) :=
  match fuel with
  | O => mret offset
  | S fuel =>
      attempt (get_updates a offset) ≫= λ r,
      match r with
      | Ok updates => telegram_batch a c updates offset ≫= telegram_loop fuel a c
      | Err _ => log_event (EvBackoff POLL_BACKOFF) ≫= λ _, telegram_loop fuel a c offset
      end
  end.

Definition telegram_run_ingress (fuel : nat) (a : TelegramPollAdapter) (c : C) :
    hio GatewayError (option Z) :=
  delete_webhook a ≫= λ _, load_cursor c ≫= λ cursor, telegram_loop fuel a c (resume_offset cursor).
End Telegram.

(** ** Telegram: the poller, the service and crashes

    The state of [run_ingress] between its awaits, of the row that holds the cursor,
    and of the service, taken as one that keeps an update until a client confirms it
    and gives out increasing ids. (Telegram drops an update after a day and may choose a
    new id after a week without any; the runs below are shorter than that.) *)

Record tgstate := mkTg {
  tg_arrived : list Update;            (** every update the service ever had *)
  tg_queue : list Update;              (** the ones it still has, oldest first *)
  tg_seq : Z;                          (** a bound of the ids given out *)
  tg_offset : option Z;                (** [offset] *)
  tg_batch : list Update;              (** what is left of [updates] *)
  tg_save : option Z;                  (** a handled update's [next], not saved yet *)
  tg_cursor : option string;           (** the persisted cursor *)
  tg_handled : list Update;            (** the updates the loop body is done with *)
  tg_calls : list InboundMessage;      (** the calls of the handler *)
}.

Definition tg_start : tgstate := mkTg [] [] 1 None [] None None [] [].

Inductive tglabel :=
| TgArrive (u : Update)                (** somebody writes to the bot *)
| TgPoll (n : nat)                     (** [getUpdates] is answered with up to [n] updates *)
| TgPollLost                           (** it reached the service, the answer is lost or unusable *)
| TgPollFail                           (** it did not reach the service *)
| TgHandle (now : Z)                   (** the next update of the batch is handled *)
| TgSave (stored : bool)               (** [cursor.save], which may fail *)
| TgCrash (loaded : bool).             (** the process dies and boots; [cursor.load] may fail *)

(** The service forgets the updates below the offset of a request. *)
Definition confirm (offset : option Z) (queue : list Update) : list Update :=
  match offset with
  | Some o => List.filter (λ u, o <=? up_update_id u) queue
  | None => queue
  end.

(** The answer of the service. *)
Definition update_json (u : Update) : json :=
  jobj (("update_id", JInt (up_update_id u)) ::
    match up_message u with
    | None => []
    | Some m => [("message", jobj (
        match tg_text m with Some t => [("text", JString t)] | None => [] end ++
        match tg_from m with Some i => [("from", jobj [("id", JInt i)])] | None => [] end ++
        [("chat", jobj [("id", JInt (tg_chat m))])] ++
        match tg_reply_to_message m with
        | Some i => [("reply_to_message", jobj [("message_id", JInt i)])] | None => [] end))]
    end).

Definition updates_reply (l : list Update) : ChannelReply :=
  mkChannelReply 200 (Ok (jobj [("ok", JBool true); ("result", JArray (update_json <$> l))])).

Section Poller.
Context {HW : Type} `{ChannelHost HW}.

Definition set_queue (q : list Update) (s : tgstate) : tgstate :=
  mkTg (tg_arrived s) q (tg_seq s) (tg_offset s) (tg_batch s) (tg_save s) (tg_cursor s)
    (tg_handled s) (tg_calls s).

Definition set_batch (l : list Update) (s : tgstate) : tgstate :=
  mkTg (tg_arrived s) (tg_queue s) (tg_seq s) (tg_offset s) l (tg_save s) (tg_cursor s)
    (tg_handled s) (tg_calls s).

(** The loop is about to ask for updates. *)
Definition tg_idle (s : tgstate) : bool :=
  match tg_batch s, tg_save s with [], None => true | _, _ => false end.

(** One step, where the label is possible. Update ids are positive, increase, and do not
    come near the end of an [i64]. *)
Definition tg_step (l : tglabel) (s : tgstate) : option tgstate :=
  match l with
  | TgArrive u =>
      if (tg_seq s <=? up_update_id u) && (up_update_id u <? 2^63 - 1) then
        Some (mkTg (tg_arrived s ++ [u]) (tg_queue s ++ [u]) (up_update_id u + 1) (tg_offset s)
                (tg_batch s) (tg_save s) (tg_cursor s) (tg_handled s) (tg_calls s))
      else None
  | TgPoll n =>
      let queue := confirm (tg_offset s) (tg_queue s) in
      if tg_idle s then
        updates ← ok (updates_of_reply (Ok (updates_reply (take n queue))));
        Some (set_batch updates (set_queue queue s))
      else None
  | TgPollLost => if tg_idle s then Some (set_queue (confirm (tg_offset s) (tg_queue s)) s) else None
  | TgPollFail => if tg_idle s then Some s else None
  | TgHandle now =>
      match tg_batch s, tg_save s with
      | u :: rest, None =>
          Some (mkTg (tg_arrived s) (tg_queue s) (tg_seq s) (Some (next_offset u)) rest
                  (Some (next_offset u)) (tg_cursor s) (tg_handled s ++ [u])
                  (tg_calls s ++ option_list (inbound_of now u)))
      | _, _ => None
      end
  | TgSave stored =>
      next ← tg_save s;
      Some (mkTg (tg_arrived s) (tg_queue s) (tg_seq s) (tg_offset s) (tg_batch s) None
              (if stored then Some (show_Z next) else tg_cursor s) (tg_handled s) (tg_calls s))
  | TgCrash loaded =>
      Some (mkTg (tg_arrived s) (tg_queue s) (tg_seq s)
              (resume_offset (if loaded then tg_cursor s else None)) [] None (tg_cursor s)
              (tg_handled s) (tg_calls s))
  end.

Fixpoint tg_run (ls : list tglabel) (s : tgstate) : option tgstate :=
  match ls with [] => Some s | l :: ls => tg_step l s ≫= tg_run ls end.
End Poller.

(** *** What the service sends is what the poller reads *)

Definition i64_in_range (z : Z) : bool := (-2^63 <=? z) && (z <? 2^63).

Definition message_in_range (m : TgMessage) : bool :=
  match tg_from m with Some i => i64_in_range i | None => true end && i64_in_range (tg_chat m) &&
  match tg_reply_to_message m with Some i => i64_in_range i | None => true end.

Definition update_in_range (u : Update) : bool :=
  i64_in_range (up_update_id u) &&
  match up_message u with Some m => message_in_range m | None => true end.

Lemma as_i64_int z : as_i64 (JInt z) = if i64_in_range z then Some z else None.
Proof. done. Qed.

(** Decoding inverts the service's encoding of every update whose numbers are [i64]s,
    and refuses any other. *)
Lemma update_roundtrip u :
  decode_update (update_json u) = if update_in_range u then Some u else None.
Proof.
  destruct u as [id [[text from chat reply]|]].
  - destruct text, from, reply; lazy -[as_i64 i64_in_range]; rewrite ?as_i64_int;
      repeat match goal with |- context [i64_in_range ?z] => destruct (i64_in_range z); try done end.
  - lazy -[as_i64 i64_in_range]; rewrite ?as_i64_int. by destruct (i64_in_range id).
Qed.

Section PollerProofs.
Context {HW : Type} `{ChannelHost HW}.

Lemma updates_of_service l updates :
  updates_of_reply (Ok (updates_reply l)) = Ok updates → updates = l.
Proof.
  unfold updates_of_reply. simpl. unfold decode_updates, default_field, jobj. simpl.
  destruct (mapM decode_update (update_json <$> l)) as [us|] eqn:E; simpl; [|done].
  intros [= <-]. apply mapM_Some_1 in E. rewrite Forall2_fmap_l in E. symmetry.
  apply list_eq_Forall2. eapply Forall2_impl; [exact E|]. intros u u' Hu.
  change (decode_update (update_json u) = Some u') in Hu. rewrite update_roundtrip in Hu.
  destruct (update_in_range u); by simplify_eq.
Qed.

(** *** No update is lost *)

Definition older (u v : Update) : Prop := up_update_id u < up_update_id v.

#[local] Instance older_trans : Transitive older.
Proof. unfold older. intros u v x. lia. Qed.

(** Every update below [o] was handled. *)
Definition settled (s : tgstate) (o : Z) : Prop :=
  0 < o ≤ tg_seq s ∧ ∀ u, u ∈ tg_arrived s → up_update_id u < o → u ∈ tg_handled s.

Record tg_inv (s : tgstate) : Prop := {
  inv_seq : 0 < tg_seq s ≤ 2^63 - 1;
  inv_arrived : ∀ u, u ∈ tg_arrived s → 0 < up_update_id u < tg_seq s;
  inv_ids : ∀ u v, u ∈ tg_arrived s → v ∈ tg_arrived s → up_update_id u = up_update_id v → u = v;
  inv_queue : StronglySorted older (tg_queue s);
  inv_queue_arrived : ∀ u, u ∈ tg_queue s → u ∈ tg_arrived s;
  inv_kept : ∀ u, u ∈ tg_arrived s → u ∈ tg_queue s ∨ u ∈ tg_handled s;
  inv_batch : StronglySorted older (tg_batch s);
  inv_batch_queue : ∀ u, u ∈ tg_batch s → u ∈ tg_queue s;
  inv_front : ∀ u, u ∈ tg_arrived s →
    u ∈ tg_handled s ∨ u ∈ tg_batch s ∨ ∀ v, v ∈ tg_batch s → older v u;
  inv_offset : ∀ o, tg_offset s = Some o → settled s o;
  inv_save : ∀ o, tg_save s = Some o → settled s o;
  inv_cursor : ∀ c, tg_cursor s = Some c → ∃ o, c = show_Z o ∧ settled s o;
  inv_handled : ∀ u, u ∈ tg_handled s → u ∈ tg_arrived s;
}.

Lemma tg_start_inv : tg_inv tg_start.
Proof.
  constructor; simpl; try lia; try apply SSorted_nil; try done; intros;
    match goal with Hn : _ ∈ [] |- _ => by apply not_elem_of_nil in Hn end.
Qed.

Lemma StronglySorted_filter {A} (R : A → A → Prop) (p : A → bool) l :
  StronglySorted R l → StronglySorted R (List.filter p l).
Proof.
  induction 1 as [|x l Hl IH Hx]; simpl; [constructor|]. destruct (p x); [|done].
  constructor; [done|]. rewrite List.Forall_forall in Hx |- *. intros y [Hy _]%filter_In. by apply Hx.
Qed.

Lemma StronglySorted_take_drop {A} (R : A → A → Prop) n l :
  StronglySorted R l →
  StronglySorted R (take n l) ∧ ∀ x y, x ∈ take n l → y ∈ drop n l → R x y.
Proof.
  intros Hl. revert n. induction Hl as [|x l Hl IH Hx]; intros [|n]; simpl.
  1-3: by split; [constructor|intros ? ? ?%not_elem_of_nil].
  destruct (IH n) as [Ht Hd]. rewrite Forall_forall in Hx. split.
  - constructor; [done|]. rewrite Forall_forall. intros y Hy. apply Hx.
    rewrite <- (take_drop n l). apply elem_of_app. by left.
  - intros a b [->|Ha]%elem_of_cons Hb; [|by apply Hd]. apply Hx.
    rewrite <- (take_drop n l). apply elem_of_app. by right.
Qed.

Lemma StronglySorted_snoc {A} (R : A → A → Prop) l x :
  StronglySorted R l → (∀ y, y ∈ l → R y x) → StronglySorted R (l ++ [x]).
Proof.
  intros Hl Hx. induction Hl as [|y l Hl IH Hy]; simpl; [by repeat constructor|].
  constructor; [apply IH; intros z Hz; apply Hx; by right|].
  apply Forall_app. split; [done|]. apply Forall_singleton, Hx. by left.
Qed.

Lemma confirm_sub o q u : u ∈ confirm o q → u ∈ q.
Proof. destruct o; simpl; [|done]. rewrite !list_elem_of_In. by intros [? _]%filter_In. Qed.

Lemma confirm_sorted o q : StronglySorted older q → StronglySorted older (confirm o q).
Proof. destruct o; simpl; [apply StronglySorted_filter|done]. Qed.

(** What the service forgets was handled. *)
Lemma confirm_kept s u : tg_inv s → u ∈ tg_arrived s →
  u ∈ confirm (tg_offset s) (tg_queue s) ∨ u ∈ tg_handled s.
Proof.
  intros I Hu. destruct (inv_kept s I u Hu) as [Hq|]; [|by right].
  destruct (tg_offset s) as [o|] eqn:Ho; [|by left]. simpl.
  destruct (Z.leb_spec o (up_update_id u)) as [Hle|Hlt].
  - left. rewrite list_elem_of_In in Hq |- *. apply filter_In. split; [done|by apply Z.leb_le].
  - right. by apply (inv_offset s I o Ho).
Qed.

Lemma next_offset_succ s u : tg_inv s → u ∈ tg_arrived s → next_offset u = up_update_id u + 1.
Proof.
  intros I Hu. pose proof (inv_arrived s I u Hu). pose proof (inv_seq s I).
  unfold next_offset, wrap_i64. rewrite Z.mod_small; lia.
Qed.

Lemma settled_grows s s' o :
  tg_arrived s' = tg_arrived s → tg_seq s' = tg_seq s →
  (∀ u, u ∈ tg_handled s → u ∈ tg_handled s') → settled s o → settled s' o.
Proof. intros Ha Hs Hh [Ho Hu]. split; [by rewrite Hs|]. rewrite Ha. auto. Qed.

Lemma tg_arrive_inv s s' u : tg_inv s → tg_step (TgArrive u) s = Some s' → tg_inv s'.
Proof.
  intros I Hs. unfold tg_step in Hs. destruct (_ && _) eqn:Hc in Hs; [|done].
  apply andb_true_iff in Hc as [Hge%Z.leb_le Hlt%Z.ltb_lt]. simplify_eq.
  pose proof (inv_seq s I) as Hq. pose proof (inv_arrived s I) as Ha.
  match goal with |- tg_inv ?x => set (s' := x) end.
  assert (∀ o, settled s o → settled s' o) as Hset.
  { intros o [Ho Hu]. split; simpl; [lia|]. intros v [Hv| ->%list_elem_of_singleton]%elem_of_app Hv'; [by apply Hu|lia]. }
  constructor; simpl.
  - lia.
  - intros v [Hv| ->%list_elem_of_singleton]%elem_of_app; [|lia]. specialize (Ha v Hv). lia.
  - intros x y [Hx| ->%list_elem_of_singleton]%elem_of_app [Hy| ->%list_elem_of_singleton]%elem_of_app He;
      [by apply (inv_ids s I)|specialize (Ha x Hx); lia|specialize (Ha y Hy); lia|done].
  - apply StronglySorted_snoc; [apply I|]. intros v Hv. apply (inv_queue_arrived s I), Ha in Hv.
    unfold older. lia.
  - intros v [Hv|Hv]%elem_of_app; apply elem_of_app; [left; by apply (inv_queue_arrived s I)|by right].
  - intros v [Hv|Hv]%elem_of_app; [|left; apply elem_of_app; by right].
    destruct (inv_kept s I v Hv); [left; apply elem_of_app; by left|by right].
  - apply I.
  - intros v Hv. apply elem_of_app. left. by apply I.
  - intros v [Hv| ->%list_elem_of_singleton]%elem_of_app; [by apply (inv_front s I)|].
    right; right. intros b Hb. apply (inv_batch_queue s I), (inv_queue_arrived s I), Ha in Hb.
    unfold older. lia.
  - intros o Ho. by apply Hset, (inv_offset s I).
  - intros o Ho. by apply Hset, (inv_save s I).
  - intros c Hc. destruct (inv_cursor s I c Hc) as (o & -> & Ho). eauto.
  - intros v Hv. apply elem_of_app. left. by apply (inv_handled s I).
Qed.

(** Asking again forgets only what was handled. *)
Lemma tg_confirm_inv s : tg_inv s → tg_batch s = [] →
  tg_inv (set_queue (confirm (tg_offset s) (tg_queue s)) s).
Proof.
  intros I Hb. constructor; simpl; try apply I.
  - apply confirm_sorted, I.
  - intros u Hu%confirm_sub. by apply I.
  - intros u Hu. by apply confirm_kept.
  - rewrite Hb. by intros u ?%not_elem_of_nil.
Qed.

Lemma tg_idle_batch s : tg_idle s = true → tg_batch s = [].
Proof. unfold tg_idle. by destruct (tg_batch s). Qed.

Lemma tg_fetch_inv s n : tg_inv s → tg_inv (set_batch (take n (tg_queue s)) s).
Proof.
  intros I. destruct (StronglySorted_take_drop older n (tg_queue s) (inv_queue s I)) as [Ht Hd].
  constructor; simpl; try apply I; [done|..].
  - intros u Hu. rewrite <- (take_drop n (tg_queue s)). apply elem_of_app. by left.
  - intros u Hu. destruct (inv_kept s I u Hu) as [Hq|]; [|by left]. right.
    rewrite <- (take_drop n (tg_queue s)) in Hq. apply elem_of_app in Hq as [Hq|Hq]; [by left|].
    right. intros v Hv. by apply Hd.
Qed.

Lemma tg_poll_inv s s' n : tg_inv s → tg_step (TgPoll n) s = Some s' → tg_inv s'.
Proof.
  intros I Hs. unfold tg_step in Hs. destruct (tg_idle s) eqn:Hb; [|done]. apply tg_idle_batch in Hb.
  destruct (updates_of_reply _) as [us|] eqn:Hus in Hs; simpl in Hs; [|done].
  apply updates_of_service in Hus as ->. simplify_eq.
  by apply (tg_fetch_inv (set_queue (confirm (tg_offset s) (tg_queue s)) s) n), tg_confirm_inv.
Qed.

Lemma tg_handle_inv s s' now : tg_inv s → tg_step (TgHandle now) s = Some s' → tg_inv s'.
Proof.
  intros I Hs. simpl in Hs. destruct (tg_batch s) as [|u rest] eqn:Hb; [done|].
  destruct (tg_save s) eqn:Hsv; [done|]. simplify_eq. match goal with |- tg_inv ?x => set (s' := x) end.
  assert (u ∈ tg_queue s) as Huq by (apply (inv_batch_queue s I); rewrite Hb; by left).
  pose proof (inv_queue_arrived s I u Huq) as Hua.
  pose proof (inv_batch s I) as Hsort. rewrite Hb in Hsort. apply StronglySorted_inv in Hsort as [Hr Hu].
  rewrite Forall_forall in Hu. pose proof (next_offset_succ s u I Hua) as Hn.
  assert (∀ v, v ∈ tg_handled s → v ∈ tg_handled s') as Hg by (intros; apply elem_of_app; by left).
  assert (settled s' (next_offset u)) as Hset.
  { rewrite Hn. pose proof (inv_arrived s I u Hua). split; [simpl; lia|]. simpl. intros v Hv Hle.
    apply elem_of_app. destruct (inv_front s I v Hv) as [Hh|[Hvb|Hnew]]; [by left|..].
    - rewrite Hb in Hvb. apply elem_of_cons in Hvb as [->|Hvr]; [right; by left|].
      specialize (Hu v Hvr). unfold older in Hu. lia.
    - specialize (Hnew u ltac:(rewrite Hb; by left)). unfold older in Hnew. lia. }
  assert (∀ o, settled s o → settled s' o) as Hold by (intros o; by apply settled_grows).
  constructor; simpl; try apply I; try done.
  - intros v Hv. destruct (inv_kept s I v Hv); [by left|right; by apply Hg].
  - intros v Hv. apply (inv_batch_queue s I). rewrite Hb. by right.
  - intros v Hv. destruct (inv_front s I v Hv) as [Hh|[Hvb|Hnew]]; [left; by apply Hg|..].
    + rewrite Hb in Hvb. apply elem_of_cons in Hvb as [->|Hvr]; [|by right; left].
      left. apply elem_of_app. right. by left.
    + right; right. intros x Hx. apply Hnew. rewrite Hb. by right.
  - by intros o [= <-].
  - by intros o [= <-].
  - intros c Hc. destruct (inv_cursor s I c Hc) as (o & -> & Ho). eauto.
  - intros v [Hv| ->%list_elem_of_singleton]%elem_of_app; [by apply (inv_handled s I)|done].
Qed.

Lemma tg_save_inv s s' stored : tg_inv s → tg_step (TgSave stored) s = Some s' → tg_inv s'.
Proof.
  intros I Hs. simpl in Hs. destruct (tg_save s) as [next|] eqn:Hsv; simpl in Hs; [|done].
  simplify_eq. constructor; simpl; try apply I; [done|].
  intros c. destruct stored; [|apply I]. intros [= <-]. exists next. split; [done|]. by apply (inv_save s I).
Qed.

Lemma tg_crash_inv s s' loaded : tg_inv s → tg_step (TgCrash loaded) s = Some s' → tg_inv s'.
Proof.
  intros I Hs. simpl in Hs. simplify_eq. constructor; simpl; try apply I; try done.
  - constructor.
  - by intros u ?%not_elem_of_nil.
  - intros u Hu. right; right. by intros v ?%not_elem_of_nil.
  - intros o. destruct loaded; [|done]. unfold resume_offset.
    destruct (tg_cursor s) as [c|] eqn:Hc; simpl; [|done].
    destruct (inv_cursor s I c Hc) as (o' & -> & Ho). pose proof (inv_seq s I). pose proof Ho as [? _].
    rewrite parse_show by lia. intros [= <-]. done.
Qed.

Lemma tg_step_inv l s s' : tg_inv s → tg_step l s = Some s' → tg_inv s'.
Proof.
  destruct l; eauto using tg_arrive_inv, tg_poll_inv, tg_handle_inv, tg_save_inv, tg_crash_inv.
  - intros I. simpl. destruct (tg_idle s) eqn:Hb; [|done]. intros [= <-].
    by apply tg_confirm_inv, tg_idle_batch.
  - intros I. simpl. destruct (tg_idle s); by intros [= <-].
Qed.

Lemma tg_run_inv ls s s' : tg_inv s → tg_run ls s = Some s' → tg_inv s'.
Proof.
  revert s. induction ls as [|l ls IH]; intros s I; simpl; [by intros [= <-]|].
  destruct (tg_step l s) as [t|] eqn:Hst; simpl; [|done]. intros Hr. eauto using tg_step_inv.
Qed.

(** The handler's calls are the messages of the handled updates, in order. *)
Definition calls_match (s : tgstate) : Prop := ∃ times, length times = length (tg_handled s) ∧
  tg_calls s = omap (λ '(t, u), inbound_of t u) (zip times (tg_handled s)).

Lemma tg_calls_step l s s' : calls_match s → tg_step l s = Some s' → calls_match s'.
Proof.
  intros (times & Hl & Hc) Hs. destruct l; simpl in Hs.
  - by destruct (_ && _); simplify_eq; exists times.
  - destruct (tg_idle s); [|done]. destruct (ok _); simplify_eq/=. by exists times.
  - by destruct (tg_idle s); simplify_eq; exists times.
  - by destruct (tg_idle s); simplify_eq; exists times.
  - destruct (tg_batch s) as [|u rest]; [done|]. destruct (tg_save s); [done|]. simplify_eq.
    exists (times ++ [now]). simpl. rewrite !length_app, Hl. split; [done|].
    rewrite zip_with_app, omap_app, Hc by done. simpl. by destruct (inbound_of now u).
  - destruct (tg_save s); simplify_eq/=. by exists times.
  - simplify_eq. by exists times.
Qed.

Lemma tg_run_calls ls s s' : calls_match s → tg_run ls s = Some s' → calls_match s'.
Proof.
  revert s. induction ls as [|l ls IH]; intros s Hc; simpl; [by intros [= <-]|].
  destruct (tg_step l s) as [t|] eqn:Hst; simpl; [|done]. eauto using tg_calls_step.
Qed.

(** C23: whatever is lost on the way, wherever the process dies and whichever cursor
    writes fail: an update the service no longer has was handled, so were all updates
    below the persisted cursor, and each handled text message was handed to the
    pipeline. The service is one that keeps an update until it is confirmed and hands
    out increasing ids: downtimes of a day or more, after which Telegram drops updates,
    and idle weeks, after which it may restart its ids, are outside the runs. *)
Theorem telegram_no_update_lost ls s :
  tg_run ls tg_start = Some s →
  (∀ u, u ∈ tg_arrived s → u ∈ tg_queue s ∨ u ∈ tg_handled s) ∧
  (∀ o u, resume_offset (tg_cursor s) = Some o → u ∈ tg_arrived s → up_update_id u < o →
     u ∈ tg_handled s) ∧
  (∃ times, length times = length (tg_handled s) ∧
     tg_calls s = omap (λ '(t, u), inbound_of t u) (zip times (tg_handled s))).
Proof.
  intros Hr. pose proof (tg_run_inv ls _ s tg_start_inv Hr) as I.
  split; [apply I|]. split; [|apply (tg_run_calls ls tg_start s); [by exists []|done]].
  intros o u Ho. destruct (tg_step (TgCrash true) s) as [r|] eqn:Hs; [|done].
  pose proof (tg_crash_inv s r true I Hs) as J. simpl in Hs. simplify_eq. by apply (inv_offset _ J o).
Qed.

(** *** Once each, unless the bookkeeping fails *)

(** Every cursor write succeeds, and the process dies between updates only and finds
    its cursor. *)
Definition tidy (l : tglabel) (s : tgstate) : bool :=
  match l with
  | TgSave stored => stored
  | TgCrash loaded => loaded && match tg_save s with None => true | Some _ => false end
  | _ => true
  end.

Fixpoint tidy_run (ls : list tglabel) (s : tgstate) : bool :=
  match ls with
  | [] => true
  | l :: ls => tidy l s && match tg_step l s with Some s => tidy_run ls s | None => true end
  end.

Record tg_once (s : tgstate) : Prop := {
  once_sorted : StronglySorted older (tg_handled s);
  once_batch : ∀ u v, u ∈ tg_handled s → v ∈ tg_batch s → older u v;
  once_offset : ∀ u, u ∈ tg_handled s → ∃ o, tg_offset s = Some o ∧ up_update_id u < o;
  once_save : ∀ o, tg_save s = Some o → tg_offset s = Some o;
  once_cursor : tg_save s = None → tg_handled s ≠ [] → tg_cursor s = show_Z <$> tg_offset s;
}.

Lemma confirm_newer o q u : u ∈ confirm (Some o) q → o ≤ up_update_id u.
Proof. simpl. rewrite list_elem_of_In. by intros [_ ?%Z.leb_le]%filter_In. Qed.

Lemma once_poll s n : tg_once s →
  tg_once (set_batch (take n (confirm (tg_offset s) (tg_queue s)))
    (set_queue (confirm (tg_offset s) (tg_queue s)) s)).
Proof.
  intros O. constructor; simpl; try apply O. intros u v Hu Hv.
  destruct (once_offset s O u Hu) as (o & Ho & Hlt). rewrite Ho in Hv.
  apply elem_of_take in Hv as (i & Hv & _). apply list_elem_of_lookup_2, confirm_newer in Hv.
  unfold older. lia.
Qed.

Lemma once_handle s s' now : tg_inv s → tg_once s → tg_step (TgHandle now) s = Some s' → tg_once s'.
Proof.
  intros I O Hs. simpl in Hs. destruct (tg_batch s) as [|u rest] eqn:Hb; [done|].
  destruct (tg_save s) eqn:Hsv; [done|]. simplify_eq.
  assert (u ∈ tg_batch s) as Hub by (rewrite Hb; by left).
  pose proof (inv_queue_arrived s I u (inv_batch_queue s I u Hub)) as Hua.
  pose proof (inv_batch s I) as Hsort. rewrite Hb in Hsort. apply StronglySorted_inv in Hsort as [_ Hr].
  rewrite Forall_forall in Hr. constructor; simpl.
  - apply StronglySorted_snoc; [apply O|]. intros v Hv. by apply (once_batch s O).
  - intros x v [Hx| ->%list_elem_of_singleton]%elem_of_app Hv; [|by apply Hr].
    apply (once_batch s O); [done|]. rewrite Hb. by right.
  - intros x Hx. exists (next_offset u). split; [done|]. rewrite (next_offset_succ s u I Hua).
    apply elem_of_app in Hx as [Hx| ->%list_elem_of_singleton]; [|lia].
    pose proof (once_batch s O x u Hx Hub) as Ho. unfold older in Ho. lia.
  - by intros o [= <-].
  - done.
Qed.

Lemma once_step l s s' : tg_inv s → tg_once s → tidy l s = true → tg_step l s = Some s' → tg_once s'.
Proof.
  intros I O Ht Hs. destruct l; simpl in Hs, Ht.
  - destruct (_ && _); simplify_eq. constructor; simpl; apply O.
  - destruct (tg_idle s); [|done]. destruct (updates_of_reply _) eqn:Hu in Hs; simplify_eq/=.
    apply updates_of_service in Hu as ->. by apply once_poll.
  - destruct (tg_idle s); simplify_eq. constructor; simpl; apply O.
  - by destruct (tg_idle s); simplify_eq.
  - by apply (once_handle s s' now).
  - destruct (tg_save s) as [o|] eqn:Hsv; simplify_eq/=.
    constructor; simpl; try apply O; [done|]. by rewrite (once_save s O o Hsv).
  - apply andb_true_iff in Ht as [-> Hn]. destruct (tg_save s) eqn:Hsv; [done|]. simplify_eq/=.
    assert (∀ u, u ∈ tg_handled s → resume_offset (tg_cursor s) = tg_offset s) as Ho.
    { intros u Hu. destruct (once_offset s O u Hu) as (o & Ho & _).
      rewrite (once_cursor s O Hsv), Ho by (intros Hn'; rewrite Hn' in Hu; by apply not_elem_of_nil in Hu).
      destruct (inv_offset s I o Ho) as [? _]. pose proof (inv_seq s I). simpl. by rewrite parse_show by lia. }
    constructor; simpl; try apply O; try done.
    + by intros u v _ ?%not_elem_of_nil.
    + intros u Hu. rewrite (Ho u Hu). by apply (once_offset s O).
    + intros _ Hne. destruct (tg_handled s) as [|u l] eqn:Hh; [done|].
      rewrite (Ho u) by by left. apply (once_cursor s O Hsv). by rewrite Hh.
Qed.

(** When every cursor write succeeds and the process stops between updates, no update
    is handled twice, over any number of restarts: the ids handled increase. *)
Theorem telegram_handled_once ls s :
  tg_run ls tg_start = Some s → tidy_run ls tg_start = true →
  StronglySorted older (tg_handled s).
Proof.
  intros Hr Ht. enough (tg_once s) by by apply once_sorted.
  assert (tg_once tg_start) as O0.
  { constructor; simpl; try apply SSorted_nil; try done; intros;
      match goal with Hn : _ ∈ [] |- _ => by apply not_elem_of_nil in Hn end. }
  pose proof tg_start_inv as I. revert I O0 Hr Ht. generalize tg_start.
  induction ls as [|l ls IH]; intros t I O; simpl; [by intros [= <-]|].
  destruct (tg_step l t) as [t'|] eqn:Hst; simpl; [|done].
  intros Hr [Hl Hls]%andb_true_iff. eauto using tg_step_inv, once_step.
Qed.

(** *** Every update is handled when the service answers *)

(** Steps of the poller itself that work. *)
Definition working (l : tglabel) : bool :=
  match l with TgPoll _ | TgHandle _ | TgSave true => true | _ => false end.

Lemma tg_run_app l1 l2 s : tg_run (l1 ++ l2) s = tg_run l1 s ≫= tg_run l2.
Proof.
  revert s. induction l1 as [|l l1 IH]; intros s; simpl; [done|].
  destruct (tg_step l s); simpl; [apply IH|done].
Qed.

(** The poller gets to the end of its batch. *)
Definition finishes (s : tgstate) : Prop := ∃ ls t, tg_run ls s = Some t ∧
  Forall (λ l, working l = true) ls ∧ tg_idle t = true ∧ tg_arrived t = tg_arrived s ∧
  ∀ u, u ∈ tg_batch s ∨ u ∈ tg_handled s → u ∈ tg_handled t.

Lemma finish_idle s : tg_save s = None → finishes s.
Proof.
  remember (tg_batch s) as batch eqn:Hb. revert s Hb.
  induction batch as [|u rest IH]; intros s Hb Hsv.
  - exists [], s. unfold tg_idle. rewrite <- Hb, Hsv. repeat split; try done; try constructor.
    by intros v [?%not_elem_of_nil|].
  - set (s1 := mkTg (tg_arrived s) (tg_queue s) (tg_seq s) (Some (next_offset u)) rest
      None (Some (show_Z (next_offset u))) (tg_handled s ++ [u])
      (tg_calls s ++ option_list (inbound_of 0 u))).
    destruct (IH s1 eq_refl eq_refl) as (ls & t & Hr & Hw & Hi & Ha & Hh).
    exists (TgHandle 0 :: TgSave true :: ls), t. simpl. rewrite <- Hb, Hsv.
    split; [exact Hr|]. split; [by repeat constructor|]. repeat split; try done.
    intros v Hv. apply Hh. simpl. rewrite elem_of_app, list_elem_of_singleton.
    destruct Hv as [[->|]%elem_of_cons|]; auto.
Qed.

Lemma finish_batch s : finishes s.
Proof.
  destruct (tg_save s) as [o|] eqn:Hsv; [|by apply finish_idle].
  set (s1 := mkTg (tg_arrived s) (tg_queue s) (tg_seq s) (tg_offset s) (tg_batch s) None
    (Some (show_Z o)) (tg_handled s) (tg_calls s)).
  destruct (finish_idle s1 eq_refl) as (ls & t & Hr & Hw & Hrest).
  exists (TgSave true :: ls), t. simpl. rewrite Hsv. split; [exact Hr|].
  split; [by constructor|exact Hrest].
Qed.

Lemma updates_served l :
  Forall (λ u, update_in_range u = true) l → updates_of_reply (Ok (updates_reply l)) = Ok l.
Proof.
  intros Hl. unfold updates_of_reply. simpl. unfold decode_updates, default_field, jobj. simpl.
  assert (mapM decode_update (update_json <$> l) = Some l) as ->; [|done].
  apply mapM_Some_2. rewrite Forall2_fmap_l. apply Forall_Forall2_diag.
  eapply Forall_impl; [exact Hl|]. intros u Hu. unfold compose. by rewrite update_roundtrip, Hu.
Qed.

(** Wherever the poller is: it finishes its batch, asks once more, and when the service
    answers in full, every update that ever arrived is handled. *)
Theorem telegram_catches_up ls s :
  tg_run ls tg_start = Some s → Forall (λ u, update_in_range u = true) (tg_arrived s) →
  ∃ more t, tg_run (ls ++ more) tg_start = Some t ∧ Forall (λ l, working l = true) more ∧
    tg_arrived t = tg_arrived s ∧ ∀ u, u ∈ tg_arrived s → u ∈ tg_handled t.
Proof.
  intros Hr Hrange. pose proof (tg_run_inv ls _ s tg_start_inv Hr) as I.
  destruct (finish_batch s) as (l1 & t1 & H1 & W1 & Hi & A1 & _).
  pose proof (tg_run_inv l1 s t1 I H1) as I1.
  set (q := confirm (tg_offset t1) (tg_queue t1)).
  set (t2 := set_batch q (set_queue q t1)).
  assert (tg_step (TgPoll (length q)) t1 = Some t2) as H2.
  { simpl. rewrite Hi. fold q. rewrite firstn_all, updates_served; [done|].
    rewrite Forall_forall in Hrange |- *. intros u Hu. apply Hrange. rewrite <- A1.
    by apply (inv_queue_arrived t1 I1), (confirm_sub (tg_offset t1)). }
  destruct (finish_batch t2) as (l3 & t3 & H3 & W3 & _ & A3 & Hh).
  exists (l1 ++ TgPoll (length q) :: l3), t3. split.
  { rewrite tg_run_app, Hr. cbn [mbind option_bind]. rewrite tg_run_app, H1.
    cbn [mbind option_bind tg_run]. rewrite H2. exact H3. }
  split; [apply Forall_app; split; [done|by constructor]|]. split; [by rewrite A3|].
  intros u Hu. apply Hh. rewrite <- A1 in Hu. exact (confirm_kept t1 u I1 Hu).
Qed.
End PollerProofs.

(** ** Matrix ([matrix.rs]) *)

Definition SYNC_TIMEOUT_MS : Z := 30000.
Definition BACKOFF : Z := 5000.

(** [MatrixAdapter] without its client, cursor and counter. *)
Record MatrixAdapter := mkMatrix { mx_homeserver : string; mx_access_token : string }.

Definition matrix_new (homeserver access_token : string) : MatrixAdapter :=
  mkMatrix (trim_end_matches "/" homeserver) access_token.

(** The counter of a new adapter. *)
Definition txn_start : Z := 1.

(** The wire types. [rooms.join[room].timeline.events] is the map of a sync. *)
Record EventContent := mkEventContent {
  ec_msgtype : option string;
  ec_body : option string;
  ec_relates_to : option (option (option string));  (** [m.relates_to], [m.in_reply_to], [event_id] *)
}.

Definition no_content : EventContent := mkEventContent None None None.

Record MxEvent := mkMxEvent { ev_kind : string; ev_sender : string; ev_content : EventContent }.

Record SyncResponse := mkSync { sy_next_batch : string; sy_join : gmap string (list MxEvent) }.

Definition decode_in_reply_to (j : json) : option (option string) :=
  on_object j (opt_field as_str j "event_id").

Definition decode_relates_to (j : json) : option (option (option string)) :=
  on_object j (opt_field decode_in_reply_to j "m.in_reply_to").

Definition decode_content (j : json) : option EventContent := on_object j (
  opt_field as_str j "msgtype" ≫= λ msgtype,
  opt_field as_str j "body" ≫= λ body,
  opt_field decode_relates_to j "m.relates_to" ≫= λ relates,
  Some (mkEventContent msgtype body relates)).

Definition decode_mx_event (j : json) : option MxEvent := on_object j (
  req_field as_str j "type" ≫= λ kind,
  default_field as_str "" j "sender" ≫= λ sender,
  default_field decode_content no_content j "content" ≫= λ content,
  Some (mkMxEvent kind sender content)).

Definition decode_timeline (j : json) : option (list MxEvent) :=
  on_object j (default_field (decode_list decode_mx_event) [] j "events").

Definition decode_joined (j : json) : option (list MxEvent) :=
  on_object j (default_field decode_timeline [] j "timeline").

Definition decode_join (j : json) : option (gmap string (list MxEvent)) :=
  match j with
  | JObject l => list_to_map <$> mapM (λ '(k, v), pair k <$> decode_joined v) l
  | _ => None
  end.

Definition decode_rooms (j : json) : option (gmap string (list MxEvent)) :=
  on_object j (default_field decode_join ∅ j "join").

Definition decode_sync (j : json) : option SyncResponse := on_object j (
  req_field as_str j "next_batch" ≫= λ next_batch,
  default_field decode_rooms ∅ j "rooms" ≫= λ join,
  Some (mkSync next_batch join)).

(** [text_messages]: room, text, sender and the event replied to. *)
Definition text_message (room : string) (ev : MxEvent) :
    option (string * string * string * option string) :=
  if negb (string_eqb (ev_kind ev) "m.room.message") then None
  else if negb (bool_decide (ec_msgtype (ev_content ev) = Some "m.text")) then None
  else
    body ← ec_body (ev_content ev);
    if string_eqb (trim body) "" then None
    else Some (room, body, ev_sender ev, mjoin (mjoin (ec_relates_to (ev_content ev)))).

(** A [HashMap] iterated with its keys. *)
Definition entries {V} (m : gmap string V) : gmap string (string * V) := map_imap (λ k v, Some (k, v)) m.

Definition text_messages `{HashOrder (string * list MxEvent)} (s : SyncResponse) :
    list (string * string * string * option string) :=
  flat_map (λ '(room, events), omap (text_message room) events) (hash_values (entries (sy_join s))).

(** [urlencode]: unreserved bytes stay, the others become a percent sign and two
    upper-case hexadecimal digits. *)
Definition is_unreserved (a : ascii) : bool :=
  byte_is_alphanumeric a || bool_decide (a ∈ ["-"; "_"; "."; "~"]%char).

Definition hex_upper (z : Z) : ascii := ascii_of_N (Z.to_N (if z <? 10 then 48 + z else 55 + z)).

Fixpoint urlencode (s : string) : string :=
  match s with
  | EmptyString => EmptyString
  | String a s =>
      if is_unreserved a then String a (urlencode s)
      else String "%" (String (hex_upper (byte_val a / 16)) (String (hex_upper (byte_val a mod 16)) (urlencode s)))
  end.

Definition room_send_url (homeserver room : string) (txn : Z) : string :=
  homeserver +:+ "/_matrix/client/v3/rooms/" +:+ urlencode room +:+ "/send/m.room.message/" +:+ show_Z txn.

Definition room_send (homeserver access_token room : string) (txn : Z) (text : string) : ChannelRequest :=
  mkChannelRequest PUT (room_send_url homeserver room txn) [] (Some access_token)
    (Some (jobj [("msgtype", JString "m.text"); ("body", JString text)])).

Definition sync_request (a : MatrixAdapter) (since : option string) : ChannelRequest :=
  mkChannelRequest GET (mx_homeserver a +:+ "/_matrix/client/v3/sync")
    (("timeout", show_Z (match since with Some _ => SYNC_TIMEOUT_MS | None => 0 end)) ::
     match since with Some s => [("since", s)] | None => [] end)
    (Some (mx_access_token a)) None.

Section Matrix.
Context {HW : Type} `{ChannelHost HW} {C : Type} `{CursorStore C HW}.
Context `{HashOrder (string * list MxEvent)}.
Abbreviation mio := (io (chw HW SyncResponse)).

(** [whoami]. *)
Definition whoami (a : MatrixAdapter) : mio GatewayError string :=
  io_map_err (λ e, GwChannel ("whoami: " +:+ te_display e))
    (http_send (mkChannelRequest GET (mx_homeserver a +:+ "/_matrix/client/v3/account/whoami") []
      (Some (mx_access_token a)) None)) ≫= λ resp,
  if negb (is_success (cr_status resp))
  then throw (GwUnauthorized ("matrix whoami HTTP " +:+ status_text (cr_status resp)))
  else lift (map_err (λ e, GwChannel ("whoami decode: " +:+ e))
    (cr_json resp ≫= λ j, ok_or (on_object j (req_field as_str j "user_id")) (shape_error j))).

(** [fetch_sync]. *)
Definition fetch_sync (a : MatrixAdapter) (since : option string) : mio GatewayError SyncResponse :=
  io_map_err (λ e, GwChannel ("sync: " +:+ te_display e)) (http_send (sync_request a since)) ≫= λ resp,
  if negb (is_success (cr_status resp))
  then throw (GwChannel ("matrix sync HTTP " +:+ status_text (cr_status resp)))
  else
    lift (map_err (λ e, GwChannel ("sync decode: " +:+ e))
      (cr_json resp ≫= λ j, ok_or (decode_sync j) (shape_error j))) ≫= λ sync,
    log_event (EvSynced since sync) ≫= λ _, mret sync.

(** [reply_sink]. *)
Definition matrix_reply_sink (a : MatrixAdapter) (c : Correlation) : Outbound :=
  MatrixOutbound (mx_homeserver a) (mx_access_token a) (co_reply_to c).

(** [dispatch_sync]. *)
Definition matrix_inbound (now : Z) (t : string * string * string * option string) : InboundMessage :=
  let '(room, text, sender, reply_to) := t in
  mkInbound "matrix" sender text (mkCorrelation (Some room) room) reply_to now.

Definition msg_sender (t : string * string * string * option string) : string := t.1.2.

Fixpoint dispatch_messages (a : MatrixAdapter) (bot_id : string)
    (l : list (string * string * string * option string)) : mio GatewayError unit :=
  match l with
  | [] => mret tt
  | t :: rest =>
      (if string_eqb (msg_sender t) bot_id then mret tt
       else
         gets (λ w, channel_now (ch_host w)) ≫= λ now,
         dispatch_inbound (matrix_inbound now t)
           (matrix_reply_sink a (im_correlation (matrix_inbound now t)))) ≫= λ _,
      dispatch_messages a bot_id rest
  end.

Definition dispatch_sync (a : MatrixAdapter) (sync : SyncResponse) (bot_id : string) :
    mio GatewayError unit := dispatch_messages a bot_id (text_messages sync).

(** [deliver_alert], [MatrixOutbound::send]. *)
Definition matrix_deliver_alert (a : MatrixAdapter) (to : AlertRecipient) (body : AlertBody) :
    mio GatewayError (option string) :=
  fetch_add_txn ≫= λ txn,
  io_map_err (λ e, GwChannel ("matrix deliver_alert: " +:+ te_display (without_url e)))
    (http_send (room_send (mx_homeserver a) (mx_access_token a) (rc_to to) txn (render body))) ≫= λ resp,
  if negb (is_success (cr_status resp))
  then throw (GwChannel ("matrix deliver_alert HTTP " +:+ status_text (cr_status resp)))
  else mret (ok (cr_json resp) ≫= λ j, jget j "event_id" ≫= as_str).

Definition matrix_send (homeserver access_token room text : string) : mio string unit :=
  fetch_add_txn ≫= λ txn,
  io_map_err (λ e, "matrix room send: " +:+ te_display (without_url e))
    (http_send (room_send homeserver access_token room txn text)) ≫= λ resp,
  if negb (is_success (cr_status resp))
  then throw ("matrix room send HTTP " +:+ status_text (cr_status resp))
  else mret tt.

(** [run_ingress]: [fuel] iterations of the loop, which has no exit. *)
Fixpoint matrix_loop (fuel : nat) (a : MatrixAdapter) (c : C) (bot_id since : string) :
    mio GatewayError string :=
  match fuel with
  | O => mret since
  | S fuel =>
      attempt (fetch_sync a (Some since)) ≫= λ r,
      match r with
      | Err _ => log_event (EvBackoff BACKOFF) ≫= λ _, matrix_loop fuel a c bot_id since
      | Ok sync =>
          dispatch_sync a sync bot_id ≫= λ _,
          save_cursor c (sy_next_batch sync) ≫= λ _,
          matrix_loop fuel a c bot_id (sy_next_batch sync)
      end
  end.

Definition matrix_run_ingress (fuel : nat) (a : MatrixAdapter) (c : C) : mio GatewayError string :=
  whoami a ≫= λ bot_id,
  load_cursor c ≫= λ loaded,
  match loaded with
  | Some s => mret s
  | None =>
      fetch_sync a None ≫= λ initial,
      save_cursor c (sy_next_batch initial) ≫= λ _, mret (sy_next_batch initial)
  end ≫= λ since,
  matrix_loop fuel a c bot_id since.
End Matrix.

(** *** Room ids in a path *)

(** The percent-decoding of a path segment. *)
Definition hex_val (a : ascii) : option Z :=
  let z := byte_val a in
  if (48 <=? z) && (z <? 58) then Some (z - 48)
  else if (65 <=? z) && (z <? 71) then Some (z - 55)
  else if (97 <=? z) && (z <? 103) then Some (z - 87) else None.

Fixpoint percent_decode (s : string) : option string :=
  match s with
  | EmptyString => Some EmptyString
  | String a r =>
      if bool_decide (a = "%"%char) then
        match r with
        | String h (String l r) =>
            hex_val h ≫= λ h, hex_val l ≫= λ l,
            String (ascii_of_N (Z.to_N (16 * h + l))) <$> percent_decode r
        | _ => None
        end
      else String a <$> percent_decode r
  end.

Definition encoded_byte (a : ascii) : bool :=
  if is_unreserved a then true
  else
    bool_decide (hex_val (hex_upper (byte_val a / 16)) = Some (byte_val a / 16)) &&
    bool_decide (hex_val (hex_upper (byte_val a mod 16)) = Some (byte_val a mod 16)) &&
    is_unreserved (hex_upper (byte_val a / 16)) && is_unreserved (hex_upper (byte_val a mod 16)) &&
    bool_decide (ascii_of_N (Z.to_N (16 * (byte_val a / 16) + byte_val a mod 16)) = a).

Lemma encoded_bytes a : encoded_byte a = true.
Proof. destruct a as [[] [] [] [] [] [] [] []]; vm_compute; reflexivity. Qed.

(** A room id in a path is read back by percent-decoding, and leaves the segment's
    delimiters alone: it holds unreserved bytes and percent signs only. *)
Theorem urlencode_roundtrip s :
  percent_decode (urlencode s) = Some s ∧
  Forall (λ a, is_unreserved a = true ∨ a = "%"%char) (bytes (urlencode s)).
Proof.
  induction s as [|a s [IH Hb]]; [done|]. pose proof (encoded_bytes a) as He. unfold encoded_byte in He.
  cbn [urlencode]. destruct (is_unreserved a) eqn:Hu.
  - cbn [percent_decode bytes]. assert (a ≠ "%"%char) by (intros ->; discriminate).
    rewrite bool_decide_false, IH by done. split; [done|]. constructor; [by left|done].
  - rewrite !andb_true_iff, !bool_decide_eq_true in He. destruct He as [[[[Hh Hl] Hhu] Hlu] Ha].
    cbn [percent_decode bytes]. rewrite bool_decide_true, Hh by done. cbn [mbind option_bind].
    rewrite Hl. cbn [mbind option_bind]. rewrite IH. simpl fmap. rewrite Ha. split; [done|].
    constructor; [by right|]. constructor; [by left|]. constructor; [by left|done].
Qed.

(** *** The cursor follows the dispatch *)

Section MatrixProofs.
Context {HW : Type} `{ChannelHost HW} {C : Type} `{CursorStore C HW}.
Context `{HashOrder (string * list MxEvent)}.
Abbreviation event := (ChEvent SyncResponse).

Definition dispatched (log : list event) : list InboundMessage :=
  omap (λ e, match e with EvDispatched m _ => Some m | _ => None end) log.

(** The messages of the syncs since the resume point that somebody else sent. *)
Definition due_messages (bot_id : string) (log : list event) :
    list (string * string * string * option string) :=
  flat_map (λ e, match e with
    | EvSynced (Some _) b => List.filter (λ t, negb (string_eqb (msg_sender t) bot_id)) (text_messages b)
    | _ => [] end) log.

Definition last_synced (log : list event) : option SyncResponse :=
  last (omap (λ e, match e with EvSynced _ b => Some b | _ => None end) log).

Definition stands_for (m : InboundMessage) (t : string * string * string * option string) : Prop :=
  ∃ now, m = matrix_inbound now t.

Definition level (bot_id : string) (log : list event) : Prop :=
  Forall2 stands_for (dispatched log) (due_messages bot_id log).

Definition orderly (bot_id : string) (log : list event) : Prop :=
  ∀ before cursor after, log = before ++ EvSaved cursor :: after →
    level bot_id before ∧ sy_next_batch <$> last_synced before = Some cursor.

Lemma orderly_snoc bot log e :
  orderly bot log →
  (∀ cursor, e = EvSaved cursor →
     level bot log ∧ sy_next_batch <$> last_synced log = Some cursor) →
  orderly bot (log ++ [e]).
Proof.
  intros Ho He before cursor after Heq. destruct (decide (after = [])) as [->|Hne].
  - apply app_inj_tail in Heq as [-> ->]. by apply He.
  - destruct (exists_last Hne) as (l & x & ->).
    rewrite app_comm_cons, app_assoc in Heq. apply app_inj_tail in Heq as [-> _]. by apply (Ho _ _ l).
Qed.

Lemma dispatched_app l1 l2 : dispatched (l1 ++ l2) = dispatched l1 ++ dispatched l2.
Proof. apply omap_app. Qed.

Lemma due_app bot l1 l2 : due_messages bot (l1 ++ l2) = due_messages bot l1 ++ due_messages bot l2.
Proof. apply flat_map_app. Qed.

(** What dispatching adds to the log. *)
Lemma dispatch_messages_run a bot l w :
  ∃ h evs, dispatch_messages a bot l w = (Ok tt, mkChw h (ch_txn w) (ch_log w ++ evs)) ∧
    Forall (λ e, ∃ m s, e = EvDispatched m s ∧ im_platform_handle m ≠ bot) evs ∧
    Forall2 stands_for (dispatched evs) (List.filter (λ t, negb (string_eqb (msg_sender t) bot)) l).
Proof.
  revert w. induction l as [|t l IH]; intros w.
  { exists (ch_host w), []. simpl. rewrite app_nil_r. destruct w. repeat split; constructor. }
  destruct (string_eqb (msg_sender t) bot) eqn:Hs.
  - destruct (IH w) as (h & evs & Hr & Hl & Hf). exists h, evs. cbn [dispatch_messages]. rewrite Hs.
    split; [exact Hr|]. split; [done|]. cbn [List.filter]. by rewrite Hs.
  - set (m := matrix_inbound (channel_now (ch_host w)) t).
    set (k := matrix_reply_sink a (im_correlation m)).
    destruct (IH (mkChw (inbound_handle m k (ch_host w)) (ch_txn w) (ch_log w ++ [EvDispatched m k])))
      as (h & evs & Hr & Hl & Hf).
    exists h, (EvDispatched m k :: evs). cbn [dispatch_messages]. rewrite Hs. split.
    { etrans; [exact Hr|]. simpl. by rewrite <- app_assoc. }
    split.
    { constructor; [|done]. exists m, k. split; [done|]. destruct t as [[[room text] sender] reply].
      by apply string_eqb_neq in Hs. }
    cbn [List.filter]. rewrite Hs. simpl. constructor; [|exact Hf]. by exists (channel_now (ch_host w)).
Qed.

Lemma fetch_sync_run a since w r w' :
  fetch_sync a since w = (r, w') →
  ch_log w' = ch_log w ++ match r with Ok b => [EvSynced since b] | Err _ => [] end.
Proof.
  unfold fetch_sync, http_send, io_map_err, zoom, log_event, lift, modify, throw, mbind, io_bind.
  destruct (channel_send _ _) as [[resp|e] h]; simpl.
  - destruct (negb _); [by intros [= <- <-]; rewrite app_nil_r|].
    destruct (map_err _ _) as [b|e]; simpl; intros [= <- <-]; simpl; by rewrite ?app_nil_r.
  - intros [= <- <-]. by rewrite app_nil_r.
Qed.

(** What holds of the log whenever the loop is about to ask. *)
Definition in_order (bot_id : string) (log : list event) : Prop :=
  level bot_id log ∧ orderly bot_id log ∧
  ∀ m s, EvDispatched m s ∈ log → im_platform_handle m ≠ bot_id.

Lemma orderly_dispatched bot log evs :
  orderly bot log → Forall (λ e, ∃ m s, e = EvDispatched m s ∧ im_platform_handle m ≠ bot) evs →
  orderly bot (log ++ evs).
Proof.
  intros Ho Hl. revert log Ho. induction Hl as [|e evs (m & s & -> & _) _ IH]; intros log Ho.
  { by rewrite app_nil_r. }
  change (orderly bot (log ++ [EvDispatched m s] ++ evs)). rewrite app_assoc. apply IH, orderly_snoc; [done|]. by intros ? ?.
Qed.

Lemma quiet_events bot evs :
  Forall (λ e : event, ∃ m s, e = EvDispatched m s ∧ im_platform_handle m ≠ bot) evs →
  due_messages bot evs = [] ∧
  omap (λ e, match e with EvSynced _ b => Some b | _ => None end) evs = [].
Proof. induction 1 as [|e evs (m & s & -> & _) _ [IH1 IH2]]; [done|]. by split. Qed.

(** One answered sync: asked, dispatched, saved. *)
Lemma synced_in_order bot log since b evs :
  in_order bot log →
  Forall (λ e, ∃ m s, e = EvDispatched m s ∧ im_platform_handle m ≠ bot) evs →
  Forall2 stands_for (dispatched evs)
    (List.filter (λ t, negb (string_eqb (msg_sender t) bot)) (text_messages b)) →
  in_order bot ((log ++ [EvSynced (Some since) b]) ++ evs ++ [EvSaved (sy_next_batch b)]).
Proof.
  intros (Hlev & Hord & Hecho) Hevs Hmsgs. destruct (quiet_events bot evs Hevs) as [Hdue Hsyn].
  assert (level bot ((log ++ [EvSynced (Some since) b]) ++ evs)) as Hlev'.
  { unfold level. rewrite !dispatched_app, !due_app, Hdue, app_nil_r. simpl. rewrite !app_nil_r.
    by apply Forall2_app. }
  rewrite app_assoc. split_and!.
  - unfold level. rewrite dispatched_app, due_app. simpl. by rewrite !app_nil_r.
  - apply orderly_snoc.
    + apply orderly_dispatched; [|done]. apply orderly_snoc; [done|]. by intros ? ?.
    + intros c [= <-]. split; [done|]. unfold last_synced. rewrite !omap_app, Hsyn. simpl.
      by rewrite app_nil_r, last_snoc.
  - intros m s Hm. rewrite !elem_of_app, !list_elem_of_singleton in Hm.
    destruct Hm as [[[Hm|Hm]|Hm]|Hm]; try done; [by apply (Hecho m s)|].
    rewrite Forall_forall in Hevs. destruct (Hevs _ Hm) as (m' & s' & [= -> ->] & Hne). done.
Qed.

Lemma backoff_in_order bot log ms : in_order bot log → in_order bot (log ++ [EvBackoff ms]).
Proof.
  intros (Hlev & Hord & Hecho). split_and!.
  - unfold level. rewrite dispatched_app, due_app. simpl. by rewrite !app_nil_r.
  - apply orderly_snoc; [done|]. by intros ? ?.
  - intros m s [Hm|Hm%list_elem_of_singleton]%elem_of_app; [by apply (Hecho m s)|done].
Qed.

Lemma save_cursor_run {E} (c : C) cur w : save_cursor (B := SyncResponse) (E := E) c cur w =
  (Ok tt, mkChw (cursor_save c cur (ch_host w)) (ch_txn w) (ch_log w ++ [EvSaved cur])).
Proof. done. Qed.

Lemma log_event_run {E} (e : event) w : log_event (HW := HW) (E := E) e w =
  (Ok tt, mkChw (ch_host w) (ch_txn w) (ch_log w ++ [e])).
Proof. done. Qed.

Lemma matrix_loop_in_order fuel a (c : C) bot since w :
  in_order bot (ch_log w) → in_order bot (ch_log (matrix_loop fuel a c bot since w).2).
Proof.
  revert since w. induction fuel as [|fuel IH]; intros since w Hw; [done|]. cbn [matrix_loop].
  destruct (fetch_sync a (Some since) w) as [r w1] eqn:Hf.
  pose proof (fetch_sync_run _ _ _ _ _ Hf) as Hlog.
  rewrite (io_bind_run_ok _ _ w r w1) by (unfold attempt; by rewrite Hf). destruct r as [b|e].
  - destruct (dispatch_messages_run a bot (text_messages b) w1) as (h & evs & Hr & Hl & Hm).
    unfold dispatch_sync. rewrite (io_bind_run_ok _ _ w1 tt _ Hr).
    rewrite (io_bind_run_ok _ _ _ tt _ (save_cursor_run c _ _)). apply IH. simpl. rewrite Hlog, <- app_assoc.
    by apply synced_in_order.
  - rewrite (io_bind_run_ok _ _ w1 tt _ (log_event_run _ _)). apply IH. simpl. rewrite Hlog, app_nil_r.
    by apply backoff_in_order.
Qed.

Lemma whoami_log a w : ch_log (whoami a w).2 = ch_log w.
Proof.
  unfold whoami, http_send, io_map_err, zoom, lift, throw, mbind, io_bind.
  destruct (channel_send _ _) as [[resp|e] h]; simpl; [|done].
  by destruct (negb _); [|destruct (map_err _ _)].
Qed.

(** However often the homeserver fails and wherever the process stops: the cursor is
    saved only after every message of the syncs it stands for, the bot's own apart, was
    handed to the pipeline, in order and once; it is the token of the last of them; and
    the bot never answers itself. (The first sync without a cursor only seeds it.) *)
Theorem matrix_saves_after_dispatch fuel a (c : C) w bot :
  ch_log w = [] → (whoami a w).1 = Ok bot →
  let log := ch_log (matrix_run_ingress fuel a c w).2 in
  (∀ before cursor after, log = before ++ EvSaved cursor :: after →
     Forall2 stands_for (dispatched before) (due_messages bot before) ∧
     sy_next_batch <$> last_synced before = Some cursor) ∧
  (∀ m s, EvDispatched m s ∈ log → im_platform_handle m ≠ bot).
Proof.
  intros Hw Hbot. cbv zeta. unfold matrix_run_ingress.
  assert (in_order bot []) as Hnil.
  { split_and!; [constructor|by intros [] ? ?|by intros m s ?%not_elem_of_nil]. }
  pose proof (whoami_log a w) as Hl. destruct (whoami a w) as [r w1] eqn:Hwho. simpl in Hbot, Hl. subst r.
  rewrite (io_bind_run_ok _ _ w bot w1 Hwho). rewrite Hw in Hl.
  destruct (cursor_load c (ch_host w1)) as [o h] eqn:Hc.
  rewrite (io_bind_run_ok _ _ w1 o (set_host h w1)) by (unfold load_cursor; by rewrite Hc).
  destruct o as [since|].
  - destruct (matrix_loop_in_order fuel a c bot since (set_host h w1)) as (_ & Ho & He);
      [|exact (conj Ho He)].
    simpl. by rewrite Hl.
  - rewrite <- io_bind_assoc.
    destruct (fetch_sync a None (set_host h w1)) as [r w2] eqn:Hf.
    pose proof (fetch_sync_run _ _ _ _ _ Hf) as Hlog. simpl in Hlog. rewrite Hl in Hlog. simpl in Hlog.
    destruct r as [b|e].
    + rewrite (io_bind_run_ok _ _ _ b w2 Hf), <- io_bind_assoc.
      rewrite (io_bind_run_ok _ _ _ tt _ (save_cursor_run c _ _)).
      edestruct (matrix_loop_in_order fuel a c bot (sy_next_batch b)) as (_ & Ho & He);
        [|exact (conj Ho He)].
      simpl. rewrite Hlog. simpl. split_and!.
      * constructor.
      * apply (orderly_snoc bot [EvSynced None b]).
        { apply (orderly_snoc bot []); [apply Hnil|]. by intros ? ?. }
        intros cur [= <-]. split; [constructor|done].
      * intros m s. rewrite !elem_of_cons, elem_of_nil. naive_solver.
    + rewrite (io_bind_run_err _ _ _ e w2 Hf). simpl. rewrite Hlog. split; [|by intros m s ?%not_elem_of_nil].
      by intros [] ? ?.
Qed.
End MatrixProofs.

(** ** The webhook route and the cursor store ([daimon-app/src/gw.rs]) *)

(** The [Gateway] trait, as far as the route uses it. *)
Record Gateway := mkGateway {
  gw_channel : string;
  gw_verify_and_parse : Z → InboundHttp → result GatewayError InboundMessage;
  gw_reply_sink : Correlation → Outbound;
}.

(** [TelegramAdapter] and [MatrixAdapter] as gateways. *)
Definition telegram_gateway `{ConstantTimeEq} (decode : string → result string Update)
    (a : TelegramAdapter) : Gateway :=
  mkGateway "telegram" (verify_and_parse decode (ta_webhook_secret a))
    (λ c, telegram_sink (ta_api_base a) (ta_bot_token a) (co_reply_to c)).

Definition matrix_gateway (a : MatrixAdapter) : Gateway :=
  mkGateway "matrix" (λ _ _, Err GwNotImplemented) (matrix_reply_sink a).

(** [GatewayRegistry]. *)
Abbreviation GatewayRegistry := (gmap string Gateway).

Definition register_gateway (a : Gateway) (r : GatewayRegistry) : GatewayRegistry :=
  <[gw_channel a := a]> r.

Definition get_gateway (channel : string) (r : GatewayRegistry) : option Gateway := r !! channel.

Definition enabled_channels (r : GatewayRegistry) : list string := (btree_iter r).*1.

(** [HeaderValue::to_str]: visible ASCII, blanks and tabs. *)
Definition header_text (v : string) : option string :=
  if forallb (λ a, in_range 32 126 a || bool_decide (a = "009"%char)) (bytes v) then Some v else None.

(** [header_map_to_hashmap]: of a repeated name the last value stays. *)
Definition header_map_to_hashmap (h : list (string * string)) : gmap string string :=
  fold_left (λ m kv, match header_text kv.2 with Some v => <[kv.1 := v]> m | None => m end) h ∅.

(** The response, and the turn that runs in the background. *)
Record WebhookReply := mkWebhookReply {
  wr_status : Z;
  wr_body : string;
  wr_spawned : option (InboundMessage * Outbound);
}.

Section Webhook.
Context `{HashOrder (string * string)}.

Definition webhook_request (headers : list (string * string)) (body : string) : InboundHttp :=
  inbound_http_new (hash_values (entries (header_map_to_hashmap headers))) body.

(** [gateway_webhook]. *)
Definition gateway_webhook (r : GatewayRegistry) (now : Z) (channel : string)
    (headers : list (string * string)) (body : string) : WebhookReply :=
  match get_gateway channel r with
  | None => mkWebhookReply 404 "no such gateway" None
  | Some adapter =>
      match gw_verify_and_parse adapter now (webhook_request headers body) with
      | Ok msg => mkWebhookReply 200 "ok" (Some (msg, gw_reply_sink adapter (im_correlation msg)))
      | Err (GwUnauthorized _) => mkWebhookReply 401 "unauthorized" None
      | Err (GwIgnored _) => mkWebhookReply 200 "ignored" None
      | Err (GwBadRequest m) => mkWebhookReply 400 m None
      | Err _ => mkWebhookReply 500 "gateway error" None
      end
  end.

Lemma header_map_sound h k v :
  header_map_to_hashmap h !! k = Some v → (k, v) ∈ h ∧ header_text v = Some v.
Proof.
  unfold header_map_to_hashmap.
  enough (∀ m, (∀ k v, m !! k = Some v → (k, v) ∈ h ∧ header_text v = Some v) →
    ∀ l, (∀ x, x ∈ l → x ∈ h) → ∀ k v,
    fold_left (λ m kv, match header_text kv.2 with Some v => <[kv.1 := v]> m | None => m end) l m !! k
      = Some v → (k, v) ∈ h ∧ header_text v = Some v) as Hf by (by apply (Hf ∅)).
  clear k v. intros m Hm l. revert m Hm. induction l as [|[k1 v1] l IH]; intros m Hm Hl; simpl; [done|].
  apply IH; [|intros x Hx; apply Hl; by right].
  destruct (header_text v1) as [v2|] eqn:Ht; [|done]. intros k v [[<- <-]|[_ Hk]]%lookup_insert_Some.
  - unfold header_text in Ht. destruct (forallb _ _) eqn:Hfb; simplify_eq.
    split; [apply Hl; by left|]. unfold header_text. by rewrite Hfb.
  - by apply Hm.
Qed.

(** A header the adapter sees was in the request, under a name that differs in case
    at most. *)
Lemma webhook_header headers body name v :
  header (webhook_request headers body) name = Some v →
  ∃ k, (k, v) ∈ headers ∧ to_ascii_lowercase k = to_ascii_lowercase name.
Proof.
  unfold header, webhook_request, inbound_http_new. cbn [ih_headers].
  enough (∀ l (m : gmap string string), (∀ k v, m !! k = Some v → ∃ k', (k', v) ∈ headers ∧ to_ascii_lowercase k' = k) →
    (∀ kv, kv ∈ l → kv ∈ headers) → ∀ k v,
    fold_left (λ m kv, <[to_ascii_lowercase kv.1 := kv.2]> m) l m !! k = Some v →
    ∃ k', (k', v) ∈ headers ∧ to_ascii_lowercase k' = k) as Hf.
  { apply Hf; [done|]. intros [k x] (k' & Hk)%elem_of_hash_values. unfold entries in Hk.
    rewrite map_lookup_imap in Hk. destruct (header_map_to_hashmap headers !! k') as [y|] eqn:Hy; [|done].
    simpl in Hk. simplify_eq. by apply header_map_sound in Hy as [? _]. }
  induction l as [|[k1 v1] l IH]; intros m Hm Hl k x; simpl; [apply Hm|].
  apply IH; [|intros kv Hkv; apply Hl; by right].
  intros k2 v2 [[<- <-]|[_ Hk]]%lookup_insert_Some; [|by apply Hm].
  exists k1. split; [apply Hl; by left|done].
Qed.
End Webhook.

Lemma update_ignored now u e : update_to_inbound now u = Err e → ∃ m, e = GwIgnored m.
Proof.
  unfold update_to_inbound, mbind, result_bind. destruct (up_message u) as [msg|]; simpl; [|naive_solver].
  destruct (tg_text msg) as [t|]; simpl; [|naive_solver].
  destruct (string_eqb (trim t) ""); simpl; [naive_solver|].
  destruct (tg_from msg); simpl; naive_solver.
Qed.

(** C28: a message enters the pipeline through the webhook only in a request that carries the
    secret registered with the bot, on behalf of the sender the update names, with a
    sink that answers in the chat the update came from; every other request gets an
    answer and starts nothing. *)
Theorem webhook_authentic `{HashOrder (string * string)} `{ConstantTimeEq} decode a now channel
    headers body :
  let r := gateway_webhook (register_gateway (telegram_gateway decode a) ∅) now channel headers body in
  match wr_spawned r with
  | Some (m, sink) =>
      wr_status r = 200 ∧ channel = "telegram" ∧
      (∃ name, (name, ta_webhook_secret a) ∈ headers ∧ to_ascii_lowercase name = SECRET_HEADER) ∧
      ∃ u msg from, decode body = Ok u ∧ up_message u = Some msg ∧ tg_from msg = Some from ∧
        im_platform_handle m = show_Z from ∧
        sink = TelegramOutbound (ta_api_base a) (ta_bot_token a) (show_Z (tg_chat msg))
  | None => wr_status r ∈ [200; 400; 401; 404]
  end.
Proof.
  cbv zeta. unfold gateway_webhook, get_gateway, register_gateway. cbn [gw_channel telegram_gateway].
  destruct (decide ("telegram" = channel)) as [<-|Hne].
  - rewrite lookup_insert_eq. cbn [telegram_gateway gw_verify_and_parse gw_reply_sink].
    destruct (verify_and_parse _ _ _ _) as [m|e] eqn:Hv; simpl.
    + apply verify_and_parse_authentic in Hv as (Hh & Hc & u & msg & from & Hd & Hm & Hf & Hp & Hr).
      split; [done|]. split; [done|]. split.
      { apply webhook_header in Hh as (k & Hk & Hl). exists k. by split. }
      exists u, msg, from. unfold telegram_sink. by rewrite Hr.
    + unfold verify_and_parse in Hv. destruct (negb _); [simplify_eq; set_solver|].
      destruct (decode _) as [u|]; simpl in Hv; [|simplify_eq; set_solver].
      apply update_ignored in Hv as [m ->]. set_solver.
  - rewrite lookup_insert_ne, lookup_empty by done. simpl. set_solver.
Qed.

(** [AppConfigCursor]: the value of its key in [app_config]; failures are logged. *)
Section Cursor.
Context `{PgMessages}.

#[export] Instance app_config_cursor : CursorStore string pg := {|
  cursor_load key w := let '(r, w) := get_config key w in (mjoin (ok r), w);
  cursor_save key cur w := (set_config key cur w).2;
|}.

(** A cursor whose write the database confirmed is what the next boot loads, unless
    somebody else writes the settings in between. *)
Lemma cursor_roundtrip key cur w w' :
  set_config key cur w = (Ok tt, w') → pg_steps w' = [] →
  (cursor_load key (cursor_save key cur w)).1 = Some cur.
Proof.
  intros Hs Hq. simpl. rewrite Hs. simpl.
  assert (config_value key (pg_tables w') = Some (JString cur)) as Hv.
  { unfold set_config, client, context, execute_sql, pool_get, select, sql, io_map_err, mbind, io_bind in Hs.
    destruct (arrive w) as [[] w1]; simpl in Hs; try discriminate.
    destruct (ds_outcome _); simpl in Hs; try discriminate. simplify_eq. simpl.
    unfold config_value, upsert_config. simpl. rewrite lookup_insert_eq. by destruct (_ !! key). }
  destruct w' as [t steps now uuids drawn]. simpl in Hq, Hv. subst steps.
  unfold get_config, client, context, pool_get, select, sql, io_map_err, mbind, io_bind.
  cbn -[config_value]. unfold arrive. cbn -[config_value]. by rewrite Hv.
Qed.
End Cursor.

(** ** Concrete runs *)

Module AdaptersDemo.

(** A homeserver that follows the Matrix specification on transaction ids: a repeated
    one is a retransmission, answered with the event that was created the first time
    and not delivered again. The sync tokens are positions in [mh_events]. *)
Record homeserver := mkHome {
  mh_seen : list string;
  mh_delivered : list string;
  mh_syncs : list (result ReqwestError ChannelReply);
  mh_pipeline : list string;
  mh_since : option string;
}.

Definition sent_text (r : ChannelRequest) : string :=
  default "" (rq_json r ≫= λ j, jget j "body" ≫= as_str).

Definition serve (r : ChannelRequest) : io homeserver ReqwestError ChannelReply := λ h,
  match rq_method r with
  | PUT =>
      (Ok (mkChannelReply 200 (Ok (jobj [("event_id", JString (rq_url r))]))),
       if bool_decide (rq_url r ∈ mh_seen h) then h
       else mkHome (rq_url r :: mh_seen h) (mh_delivered h ++ [sent_text r]) (mh_syncs h)
              (mh_pipeline h) (mh_since h))
  | _ =>
      if bool_decide (contains (rq_url r) "whoami" = true) then
        (Ok (mkChannelReply 200 (Ok (jobj [("user_id", JString "@daimon:hs")]))), h)
      else
        (default (Err (mkReqwestError "connection refused" None)) (head (mh_syncs h)),
         mkHome (mh_seen h) (mh_delivered h) (tail (mh_syncs h)) (mh_pipeline h) (mh_since h))
  end.

#[export] Instance home_host : ChannelHost homeserver := {|
  channel_send := serve;
  status_text z := show_Z z;
  shape_error _ := "invalid type";
  channel_now _ := 0;
  inbound_handle m _ h :=
    mkHome (mh_seen h) (mh_delivered h) (mh_syncs h) (mh_pipeline h ++ [im_text m]) (mh_since h);
|}.

#[export] Instance home_cursor : CursorStore unit homeserver := {|
  cursor_load _ h := (mh_since h, h);
  cursor_save _ c h := mkHome (mh_seen h) (mh_delivered h) (mh_syncs h) (mh_pipeline h) (Some c);
|}.

Definition adapter : MatrixAdapter := matrix_new "https://hs.example/" "token".

Definition said (sender text : string) : json :=
  jobj [("type", JString "m.room.message"); ("sender", JString sender);
        ("content", jobj [("msgtype", JString "m.text"); ("body", JString text)])].

Definition sync_reply (next : string) (events : list json) : result ReqwestError ChannelReply :=
  Ok (mkChannelReply 200 (Ok (jobj [("next_batch", JString next);
    ("rooms", jobj [("join", jobj [("!r:hs", jobj [("timeline", jobj [("events", JArray events)])])])])]))).

(** A cold start, an outage, and a sync with an echo of the bot's own message. *)
Definition home : homeserver :=
  mkHome [] [] [sync_reply "s1" [said "@wak:hs" "old"]; Err (mkReqwestError "timeout" None);
    sync_reply "s2" [said "@daimon:hs" "mine"; said "@wak:hs" "list drop rules"]] [] None.

Definition fresh (h : homeserver) : chw homeserver SyncResponse := mkChw h txn_start [].

Definition text_update (id : Z) (text : string) : Update :=
  mkUpdate id (Some (mkTgMessage (Some text) (Some 777) 555 None)).

(** Two updates arrive; the process dies after handling the first and before saving. *)
Definition crashing : list tglabel :=
  [TgArrive (text_update 42 "status?"); TgArrive (text_update 43 "drop rules?"); TgPoll 100;
   TgHandle 1; TgCrash true; TgPoll 100; TgHandle 2; TgSave true; TgHandle 3; TgSave true].

(** The same with an orderly stop. *)
Definition restarting : list tglabel :=
  [TgArrive (text_update 42 "status?"); TgArrive (text_update 43 "drop rules?"); TgPoll 100;
   TgHandle 1; TgSave true; TgCrash true; TgPollLost; TgPoll 100; TgHandle 2; TgSave true; TgPoll 5].

Definition after (ls : list tglabel) : tgstate := default tg_start (tg_run ls tg_start).

Definition bot : TelegramAdapter := telegram_new "123456:BOT-TOKEN" "webhook-secret".
End AdaptersDemo.
Import AdaptersDemo.

Lemma telegram_no_update_lost_witness :
  map up_update_id (tg_handled (after crashing)) = [42; 42; 43] ∧
  tg_cursor (after crashing) = Some "44" ∧
  ∀ u, u ∈ tg_arrived (after crashing) → u ∈ tg_queue (after crashing) ∨ u ∈ tg_handled (after crashing).
Proof.
  split; [vm_compute; reflexivity|]. split; [vm_compute; reflexivity|].
  apply (telegram_no_update_lost crashing (after crashing)). vm_compute. reflexivity.
Defined.

Lemma telegram_handled_once_witness :
  map up_update_id (tg_handled (after restarting)) = [42; 43] ∧ tg_queue (after restarting) = [] ∧
  StronglySorted older (tg_handled (after restarting)).
Proof.
  split; [vm_compute; reflexivity|]. split; [vm_compute; reflexivity|].
  apply (telegram_handled_once restarting (after restarting)); vm_compute; reflexivity.
Defined.

Lemma telegram_catches_up_witness :
  ∃ more t, tg_run (take 5 crashing ++ more) tg_start = Some t ∧
    Forall (λ l, working l = true) more ∧ tg_arrived t = tg_arrived (after (take 5 crashing)) ∧
    ∀ u, u ∈ tg_arrived (after (take 5 crashing)) → u ∈ tg_handled t.
Proof.
  apply (telegram_catches_up (take 5 crashing) (after (take 5 crashing))).
  - vm_compute. reflexivity.
  - apply (bool_decide_unpack _). vm_compute. exact I.
Defined.

Lemma matrix_saves_after_dispatch_witness :
  let log := ch_log (matrix_run_ingress 3 adapter tt (fresh home)).2 in
  dispatched log = [matrix_inbound 0 ("!r:hs", "list drop rules", "@wak:hs", None)] ∧
  ∀ m s, EvDispatched m s ∈ log → im_platform_handle m ≠ "@daimon:hs".
Proof.
  cbv zeta. split; [vm_compute; reflexivity|].
  refine (proj2 (matrix_saves_after_dispatch 3 adapter tt (fresh home) "@daimon:hs" _ _));
    vm_compute; reflexivity.
Defined.

(** The transaction counter starts at 1 in every process, but the homeserver remembers
    transaction ids per access token: the first answers after a restart are taken for
    retransmissions of the first answers before it. The adapter sees success and the
    operator sees nothing. *)
Lemma matrix_restart_drops_reply :
  let send text h := matrix_send (mx_homeserver adapter) (mx_access_token adapter) "!r:hs" text (fresh h) in
  let before := send "6 drop rules." home in
  let after := send "KILL is engaged." (ch_host before.2) in
  before.1 = Ok tt ∧ after.1 = Ok tt ∧ mh_delivered (ch_host after.2) = ["6 drop rules."].
Proof. vm_compute. done. Qed.

(** A webhook call with the secret, one without, and one for another channel. *)
Lemma demo_webhook :
  let decode := λ _, Ok (text_update 1 "show firewall rules") in
  let r := register_gateway (telegram_gateway decode bot) ∅ in
  let post channel headers := gateway_webhook r 0 channel headers "{}" in
  wr_spawned (post "telegram" [("X-Telegram-Bot-Api-Secret-Token", "webhook-secret")]) ≠ None ∧
  post "telegram" [] = mkWebhookReply 401 "unauthorized" None ∧
  wr_status (post "slack" []) = 404 ∧
  urlencode "!abc:hs/x" = "%21abc%3Ahs%2Fx".
Proof. vm_compute. done. Qed.
