(* ===== verification/Skills.v ===== *)
(** * daimon-app: skills
    ([daimon-app/src/skills.rs], [admin_skills.rs])

    A skill is a plan template from a file. Running one validates the operator's
    inputs, fills the template's slots with them, and hands the steps to the
    orchestrator as the plan of the administrator who asked. The TOML reader and the
    texts of the file system's errors are parameters. *)

From S2P Require Import Prelude RustStd Json Core Broker AppDb Iam.
From S2P Require Import Runtime Orchestrator Saga Param Connector.
From Stdlib Require Import ZArith Ascii.

(** ** Templates ([skills.rs]) *)

Inductive SkillError :=
| SkUnknown (name : string)
| SkMissingParam (param : string)
| SkParam (param : string) (source : ParamError)
| SkIo (path source : string)
| SkParse (path source : string)
| SkUndeclaredSlot (skill : string) (step : nat) (param : string).

Definition show_skill_error (debug_str : string → string) (e : SkillError) : string :=
  match e with
  | SkUnknown n => "unknown skill `" +:+ n +:+ "`"
  | SkMissingParam p => "missing required param `" +:+ p +:+ "`"
  | SkParam p s => "param `" +:+ p +:+ "` invalid: " +:+ show_param_error debug_str s
  | SkIo p s => "io reading skills dir `" +:+ p +:+ "`: " +:+ s
  | SkParse p s => "parse skill `" +:+ p +:+ "`: " +:+ s
  | SkUndeclaredSlot s i p =>
      "skill `" +:+ s +:+ "` step " +:+ show_Z (Z.of_nat i) +:+ " references undeclared param `" +:+ p +:+ "`"
  end.

Record SkillParam := mkSkillParam {
  kp_name : string;
  kp_class : option string;
  kp_description : option string;
}.

Record SkillStep := mkSkillStep {
  ks_capability : string;
  ks_version : string;
  ks_target : option string;
  ks_params : json;
  ks_depends_on : list nat;
}.

Record Skill := mkSkill {
  sk_name : string;
  sk_description : string;
  sk_params : list SkillParam;
  sk_steps : list SkillStep;
}.

(** [skill_class]: anything else is safe text. *)
Definition skill_class (s : option string) : ParamClass :=
  match s with
  | Some c =>
      if string_eqb c "cidr" then Cidr
      else if string_eqb c "identifier" then Identifier
      else if string_eqb c "int" then Int
      else SafeText
  | None => SafeText
  end.

(** The first part of [instantiate]. *)
Fixpoint validate_inputs (params : list SkillParam) (inputs validated : gmap string string) :
    result SkillError (gmap string string) :=
  match params with
  | [] => Ok validated
  | p :: params =>
      raw ← ok_or (inputs !! kp_name p) (SkMissingParam (kp_name p));
      _ ← map_err (SkParam (kp_name p)) (validate raw (skill_class (kp_class p)));
      validate_inputs params inputs (<[kp_name p := raw]> validated)
  end.

(** [substitute]: the loop on [rest], with enough fuel for one slot per byte. *)
Fixpoint skill_substitute_fuel (fuel : nat) (skill : string) (step : nat) (validated : gmap string string)
    (rest : string) : result SkillError string :=
  match split_once "{"%char rest with
  | None => Ok rest
  | Some (before, after) =>
      match split_once "}"%char after with
      | None => Err (SkUndeclaredSlot skill step after)
      | Some (name, rest) =>
          match validated !! name with
          | None => Err (SkUndeclaredSlot skill step name)
          | Some value =>
              match fuel with
              | O => Ok ""
              | S fuel =>
                  tail ← skill_substitute_fuel fuel skill step validated rest;
                  Ok (before +:+ value +:+ tail)
              end
          end
      end
  end.

Definition skill_substitute (template skill : string) (step : nat) (validated : gmap string string) :
    result SkillError string :=
  skill_substitute_fuel (length (bytes template)) skill step validated template.

(** [substitute_json]. *)
Fixpoint skill_substitute_json (skill : string) (step : nat) (validated : gmap string string) (v : json) :
    result SkillError json :=
  match v with
  | JString s => JString <$> skill_substitute s skill step validated
  | JArray items =>
      JArray <$> (fix go l := match l with
                              | [] => Ok []
                              | x :: l =>
                                  y ← skill_substitute_json skill step validated x;
                                  ys ← go l;
                                  Ok (y :: ys)
                              end) items
  | JObject entries =>
      JObject <$> (fix go l := match l with
                               | [] => Ok []
                               | (k, x) :: l =>
                                   y ← skill_substitute_json skill step validated x;
                                   ys ← go l;
                                   Ok ((k, y) :: ys)
                               end) entries
  | other => Ok other
  end.

(** The second part of [instantiate]. *)
Definition instantiate_step (skill : string) (validated : gmap string string) (i : nat) (step : SkillStep) :
    result SkillError StepDef :=
  target ← match ks_target step with
           | Some t => Some <$> skill_substitute t skill i validated
           | None => Ok None
           end;
  params ← skill_substitute_json skill i validated (ks_params step);
  Ok (mkStepDef (ks_capability step) (ks_version step) target None params (ks_depends_on step)).

Fixpoint instantiate_steps (skill : string) (validated : gmap string string) (i : nat)
    (steps : list SkillStep) : result SkillError (list StepDef) :=
  match steps with
  | [] => Ok []
  | s :: steps =>
      d ← instantiate_step skill validated i s;
      ds ← instantiate_steps skill validated (S i) steps;
      Ok (d :: ds)
  end.

Definition instantiate (s : Skill) (inputs : gmap string string) : result SkillError (list StepDef) :=
  validated ← validate_inputs (sk_params s) inputs ∅;
  instantiate_steps (sk_name s) validated 0 (sk_steps s).

(** [SkillLibrary]; [listing] is absent when the directory is. *)
Abbreviation SkillLibrary := (gmap string Skill).

Fixpoint load_skills (toml_parse : string → result string Skill) (dir : string)
    (entries : list (result string dir_entry)) (skills : SkillLibrary) : result SkillError SkillLibrary :=
  match entries with
  | [] => Ok skills
  | Err e :: _ => Err (SkIo dir e)
  | Ok entry :: entries =>
      if negb (de_toml entry) then load_skills toml_parse dir entries skills
      else
        text ← map_err (SkIo (de_path entry)) (de_text entry);
        skill ← map_err (SkParse (de_path entry)) (toml_parse text);
        load_skills toml_parse dir entries (<[sk_name skill := skill]> skills)
  end.

Definition skills_from_dir (toml_parse : string → result string Skill) (dir : string)
    (listing : option (result string (list (result string dir_entry)))) : result SkillError SkillLibrary :=
  match listing with
  | None => Ok ∅
  | Some listing => entries ← map_err (SkIo dir) listing; load_skills toml_parse dir entries ∅
  end.

(** [list]. *)
Definition skill_list (lib : SkillLibrary) : list (string * string) :=
  map (λ kv, (sk_name kv.2, sk_description kv.2)) (btree_iter lib).

(** ** Server functions ([admin_skills.rs]) *)

Section Run.
Context `{SemVer} {I V D M : Type} `{PgMessages} `{Jwt} `{Bcrypt}.
Context `{HashOrder RegistryEntry} {X : Type} `{!BusDispatcher X}.
Context (debug_str : string → string).
Abbreviation appw := (app (@bworld _ I V D) M).
Abbreviation ow := (@oworld _ X).

(** The application and the orchestrator it shares the database with. *)
Record skillw := mkSkillw { kw_app : appw; kw_orch : ow }.
Abbreviation kio := (io skillw string).

Definition on_app {A} (m : io appw string A) : kio A :=
  zoom kw_app (λ a w, mkSkillw a (kw_orch w)) m.

Definition on_orch {A} (m : io ow OError A) : kio A :=
  io_map_err show_oerror (zoom kw_orch (λ o w, mkSkillw (kw_app w) o) m).

Definition list_skills (st : AppState) (lib : SkillLibrary) (req : request) : kio (list (string * string)) :=
  on_app (require_authenticated st req) ≫= λ _, mret (skill_list lib).

(** [run_skill]; the run that is spawned is the last step, and only logs its error. *)
Definition run_skill (st : AppState) (svc : Service) (lib : SkillLibrary) (req : request) (name : string)
    (params : gmap string string) : kio Uuid :=
  on_app (require_admin st req) ≫= λ claims : Claims,
  lift (ok_or (lib !! name) ("unknown skill: " +:+ name)) ≫= λ skill : Skill,
  lift (map_err (λ e, "skill `" +:+ name +:+ "`: " +:+ show_skill_error debug_str e)
    (instantiate skill params)) ≫= λ steps : list StepDef,
  io_map_err (λ e, "create_plan: " +:+ e)
    (on_orch (create_plan svc (Some (c_user_id claims)) ("skill:" +:+ name) steps)) ≫= λ plan : Plan,
  attempt (on_orch (run_plan svc (pl_id plan))) ≫= λ _, mret (pl_id plan).
End Run.

(** ** Filling the slots *)

Lemma skill_substitute_same fuel cap skill step vals t out :
  skill_substitute_fuel fuel skill step vals t = Ok out ↔ substitute_fuel fuel cap vals t = Ok out.
Proof.
  revert t out. induction fuel as [|fuel IH]; intros t out; cbn [skill_substitute_fuel substitute_fuel];
    (destruct (split_once "{"%char t) as [[before after]|]; [|naive_solver]);
    (destruct (split_once "}"%char after) as [[name rest]|]; [|naive_solver]);
    (destruct (vals !! name) as [v|]; [|naive_solver]); [naive_solver|].
  specialize (IH rest). destruct (skill_substitute_fuel fuel skill step vals rest) as [a|],
    (substitute_fuel fuel cap vals rest) as [b|]; simpl.
  - pose proof (proj1 (IH a) eq_refl). naive_solver.
  - pose proof (proj1 (IH a) eq_refl). done.
  - pose proof (proj2 (IH b) eq_refl). done.
  - naive_solver.
Qed.

Lemma skill_substitute_renders skill step vals t out :
  skill_substitute t skill step vals = Ok out → renders vals t out.
Proof.
  unfold skill_substitute. rewrite (skill_substitute_same _ ""). by apply substitute_fuel_renders.
Qed.

(** The texts of a JSON value. *)
Fixpoint leaves (v : json) : list string :=
  match v with
  | JString s => [s]
  | JArray l => concat (map leaves l)
  | JObject l => concat (map (λ kv, leaves kv.2) l)
  | _ => []
  end.

(** Every text of a filled template fills a text of the template. *)
Lemma substitute_json_leaves skill step vals v out text :
  skill_substitute_json skill step vals v = Ok out → text ∈ leaves out →
  ∃ t, t ∈ leaves v ∧ renders vals t text.
Proof.
  revert out text. induction v as [| | | |s|l IH|l IH] using json_deep_ind; intros out text; simpl.
  1-4: by intros [= <-] ?%not_elem_of_nil.
  - destruct (skill_substitute s skill step vals) as [o|] eqn:Hs; [|done]. intros [= <-].
    intros ->%list_elem_of_singleton. exists s. split; [by left|]. by eapply skill_substitute_renders.
  - match goal with |- JArray <$> ?f l = _ → _ => set (go := f) end.
    destruct (go l) as [ys|] eqn:Hg; [|done]. intros [= <-] Ht. simpl in Ht.
    revert ys Hg Ht. induction IH as [|x l Hx _ IHl]; intros ys; simpl.
    { by intros [= <-] ?%not_elem_of_nil. }
    unfold mbind, result_bind. destruct (skill_substitute_json skill step vals x) as [y|] eqn:Hy; [|done].
    destruct (go l) as [ys'|]; [|done]. intros [= <-]. simpl.
    rewrite elem_of_app. intros [Ht|Ht].
    + destruct (Hx y text eq_refl Ht) as (t & Hin & Hr). exists t. rewrite elem_of_app. auto.
    + destruct (IHl ys' eq_refl Ht) as (t & Hin & Hr). exists t. rewrite elem_of_app. auto.
  - match goal with |- JObject <$> ?f l = _ → _ => set (go := f) end.
    destruct (go l) as [ys|] eqn:Hg; [|done]. intros [= <-] Ht. simpl in Ht.
    revert ys Hg Ht. induction IH as [|[k x] l Hx _ IHl]; intros ys; simpl.
    { by intros [= <-] ?%not_elem_of_nil. }
    unfold mbind, result_bind. simpl in Hx.
    destruct (skill_substitute_json skill step vals x) as [y|] eqn:Hy; [|done].
    destruct (go l) as [ys'|]; [|done]. intros [= <-]. simpl.
    rewrite elem_of_app. intros [Ht|Ht].
    + destruct (Hx y text eq_refl Ht) as (t & Hin & Hr). exists t. rewrite elem_of_app. auto.
    + destruct (IHl ys' eq_refl Ht) as (t & Hin & Hr). exists t. rewrite elem_of_app. auto.
Qed.

Lemma validate_inputs_ok params inputs acc validated k v :
  validate_inputs params inputs acc = Ok validated → validated !! k = Some v →
  acc !! k = Some v ∨ ∃ p, p ∈ params ∧ kp_name p = k ∧ validate v (skill_class (kp_class p)) = Ok tt.
Proof.
  revert acc. induction params as [|p params IH]; intros acc; simpl; [intros [= <-]; by left|].
  unfold mbind, result_bind. destruct (inputs !! kp_name p) as [raw|]; simpl; [|done].
  destruct (validate raw _) as [[]|] eqn:Hv; simpl; [|done]. intros Hr Hk.
  destruct (IH _ Hr Hk) as [Ha|(q & Hq & Hn & Hc)].
  - apply lookup_insert_Some in Ha as [[<- <-]|[_ Ha]]; [|by left]. right. exists p.
    split; [by left|done].
  - right. exists q. split; [by right|done].
Qed.

Lemma skill_class_not_enum c allowed : skill_class c ≠ Enum allowed.
Proof. unfold skill_class. destruct c; [|done]. by repeat case_match. Qed.

(** The texts a step of a template, and a step of a plan, consist of. *)
Definition step_texts (target : option string) (params : json) : list string :=
  option_list target ++ leaves params.

Lemma instantiate_steps_texts skill vals i steps defs :
  instantiate_steps skill vals i steps = Ok defs →
  Forall2 (λ s d, sd_capability_name d = ks_capability s ∧ sd_capability_version d = ks_version s ∧
    sd_depends_on_index d = ks_depends_on s ∧ sd_credential_ref d = None ∧
    ∀ text, text ∈ step_texts (sd_target_ref d) (sd_params d) →
      ∃ t, t ∈ step_texts (ks_target s) (ks_params s) ∧ renders vals t text) steps defs.
Proof.
  revert i defs. induction steps as [|s steps IH]; intros i defs; simpl; [intros [= <-]; constructor|].
  unfold instantiate_step, mbind, result_bind.
  destruct (match ks_target s with Some t => _ | None => _ end) as [target|] eqn:Ht; [|done].
  destruct (skill_substitute_json skill i vals (ks_params s)) as [params|] eqn:Hp; [|done].
  destruct (instantiate_steps skill vals (S i) steps) as [ds|] eqn:Hds; [|done]. intros [= <-].
  constructor; [|by eapply IH]. simpl. split_and!; [done..|]. unfold step_texts. intros text.
  rewrite elem_of_app. intros [Hx|Hx].
  - destruct (ks_target s) as [t|]; simplify_eq/=; [|by apply not_elem_of_nil in Hx].
    destruct (skill_substitute t skill i vals) as [o|] eqn:Hs; simplify_eq/=.
    apply list_elem_of_singleton in Hx as ->. exists t. split; [by left|].
    by eapply skill_substitute_renders.
  - destruct (substitute_json_leaves _ _ _ _ _ _ Hp Hx) as (t & Hin & Hr). exists t.
    rewrite elem_of_app. auto.
Qed.

(** A skill makes one step per step of its template, for the capability, the version and
    the dependencies written there; and whatever the inputs, every metacharacter of a
    step's texts was written in the same step of the file. *)
Theorem skill_no_injection s inputs defs :
  instantiate s inputs = Ok defs →
  Forall2 (λ step d, sd_capability_name d = ks_capability step ∧
    sd_capability_version d = ks_version step ∧ sd_depends_on_index d = ks_depends_on step ∧
    ∀ text a, text ∈ step_texts (sd_target_ref d) (sd_params d) → a ∈ bytes text → meta_byte a = true →
      ∃ t, t ∈ step_texts (ks_target step) (ks_params step) ∧ a ∈ bytes t) (sk_steps s) defs.
Proof.
  unfold instantiate, mbind, result_bind.
  destruct (validate_inputs (sk_params s) inputs ∅) as [vals|] eqn:Hv; [|done].
  intros Hd. apply instantiate_steps_texts in Hd. eapply Forall2_impl; [exact Hd|].
  intros step d (Hc & Hver & Hdep & _ & Ht). split_and!; [done..|]. intros text a Htext Ha Hm.
  destruct (Ht text Htext) as (t & Hin & Hr).
  destruct (renders_bytes _ _ _ _ Hr Ha) as [Hb|(k & v & Hk & Hb)]; [by exists t|].
  destruct (validate_inputs_ok _ _ _ _ _ _ Hv Hk) as [He|(p & _ & _ & Hok)]; [by rewrite lookup_empty in He|].
  eapply validate_safe_bytes in Hok; [|intros allowed; apply skill_class_not_enum].
  rewrite Forall_forall in Hok. apply Hok, safe_not_meta in Hb. congruence.
Qed.

(** A class the reader does not know, a misspelt one included, is taken for the widest:
    slashes and dots pass where an identifier was meant. *)
Lemma skill_unknown_class_widened :
  let s := mkSkill "restart" "" [mkSkillParam "ns" (Some "identifer") None]
             [mkSkillStep "k8s.restart" "1.0.0" None (jobj [("ns", JString "{ns}")]) []] in
  instantiate s {["ns" := "web/../../kube-system"]} =
    Ok [mkStepDef "k8s.restart" "1.0.0" None None (jobj [("ns", JString "web/../../kube-system")]) []].
Proof. vm_compute. reflexivity. Qed.

(** ** Running *)

Section RunProofs.
Context `{SemVer} {I V D M : Type} `{PgMessages} `{Jwt} `{Bcrypt}.
Context `{HashOrder RegistryEntry} {X : Type} `{!BusDispatcher X}.
Context (debug_str : string → string).
Abbreviation skw := (skillw (I := I) (V := V) (D := D) (M := M) (X := X)).

(** A skill that runs was asked for by an administrator with a live session, and is the
    plan of that administrator with the template's steps, run by the orchestrator like any
    other. In every other case, bad or missing inputs and a failing database included,
    the answer is an error and no plan and no step came into being, unless the database's
    answer was lost: then the plan may be there, whole and not run. *)
Theorem run_skill_admin_plan st svc lib req name params (w : skw) :
  let r := run_skill debug_str st svc lib req name params w in
  (∃ e, r.1 = Err e ∧ o_plans (kw_orch r.2) = o_plans (kw_orch w) ∧
     o_steps (kw_orch r.2) = o_steps (kw_orch w)) ∨
  (∃ e claims skill steps m pid, r.1 = Err e ∧ OLost m ∈ o_faults (kw_orch w) ∧
     lib !! name = Some skill ∧ instantiate skill params = Ok steps ∧
     request_claims st req (kw_app w) = Some claims ∧ "admin" ∈ c_roles claims ∧
     whole_plan (Some (c_user_id claims)) ("skill:" +:+ name) steps pid (kw_orch w) (kw_orch r.2)) ∨
  (∃ claims skill steps plan o,
     request_claims st req (kw_app w) = Some claims ∧ "admin" ∈ c_roles claims ∧
     is_Some (live_session (clock (kw_app r.2)) (c_session_id claims) (db (kw_app r.2))) ∧
     lib !! name = Some skill ∧ instantiate skill params = Ok steps ∧
     create_plan svc (Some (c_user_id claims)) ("skill:" +:+ name) steps (kw_orch w) = (Ok plan, o) ∧
     r.1 = Ok (pl_id plan) ∧ kw_orch r.2 = (run_plan svc (pl_id plan) o).2).
Proof.
  cbv zeta. unfold run_skill, on_app, on_orch, zoom, io_map_err, lift, attempt, mbind, io_bind, mret, io_ret.
  destruct (authenticate_drift st req (kw_app w)) as (n & _ & Hs).
  unfold require_admin, require_any, require_authenticated, mbind, io_bind.
  destruct (authenticate_headers st req (kw_app w)) as [[claims|] a]; simpl in *; [|left; eauto].
  destruct (existsb _ (c_roles claims)) eqn:Hp; simpl; [|left; eauto].
  destruct (lib !! name) as [skill|] eqn:Hl; simpl; [|left; eauto].
  destruct (instantiate skill params) as [steps|e] eqn:Hi; simpl; [|left; eauto].
  destruct (Hs claims eq_refl) as [Hcl Hlive]. apply existsb_elem in Hp as (x & Hx & ->%string_eqb_eq).
  pose proof (create_plan_all_or_nothing svc (Some (c_user_id claims)) ("skill:" +:+ name) steps
    (kw_orch w)) as Hall. unfold all_or_nothing in Hall.
  destruct (create_plan _ _ _ steps (kw_orch w)) as [[plan|e] o] eqn:Hc; simpl in *.
  - destruct (run_plan svc (pl_id plan) o) as [rr o'] eqn:Hr; simpl. right. right.
    exists claims, skill, steps, plan, o. rewrite Hr. by repeat split.
  - destruct Hall as [Hsame|[[m Hm] [pid Hwhole]]]; [left; eauto|]. right. left.
    exists ("create_plan: " +:+ show_oerror e), claims, skill, steps, m, pid. by repeat split.
Qed.
End RunProofs.

(** The shipped example: a restart and the check after it. *)
Module SkillsDemo.
Definition restart_workload : Skill :=
  let params := jobj [("namespace", JString "{namespace}"); ("name", JString "{deployment}")] in
  mkSkill "restart-k8s-workload" "Roll-restart a deployment then verify."
    [mkSkillParam "target" (Some "safe_text") None; mkSkillParam "namespace" (Some "identifier") None;
     mkSkillParam "deployment" (Some "identifier") None]
    [mkSkillStep "orchestrator.k8s.deploy.restart" "1.0.0" (Some "{target}") params [];
     mkSkillStep "orchestrator.k8s.pod.status" "1.0.0" (Some "{target}") params [0]].

Definition inputs (ns : string) : gmap string string :=
  <["target" := "target://k3s-lab"]> (<["namespace" := ns]> {["deployment" := "nginx"]}).

Definition filled : list StepDef :=
  let params := jobj [("namespace", JString "web"); ("name", JString "nginx")] in
  [mkStepDef "orchestrator.k8s.deploy.restart" "1.0.0" (Some "target://k3s-lab") None params [];
   mkStepDef "orchestrator.k8s.pod.status" "1.0.0" (Some "target://k3s-lab") None params [0]].
End SkillsDemo.
Import SkillsDemo.

Lemma skill_no_injection_witness :
  is_ok (instantiate restart_workload (inputs "web/../../secret")) = false ∧
  Forall2 (λ step d, sd_capability_name d = ks_capability step ∧
    sd_capability_version d = ks_version step ∧ sd_depends_on_index d = ks_depends_on step ∧
    ∀ text a, text ∈ step_texts (sd_target_ref d) (sd_params d) → a ∈ bytes text → meta_byte a = true →
      ∃ t, t ∈ step_texts (ks_target step) (ks_params step) ∧ a ∈ bytes t)
    (sk_steps restart_workload) filled.
Proof.
  split; [vm_compute; reflexivity|].
  refine (skill_no_injection restart_workload (inputs "web") filled _). vm_compute. reflexivity.
Defined.
