(* ===== verification/Graph.v ===== *)
(** * daimon-graph: the graph tier
    ([daimon-graph/src/{client,types,schema,error}.rs], [daimon-guard/src/blast_radius.rs],
    [daimon-app/src/admin_graph.rs])

    The orchestrator mirrors plans into a property graph and the approval inbox asks it
    what a target is connected with. The client writes Cypher statements with
    parameters. The database is a class; the meaning of the statements a plan is made
    of, as the Cypher documentation gives it, is an interpreter on a set of nodes and
    edges, so that what a plan leaves in the graph can be stated. *)

From S2P Require Import Prelude RustStd Json Core KillSwitch Policy Approvals Guard.
From S2P Require Import Broker AppDb Iam Orchestrator.
From Stdlib Require Import ZArith.

Local Open Scope Z_scope.

(** ** Types ([types.rs], [error.rs]) *)

Inductive NodeKind :=
| NTenant | NAgent | NCapability | NTarget | NCredential | NPlan | NPlanStep | NAuditEvent | NUser.

Definition node_label (k : NodeKind) : string :=
  match k with
  | NTenant => "Tenant" | NAgent => "Agent" | NCapability => "Capability" | NTarget => "Target"
  | NCredential => "Credential" | NPlan => "Plan" | NPlanStep => "PlanStep"
  | NAuditEvent => "AuditEvent" | NUser => "User"
  end.

Record BlastRadiusEntry := mkBlast {
  br_kind : NodeKind;
  br_id : string;
  br_label : string;
  br_depth : Z;
}.

Inductive GraphError :=
| GHttp (msg : string)
| GCypher (code message : string)
| GDecode (msg : string)
| GSchema (msg : string)
| GOther (msg : string).

Definition show_graph_error (e : GraphError) : string :=
  match e with
  | GHttp m => "http: " +:+ m
  | GCypher c m => "cypher error: " +:+ c +:+ ": " +:+ m
  | GDecode m => "decode: " +:+ m
  | GSchema m => "schema: " +:+ m
  | GOther m => m
  end.

(** ** The client ([client.rs]) *)

Record NornicGraphClient := mkNornic { ng_base_url : string; ng_database : string }.

Definition nornic_new (base_url database : string) : NornicGraphClient :=
  mkNornic (trim_end_matches "/" base_url) database.

Definition tx_url (c : NornicGraphClient) : string :=
  ng_base_url c +:+ "/db/" +:+ ng_database c +:+ "/tx/commit".

(** [bolt_to_http]; host and port are what the [url] crate finds in the URI. *)
Definition bolt_to_http (url_parse : string → result string (option string * option Z)) (uri : string) :
    result GraphError string :=
  parts ← map_err (λ e, GOther ("uri parse: " +:+ e)) (url_parse uri);
  host ← ok_or parts.1 (GOther "uri missing host");
  let port := match parts.2 with Some p => if p =? 7687 then 7474 else p | None => 7474 end in
  Ok ("http://" +:+ host +:+ ":" +:+ show_Z port).

Definition nornic_connect (url_parse : string → result string (option string * option Z)) (uri : string) :
    result GraphError NornicGraphClient :=
  url ← bolt_to_http url_parse uri; Ok (nornic_new url "nornic").

(** The wire types. *)
Record CypherResult := mkCypherResult { cy_columns : list string; cy_data : list (list json) }.

Definition decode_row (j : json) : option (list json) :=
  on_object j (default_field (decode_list Some) [] j "row").

Definition decode_result (j : json) : option CypherResult := on_object j (
  default_field (decode_list as_str) [] j "columns" ≫= λ columns,
  default_field (decode_list decode_row) [] j "data" ≫= λ data,
  Some (mkCypherResult columns data)).

Definition decode_cypher_error (j : json) : option (string * string) := on_object j (
  req_field as_str j "code" ≫= λ code, req_field as_str j "message" ≫= λ message, Some (code, message)).

Definition decode_tx (j : json) : option (list CypherResult * list (string * string)) := on_object j (
  default_field (decode_list decode_result) [] j "results" ≫= λ results,
  default_field (decode_list decode_cypher_error) [] j "errors" ≫= λ errors,
  Some (results, errors)).

(** A statement with its parameters. *)
Abbreviation statement := (string * json)%type.

Definition tx_body (l : list statement) : json :=
  jobj [("statements", JArray (map (λ s, jobj [("statement", JString s.1); ("parameters", s.2)]) l))].

(** [reqwest], one method for the call up to the body's text (an error status
    included), and serde's message for a response of another shape. *)
Class GraphHttp (W : Type) := {
  tx_commit : string → json → io W string string;
  tx_shape : json → string;
}.

Section Client.
Context {W : Type} `{GraphHttp W} `{JsonText}.
Abbreviation gio := (io W GraphError).

(** [run]: all statements in one transaction; the first error is the call's. *)
Definition cypher_run (c : NornicGraphClient) (l : list statement) : gio (list CypherResult) :=
  match l with
  | [] => mret []
  | _ =>
      io_map_err GHttp (tx_commit (tx_url c) (tx_body l)) ≫= λ raw,
      lift (map_err (λ e, GDecode ("tx response parse: " +:+ e +:+ "; body: " +:+ chars_take 500 raw))
        (json_from_str raw ≫= λ j, ok_or (decode_tx j) (tx_shape j))) ≫= λ r,
      match r.2 with
      | (code, message) :: _ => throw (GCypher code message)
      | [] => mret r.1
      end
  end.

Definition run_one (c : NornicGraphClient) (text : string) (params : json) : gio CypherResult :=
  cypher_run c [(text, params)] ≫= λ rs, lift (ok_or (last rs) (GDecode "no result returned")).

(** *** [persist_plan] *)

Definition merge_plan_text : string :=
  "MERGE (p:Plan {id: $pid}) ON CREATE SET p.intent = $intent, p.created_at = $created_at".
Definition merge_step_text : string :=
  "MERGE (s:PlanStep {id: $sid}) ON CREATE SET s.capability_name = $cname, s.capability_version = $cver, s.target_ref = $tref".
Definition step_of_text : string :=
  "MATCH (p:Plan {id: $pid}), (s:PlanStep {id: $sid}) MERGE (s)-[:STEP_OF]->(p)".
Definition merge_capability_text : string := "MERGE (c:Capability {name: $cname, version: $cver})".
Definition provides_text : string :=
  "MATCH (s:PlanStep {id: $sid}), (c:Capability {name: $cname, version: $cver}) MERGE (s)-[:PROVIDES_CAPABILITY]->(c)".
Definition merge_target_text : string := "MERGE (t:Target {ref: $tref})".
Definition on_target_text : string :=
  "MATCH (s:PlanStep {id: $sid}), (t:Target {ref: $tref}) MERGE (s)-[:DEPENDS_ON_TARGET]->(t)".
Definition depends_on_text : string :=
  "MATCH (a:PlanStep {id: $from_sid}), (b:PlanStep {id: $to_sid}) MERGE (a)-[:DEPENDS_ON]->(b)".

Definition plan_statement (rfc3339 : Z → string) (p : GraphPlan) : statement :=
  (merge_plan_text, jobj [("pid", JString (gp_id p)); ("intent", JString (gp_intent p));
                          ("created_at", JString (rfc3339 (gp_created_at p)))]).

Definition step_statements (pid : Uuid) (s : GraphPlanStep) : list statement :=
  let sid := ("sid", JString (gs_id s)) in
  let cname := ("cname", JString (gs_capability_name s)) in
  let cver := ("cver", JString (gs_capability_version s)) in
  let tref := ("tref", JString (gs_target_ref s)) in
  [(merge_step_text, jobj [sid; cname; cver; tref]);
   (step_of_text, jobj [("pid", JString pid); sid]);
   (merge_capability_text, jobj [cname; cver]);
   (provides_text, jobj [sid; cname; cver]);
   (merge_target_text, jobj [tref]);
   (on_target_text, jobj [sid; tref])].

Definition depends_statement (from to : Uuid) : statement :=
  (depends_on_text, jobj [("from_sid", JString from); ("to_sid", JString to)]).

Definition plan_batch (rfc3339 : Z → string) (p : GraphPlan) : list statement :=
  plan_statement rfc3339 p ::
  flat_map (step_statements (gp_id p)) (gp_steps p) ++
  flat_map (λ s, map (depends_statement (gs_id s)) (gs_depends_on s)) (gp_steps p).

Definition persist_plan (rfc3339 : Z → string) (c : NornicGraphClient) (p : GraphPlan) : gio unit :=
  cypher_run c (plan_batch rfc3339 p) ≫= λ _, mret tt.

(** *** [blast_radius], [upsert_target], [declare_dependency] *)

Definition clamp_depth (d : Z) : Z := Z.max 1 (Z.min d 8).

Definition blast_text (depth : Z) : string :=
  "MATCH (t:Target {ref: $tref}) MATCH path = (t)-[*1.." +:+ show_Z depth +:+
  "]-(n) RETURN labels(n) AS labels, coalesce(n.id, n.ref, n.name) AS nid, coalesce(n.name, n.ref, n.id) AS nlabel, min(length(path)) AS depth ORDER BY depth ASC, nlabel ASC LIMIT 200".

Definition node_kind_from_label (s : string) : option NodeKind :=
  find (λ k, string_eqb (node_label k) s)
    [NTenant; NAgent; NCapability; NTarget; NCredential; NPlan; NPlanStep; NAuditEvent; NUser].

Definition value_to_string (v : json) : string :=
  match v with JString s => s | JNull => "" | other => json_to_string other end.

Definition blast_entry (cells : list json) : option BlastRadiusEntry :=
  match cells with
  | labels :: id :: label :: depth :: _ =>
      let names := omap as_str (as_array labels) in
      Some (mkBlast (default NTarget (head names ≫= node_kind_from_label)) (value_to_string id)
              (value_to_string label) (Z.max (default 0 (as_i64 depth)) 0 mod 2^32))
  | _ => None
  end.

Definition blast_radius (c : NornicGraphClient) (target_ref : string) (max_depth : Z) :
    gio (list BlastRadiusEntry) :=
  run_one c (blast_text (clamp_depth max_depth)) (jobj [("tref", JString target_ref)]) ≫= λ res,
  mret (omap blast_entry (cy_data res)).

Definition upsert_text : string :=
  "MERGE (t:Target {ref: $tref}) ON CREATE SET t.labels = $lbl ON MATCH SET t.labels = $lbl".

Definition graph_upsert_target (c : NornicGraphClient) (target_ref : string) (labels : json) : gio unit :=
  run_one c upsert_text (jobj [("tref", JString target_ref); ("lbl", JString (json_to_string labels))])
    ≫= λ _, mret tt.

Definition declare_text : string :=
  "MATCH (a:Target {ref: $from_tref}), (b:Target {ref: $to_tref}) MERGE (a)-[:DEPENDS_ON_TARGET]->(b)".

Definition declare_dependency (c : NornicGraphClient) (from to : string) : gio unit :=
  run_one c declare_text (jobj [("from_tref", JString from); ("to_tref", JString to)]) ≫= λ _, mret tt.

(** ** Approvals with their surroundings ([blast_radius.rs]) *)

Definition DEFAULT_BLAST_RADIUS_DEPTH : Z := 4.

Definition blast_radius_for_target (c : NornicGraphClient) (target_ref : string) (max_depth : Z) (w : W) :
    list BlastRadiusEntry * W :=
  let '(r, w) := blast_radius c target_ref max_depth w in (default [] (ok r), w).

Fixpoint enrich_with_blast_radius (c : NornicGraphClient) (l : list ApprovalRecord) (max_depth : Z) (w : W) :
    list (ApprovalRecord * list BlastRadiusEntry) * W :=
  match l with
  | [] => ([], w)
  | a :: l =>
      let '(entries, w) := match ar_target_ref a with
        | Some tref => blast_radius_for_target c tref max_depth w
        | None => ([], w)
        end in
      let '(rest, w) := enrich_with_blast_radius c l max_depth w in
      ((a, entries) :: rest, w)
  end.
End Client.

(** ** The schema ([schema.rs]) *)

Definition SCHEMA_CYPHER : list string :=
  ["CREATE CONSTRAINT agent_id_unique IF NOT EXISTS FOR (a:Agent) REQUIRE a.id IS UNIQUE";
   "CREATE CONSTRAINT target_ref_unique IF NOT EXISTS FOR (t:Target) REQUIRE t.ref IS UNIQUE";
   "CREATE CONSTRAINT credential_ref_unique IF NOT EXISTS FOR (c:Credential) REQUIRE c.ref IS UNIQUE";
   "CREATE CONSTRAINT plan_id_unique IF NOT EXISTS FOR (p:Plan) REQUIRE p.id IS UNIQUE";
   "CREATE CONSTRAINT planstep_id_unique IF NOT EXISTS FOR (s:PlanStep) REQUIRE s.id IS UNIQUE";
   "CREATE CONSTRAINT auditevent_id_unique IF NOT EXISTS FOR (e:AuditEvent) REQUIRE e.id IS UNIQUE";
   "CREATE CONSTRAINT user_id_unique IF NOT EXISTS FOR (u:User) REQUIRE u.id IS UNIQUE";
   "CREATE INDEX capability_name_idx IF NOT EXISTS FOR (c:Capability) ON (c.name)"].

(** [ensure_schema]: one transaction per statement, up to the first that fails. *)
Fixpoint ensure_schema `{GraphHttp W} `{JsonText} (c : NornicGraphClient) (l : list string) :
    io W GraphError unit :=
  match l with
  | [] => mret tt
  | s :: l => cypher_run c [(s, jobj [])] ≫= λ _, ensure_schema c l
  end.

(** ** The server function ([admin_graph.rs]) *)

Section Lookup.
Context `{SemVer} {I V D M : Type} `{PgMessages} `{Jwt} `{Bcrypt}.
Context {W : Type} `{GraphHttp W} `{JsonText}.
Abbreviation appw := (app (@bworld _ I V D) M).

Definition lookup_blast_radius (st : AppState) (graph : option NornicGraphClient) (req : request)
    (target_ref : string) (max_depth : option Z) : io (appw * W) string (list (string * BlastRadiusEntry)) :=
  zoom fst (λ a w, (a, w.2)) (require_admin st req) ≫= λ _ : Claims,
  match graph with
  | None => mret []
  | Some c =>
      io_map_err (λ e, "blast_radius: " +:+ show_graph_error e)
        (zoom snd (λ g w, (w.1, g))
          (blast_radius c target_ref (default DEFAULT_BLAST_RADIUS_DEPTH max_depth))) ≫= λ entries,
      mret (map (λ e, (node_label (br_kind e), e)) entries)
  end.
End Lookup.

(** ** Properties *)

(** Every kind is found under its label. *)
Lemma node_kind_roundtrip k : node_kind_from_label (node_label k) = Some k.
Proof. by destruct k. Qed.

(** The text of a statement never depends on what plans, targets and labels are called:
    data travel as parameters. *)
Definition fixed_texts : list string :=
  [merge_plan_text; merge_step_text; step_of_text; merge_capability_text; provides_text;
   merge_target_text; on_target_text; depends_on_text].

Lemma plan_batch_texts rfc3339 p : Forall (λ s, s.1 ∈ fixed_texts) (plan_batch rfc3339 p).
Proof.
  apply Forall_cons. split; [by left|]. apply Forall_app. split; apply Forall_forall; intros s Hs;
    apply list_elem_of_In, in_flat_map in Hs as (x & _ & Hs).
  - apply list_elem_of_In in Hs. unfold step_statements in Hs. rewrite !elem_of_cons, elem_of_nil in Hs.
    destruct Hs as [->|[->|[->|[->|[->|[->|[]]]]]]]; simpl; unfold fixed_texts; set_solver.
  - apply in_map_iff in Hs as (d & <- & _). simpl. unfold fixed_texts. set_solver.
Qed.

(** *** What a plan leaves in the graph *)

(** A node is its label and the values of the properties it is merged on. *)
Abbreviation node := (string * list string)%type.
Abbreviation edge := (string * (node * node))%type.
Record graph := mkGraph { g_nodes : gset node; g_edges : gset edge }.

Definition add_node (n : node) (g : graph) : graph := mkGraph ({[n]} ∪ g_nodes g) (g_edges g).

(** [MATCH (a), (b) MERGE (a)-[:rel]->(b)]. *)
Definition link (rel : string) (a b : node) (g : graph) : graph :=
  if decide (a ∈ g_nodes g ∧ b ∈ g_nodes g) then mkGraph (g_nodes g) ({[(rel, (a, b))]} ∪ g_edges g) else g.

Definition jtext (params : json) (k : string) : string := default "" (jget params k ≫= as_str).

Definition plan_node (id : string) : node := ("Plan", [id]).
Definition step_node (id : string) : node := ("PlanStep", [id]).
Definition capability_node (name version : string) : node := ("Capability", [name; version]).
Definition target_node (ref : string) : node := ("Target", [ref]).

(** The statements of a plan, read as the Cypher manual does. *)
Definition exec_statement (g : graph) (s : statement) : graph :=
  let t := jtext s.2 in
  if string_eqb s.1 merge_plan_text then add_node (plan_node (t "pid")) g
  else if string_eqb s.1 merge_step_text then add_node (step_node (t "sid")) g
  else if string_eqb s.1 step_of_text then link "STEP_OF" (step_node (t "sid")) (plan_node (t "pid")) g
  else if string_eqb s.1 merge_capability_text then add_node (capability_node (t "cname") (t "cver")) g
  else if string_eqb s.1 provides_text then
    link "PROVIDES_CAPABILITY" (step_node (t "sid")) (capability_node (t "cname") (t "cver")) g
  else if string_eqb s.1 merge_target_text then add_node (target_node (t "tref")) g
  else if string_eqb s.1 on_target_text then
    link "DEPENDS_ON_TARGET" (step_node (t "sid")) (target_node (t "tref")) g
  else if string_eqb s.1 depends_on_text then
    link "DEPENDS_ON" (step_node (t "from_sid")) (step_node (t "to_sid")) g
  else g.

Definition exec_batch (l : list statement) (g : graph) : graph := fold_left exec_statement l g.

Definition step_nodes (s : GraphPlanStep) : gset node :=
  {[step_node (gs_id s); capability_node (gs_capability_name s) (gs_capability_version s);
    target_node (gs_target_ref s)]}.

Definition step_edges (pid : Uuid) (s : GraphPlanStep) : gset edge :=
  {[("STEP_OF", (step_node (gs_id s), plan_node pid));
    ("PROVIDES_CAPABILITY",
      (step_node (gs_id s), capability_node (gs_capability_name s) (gs_capability_version s)));
    ("DEPENDS_ON_TARGET", (step_node (gs_id s), target_node (gs_target_ref s)))]}.

Lemma link_present rel a b g :
  a ∈ g_nodes g → b ∈ g_nodes g → link rel a b g = mkGraph (g_nodes g) ({[(rel, (a, b))]} ∪ g_edges g).
Proof. intros Ha Hb. unfold link. by rewrite decide_True. Qed.

Lemma exec_step pid s g :
  plan_node pid ∈ g_nodes g →
  exec_batch (step_statements pid s) g = mkGraph (step_nodes s ∪ g_nodes g) (step_edges pid s ∪ g_edges g).
Proof.
  intros Hp.
  change (exec_batch (step_statements pid s) g) with
    (link "DEPENDS_ON_TARGET" (step_node (gs_id s)) (target_node (gs_target_ref s))
      (add_node (target_node (gs_target_ref s))
        (link "PROVIDES_CAPABILITY" (step_node (gs_id s))
           (capability_node (gs_capability_name s) (gs_capability_version s))
          (add_node (capability_node (gs_capability_name s) (gs_capability_version s))
            (link "STEP_OF" (step_node (gs_id s)) (plan_node pid) (add_node (step_node (gs_id s)) g)))))).
  unfold add_node. rewrite (link_present "STEP_OF") by (simpl; set_solver). simpl.
  rewrite (link_present "PROVIDES_CAPABILITY") by (simpl; set_solver). simpl.
  rewrite (link_present "DEPENDS_ON_TARGET") by (simpl; set_solver). simpl.
  apply (f_equal2 mkGraph).
  - unfold step_nodes. set_solver.
  - unfold step_edges. set_solver.
Qed.

Lemma exec_app l1 l2 g : exec_batch (l1 ++ l2) g = exec_batch l2 (exec_batch l1 g).
Proof. apply fold_left_app. Qed.

Lemma exec_steps pid steps g :
  plan_node pid ∈ g_nodes g →
  exec_batch (flat_map (step_statements pid) steps) g =
    mkGraph (⋃ map step_nodes steps ∪ g_nodes g) (⋃ map (step_edges pid) steps ∪ g_edges g).
Proof.
  revert g. induction steps as [|s steps IH]; intros g Hp.
  { simpl. rewrite !(left_id_L ∅ (∪)). by destruct g. }
  cbn [flat_map map union_list foldr]. rewrite exec_app, exec_step by done. rewrite IH by (simpl; set_solver).
  simpl. apply (f_equal2 mkGraph); set_solver.
Qed.

(** The edges a list of dependencies adds: those whose ends are both there. *)
Definition depends_edges (present : gset node) (deps : list (Uuid * Uuid)) : gset edge :=
  list_to_set (omap (λ '(a, b),
    if decide (step_node a ∈ present ∧ step_node b ∈ present)
    then Some ("DEPENDS_ON", (step_node a, step_node b)) else None) deps).

Lemma exec_depends deps g :
  exec_batch (map (λ d, depends_statement d.1 d.2) deps) g =
    mkGraph (g_nodes g) (depends_edges (g_nodes g) deps ∪ g_edges g).
Proof.
  revert g. induction deps as [|[a b] deps IH]; intros g.
  { unfold depends_edges. simpl. rewrite (left_id_L ∅ (∪)). by destruct g. }
  change (exec_batch (map (λ d, depends_statement d.1 d.2) ((a, b) :: deps)) g) with
    (exec_batch (map (λ d, depends_statement d.1 d.2) deps) (link "DEPENDS_ON" (step_node a) (step_node b) g)).
  rewrite IH. unfold link, depends_edges. simpl. destruct (decide _); simpl; [|done].
  apply (f_equal2 mkGraph); [done|]. set_solver.
Qed.

(** The dependencies of a plan, step by step. *)
Definition plan_deps (p : GraphPlan) : list (Uuid * Uuid) :=
  flat_map (λ s, map (pair (gs_id s)) (gs_depends_on s)) (gp_steps p).

Lemma depends_batch p :
  flat_map (λ s, map (depends_statement (gs_id s)) (gs_depends_on s)) (gp_steps p) =
  map (λ d, depends_statement d.1 d.2) (plan_deps p).
Proof.
  unfold plan_deps. induction (gp_steps p) as [|s l IH]; [done|]. cbn [flat_map].
  rewrite map_app, IH, map_map. done.
Qed.

(** The batch of a plan, whatever the graph holds, leaves exactly the plan's nodes, the
    edges of each step to its plan, its capability and its target, and the dependencies
    between steps that are there; the statements are in an order in which no match
    comes before the node it needs. Sending it again changes nothing. *)
Theorem persist_plan_mirrors rfc3339 p g :
  let g' := exec_batch (plan_batch rfc3339 p) g in
  g_nodes g' = {[plan_node (gp_id p)]} ∪ ⋃ map step_nodes (gp_steps p) ∪ g_nodes g ∧
  g_edges g' = depends_edges (g_nodes g') (plan_deps p) ∪
    ⋃ map (step_edges (gp_id p)) (gp_steps p) ∪ g_edges g ∧
  exec_batch (plan_batch rfc3339 p) g' = g'.
Proof.
  assert (∀ g, exec_batch (plan_batch rfc3339 p) g =
    let nodes := ⋃ map step_nodes (gp_steps p) ∪ ({[plan_node (gp_id p)]} ∪ g_nodes g) in
    mkGraph nodes (depends_edges nodes (plan_deps p) ∪ (⋃ map (step_edges (gp_id p)) (gp_steps p) ∪ g_edges g)))
    as Hrun.
  { intros g0. unfold plan_batch. rewrite depends_batch.
    change (exec_batch (plan_statement rfc3339 p :: ?l) g0) with
      (exec_batch l (add_node (plan_node (gp_id p)) g0)).
    rewrite exec_app, exec_steps, exec_depends by (simpl; set_solver). done. }
  cbv zeta in Hrun |- *. rewrite !Hrun. cbn [g_nodes g_edges]. split_and!.
  - set_solver.
  - by rewrite (assoc_L (∪)).
  - set (nodes := ⋃ map step_nodes (gp_steps p) ∪ ({[plan_node (gp_id p)]} ∪ g_nodes g)).
    assert (⋃ map step_nodes (gp_steps p) ∪ ({[plan_node (gp_id p)]} ∪ nodes) = nodes) as -> by set_solver.
    apply (f_equal2 mkGraph); [done|]. set_solver.
Qed.

(** A batch of approvals stays complete and in order, whatever the graph answers. *)
Lemma enrich_keeps_approvals `{GraphHttp W} `{JsonText} c l depth (w : W) :
  (enrich_with_blast_radius c l depth w).1.*1 = l.
Proof.
  revert w. induction l as [|a l IH]; intros w; simpl; [done|].
  destruct (match ar_target_ref a with Some _ => _ | None => _ end) as [entries w1].
  specialize (IH w1). destruct (enrich_with_blast_radius c l depth w1). cbn [fst] in *. rewrite fmap_cons, IH. done.
Qed.
