(* ===== verification/Tables.v ===== *)
(** * The console's tables (daimon-app/src/components/sortable_table.rs, table.rs)

    Sorting, filtering, pagination and export of rows, the table component as a
    state machine over its signals, and the row types it shows. Markup is left
    out. Floats are IEEE doubles; their texts, Unicode lower case and the JSON
    printer are parameters. Rust's [sort_by] is a stable sort for a comparison that
    is a total preorder; for another the order is unspecified. *)

From stdpp Require Import sorting.
From S2P Require Import Prelude RustStd Json Core Vault.
From S2P Require Import Inventory Console Observer.
From Stdlib Require Import ZArith Ascii SpecFloat.

(** ** Comparisons *)

(** A comparison that orders: a total preorder with its equivalence. *)
Record orders {A} (cmp : A → A → comparison) : Prop := {
  cmp_anti x y : cmp y x = CompOpp (cmp x y);
  cmp_trans x y z : cmp x y ≠ Gt → cmp y z ≠ Gt → cmp x z ≠ Gt;
}.

Lemma orders_refl {A} (cmp : A → A → comparison) x : orders cmp → cmp x x = Eq.
Proof. intros [Ha _]. specialize (Ha x x). by destruct (cmp x x). Qed.

Lemma orders_on {A B} (f : B → A) cmp : orders cmp → orders (λ x y, cmp (f x) (f y)).
Proof. intros [Ha Ht]. split; eauto. Qed.

Lemma orders_reverse {A} (cmp : A → A → comparison) :
  orders cmp → orders (λ x y, CompOpp (cmp x y)).
Proof.
  intros [Ha Ht]. split; [intros; by rewrite Ha|]. intros x y z Hxy Hyz.
  rewrite <- Ha in *. eauto.
Qed.

(** [str::cmp]: the bytes in order. *)
Lemma string_orders : orders String.compare.
Proof.
  split; [intros; apply String.compare_antisym|]. intros x y z Hxy Hyz.
  assert (∀ s t, String.compare s t ≠ Gt ↔ String.le s t) as Hle.
  { intros s t. unfold String.le, String.leb. by destruct (String.compare s t). }
  rewrite Hle in *. by etrans.
Qed.

(** [f64::partial_cmp] on the doubles but NaN is lexicographic in sign, exponent and
    mantissa. *)
Definition rank (x : float64) : Z * Z * Z :=
  match x with
  | S754_infinity true => (-2, 0, 0)
  | S754_finite true m e => (-1, -e, Zneg m)
  | S754_zero _ | S754_nan => (0, 0, 0)
  | S754_finite false m e => (1, e, Zpos m)
  | S754_infinity false => (2, 0, 0)
  end%Z.

Definition lex (a b : Z * Z * Z) : comparison :=
  match Z.compare a.1.1 b.1.1 with
  | Eq => match Z.compare a.1.2 b.1.2 with Eq => Z.compare a.2 b.2 | c => c end
  | c => c
  end.

Definition is_nan (x : float64) : bool := match x with S754_nan => true | _ => false end.

Lemma SFcompare_rank x y :
  is_nan x = false → is_nan y = false → SFcompare x y = Some (lex (rank x) (rank y)).
Proof.
  destruct x as [s|[]| |[] m e], y as [s'|[]| |[] m' e']; try done; intros _ _; unfold lex; simpl.
  rewrite Z.compare_opp, (Z.compare_antisym e e'). by destruct (e ?= e')%Z.
Qed.

Lemma lex_orders : orders lex.
Proof.
  split.
  - intros [[a b] c] [[a' b'] c']; unfold lex; simpl.
    rewrite (Z.compare_antisym a a'), (Z.compare_antisym b b'), (Z.compare_antisym c c').
    destruct (a ?= a')%Z; [|done..]. by destruct (b ?= b')%Z.
  - intros [[a b] c] [[a' b'] c'] [[a'' b''] c'']; unfold lex; simpl.
    destruct (Z.compare_spec a a'), (Z.compare_spec a' a''), (Z.compare_spec a a''); try lia; try done;
      destruct (Z.compare_spec b b'), (Z.compare_spec b' b''), (Z.compare_spec b b''); try lia; try done;
      destruct (Z.compare_spec c c'), (Z.compare_spec c' c''), (Z.compare_spec c c''); try lia; done.
Qed.

(** ** A stable sort *)

Section Sort.
Context {A : Type} (cmp : A → A → comparison).

(** A row goes before the first one that is not smaller: the equal ones came later. *)
Fixpoint insert_by (x : A) (l : list A) : list A :=
  match l with
  | [] => [x]
  | y :: r => match cmp x y with Gt => y :: insert_by x r | _ => x :: l end
  end.

Definition sort_by (l : list A) : list A := foldr insert_by [] l.

Lemma insert_by_perm x l : insert_by x l ≡ₚ x :: l.
Proof.
  induction l as [|y l IH]; simpl; [done|]. destruct (cmp x y); try done.
  rewrite IH. apply Permutation_swap.
Qed.

Lemma sort_by_perm l : sort_by l ≡ₚ l.
Proof. induction l as [|x l IH]; simpl; [done|]. by rewrite insert_by_perm, IH. Qed.

Hypothesis Hord : orders cmp.

Lemma insert_by_sorted x l :
  StronglySorted (λ a b, cmp a b ≠ Gt) l → StronglySorted (λ a b, cmp a b ≠ Gt) (insert_by x l).
Proof using Hord.
  induction 1 as [|y l Hl IH Hy]; simpl; [by repeat constructor|].
  destruct (cmp x y) eqn:Hxy.
  3:{ constructor; [done|]. rewrite insert_by_perm. constructor; [|done].
      by rewrite (cmp_anti _ Hord x y), Hxy. }
  all: constructor; [by constructor|]; constructor; [by rewrite Hxy|];
    eapply Forall_impl; [exact Hy|]; intros z Hz; eapply (cmp_trans _ Hord); [|exact Hz];
    by rewrite Hxy.
Qed.

Lemma sort_by_sorted l : StronglySorted (λ a b, cmp a b ≠ Gt) (sort_by l).
Proof using Hord. induction l; simpl; [constructor|by apply insert_by_sorted]. Qed.

(** Rows that compare equal keep their order. *)
Definition like (k x : A) : bool := match cmp k x with Eq => true | _ => false end.

Lemma cmp_eq_trans k x y : cmp k x = Eq → cmp k y = Eq → cmp x y = Eq.
Proof using Hord.
  intros Hx Hy. assert (cmp x y ≠ Gt) as H1.
  { eapply (cmp_trans _ Hord x k y); [by rewrite (cmp_anti _ Hord k x), Hx|by rewrite Hy]. }
  assert (cmp y x ≠ Gt) as H2.
  { eapply (cmp_trans _ Hord y k x); [by rewrite (cmp_anti _ Hord k y), Hy|by rewrite Hx]. }
  rewrite (cmp_anti _ Hord x y) in H2. by destruct (cmp x y).
Qed.

Lemma insert_by_stable k x l :
  List.filter (like k) (insert_by x l) = List.filter (like k) (x :: l).
Proof using Hord.
  induction l as [|y l IH]; [done|]. cbn [insert_by].
  destruct (cmp x y) eqn:Hxy; [done..|]. simpl in *. rewrite IH. unfold like.
  destruct (cmp k y) eqn:Hy, (cmp k x) eqn:Hx; try done.
  by rewrite (cmp_eq_trans k x y Hx Hy) in Hxy.
Qed.

Lemma sort_by_stable k l : List.filter (like k) (sort_by l) = List.filter (like k) l.
Proof using Hord.
  induction l as [|x l IH]; simpl; [done|]. rewrite insert_by_stable. simpl. by rewrite IH.
Qed.

(** A stable sort of a list is unique. *)
Lemma stable_sort_unique l1 l2 :
  StronglySorted (λ a b, cmp a b ≠ Gt) l1 → StronglySorted (λ a b, cmp a b ≠ Gt) l2 →
  (∀ k, List.filter (like k) l1 = List.filter (like k) l2) → l1 = l2.
Proof using Hord.
  assert (∀ k, like k k = true) as Hself by (intros k; unfold like; by rewrite orders_refl).
  intros Hl1; revert l2; induction Hl1 as [|x l1 Hl1 IH Hx]; intros l2 Hl2 Heq.
  { destruct l2 as [|y l2]; [done|]. specialize (Heq y). simpl in Heq. by rewrite Hself in Heq. }
  destruct Hl2 as [|y l2 Hl2 Hy].
  { specialize (Heq x). simpl in Heq. by rewrite Hself in Heq. }
  assert (like x y = true) as Hxy.
  { assert (∃ z, z ∈ y :: l2 ∧ like x z = true) as (z & Hz & Hxz).
    { exists x. split; [|done]. assert (x ∈ List.filter (like x) (y :: l2)) as Hin
        by (rewrite <- Heq; simpl; rewrite Hself; left).
      apply list_elem_of_In, filter_In in Hin as [Hin _]. by apply list_elem_of_In. }
    assert (∃ z, z ∈ x :: l1 ∧ like y z = true) as (z' & Hz' & Hyz').
    { exists y. split; [|done]. assert (y ∈ List.filter (like y) (x :: l1)) as Hin
        by (rewrite Heq; simpl; rewrite Hself; left).
      apply list_elem_of_In, filter_In in Hin as [Hin _]. by apply list_elem_of_In. }
    assert (cmp y x ≠ Gt) as H1.
    { unfold like in Hxz. destruct (cmp x z) eqn:Hc; try done.
      apply elem_of_cons in Hz as [->|Hz]; [by rewrite (cmp_anti _ Hord x y), Hc|].
      rewrite Forall_forall in Hy. eapply (cmp_trans _ Hord y z x); [by apply Hy|].
      by rewrite (cmp_anti _ Hord x z), Hc. }
    assert (cmp x y ≠ Gt) as H2.
    { unfold like in Hyz'. destruct (cmp y z') eqn:Hc; try done.
      apply elem_of_cons in Hz' as [->|Hz']; [by rewrite (cmp_anti _ Hord y x), Hc|].
      rewrite Forall_forall in Hx. eapply (cmp_trans _ Hord x z' y); [by apply Hx|].
      by rewrite (cmp_anti _ Hord y z'), Hc. }
    unfold like. rewrite (cmp_anti _ Hord x y) in H1. by destruct (cmp x y). }
  assert (x = y) as ->.
  { specialize (Heq x). simpl in Heq. rewrite Hself, Hxy in Heq. by injection Heq. }
  f_equal. apply IH; [done|]. intros k. specialize (Heq k). simpl in Heq.
  destruct (like k y); by simplify_eq.
Qed.
End Sort.

(** ** Columns and rows *)

Inductive SortType := SortText | SortNumeric | SortPercentage.
Inductive SortDir := Asc | Desc.

Record ColumnDef := mkColumn {
  col_key : string;
  col_label : string;
  col_sortable : bool;
  col_default_hidden : bool;
  col_sort_type : SortType;
}.

(** [TableRow], without the view of a cell. *)
Class TableRow (T : Type) := {
  columns : list ColumnDef;
  cell_value : T → string → string;
  row_key : T → string;
  row_link : T → option string;
}.

(** Unicode lower case of a text. *)
Class LowerCase := { to_lowercase : string → string }.

Section Rows.
Context `{F64Text} `{LowerCase} {T : Type} `{TableRow T}.

(** The number of a cell: what does not parse counts as zero. *)
Definition cell_number (col : string) (row : T) : float64 :=
  default (S754_zero false) (f64_parse (cell_value row col)).

Definition cell_cmp (col : string) (ty : SortType) (a b : T) : comparison :=
  match ty with
  | SortNumeric | SortPercentage =>
      default Eq (SFcompare (cell_number col a) (cell_number col b))
  | SortText =>
      String.compare (to_lowercase (cell_value a col)) (to_lowercase (cell_value b col))
  end.

Definition dir_cmp (dir : SortDir) (cmp : T → T → comparison) (a b : T) : comparison :=
  match dir with Asc => cmp a b | Desc => CompOpp (cmp a b) end.

Definition sort_rows (rows : list T) (col : string) (dir : SortDir) (ty : SortType) : list T :=
  sort_by (dir_cmp dir (cell_cmp col ty)) rows.

Definition filter_rows (rows : list T) (query : string) (visible_cols : list string) : list T :=
  if string_eqb query "" then rows
  else
    let q := to_lowercase query in
    List.filter (λ row,
      existsb (λ col, contains (to_lowercase (cell_value row col)) q) visible_cols) rows.

Definition paginate {A} (rows : list A) (page page_size : nat) : list A :=
  let start := page * page_size in
  if length rows <=? start then []
  else
    let stop := Nat.min (start + page_size) (length rows) in
    take (stop - start) (drop start rows).

Definition total_pages (row_count page_size : nat) : nat :=
  if page_size =? 0 then 0 else (row_count + page_size - 1) / page_size.

(** *** Export *)

Definition quote : ascii := "034"%char.
Definition newline : ascii := "010"%char.

(** [val.replace]: each quote doubled. *)
Fixpoint double_quotes (s : string) : string :=
  match s with
  | EmptyString => EmptyString
  | String c s =>
      if Ascii.eqb c quote then String quote (String quote (double_quotes s))
      else String c (double_quotes s)
  end.

Definition csv_cell (val : string) : string :=
  if contains_char ","%char val || contains_char quote val
  then String quote (double_quotes val +:+ String quote EmptyString)
  else val.

Definition export_csv (rows : list T) (cols : list ColumnDef) : string :=
  join ","%char (map col_label cols) +:+ String newline EmptyString +:+
  string_concat (map (λ row,
    join ","%char (map (λ c, csv_cell (cell_value row (col_key c))) cols) +:+
    String newline EmptyString) rows).

(** [export_json] prints this array. *)
Definition export_objects (rows : list T) (cols : list ColumnDef) : json :=
  JArray (map (λ row,
    JObject (foldl (λ m c, assoc_insert (col_key c) (JString (cell_value row (col_key c))) m)
      [] cols)) rows).

Definition export_json (to_string_pretty : json → result string string) (rows : list T)
    (cols : list ColumnDef) : string :=
  match to_string_pretty (export_objects rows cols) with Ok s => s | Err _ => "" end.

(** *** The component's signals *)

(** The component's properties, and its signals with the browser's [localStorage],
    where there is one, and the downloads it started. *)
Record table_env := mkTableEnv {
  te_table_id : string;
  te_rows : list T;
}.

Record tstate := mkTstate {
  t_search_query : string;
  t_sort_col : option string;
  t_sort_dir : option SortDir;
  t_current_page : nat;
  t_page_size : nat;
  t_hidden : gset string;
  t_storage : option (gmap string string);
  t_downloads : list (string * string * string);
}.

(** The JSON texts of a set of strings, and the pretty printer. *)
Variable print_set : gset string → string.
Variable parse_set : string → option (gset string).
Variable to_string_pretty : json → result string string.

Definition storage_key (table_id : string) : string := "daimon_table_cols_" +:+ table_id.

Definition default_hidden (cols : list ColumnDef) : gset string :=
  list_to_set (map col_key (List.filter col_default_hidden cols)).

Definition load_hidden_cols (table_id : string) (cols : list ColumnDef)
    (storage : option (gmap string string)) : gset string :=
  match storage with
  | Some m =>
      match m !! storage_key table_id with
      | Some text => default (default_hidden cols) (parse_set text)
      | None => default_hidden cols
      end
  | None => default_hidden cols
  end.

Definition save_hidden_cols (table_id : string) (hidden : gset string)
    (storage : option (gmap string string)) : option (gmap string string) :=
  match storage with
  | Some m => Some (<[storage_key table_id := print_set hidden]> m)
  | None => None
  end.

(** The signals as the component sets them up. *)
Definition table_new (env : table_env) (storage : option (gmap string string)) : tstate :=
  mkTstate "" None None 0 25 (load_hidden_cols (te_table_id env) columns storage) storage [].

Definition visible_columns (st : tstate) : list ColumnDef :=
  List.filter (λ c, negb (bool_decide (col_key c ∈ t_hidden st))) columns.

Definition compute_processed (env : table_env) (st : tstate) : list T :=
  let filtered := filter_rows (te_rows env) (t_search_query st) (map col_key (visible_columns st)) in
  match t_sort_col st, t_sort_dir st with
  | Some col, Some dir =>
      let ty := match find (λ c, string_eqb (col_key c) col) columns with
                | Some c => col_sort_type c
                | None => SortText
                end in
      sort_rows filtered col dir ty
  | _, _ => filtered
  end.

Definition page_rows (env : table_env) (st : tstate) : list T :=
  paginate (compute_processed env st) (t_current_page st) (t_page_size st).

Definition total_page_count (env : table_env) (st : tstate) : nat :=
  total_pages (length (compute_processed env st)) (t_page_size st).

Definition prev_disabled (st : tstate) : bool := t_current_page st =? 0.

Definition next_disabled (env : table_env) (st : tstate) : bool :=
  total_page_count env st <=? t_current_page st + 1.

Definition page_label (env : table_env) (st : tstate) : nat * nat :=
  (t_current_page st + 1, Nat.max (total_page_count env st) 1).

(** The numbers of the footer: first and last row shown, and how many there are. *)
Definition footer (env : table_env) (st : tstate) : nat * nat * nat :=
  let total := length (compute_processed env st) in
  let start := if total =? 0 then 0 else t_current_page st * t_page_size st + 1 in
  let stop := Nat.min ((t_current_page st + 1) * t_page_size st) total in
  (start, stop, total).

(** *** The handlers *)

Definition set_page (p : nat) (st : tstate) : tstate :=
  mkTstate (t_search_query st) (t_sort_col st) (t_sort_dir st) p (t_page_size st) (t_hidden st)
    (t_storage st) (t_downloads st).

Definition set_sort (col : option string) (dir : option SortDir) (st : tstate) : tstate :=
  mkTstate (t_search_query st) col dir (t_current_page st) (t_page_size st) (t_hidden st)
    (t_storage st) (t_downloads st).

Definition on_search (query : string) (st : tstate) : tstate :=
  mkTstate query (t_sort_col st) (t_sort_dir st) 0 (t_page_size st) (t_hidden st)
    (t_storage st) (t_downloads st).

Definition on_sort (key : string) (st : tstate) : tstate :=
  set_page 0
    (if bool_decide (t_sort_col st = Some key) then
       match t_sort_dir st with
       | Some Asc => set_sort (t_sort_col st) (Some Desc) st
       | Some Desc => set_sort None None st
       | None => set_sort (t_sort_col st) (Some Asc) st
       end
     else set_sort (Some key) (Some Asc) st).

(** The header's click handler: columns that do not sort ignore it. *)
Definition on_header (c : ColumnDef) (st : tstate) : tstate :=
  if col_sortable c then on_sort (col_key c) st else st.

Definition on_prev (st : tstate) : tstate :=
  if 0 <? t_current_page st then set_page (t_current_page st - 1) st else st.

Definition on_next (env : table_env) (st : tstate) : tstate :=
  if t_current_page st + 1 <? total_page_count env st
  then set_page (t_current_page st + 1) st else st.

(** [str::parse::<usize>], with 32 bits in the browser. *)
Definition parse_usize : string → option Z := parse_int false 0 (2^32 - 1).

Definition on_page_size (value : string) (st : tstate) : tstate :=
  match parse_usize value with
  | Some size =>
      mkTstate (t_search_query st) (t_sort_col st) (t_sort_dir st) 0 (Z.to_nat size) (t_hidden st)
        (t_storage st) (t_downloads st)
  | None => st
  end.

Definition toggle_col (env : table_env) (key : string) (st : tstate) : tstate :=
  let hidden := if decide (key ∈ t_hidden st) then t_hidden st ∖ {[key]}
                else {[key]} ∪ t_hidden st in
  mkTstate (t_search_query st) (t_sort_col st) (t_sort_dir st) 0 (t_page_size st) hidden
    (save_hidden_cols (te_table_id env) hidden (t_storage st)) (t_downloads st).

Definition download (filename mime content : string) (st : tstate) : tstate :=
  mkTstate (t_search_query st) (t_sort_col st) (t_sort_dir st) (t_current_page st) (t_page_size st)
    (t_hidden st) (t_storage st) (t_downloads st ++ [(filename, mime, content)]).

Definition on_export_csv (env : table_env) (st : tstate) : tstate :=
  download "export.csv" "text/csv"
    (export_csv (compute_processed env st) (visible_columns st)) st.

Definition on_export_json (env : table_env) (st : tstate) : tstate :=
  download "export.json" "application/json"
    (export_json to_string_pretty (compute_processed env st) (visible_columns st)) st.

Inductive table_event :=
| Search (query : string)
| Header (c : ColumnDef)
| Prev
| Next
| PageSize (value : string)
| ToggleCol (key : string)
| ExportCsv
| ExportJson.

(** The values the page size selector offers. *)
Definition PAGE_SIZES : list string := ["25"; "50"; "100"].

Definition table_step (env : table_env) (st : tstate) (ev : table_event) : tstate :=
  match ev with
  | Search q => on_search q st
  | Header c => on_header c st
  | Prev => on_prev st
  | Next => on_next env st
  | PageSize v => on_page_size v st
  | ToggleCol k => toggle_col env k st
  | ExportCsv => on_export_csv env st
  | ExportJson => on_export_json env st
  end.

Definition table_run (env : table_env) (storage : option (gmap string string))
    (evs : list table_event) : tstate :=
  foldl (table_step env) (table_new env storage) evs.
End Rows.

(** ** Sorting *)

Lemma sort_by_ext {A} (cmp cmp' : A → A → comparison) l :
  (∀ x y, x ∈ l → y ∈ l → cmp x y = cmp' x y) → sort_by cmp l = sort_by cmp' l.
Proof.
  induction l as [|x l IH]; intros Heq; simpl; [done|].
  rewrite IH by (intros; apply Heq; by right).
  assert (∀ y, y ∈ sort_by cmp' l → cmp x y = cmp' x y) as Hx.
  { intros y Hy. rewrite sort_by_perm in Hy. apply Heq; [left|by right]. }
  revert Hx. generalize (sort_by cmp' l). intros r Hx.
  induction r as [|y r IHr]; simpl; [done|]. rewrite (Hx y) by left.
  destruct (cmp' x y); [done..|]. f_equal. apply IHr. intros z Hz. apply Hx. by right.
Qed.

Section Sorting.
Context `{F64Text} `{LowerCase} {T : Type} `{TableRow T}.

(** The order of a column, with every NaN at zero. *)
Definition column_order (col : string) (ty : SortType) (a b : T) : comparison :=
  match ty with
  | SortNumeric | SortPercentage => lex (rank (cell_number col a)) (rank (cell_number col b))
  | SortText =>
      String.compare (to_lowercase (cell_value a col)) (to_lowercase (cell_value b col))
  end.

Lemma column_orders col ty dir : orders (dir_cmp dir (column_order col ty)).
Proof.
  assert (orders (column_order col ty)) as Hc.
  { unfold column_order. destruct ty.
    - apply (orders_on (λ a : T, to_lowercase (cell_value a col))), string_orders.
    - apply (orders_on (λ a : T, rank (cell_number col a))), lex_orders.
    - apply (orders_on (λ a : T, rank (cell_number col a))), lex_orders. }
  destruct dir; simpl; [done|]. by apply orders_reverse.
Qed.

(** No cell of the column reads as NaN. *)
Definition no_nan (rows : list T) (col : string) (ty : SortType) : Prop :=
  ty = SortText ∨ ∀ row, row ∈ rows → is_nan (cell_number col row) = false.

Lemma cell_cmp_order rows col ty dir a b :
  no_nan rows col ty → a ∈ rows → b ∈ rows →
  dir_cmp dir (cell_cmp col ty) a b = dir_cmp dir (column_order col ty) a b.
Proof.
  intros [->|Hn] Ha Hb; [done|]. unfold dir_cmp, cell_cmp, column_order.
  destruct ty; [done| |]; by rewrite SFcompare_rank by (by apply Hn).
Qed.

(** A table sorts. On a column none of whose cells reads as NaN, sorting keeps the
    rows, orders them by the column in the chosen direction, and leaves rows that
    compare equal in the order they had. *)
Theorem sort_rows_stable rows col dir ty :
  no_nan rows col ty →
  let out := sort_rows rows col dir ty in
  let cmp := dir_cmp dir (cell_cmp col ty) in
  out ≡ₚ rows ∧ StronglySorted (λ a b, cmp a b ≠ Gt) out ∧
  (∀ k, k ∈ rows → List.filter (like cmp k) out = List.filter (like cmp k) rows).
Proof.
  intros Hn out cmp. set (ord := dir_cmp dir (column_order col ty)).
  assert (∀ x y, x ∈ rows → y ∈ rows → cmp x y = ord x y) as Heq
    by (intros; by apply (cell_cmp_order rows)).
  assert (out = sort_by ord rows) as Hout by (by apply sort_by_ext).
  assert (out ≡ₚ rows) as Hp by (rewrite Hout; apply sort_by_perm).
  split; [done|]. split.
  - pose proof (sort_by_sorted ord (column_orders col ty dir) rows) as Hs. rewrite <- Hout in Hs.
    assert (Forall (λ x, x ∈ rows) out) as Hin by (rewrite Hp; by apply Forall_forall).
    revert Hs Hin. generalize out. induction 1 as [|x l Hl IH Hx]; constructor.
    + apply IH. by inversion Hin.
    + apply Forall_cons in Hin as [Hxr Hlr]. rewrite Forall_forall in *. intros y Hy.
      rewrite Heq; [by apply Hx|done|by apply Hlr].
  - intros k Hk. assert (∀ l, (∀ x, x ∈ l → x ∈ rows) →
      List.filter (like cmp k) l = List.filter (like ord k) l) as Hf.
    { intros l Hl. apply filter_ext_in. intros x Hx%list_elem_of_In. unfold like.
      by rewrite Heq by eauto. }
    rewrite (Hf rows), (Hf out) by (try done; intros x; by rewrite Hp). rewrite Hout.
    apply sort_by_stable, column_orders.
Qed.
End Sorting.

(** ** Pages *)

Lemma paginate_chunk {A} (rows : list A) page size :
  paginate rows page size = take size (drop (page * size) rows).
Proof.
  unfold paginate. destruct (Nat.leb_spec (length rows) (page * size)) as [Hle|Hlt].
  - by rewrite drop_ge, take_nil by done.
  - destruct (Nat.le_ge_cases (page * size + size) (length rows)) as [Hs|Hs].
    + rewrite Nat.min_l by done. f_equal. lia.
    + rewrite Nat.min_r by done. rewrite !take_ge; [done|rewrite length_drop; lia..].
Qed.

Lemma chunks_concat {A} (rows : list A) size n :
  length rows ≤ n * size →
  concat (map (λ p, take size (drop (p * size) rows)) (seq 0 n)) = rows.
Proof.
  revert rows. induction n as [|n IH]; intros rows Hlen.
  { destruct rows; [done|simpl in Hlen; lia]. }
  rewrite <- cons_seq, <- seq_shift, map_cons, map_map. cbn [concat].
  rewrite Nat.mul_0_l, drop_0. etrans; [|apply (take_drop size rows)]. f_equal.
  etrans; [|apply (IH (drop size rows)); rewrite length_drop; lia]. f_equal. apply map_ext.
  intros p. by rewrite drop_drop.
Qed.

Lemma total_pages_spec n size :
  0 < size → n ≤ total_pages n size * size ∧ total_pages n size * size < n + size.
Proof.
  intros Hs. unfold total_pages. rewrite (proj2 (Nat.eqb_neq size 0)) by lia.
  pose proof (Nat.div_mod_eq (n + size - 1) size) as Hd.
  pose proof (Nat.mod_upper_bound (n + size - 1) size ltac:(lia)) as Hm. lia.
Qed.

(** The pages of a table are its rows. Put together they give the rows back in
    order; no page up to the last is empty or longer than the page size, and none
    after it shows anything. *)
Theorem pages_partition {A} (rows : list A) size :
  0 < size →
  concat (map (λ p, paginate rows p size) (seq 0 (total_pages (length rows) size))) = rows ∧
  (∀ p, p < total_pages (length rows) size → paginate rows p size ≠ []) ∧
  (∀ p, length (paginate rows p size) ≤ size) ∧
  (∀ p, total_pages (length rows) size ≤ p → paginate rows p size = []).
Proof.
  intros Hs. destruct (total_pages_spec (length rows) size Hs) as [Hlo Hhi].
  split; [|split; [|split]].
  - etrans; [|by apply (chunks_concat rows size)]. f_equal. apply map_ext. intros.
    apply paginate_chunk.
  - intros p Hp Hnil. apply (f_equal length) in Hnil.
    rewrite paginate_chunk, length_take, length_drop in Hnil. simpl in Hnil.
    assert (p * size + size ≤ total_pages (length rows) size * size) by nia. lia.
  - intros p. rewrite paginate_chunk, length_take. lia.
  - intros p Hp. rewrite paginate_chunk, drop_ge, take_nil; [done|]. nia.
Qed.

(** ** The component *)

Section Component.
Context `{F64Text} `{LowerCase} {T : Type} `{TableRow T}.
Variable print_set : gset string → string.
Variable parse_set : string → option (gset string).
Variable to_string_pretty : json → result string string.

(** A printed set is read back. *)
Hypothesis print_parse : ∀ s, parse_set (print_set s) = Some s.

Record table_inv (storage : option (gmap string string)) (env : table_env (T := T)) (st : tstate) :
    Prop := {
  inv_page : t_current_page st = 0 ∨ t_current_page st < total_page_count env st;
  inv_size : t_page_size st ∈ [25; 50; 100];
  inv_sort : t_sort_col st = None ↔ t_sort_dir st = None;
  inv_hidden : storage ≠ None → load_hidden_cols parse_set (te_table_id env) columns (t_storage st) = t_hidden st;
  inv_storage : t_storage st = None ↔ storage = None;
}.

(** The events of the page: the selector offers only its own values. *)
Definition offered (ev : table_event) : Prop :=
  match ev with PageSize v => v ∈ PAGE_SIZES | _ => True end.

Lemma page_sizes_parse v :
  v ∈ PAGE_SIZES → ∃ z, parse_usize v = Some z ∧ Z.to_nat z ∈ [25; 50; 100].
Proof.
  unfold PAGE_SIZES. rewrite !elem_of_cons, elem_of_nil.
  intros [->|[->|[->|[]]]]; eexists; (split; [vm_compute; reflexivity|]);
    apply (bool_decide_unpack _); vm_compute; done.
Qed.

Lemma toggle_saved (env : table_env (T := T)) key st :
  t_storage st ≠ None →
  load_hidden_cols parse_set (te_table_id env) columns (t_storage (toggle_col print_set env key st))
    = t_hidden (toggle_col print_set env key st).
Proof using print_parse.
  unfold toggle_col; simpl. destruct (t_storage st) as [m|]; simpl; [intros _|done].
  by rewrite lookup_insert_eq, print_parse.
Qed.

Lemma table_step_inv storage env st ev :
  offered ev → table_inv storage env st →
  table_inv storage env (table_step print_set to_string_pretty env st ev).
Proof using print_parse.
  intros Hoff [Hpage Hsize Hsort Hhid Hsto].
  destruct ev as [q|c| | |v|k| |]; cbn [table_step].
  - split; simpl; [by left|done..].
  - unfold on_header. destruct (col_sortable c); [|by split]. unfold on_sort.
    case_bool_decide as Hc; [destruct (t_sort_dir st) as [[]|] eqn:Hd|];
      split; simpl; try done; try (by left); by rewrite Hc.
  - unfold on_prev. destruct (Nat.ltb_spec 0 (t_current_page st)); [|by split].
    split; simpl; try done. right. destruct Hpage as [Hp|Hp]; [lia|].
    unfold total_page_count in *. change (compute_processed env (set_page _ st))
      with (compute_processed env st). simpl. lia.
  - unfold on_next. destruct (Nat.ltb_spec (t_current_page st + 1) (total_page_count env st));
      [|by split]. split; simpl; try done. right. done.
  - destruct (page_sizes_parse v Hoff) as (z & Hz & Hin). unfold on_page_size. rewrite Hz.
    split; simpl; [by left|done..].
  - split; [by left|done|done| |].
    + intros Hs. apply toggle_saved. by rewrite Hsto.
    + rewrite <- Hsto. simpl. by destruct (t_storage st).
  - split; simpl; try done.
  - split; simpl; try done.
Qed.

Lemma table_run_inv env storage evs :
  Forall offered evs →
  table_inv storage env (table_run print_set parse_set to_string_pretty env storage evs).
Proof using print_parse.
  intros Hoff. unfold table_run.
  assert (table_inv storage env (table_new parse_set env storage)) as Hnew.
  { split; simpl; [by left|left|done..]. }
  revert Hnew. generalize (table_new parse_set env storage).
  induction Hoff as [|ev evs Hev _ IH]; simpl; [done|]. intros st Hst.
  by apply IH, table_step_inv.
Qed.

(** The rows a page shows, by the numbers of its footer. *)
Lemma footer_rows storage (env : table_env (T := T)) st :
  table_inv storage env st →
  let '(start, stop, total) := footer env st in
  page_rows env st = take (stop - (start - 1)) (drop (start - 1) (compute_processed env st)) ∧
  (0 < total → 1 ≤ start ≤ stop ∧ stop ≤ total ∧ length (page_rows env st) = S (stop - start)).
Proof.
  intros [Hpage Hsize _ _ _]. unfold footer, page_rows, total_page_count in *.
  set (rows := compute_processed env st) in *. set (p := t_current_page st) in *.
  set (size := t_page_size st) in *. rewrite paginate_chunk.
  assert (0 < size) as Hpos.
  { rewrite !elem_of_cons, elem_of_nil in Hsize. lia. }
  destruct (Nat.eqb_spec (length rows) 0) as [Hz|Hz].
  { apply length_zero_iff_nil in Hz. rewrite Hz. simpl. rewrite !drop_nil, !take_nil.
    split; [done|lia]. }
  assert (p * size < length rows) as Hlt.
  { destruct Hpage as [->|Hp]; [lia|]. destruct (total_pages_spec (length rows) size Hpos). nia. }
  replace (p * size + 1 - 1) with (p * size) by lia.
  assert (length (take size (drop (p * size) rows)) = Nat.min ((p + 1) * size) (length rows) - p * size)
    as Hl by (rewrite length_take, length_drop; lia).
  split; [|intros _; rewrite Hl; lia].
  destruct (Nat.le_ge_cases ((p + 1) * size) (length rows)).
  - rewrite Nat.min_l by done. f_equal. lia.
  - rewrite Nat.min_r by done. rewrite !take_ge; [done|rewrite length_drop; lia..].
Qed.

Lemma filter_rows_length (rows : list T) q cols : length (filter_rows rows q cols) ≤ length rows.
Proof.
  unfold filter_rows. destruct (string_eqb q ""); [done|]. apply filter_length_le.
Qed.

Lemma compute_processed_length (env : table_env (T := T)) st :
  length (compute_processed env st) ≤ length (te_rows env).
Proof.
  unfold compute_processed.
  pose proof (filter_rows_length (te_rows env) (t_search_query st) (map col_key (visible_columns st))).
  destruct (t_sort_col st), (t_sort_dir st); try done. unfold sort_rows. by rewrite sort_by_perm.
Qed.

(** The table component stays consistent. After any clicks, searches, page
    changes, column toggles and exports the current page exists, a sort column is set
    exactly when a direction is, the footer's numbers are those of the rows shown, the
    page arithmetic stays within 32 bits, and the stored column choice is the one in
    effect. *)
Theorem table_consistent env storage evs :
  Forall offered evs → (Z.of_nat (length (te_rows env)) < 2^31)%Z →
  let st := table_run print_set parse_set to_string_pretty env storage evs in
  let '(start, stop, total) := footer env st in
  (t_current_page st = 0 ∨ t_current_page st < total_page_count env st) ∧
  (t_sort_col st = None ↔ t_sort_dir st = None) ∧
  page_rows env st = take (stop - (start - 1)) (drop (start - 1) (compute_processed env st)) ∧
  (0 < total → length (page_rows env st) = S (stop - start)) ∧
  (Z.of_nat ((t_current_page st + 1) * t_page_size st) < 2^32)%Z ∧
  (Z.of_nat (total + t_page_size st) < 2^32)%Z ∧
  (storage ≠ None → load_hidden_cols parse_set (te_table_id env) columns (t_storage st) = t_hidden st).
Proof using print_parse.
  intros Hoff Hlen st. pose proof (table_run_inv env storage evs Hoff) as Hinv. fold st in Hinv.
  pose proof (footer_rows storage env st Hinv) as Hf. destruct (footer env st) as [[start stop] total] eqn:Heq.
  destruct Hf as [Hrows Hpos]. pose proof (compute_processed_length env st) as Hcl.
  destruct Hinv as [Hp Hs Hso Hh _].
  assert (total = length (compute_processed env st)) as -> by (unfold footer in Heq; by simplify_eq).
  assert (t_page_size st ≤ 100 ∧ 0 < t_page_size st) as [Hs1 Hs2].
  { rewrite !elem_of_cons, elem_of_nil in Hs. lia. }
  split; [done|]. split; [done|]. split; [done|].
  split; [intros Ht; by destruct (Hpos Ht) as (_ & _ & ?)|].
  split; [|split; [lia|done]].
  assert ((t_current_page st + 1) * t_page_size st ≤ length (te_rows env) + 200); [|lia].
  destruct Hp as [->|Hp]; [lia|]. unfold total_page_count in Hp.
  destruct (total_pages_spec (length (compute_processed env st)) (t_page_size st) Hs2). nia.
Qed.
End Component.

(** ** Reading an export back *)

(** A reader of RFC 4180 text: a record per line, fields between commas, a field in
    quotes holding any byte, with a quote written twice. *)
Inductive csv_mode := FieldStart | Plain | Quoted | QuoteSeen.

Definition snoc (s : string) (c : ascii) : string := s +:+ String c EmptyString.

Fixpoint csv_read (s : string) (m : csv_mode) (cur : string) (fields : list string) :
    list (list string) :=
  match s with
  | EmptyString =>
      match m, fields with FieldStart, [] => [] | _, _ => [fields ++ [cur]] end
  | String c s =>
      match m with
      | Quoted =>
          if Ascii.eqb c quote then csv_read s QuoteSeen cur fields
          else csv_read s Quoted (snoc cur c) fields
      | _ =>
          if Ascii.eqb c quote then
            match m with
            | FieldStart => csv_read s Quoted cur fields
            | QuoteSeen => csv_read s Quoted (snoc cur c) fields
            | _ => csv_read s Plain (snoc cur c) fields
            end
          else if Ascii.eqb c ","%char then csv_read s FieldStart EmptyString (fields ++ [cur])
          else if Ascii.eqb c newline then (fields ++ [cur]) :: csv_read s FieldStart EmptyString []
          else csv_read s Plain (snoc cur c) fields
      end
  end.

Definition csv_parse (s : string) : list (list string) := csv_read s FieldStart EmptyString [].

(** What the reader does at the separator after a field. *)
Definition csv_after (c : ascii) (s v : string) (fields : list string) : list (list string) :=
  if Ascii.eqb c ","%char then csv_read s FieldStart EmptyString (fields ++ [v])
  else (fields ++ [v]) :: csv_read s FieldStart EmptyString [].

Definition is_sep (c : ascii) : Prop := c = ","%char ∨ c = newline.

Definition plain_text (v : string) : Prop :=
  Forall (λ c, c ≠ ","%char ∧ c ≠ quote ∧ c ≠ newline) (bytes v).

Lemma ascii_eqb_ne (a b : ascii) : a ≠ b → Ascii.eqb a b = false.
Proof. by rewrite Ascii.eqb_neq. Qed.

Lemma snoc_app cur c v : snoc cur c +:+ v = cur +:+ String c v.
Proof. unfold snoc. by rewrite <- string_app_assoc. Qed.

Lemma csv_sep m c s v fields :
  is_sep c → m ≠ Quoted → csv_read (String c s) m v fields = csv_after c s v fields.
Proof. intros [->| ->] Hm; by destruct m. Qed.

Lemma csv_plain v m c s cur fields :
  is_sep c → plain_text v → m = FieldStart ∨ m = Plain →
  csv_read (v +:+ String c s) m cur fields = csv_after c s (cur +:+ v) fields.
Proof.
  intros Hc Hv. revert m cur. induction v as [|a v IH]; intros m cur Hm.
  { rewrite string_app_nil_r. apply csv_sep; [done|]. by destruct Hm as [->| ->]. }
  apply Forall_cons in Hv as [(H1 & H2 & H3) Hv]. rewrite string_app_cons. cbn [csv_read].
  rewrite (ascii_eqb_ne a quote), (ascii_eqb_ne a ","%char), (ascii_eqb_ne a newline) by done.
  rewrite <- (snoc_app cur a v). destruct Hm as [->| ->]; apply IH; try done; by right.
Qed.

Lemma csv_quoted v c s cur fields :
  is_sep c →
  csv_read (double_quotes v +:+ String quote (String c s)) Quoted cur fields =
  csv_after c s (cur +:+ v) fields.
Proof.
  intros Hc. revert cur. induction v as [|a v IH]; intros cur; cbn [double_quotes].
  { rewrite string_app_nil_r. by apply (csv_sep QuoteSeen). }
  destruct (Ascii.eqb_spec a quote) as [->|Ha].
  - rewrite !string_app_cons. cbn [csv_read]. rewrite !Ascii.eqb_refl.
    by rewrite <- (snoc_app cur quote v), IH.
  - rewrite string_app_cons. cbn [csv_read]. rewrite (ascii_eqb_ne a quote) by done.
    by rewrite <- (snoc_app cur a v), IH.
Qed.

(** A line break is written safely only in a cell that is quoted for another reason. *)
Definition csv_safe (v : string) : Prop :=
  newline ∈ bytes v → ","%char ∈ bytes v ∨ quote ∈ bytes v.

Lemma csv_field v c s fields :
  is_sep c → csv_safe v →
  csv_read (csv_cell v +:+ String c s) FieldStart EmptyString fields = csv_after c s v fields.
Proof.
  intros Hc Hv. unfold csv_cell, contains_char.
  destruct (bool_decide (","%char ∈ bytes v) || bool_decide (quote ∈ bytes v)) eqn:Hq.
  - rewrite string_app_cons. cbn [csv_read]. rewrite Ascii.eqb_refl.
    rewrite <- string_app_assoc, string_app_cons. by apply (csv_quoted v c s EmptyString fields).
  - apply orb_false_iff in Hq as [Hq1%bool_decide_eq_false Hq2%bool_decide_eq_false].
    apply (csv_plain v FieldStart c s EmptyString fields); [done| |by left].
    apply Forall_forall. intros a Ha. repeat split; intros ->; try done.
    by destruct (Hv Ha).
Qed.

Lemma csv_record f vs s fields :
  vs ≠ [] →
  (∀ v c s fields, v ∈ vs → is_sep c →
     csv_read (f v +:+ String c s) FieldStart EmptyString fields = csv_after c s v fields) →
  csv_read (join ","%char (map f vs) +:+ String newline s) FieldStart EmptyString fields =
  (fields ++ vs) :: csv_read s FieldStart EmptyString [].
Proof.
  intros Hne Hf. revert fields. induction vs as [|v vs IH]; intros fields; [done|].
  destruct vs as [|v' vs].
  { simpl. rewrite Hf; [done|left|by right]. }
  change (join ","%char (map f (v :: v' :: vs)))
    with (f v +:+ String ","%char (join ","%char (map f (v' :: vs)))).
  rewrite <- string_app_assoc, string_app_cons, Hf; [|left|by left].
  unfold csv_after. simpl (Ascii.eqb _ _). cbv iota. rewrite IH; [|done|].
  - by rewrite <- app_assoc.
  - intros; apply Hf; [by right|done].
Qed.

(** An exported table reads back. When the labels are plain and every cell with a
    line break also has a comma or a quote, an RFC 4180 reader of the CSV export
    returns the labels and the cells of every row. *)
Theorem csv_roundtrip {T : Type} `{TableRow T} (rows : list T) cols :
  cols ≠ [] → Forall (λ c, plain_text (col_label c)) cols →
  Forall (λ row, Forall (λ c, csv_safe (cell_value row (col_key c))) cols) rows →
  csv_parse (export_csv rows cols) =
  map col_label cols :: map (λ row, map (λ c, cell_value row (col_key c)) cols) rows.
Proof.
  intros Hne Hlab Hcells. unfold csv_parse, export_csv.
  rewrite <- (map_id (map col_label cols)) at 1. rewrite string_app_cons.
  change (EmptyString +:+ ?x) with x. rewrite (csv_record id).
  2: by destruct cols.
  2:{ intros v c s fields Hv Hc. apply (csv_plain v FieldStart c s EmptyString fields); [done| |by left].
      apply list_elem_of_fmap in Hv as (col & -> & Hcol). rewrite Forall_forall in Hlab. eauto. }
  f_equal. induction Hcells as [|row rows Hrow _ IH]; simpl; [done|].
  rewrite <- string_app_assoc, string_app_cons. change (EmptyString +:+ ?x) with x.
  rewrite <- (map_map (λ c, cell_value row (col_key c)) csv_cell).
  rewrite (csv_record csv_cell); [by rewrite IH|by destruct cols|].
  intros v c s fields Hv Hc. apply csv_field; [done|].
  apply list_elem_of_fmap in Hv as (col & -> & Hcol). rewrite Forall_forall in Hrow. eauto.
Qed.

(** A cell that holds a line break and nothing to quote splits its record. *)
Lemma csv_newline_splits :
  let t := {| columns := []; cell_value := λ (r : string) _, r; row_key := id; row_link := λ _, None |} in
  let cols := [mkColumn "name" "Name" true false SortText] in
  csv_parse (@export_csv string t [String "a" (String newline "b")] cols) = [["Name"]; ["a"]; ["b"]].
Proof. reflexivity. Qed.

(** ** The row types ([table.rs], the credential and target pages) *)

Abbreviation f64_add := (SFadd 53 1024).
Abbreviation f64_sub := (SFsub 53 1024).
Abbreviation f64_mul := (SFmul 53 1024).
Abbreviation f64_div := (SFdiv 53 1024).

(** [format!("{:.n}")] of a double. *)
Class F64Format := { f64_fixed : nat → float64 → string }.

Section RowTypes.
Context `{F64Format}.

Definition BYTE_UNITS : list string := ["B"; "KiB"; "MiB"; "GiB"; "TiB"].

(** The loop that scales a size: at most as many times as there are larger units. *)
Fixpoint scale_bytes (larger : nat) (val : float64) (unit : nat) : float64 * nat :=
  match larger with
  | 0 => (val, unit)
  | S larger =>
      if SFleb (f64_of_Z 1024) val then scale_bytes larger (f64_div val (f64_of_Z 1024)) (S unit)
      else (val, unit)
  end.

Definition format_bytes (n : Z) : string :=
  if (n =? 0)%Z then "0 B"
  else
    let '(val, unit) := scale_bytes (length BYTE_UNITS - 1) (f64_of_Z n) 0 in
    if unit =? 0 then show_Z n +:+ " B"
    else f64_fixed 1 val +:+ " " +:+ default "" (BYTE_UNITS !! unit).

Definition format_uptime (secs : Z) : string :=
  (if secs =? 0 then "-"
   else
     let days := secs / 86400 in
     let hours := (secs mod 86400) / 3600 in
     let mins := (secs mod 3600) / 60 in
     if 0 <? days then show_Z days +:+ "d " +:+ show_Z hours +:+ "h"
     else if 0 <? hours then show_Z hours +:+ "h " +:+ show_Z mins +:+ "m"
     else show_Z mins +:+ "m")%Z.

(** The share of a total, in percent. *)
Definition percent (used total : Z) : float64 :=
  if (0 <? total)%Z then f64_mul (f64_div (f64_of_Z used) (f64_of_Z total)) (f64_of_Z 100)
  else S754_zero false.

Record NodeRow := mkNodeRow {
  nr_name : string; nr_status : string; nr_cpu_pct : float64; nr_cpu_count : float64;
  nr_mem_used : Z; nr_mem_total : Z; nr_disk_used : Z; nr_disk_total : Z; nr_uptime : Z;
}.

Record GuestRow := mkGuestRow {
  gr_vmid : Z; gr_name : string; gr_node : string; gr_status : string;
  gr_cpu_pct : float64; gr_cpu_count : float64; gr_mem_used : Z; gr_mem_total : Z;
  gr_disk_used : Z; gr_disk_total : Z; gr_netin : Z; gr_netout : Z; gr_uptime : Z;
}.

Record StorageRow := mkStorageRow {
  sr_name : string; sr_node : string; sr_storage_type : string; sr_content : string;
  sr_used : Z; sr_total : Z; sr_avail : Z; sr_shared : bool; sr_active : bool;
}.

Definition shown (key label : string) (ty : SortType) : ColumnDef := mkColumn key label true false ty.

Definition node_columns : list ColumnDef :=
  [shown "name" "Node" SortText; shown "status" "Status" SortText;
   shown "cpu" "CPU" SortPercentage; shown "memory" "Memory" SortPercentage;
   shown "disk" "Disk" SortPercentage; shown "uptime" "Uptime" SortNumeric].

Definition node_cell (r : NodeRow) (col : string) : string :=
  if string_eqb col "name" then nr_name r
  else if string_eqb col "status" then nr_status r
  else if string_eqb col "cpu" then f64_fixed 2 (nr_cpu_pct r)
  else if string_eqb col "memory" then f64_fixed 2 (percent (nr_mem_used r) (nr_mem_total r))
  else if string_eqb col "disk" then f64_fixed 2 (percent (nr_disk_used r) (nr_disk_total r))
  else if string_eqb col "uptime" then show_Z (nr_uptime r)
  else "".

#[export] Instance node_row : TableRow NodeRow := {|
  columns := node_columns; cell_value := node_cell; row_key := nr_name; row_link := λ _, None |}.

Definition guest_columns : list ColumnDef :=
  [shown "id" "ID" SortNumeric; shown "name" "Name" SortText; shown "node" "Node" SortText;
   shown "status" "Status" SortText; shown "cpu" "CPU" SortPercentage;
   shown "memory" "Memory" SortPercentage; shown "disk" "Disk" SortText;
   shown "net_io" "Net I/O" SortText; shown "uptime" "Uptime" SortNumeric].

Definition guest_cell (r : GuestRow) (col : string) : string :=
  if string_eqb col "id" then show_Z (gr_vmid r)
  else if string_eqb col "name" then gr_name r
  else if string_eqb col "node" then gr_node r
  else if string_eqb col "status" then gr_status r
  else if string_eqb col "cpu" then f64_fixed 2 (gr_cpu_pct r)
  else if string_eqb col "memory" then f64_fixed 2 (percent (gr_mem_used r) (gr_mem_total r))
  else if string_eqb col "disk"
    then format_bytes (gr_disk_used r) +:+ " / " +:+ format_bytes (gr_disk_total r)
  else if string_eqb col "net_io"
    then format_bytes (gr_netin r) +:+ " / " +:+ format_bytes (gr_netout r)
  else if string_eqb col "uptime" then show_Z (gr_uptime r)
  else "".

#[export] Instance guest_row : TableRow GuestRow := {|
  columns := guest_columns; cell_value := guest_cell; row_key := λ r, show_Z (gr_vmid r);
  row_link := λ _, None |}.

Definition storage_columns : list ColumnDef :=
  [shown "name" "Name" SortText; shown "node" "Node" SortText; shown "type" "Type" SortText;
   shown "content" "Content" SortText; shown "usage" "Usage" SortPercentage;
   shown "total" "Total" SortNumeric; shown "available" "Available" SortNumeric;
   shown "status" "Status" SortText].

Definition storage_cell (r : StorageRow) (col : string) : string :=
  if string_eqb col "name" then sr_name r
  else if string_eqb col "node" then sr_node r
  else if string_eqb col "type" then sr_storage_type r
  else if string_eqb col "content" then sr_content r
  else if string_eqb col "usage" then f64_fixed 2 (percent (sr_used r) (sr_total r))
  else if string_eqb col "total" then show_Z (sr_total r)
  else if string_eqb col "available" then show_Z (sr_avail r)
  else if string_eqb col "status" then (if sr_active r then "Active" else "Inactive")
  else "".

#[export] Instance storage_row : TableRow StorageRow := {|
  columns := storage_columns; cell_value := storage_cell;
  row_key := λ r, sr_node r +:+ ":" +:+ sr_name r; row_link := λ _, None |}.

(** A credential's row has its times as RFC 3339 texts. *)
Definition credential_columns : list ColumnDef :=
  [shown "name" "Name" SortText; shown "kind" "Kind" SortText;
   shown "created_at" "Created" SortText; shown "updated_at" "Updated" SortText;
   mkColumn "actions" "Actions" false false SortText].

Definition credential_cell (rfc3339 : Z → string) (r : CredentialRow) (col : string) : string :=
  if string_eqb col "name" then cr_name r
  else if string_eqb col "kind" then cred_kind_label (cr_kind r)
  else if string_eqb col "created_at" then rfc3339 (cr_created_at r)
  else if string_eqb col "updated_at" then rfc3339 (cr_updated_at r)
  else "".

Definition target_columns : list ColumnDef :=
  [shown "ref" "Ref" SortText; shown "kind" "Kind" SortText; shown "transport" "Transport" SortText;
   shown "endpoint" "Host:Port" SortText; shown "labels" "Labels" SortNumeric;
   mkColumn "actions" "Actions" false false SortText].

Definition target_cell (r : TargetRow) (col : string) : string :=
  if string_eqb col "ref" then tr_ref_name r
  else if string_eqb col "kind" then target_kind_label (tr_kind r)
  else if string_eqb col "transport" then transport_label (tr_transport r)
  else if string_eqb col "endpoint" then tr_host r +:+ ":" +:+ show_Z (tr_port r)
  else if string_eqb col "labels" then show_Z (Z.of_nat (tr_label_count r))
  else "".

(** ** Charts ([viz.rs], [sparkline.rs]) *)

(** [&s[a..b]]: none where the slice panics, at a bound inside a character or past the
    end. *)
Definition char_boundary (s : string) (i : nat) : bool :=
  (i =? 0) ||
  match bytes s !! i with
  | Some a => negb (is_continuation a)
  | None => i =? length (bytes s)
  end.

Definition str_slice (a b : nat) (s : string) : option string :=
  if (a <=? b) && char_boundary s a && char_boundary s b
  then Some (string_of_bytes (take (b - a) (drop a (bytes s)))) else None.

(** Counts are small enough to be exact as doubles. *)
Definition count_day (per_day : gmap string Z) (day : string) : gmap string Z :=
  <[day := (default 0 (per_day !! day) + 1)%Z]> per_day.

Definition bucket_by_day (timestamps : list string) (max_buckets : nat) : option (list Z) :=
  days ← mapM (str_slice 0 10) (List.filter (λ ts, 10 <=? length (bytes ts)) timestamps);
  let counts := (btree_iter (foldl count_day ∅ days)).*2 in
  Some (if max_buckets <? length counts then drop (length counts - max_buckets) counts else counts).

Definition short_ts (rfc3339 : string) : option string :=
  if 16 <=? length (bytes rfc3339) then
    d ← str_slice 5 10 rfc3339; t ← str_slice 11 16 rfc3339; Some (d +:+ " " +:+ t)
  else Some rfc3339.

(** [f64::min] and [f64::max] prefer the operand that is a number. *)
Definition f64_min (x y : float64) : float64 :=
  if is_nan x then y else if is_nan y then x else if SFltb y x then y else x.
Definition f64_max (x y : float64) : float64 :=
  if is_nan x then y else if is_nan y then x else if SFltb x y then y else x.

Definition polyline_point (n : nat) (w h lo range : float64) (i : nat) (v : float64) : string :=
  let x := if n =? 1 then f64_div w (f64_of_Z 2)
           else f64_mul (f64_div (f64_of_Z (Z.of_nat i)) (f64_of_Z (Z.of_nat (n - 1)))) w in
  let y := if SFeqb range (S754_zero false) then f64_div h (f64_of_Z 2)
           else f64_add (f64_of_Z 1)
                  (f64_mul (f64_sub (f64_of_Z 1) (f64_div (f64_sub v lo) range))
                     (f64_sub h (f64_mul (f64_of_Z 2) (f64_of_Z 1)))) in
  f64_fixed 1 x +:+ "," +:+ f64_fixed 1 y.

Definition points_to_polyline (data : list float64) (width height : Z) : string :=
  match data with
  | [] => ""
  | _ =>
      let lo := foldl f64_min (S754_infinity false) data in
      let hi := foldl f64_max (S754_infinity true) data in
      join " "%char (imap (polyline_point (length data) (f64_of_Z width) (f64_of_Z height) lo
        (f64_sub hi lo)) data)
  end.
End RowTypes.

(** *** The trend of a dashboard *)

Definition total (l : list Z) : Z := foldr Z.add 0%Z l.

Lemma total_perm l l' : l ≡ₚ l' → total l = total l'.
Proof. unfold total. induction 1; simpl; lia. Qed.

Lemma total_app l l' : total (l ++ l') = (total l + total l')%Z.
Proof. unfold total. induction l as [|x l IH]; simpl; [done|]. rewrite IH. lia. Qed.

Definition counted (m : gmap string Z) : Z := total ((map_to_list m).*2).

Lemma counted_insert m day z :
  m !! day = None → counted (<[day := z]> m) = (z + counted m)%Z.
Proof.
  intros Hm. unfold counted.
  by rewrite (total_perm _ _ (fmap_Permutation snd _ _ (map_to_list_insert m day z Hm))).
Qed.

Lemma counted_count_day m day : counted (count_day m day) = (counted m + 1)%Z.
Proof.
  unfold count_day. destruct (m !! day) as [z|] eqn:Hm; simpl.
  - rewrite <- insert_delete_eq, counted_insert by apply lookup_delete_eq.
    rewrite <- (insert_delete_id m day z Hm) at 2.
    rewrite counted_insert by apply lookup_delete_eq. lia.
  - rewrite counted_insert by done. lia.
Qed.

(** With as many buckets as days the series counts every timestamp that has a day. *)
Lemma bucket_by_day_total timestamps max counts :
  bucket_by_day timestamps max = Some counts → length counts < max →
  total counts = Z.of_nat (length (List.filter (λ ts, 10 <=? length (bytes ts)) timestamps)).
Proof.
  unfold bucket_by_day. intros Hb Hlen. apply bind_Some in Hb as (days & Hd & Hb).
  apply length_mapM in Hd as ->. revert Hb.
  set (m := foldl count_day ∅ days). destruct (Nat.ltb_spec max (length (btree_iter m).*2)) as [Hlt|_].
  { intros Hb. simplify_eq. rewrite length_drop in Hlen. lia. }
  intros Hb. simplify_eq. unfold btree_iter.
  rewrite (total_perm _ _ (fmap_Permutation snd _ _ (merge_sort_Permutation _ _))).
  change (counted m = Z.of_nat (length days)). subst m. clear.
  assert (∀ m0, counted (foldl count_day m0 days) = (counted m0 + Z.of_nat (length days))%Z) as Hg.
  { induction days as [|d days IH]; intros m0; simpl; [lia|].
    rewrite IH, counted_count_day. lia. }
  rewrite Hg. unfold counted. by rewrite map_to_list_empty.
Qed.

Lemma row_columns_distinct `{F64Format} :
  NoDup (col_key <$> node_columns) ∧ NoDup (col_key <$> guest_columns) ∧
  NoDup (col_key <$> storage_columns) ∧ NoDup (col_key <$> credential_columns) ∧
  NoDup (col_key <$> target_columns).
Proof. repeat split; apply (bool_decide_unpack _); vm_compute; done. Qed.

(** ** Witnesses *)

Module TablesDemo.
Import ObserverDemo.

#[export] Instance demo_lower : LowerCase := {| to_lowercase := to_ascii_lowercase |}.

(** Rows of a name and a number. *)
#[export] Instance demo_row : TableRow (string * string) := {|
  columns := [shown "name" "Name" SortText; shown "n" "N" SortNumeric];
  cell_value r col := if string_eqb col "name" then r.1 else if string_eqb col "n" then r.2 else "";
  row_key := fst; row_link := λ _, None |}.

Definition some_rows : list (string * string) :=
  [("charlie", "3"); ("Alice", "1"); ("bob, jr", "3"); ("dave", "2")].

Lemma sort_rows_stable_witness :
  sort_rows some_rows "n" Desc SortNumeric =
    [("charlie", "3"); ("bob, jr", "3"); ("dave", "2"); ("Alice", "1")] ∧
  sort_rows some_rows "n" Desc SortNumeric ≡ₚ some_rows.
Proof.
  split; [vm_compute; reflexivity|].
  refine (proj1 (sort_rows_stable some_rows "n" Desc SortNumeric _)).
  right. intros row Hrow. unfold some_rows in Hrow. rewrite !elem_of_cons, elem_of_nil in Hrow.
  destruct Hrow as [->|[->|[->|[->|[]]]]]; vm_compute; reflexivity.
Defined.

Lemma pages_partition_witness :
  total_pages (length some_rows) 3 = 2 ∧
  concat (map (λ p, paginate some_rows p 3) (seq 0 2)) = some_rows.
Proof.
  split; [reflexivity|]. refine (proj1 (pages_partition some_rows 3 _)). lia.
Defined.

Definition demo_env : table_env := mkTableEnv "people" some_rows.

Definition print_gset (s : gset string) : string := bits (encode (elements s)).
Definition parse_gset (t : string) : option (gset string) :=
  list_to_set <$> decode (A := list string) (unbits t).

Lemma print_parse_gset s : parse_gset (print_gset s) = Some s.
Proof.
  unfold parse_gset, print_gset. rewrite unbits_bits, decode_encode. simpl. f_equal.
  apply set_eq. intros x. by rewrite elem_of_list_to_set, elem_of_elements.
Qed.

Definition clicks : list table_event :=
  [Search "A"; Header (shown "n" "N" SortNumeric); PageSize "50"; Next; ToggleCol "n"; ExportCsv].

Lemma table_consistent_witness :
  let st := table_run print_gset parse_gset (λ _, Ok "[]") demo_env (Some ∅) clicks in
  t_sort_dir st = Some Asc ∧ t_page_size st = 50 ∧
  load_hidden_cols parse_gset "people" columns (t_storage st) = t_hidden st.
Proof.
  pose proof (table_consistent print_gset parse_gset (λ _, Ok "[]") print_parse_gset demo_env
    (Some ∅) clicks) as Hc.
  split; [vm_compute; reflexivity|]. split; [vm_compute; reflexivity|].
  destruct (footer demo_env (table_run print_gset parse_gset (λ _, Ok "[]") demo_env (Some ∅) clicks))
    as [[start stop] n].
  apply Hc; [|done|done]. repeat constructor.
Defined.

Lemma csv_roundtrip_witness :
  csv_parse (export_csv some_rows columns) =
  ["Name"; "N"] :: map (λ r, [r.1; r.2]) some_rows.
Proof.
  refine (csv_roundtrip some_rows columns _ _ _); [done|..].
  - repeat constructor; apply (bool_decide_unpack _); vm_compute; done.
  - unfold some_rows, columns, demo_row.
    repeat first [apply Forall_nil_2|apply Forall_cons_2]; unfold csv_safe;
      apply (bool_decide_unpack _); vm_compute; done.
Defined.
End TablesDemo.
