(* ===== verification/Bubble.v ===== *)
(** * The chat panel of the console (daimon-app/src/components/chat_bubble.rs)

    The panel's signals as a state, and what each event does to it: a frame on the
    socket, the operator's clicks, the server functions' answers, which arrive later
    and in any order. The texts of ids and times are arguments; a frame that makes
    the handler panic has no next state. Markup is left out. *)

From S2P Require Import Prelude RustStd Json Gateway Llm.
From S2P Require Import Chat Ws Tables.
From Stdlib Require Import ZArith Ascii.

(** ** Data *)

Inductive TurnKind := KUser | KAssistant | KTool | KSystem.

#[export] Instance turn_kind_eq_dec : EqDecision TurnKind.
Proof. solve_decision. Defined.

Record UiTurn := mkUiTurn { ut_kind : TurnKind; ut_content : string }.

Record SessionMeta := mkSession { sm_id : string; sm_title : string; sm_created_at : Z }.

Definition LS_KEY : string := "daimon.chat.sessions".
Definition LS_CURRENT : string := "daimon.chat.current".

(** What the socket's frames decode to; a type the panel does not know is [Other]. *)
Inductive IncomingMsg :=
| InTokenDelta (agent_id session_id content_delta : string)
| InToolUse (agent_id session_id tool : string) (params : json)
| InToolResult (agent_id session_id tool output : string) (is_error : bool)
| InDone (agent_id session_id stop_reason : string) (input_tokens output_tokens : Z)
| InError (message : string)
| Other.

Definition decode_incoming (j : json) : option IncomingMsg :=
  req_str j "type" ≫= λ t,
  if string_eqb t "AgentTokenDelta" then
    decode_agent (λ a s, InTokenDelta a s <$> req_str j "content_delta") j
  else if string_eqb t "AgentToolUse" then
    decode_agent (λ a s, req_str j "tool" ≫= λ n, InToolUse a s n <$> jget j "params") j
  else if string_eqb t "AgentToolResult" then
    decode_agent (λ a s, req_str j "tool" ≫= λ n, req_str j "output" ≫= λ o,
      InToolResult a s n o <$> (jget j "is_error" ≫= as_bool)) j
  else if string_eqb t "AgentDone" then
    decode_agent (λ a s, req_str j "stop_reason" ≫= λ r, req_u32 j "input_tokens" ≫= λ i,
      InDone a s r i <$> req_u32 j "output_tokens") j
  else if string_eqb t "Error" then InError <$> req_str j "message"
  else Some Other.

(** [ChatSendMsg]: a model or an effort is written only when one is picked. *)
Definition send_json (session_id user_message : string) (model effort : option string) : json :=
  jobj ([("type", JString "ChatSend"); ("session_id", JString session_id);
         ("user_message", JString user_message)] ++
        match model with Some m => [("model", JString m)] | None => [] end ++
        match effort with Some e => [("effort", JString e)] | None => [] end).

(** [SessionMeta]'s derived serde. *)
Definition session_json (s : SessionMeta) : json :=
  jobj [("id", JString (sm_id s)); ("title", JString (sm_title s));
        ("created_at", JInt (sm_created_at s))].

Definition decode_session (j : json) : option SessionMeta :=
  on_object j (id ← req_field as_str j "id"; title ← req_field as_str j "title";
               at_ ← req_field as_i64 j "created_at"; Some (mkSession id title at_)).

Definition fresh_session (suffix : string) (now : Z) : SessionMeta :=
  mkSession ("sess-" +:+ suffix) "New chat" now.

(** [truncate_title]: the first line, up to 48 characters. *)
Definition truncate_title (s : string) : string :=
  let cleaned := chars_take 48 (default "" (hd_error (lines s))) in
  if string_eqb cleaned "" then "New chat" else cleaned.

(** ** State *)

Section Panel.
Context `{JsonText}.

Record bubble := mkBubble {
  b_turns : list UiTurn;
  b_input : string;
  b_status : string;
  b_busy : bool;
  b_sessions : list SessionMeta;
  b_current : string;
  b_selected_model : string;
  b_selected_effort : string;
  b_available_models : list string;
  (** What was handed to the socket, once there is one. *)
  b_socket : option (list string);
}.

Definition with_turns (ts : list UiTurn) (b : bubble) : bubble :=
  mkBubble ts (b_input b) (b_status b) (b_busy b) (b_sessions b) (b_current b)
    (b_selected_model b) (b_selected_effort b) (b_available_models b) (b_socket b).

Definition with_sessions (l : list SessionMeta) (cur : string) (b : bubble) : bubble :=
  mkBubble (b_turns b) (b_input b) (b_status b) (b_busy b) l cur
    (b_selected_model b) (b_selected_effort b) (b_available_models b) (b_socket b).

Definition with_status (status : string) (busy : bool) (b : bubble) : bubble :=
  mkBubble (b_turns b) (b_input b) status busy (b_sessions b) (b_current b)
    (b_selected_model b) (b_selected_effort b) (b_available_models b) (b_socket b).

(** Sessions from [localStorage], or a fresh one. *)
Definition stored_sessions (storage : gmap string string) : list SessionMeta :=
  default [] (storage !! LS_KEY ≫= λ t, ok (json_from_str t) ≫= decode_list decode_session).

Definition boot_sessions (suffix : string) (now : Z) (storage : option (gmap string string)) :
    list SessionMeta * string :=
  let fresh := fresh_session suffix now in
  match storage with
  | None => ([fresh], sm_id fresh)
  | Some m =>
      match stored_sessions m with
      | [] => ([fresh], sm_id fresh)
      | (first :: _) as loaded =>
          let current := default "" (m !! LS_CURRENT) in
          (loaded,
           if negb (string_eqb current "") && existsb (λ s, string_eqb (sm_id s) current) loaded
           then current else sm_id first)
      end
  end.

Definition boot (suffix : string) (now : Z) (storage : option (gmap string string)) : bubble :=
  let '(l, cur) := boot_sessions suffix now storage in
  mkBubble [] "" "connecting..." false l cur "" "" [] None.

(** The effect that stores the sessions when they change. *)
Definition persist (b : bubble) (storage : option (gmap string string)) :
    option (gmap string string) :=
  (λ m, <[LS_CURRENT := b_current b]>
          (<[LS_KEY := json_to_string (JArray (map session_json (b_sessions b)))]> m)) <$> storage.

(** The list the server returned; an empty one is ignored. *)
Definition on_server_sessions (server : list (string * string)) (b : bubble) : bubble :=
  match map (λ s, mkSession s.1 s.2 0) server with
  | [] => b
  | (first :: _) as mapped =>
      with_sessions mapped
        (if existsb (λ m, string_eqb (sm_id m) (b_current b)) mapped then b_current b
         else sm_id first) b
  end.

(** *** Frames *)

(** A delta continues the last turn if it is the assistant's. *)
Fixpoint push_delta (d : string) (ts : list UiTurn) : list UiTurn :=
  match ts with
  | [] => [mkUiTurn KAssistant d]
  | [t] =>
      if decide (ut_kind t = KAssistant) then [mkUiTurn KAssistant (ut_content t +:+ d)]
      else [t; mkUiTurn KAssistant d]
  | t :: ts => t :: push_delta d ts
  end.

(** A result longer than 1200 bytes is cut there, which panics inside a character. *)
Definition tool_output (output : string) : option string :=
  if 1200 <? length (bytes output) then (λ s, s +:+ "…") <$> str_slice 0 1200 output
  else Some output.

(** [list.iter_mut().find]: the first session under the id. *)
Fixpoint update_first (p : SessionMeta → bool) (f : SessionMeta → SessionMeta)
    (l : list SessionMeta) : list SessionMeta :=
  match l with
  | [] => []
  | s :: l => if p s then f s :: l else s :: update_first p f l
  end.

Definition name_session (ts : list UiTurn) (s : SessionMeta) : SessionMeta :=
  if string_eqb (sm_title s) "New chat" then
    match find (λ t, bool_decide (ut_kind t = KUser)) ts with
    | Some t => mkSession (sm_id s) (truncate_title (ut_content t)) (sm_created_at s)
    | None => s
    end
  else s.

Definition push (k : TurnKind) (content : string) (b : bubble) : bubble :=
  with_turns (b_turns b ++ [mkUiTurn k content]) b.

Definition on_message (m : IncomingMsg) (b : bubble) : option bubble :=
  match m with
  | InTokenDelta _ _ d => Some (with_turns (push_delta d (b_turns b)) b)
  | InToolUse _ _ tool params =>
      Some (push KTool ("calling " +:+ tool +:+ " with " +:+ json_to_string params) b)
  | InToolResult _ _ tool output is_error =>
      body ← tool_output output;
      Some (push KTool ((if is_error then "✗" else "✓") +:+ " " +:+ tool +:+
        String "010" body) b)
  | InDone _ _ _ i o =>
      let b := with_status ("done · " +:+ show_Z i +:+ " in / " +:+ show_Z o +:+ " out") false b in
      Some (with_sessions
        (update_first (λ s, string_eqb (sm_id s) (b_current b)) (name_session (b_turns b))
           (b_sessions b)) (b_current b) b)
  | InError e =>
      let b := push KSystem ("error: " +:+ e) b in Some (with_status (b_status b) false b)
  | Other => Some b
  end.

(** A frame that does not decode is ignored. *)
Definition on_frame (text : string) (b : bubble) : option bubble :=
  match ok (json_from_str text) ≫= of_object decode_incoming with
  | Some m => on_message m b
  | None => Some b
  end.

Fixpoint on_frames (texts : list string) (b : bubble) : option bubble :=
  match texts with
  | [] => Some b
  | t :: texts => on_frame t b ≫= on_frames texts
  end.

(** *** The operator *)

Definition switch_start (id : string) (b : bubble) : bubble :=
  with_turns [] (with_sessions (b_sessions b) id b).

Definition role_kind (role : string) : TurnKind :=
  if string_eqb role "user" then KUser
  else if string_eqb role "assistant" then KAssistant
  else if string_eqb role "tool" then KTool
  else KSystem.

(** The history arrives, for whichever session it was asked. *)
Definition switch_loaded (r : result string (list (string * string))) (b : bubble) : bubble :=
  match r with
  | Ok history => with_turns (map (λ t, mkUiTurn (role_kind t.1) t.2) history) b
  | Err e => push KSystem ("load history error: " +:+ e) b
  end.

Definition new_chat (suffix : string) (now : Z) (b : bubble) : bubble :=
  let fresh := fresh_session suffix now in
  with_turns [] (with_sessions (fresh :: b_sessions b) (sm_id fresh) b).

(** After the server answered, whatever it answered. *)
Definition delete_done (id suffix : string) (now : Z) (b : bubble) : bubble :=
  let l := List.filter (λ s, negb (string_eqb (sm_id s) id)) (b_sessions b) in
  if string_eqb (b_current b) id then
    with_turns []
      (match l with
       | s :: _ => with_sessions l (sm_id s) b
       | [] => let fresh := fresh_session suffix now in with_sessions [fresh] (sm_id fresh) b
       end)
  else with_sessions l (b_current b) b.

Definition pick (v : string) : option string := if string_eqb v "" then None else Some v.

(** The outcome of the socket's send is ignored. *)
Definition panel_send (b : bubble) : bubble :=
  let text := trim (b_input b) in
  if string_eqb text "" then b
  else
    let turns := b_turns b ++ [mkUiTurn KUser text; mkUiTurn KAssistant ""] in
    let sent := (λ l, l ++ [json_to_string (send_json (b_current b) text
      (pick (b_selected_model b)) (pick (b_selected_effort b)))]) <$> b_socket b in
    mkBubble turns "" (b_status b) (match b_socket b with Some _ => true | None => false end)
      (b_sessions b) (b_current b) (b_selected_model b) (b_selected_effort b)
      (b_available_models b) sent.

Definition socket_event (status : string) (b : bubble) : bubble :=
  with_status status (b_busy b) b.

Definition current_title (b : bubble) : string :=
  match find (λ s, string_eqb (sm_id s) (b_current b)) (b_sessions b) with
  | Some s => sm_title s
  | None => "New chat"
  end.

(** *** Runs *)

Inductive panel_event :=
| EFrame (text : string)
| ESocket (status : string)
| EConnected
| EServerSessions (server : list (string * string))
| EModels (l : list string)
| ESwitch (id : string)
| ELoaded (r : result string (list (string * string)))
| ENew (suffix : string) (now : Z)
| EDeleted (id suffix : string) (now : Z)
| EInput (text : string)
| EModel (m : string)
| EEffort (e : string)
| ESend.

(** A session is switched to from the list on the screen. *)
Definition panel_step (b : bubble) (ev : panel_event) : option bubble :=
  match ev with
  | EFrame text => on_frame text b
  | ESocket status => Some (socket_event status b)
  | EConnected =>
      Some (mkBubble (b_turns b) (b_input b) (b_status b) (b_busy b) (b_sessions b) (b_current b)
        (b_selected_model b) (b_selected_effort b) (b_available_models b) (Some []))
  | EServerSessions server => Some (on_server_sessions server b)
  | EModels l =>
      Some (mkBubble (b_turns b) (b_input b) (b_status b) (b_busy b) (b_sessions b) (b_current b)
        (b_selected_model b) (b_selected_effort b) l (b_socket b))
  | ESwitch id =>
      Some (if existsb (λ s, string_eqb (sm_id s) id) (b_sessions b) then switch_start id b else b)
  | ELoaded r => Some (switch_loaded r b)
  | ENew suffix now => Some (new_chat suffix now b)
  | EDeleted id suffix now => Some (delete_done id suffix now b)
  | EInput text =>
      Some (mkBubble (b_turns b) text (b_status b) (b_busy b) (b_sessions b) (b_current b)
        (b_selected_model b) (b_selected_effort b) (b_available_models b) (b_socket b))
  | EModel m =>
      Some (mkBubble (b_turns b) (b_input b) (b_status b) (b_busy b) (b_sessions b) (b_current b)
        m (b_selected_effort b) (b_available_models b) (b_socket b))
  | EEffort e =>
      Some (mkBubble (b_turns b) (b_input b) (b_status b) (b_busy b) (b_sessions b) (b_current b)
        (b_selected_model b) e (b_available_models b) (b_socket b))
  | ESend => Some (panel_send b)
  end.

Fixpoint panel_run (evs : list panel_event) (b : bubble) : option bubble :=
  match evs with
  | [] => Some b
  | ev :: evs => panel_step b ev ≫= panel_run evs
  end.

(** ** The current session *)

Definition current_listed (b : bubble) : Prop := ∃ s, s ∈ b_sessions b ∧ sm_id s = b_current b.

Lemma existsb_session id l :
  existsb (λ s, string_eqb (sm_id s) id) l = true → ∃ s, s ∈ l ∧ sm_id s = id.
Proof. intros (s & Hs & Hid)%existsb_elem. apply string_eqb_eq in Hid. eauto. Qed.

Lemma boot_listed suffix now storage : current_listed (boot suffix now storage).
Proof.
  assert (∀ fresh : SessionMeta, ∃ s, s ∈ [fresh] ∧ sm_id s = sm_id fresh) as Hf
    by (intros f; exists f; split; [left|done]).
  unfold boot, boot_sessions, current_listed. destruct storage as [m|]; [|apply Hf].
  destruct (stored_sessions m) as [|first l]; cbn -[existsb]; [apply Hf|].
  destruct (negb _ && _) eqn:Hc.
  - apply andb_true_iff in Hc as [_ Hc]. apply (existsb_session _ (first :: l)) in Hc. exact Hc.
  - exists first. split; [left|done].
Qed.

Lemma update_first_id p f l :
  (∀ s, sm_id (f s) = sm_id s) → sm_id <$> update_first p f l = sm_id <$> l.
Proof.
  intros Hf. induction l as [|s l IH]; [done|]. cbn [update_first].
  destruct (p s); rewrite !fmap_cons; by rewrite ?Hf, ?IH.
Qed.

Lemma name_session_id ts s : sm_id (name_session ts s) = sm_id s.
Proof. unfold name_session. destruct (string_eqb _ _); [|done]. by destruct (find _ ts). Qed.

Lemma listed_ids b b' :
  sm_id <$> b_sessions b' = sm_id <$> b_sessions b → b_current b' = b_current b →
  current_listed b → current_listed b'.
Proof.
  intros Hl Hc (s & Hs & Hid). apply (list_elem_of_fmap_2 sm_id) in Hs. rewrite <- Hl in Hs.
  apply list_elem_of_fmap in Hs as (s' & Heq & Hs'). exists s'. split; [done|]. congruence.
Qed.

Lemma on_message_sessions m b b' :
  on_message m b = Some b' →
  sm_id <$> b_sessions b' = sm_id <$> b_sessions b ∧ b_current b' = b_current b.
Proof.
  destruct m; simpl; intros Hm; simplify_eq; try done.
  - by apply bind_Some in Hm as (body & _ & Hm); simplify_eq.
  - split; [|done]. simpl. apply update_first_id, name_session_id.
Qed.

Lemma panel_step_listed ev b b' :
  panel_step b ev = Some b' → current_listed b → current_listed b'.
Proof.
  intros Hstep Hb. destruct ev as [text|st| |server|l|id|r|sx now|id sx now|t|m|e| ];
    simpl in Hstep; simplify_eq; try done.
  - unfold on_frame in Hstep. destruct (_ ≫= _) as [m|]; [|by simplify_eq].
    destruct (on_message_sessions m b b' Hstep) as [Hl Hc]. by eapply listed_ids.
  - unfold on_server_sessions. destruct (map _ server) as [|first l]; [done|].
    unfold current_listed; cbn -[existsb].
    destruct (existsb _ (first :: l)) eqn:He; [by apply (existsb_session _ (first :: l))|].
    exists first. split; [left|done].
  - destruct (existsb _ _) eqn:He; [|done]. by apply existsb_session in He.
  - by destruct r.
  - exists (fresh_session sx now). split; [left|done].
  - unfold delete_done. destruct (string_eqb (b_current b) id) eqn:Hid.
    + destruct (List.filter _ _) as [|s l] eqn:Hl; [exists (fresh_session sx now)|exists s];
        (split; [left|done]).
    + destruct Hb as (s & Hs & Hc). exists s. split; [|done]. simpl.
      apply list_elem_of_In, filter_In. split; [by apply list_elem_of_In|].
      by rewrite Hc, Hid.
  - unfold panel_send. by destruct (string_eqb _ _).
Qed.

(** The panel's current session is one it lists. Over every order of frames, answers
    of the server, new chats, switches and deletions, from any stored state, the session
    messages are sent under is in the session list. *)
Theorem current_session_listed suffix now storage evs b :
  panel_run evs (boot suffix now storage) = Some b →
  ∃ s, s ∈ b_sessions b ∧ sm_id s = b_current b.
Proof.
  pose proof (boot_listed suffix now storage) as Hl. revert Hl.
  generalize (boot suffix now storage). induction evs as [|ev evs IH]; simpl; intros b0 Hb Hrun.
  { by simplify_eq. }
  apply bind_Some in Hrun as (b1 & Hs & Hrun). eapply IH; [|exact Hrun]. by eapply panel_step_listed.
Qed.

(** ** A turn on the screen *)

Definition spoken (ts : list UiTurn) : string :=
  string_concat (map ut_content (List.filter (λ t, bool_decide (ut_kind t = KAssistant)) ts)).

Definition delta_of (e : TurnEvent) : string :=
  match e with TokenDelta _ d => d | _ => "" end.

Definition ends_turn (e : TurnEvent) : bool :=
  match e with Done _ _ _ _ | TurnError _ => true | _ => false end.

(** A result that is short, or may be cut at byte 1200. *)
Definition showable (e : TurnEvent) : Prop :=
  match e with
  | ToolUse _ _ params => json_plain 126 params = true
  | ToolResult _ _ o _ => length (bytes o) ≤ 1200 ∨ char_boundary o 1200 = true
  | Done _ _ i o => (0 ≤ i < 2^32 ∧ 0 ≤ o < 2^32)%Z
  | _ => True
  end.

Lemma string_concat_app l l' : string_concat (l ++ l') = string_concat l +:+ string_concat l'.
Proof. induction l as [|s l IH]; simpl; [done|]. by rewrite IH, string_app_assoc. Qed.

Lemma spoken_app ts ts' : spoken (ts ++ ts') = spoken ts +:+ spoken ts'.
Proof. unfold spoken. by rewrite List.filter_app, map_app, string_concat_app. Qed.

Lemma spoken_push_delta d ts : spoken (push_delta d ts) = spoken ts +:+ d.
Proof.
  induction ts as [|t ts IH]; [apply string_app_nil_r|].
  destruct ts as [|t' ts].
  - unfold spoken. cbn [push_delta]. destruct (decide (ut_kind t = KAssistant)) as [Ha|Ha]; simpl.
    + rewrite bool_decide_true by done. simpl. by rewrite !string_app_nil_r.
    + rewrite bool_decide_false by done. simpl. by rewrite string_app_nil_r.
  - change (push_delta d (t :: t' :: ts)) with ([t] ++ push_delta d (t' :: ts)).
    change (t :: t' :: ts) with ([t] ++ t' :: ts). by rewrite !spoken_app, IH, string_app_assoc.
Qed.

Lemma spoken_push k content b :
  k ≠ KAssistant → spoken (b_turns (push k content b)) = spoken (b_turns b).
Proof.
  intros Hk. unfold push; simpl. rewrite spoken_app. unfold spoken at 2; simpl.
  rewrite bool_decide_false by done. apply string_app_nil_r.
Qed.
End Panel.

Section Socket.
Context `{JsonTextLaws}.

(** Every frame of the server decodes to the panel's message of the same content. *)
Lemma decode_incoming_event e :
  showable e →
  of_object decode_incoming (server_json (ws_message e)) =
  Some (match e with
        | TokenDelta s d => InTokenDelta "chat" s d
        | ToolUse s t p => InToolUse "chat" s t p
        | ToolResult s t o e => InToolResult "chat" s t o e
        | Done s r i o => InDone "chat" s r i o
        | TurnError m => InError m
        end).
Proof.
  destruct e as [| | |s r i o|]; intros He; try done. destruct He as [Hi Ho].
  lazy -[as_u32]. by rewrite !as_u32_ok.
Qed.

Lemma tool_output_showable o :
  length (bytes o) ≤ 1200 ∨ char_boundary o 1200 = true → is_Some (tool_output o).
Proof.
  unfold tool_output. intros Ho. destruct (Nat.ltb_spec 1200 (length (bytes o))) as [Hlt|]; [|by eexists].
  destruct Ho as [Ho|Ho]; [lia|]. unfold str_slice. rewrite Ho. by eexists.
Qed.

(** The frames' texts read back. *)
Lemma event_plain e : showable e → json_plain MAX_DEPTH (server_json (ws_message e)) = true.
Proof.
  intros He. unfold MAX_DEPTH. destruct e as [s d|s t p|s t o err|s r i o|m];
    cbn [ws_message server_json]; apply plain_jobj; cbn [app forallb snd].
  1,3,5: reflexivity.
  - cbn [showable] in He. rewrite He. reflexivity.
  - cbn [showable] in He. destruct He as [Hi Ho]. rewrite !plain_int by lia. reflexivity.
Qed.

Lemma plain_array d l : forallb (json_plain d) l = true → json_plain (S d) (JArray l) = true.
Proof. intros Hl. exact Hl. Qed.

Lemma sessions_plain l :
  Forall (λ s, -2^63 ≤ sm_created_at s < 2^63)%Z l →
  json_plain MAX_DEPTH (JArray (map session_json l)) = true.
Proof.
  intros Hl. unfold MAX_DEPTH. apply plain_array, forallb_elem.
  intros j (s & -> & Hs)%list_elem_of_fmap. rewrite Forall_forall in Hl. specialize (Hl s Hs).
  apply plain_jobj. cbn [forallb snd].
  rewrite plain_int by lia. reflexivity.
Qed.

(** One event on the screen. *)
Lemma on_event e b :
  showable e → ∃ b', on_frame (wire e) b = Some b' ∧
    spoken (b_turns b') = spoken (b_turns b) +:+ delta_of e ∧
    b_busy b' = (if ends_turn e then false else b_busy b) ∧ b_current b' = b_current b.
Proof.
  intros He. unfold on_frame, wire. rewrite json_text_roundtrip by (by apply event_plain).
  cbn [ok mbind option_bind].
  rewrite (decode_incoming_event e He).
  destruct e as [s d|s t p|s t o err|s r i o|m]; cbn [on_message delta_of ends_turn].
  - eexists. split; [done|]. split; [apply spoken_push_delta|done].
  - eexists. split; [done|]. rewrite spoken_push by done. by rewrite string_app_nil_r.
  - destruct (tool_output_showable o He) as [body ->]. eexists. split; [done|].
    rewrite spoken_push by done. by rewrite string_app_nil_r.
  - eexists. split; [done|]. by rewrite string_app_nil_r.
  - eexists. split; [done|]. split; [|done]. rewrite string_app_nil_r.
    exact (spoken_push KSystem ("error: " +:+ m) b ltac:(done)).
Qed.

(** A turn reaches the screen. The frames of a turn's events, whose results can be
    cut, are all handled; what the assistant says on the screen grows by exactly the
    text of the deltas, in order, and the panel is idle once the turn ended. *)
Theorem panel_shows_turn events b :
  Forall showable events →
  ∃ b', on_frames (map wire events) b = Some b' ∧
    spoken (b_turns b') = spoken (b_turns b) +:+ string_concat (map delta_of events) ∧
    b_busy b' = (if existsb ends_turn events then false else b_busy b) ∧
    b_current b' = b_current b.
Proof.
  intros Hall. revert b. induction Hall as [|e events He _ IH]; intros b.
  { exists b. by rewrite string_app_nil_r. }
  destruct (on_event e b He) as (b1 & Hf & Hs & Hb & Hc).
  destruct (IH b1) as (b' & Hr & Hs' & Hb' & Hc'). exists b'. simpl. rewrite Hf. simpl.
  split; [done|]. rewrite Hs', Hs, <- string_app_assoc. split; [done|].
  rewrite Hb', Hb, Hc', Hc. split; [|done]. by destruct (ends_turn e), (existsb ends_turn events).
Qed.

(** What the panel sends is the server's [ChatSend], under the current session, with the
    picks of the operator. *)
Lemma panel_send_decodes b l :
  b_socket b = Some l → trim (b_input b) ≠ "" →
  ∃ text, b_socket (panel_send b) = Some (l ++ [text]) ∧
    from_text decode_client text = Some (ChatSend (b_current b) (trim (b_input b))
      (pick (b_selected_model b)) (pick (b_selected_effort b))) ∧
    b_busy (panel_send b) = true.
Proof.
  intros Hl Ht. unfold panel_send. rewrite (proj2 (string_eqb_neq _ _) Ht), Hl.
  eexists. split; [done|]. split; [|done]. unfold from_text.
  rewrite json_text_roundtrip by (unfold MAX_DEPTH; apply plain_jobj; unfold pick; by repeat case_match).
  unfold pick. by destruct (string_eqb (b_selected_model b) ""), (string_eqb (b_selected_effort b) "").
Qed.

(** Booting from what was stored restores the sessions and the choice. *)
Lemma boot_restores suffix now b m :
  current_listed b → b_current b ≠ "" →
  Forall (λ s, -2^63 ≤ sm_created_at s < 2^63)%Z (b_sessions b) →
  boot_sessions suffix now (persist b (Some m)) = (b_sessions b, b_current b).
Proof.
  intros (s & Hs & Hid) Hne Hat. unfold boot_sessions, persist. cbn [fmap option_fmap option_map].
  assert (stored_sessions (<[LS_CURRENT := b_current b]>
    (<[LS_KEY := json_to_string (JArray (map session_json (b_sessions b)))]> m)) = b_sessions b) as ->.
  { unfold stored_sessions. rewrite lookup_insert_ne, lookup_insert_eq by done. simpl.
    rewrite json_text_roundtrip by (by apply sessions_plain). simpl. clear s Hs Hid. unfold decode_list.
    assert (mapM decode_session (map session_json (b_sessions b)) = Some (b_sessions b)) as ->; [|done].
    induction Hat as [|[id title at_] l Hx _ IH]; [done|]. cbn [map mapM].
    assert (decode_session (session_json (mkSession id title at_)) = Some (mkSession id title at_)) as ->.
    { lazy -[as_i64]. simpl in Hx. unfold as_i64.
      rewrite (proj2 (Z.leb_le _ _)), (proj2 (Z.ltb_lt _ _)) by lia. done. }
    cbn [mbind option_bind]. by rewrite IH. }
  rewrite lookup_insert_eq. cbn [from_option id]. rewrite (proj2 (string_eqb_neq _ _) Hne).
  cbn [negb andb].
  destruct (b_sessions b) as [|first l] eqn:Hl; [by apply elem_of_nil in Hs|].
  assert (existsb (λ s, string_eqb (sm_id s) (b_current b)) (first :: l) = true) as ->; [|done].
  apply existsb_elem. exists s. split; [done|]. by apply string_eqb_eq.
Qed.

(** A long result that has a character across byte 1200 stops the panel. *)
Lemma long_result_panics b :
  on_message (InToolResult "chat" "s" "t" (string_of_bytes (repeat "a"%char 1199 ++ bytes "éé")) false) b
  = None.
Proof. reflexivity. Qed.

(** A history that arrives late is shown under whichever session is current then. *)
Lemma late_history_shown b :
  let b2 := switch_loaded (Ok [("user", "of a")]) (switch_start "b" (switch_start "a" b)) in
  b_current b2 = "b" ∧ b_turns b2 = [mkUiTurn KUser "of a"].
Proof. done. Qed.

(** A turn of a session that is no longer current is shown in the current one. *)
Lemma other_session_shown b d :
  (on_message (InTokenDelta "chat" "a" d) (switch_start "b" b)) =
  Some (with_turns [mkUiTurn KAssistant d] (switch_start "b" b)).
Proof. done. Qed.

(** After the socket closed a message leaves the panel busy: nothing but a frame ends it. *)
Lemma closed_socket_stays_busy b l :
  b_socket b = Some l → trim (b_input b) ≠ "" →
  b_busy (panel_send (socket_event "disconnected" b)) = true.
Proof.
  intros Hl Ht. unfold panel_send. simpl. by rewrite (proj2 (string_eqb_neq _ _) Ht), Hl.
Qed.
End Socket.

(** ** Witnesses *)

Module BubbleDemo.
#[export] Existing Instance demo_json_text.
#[export] Existing Instance demo_json_laws.

Definition panel_events : list panel_event :=
  [EConnected; ESocket "ready"; EInput "list interfaces"; ESend;
   EFrame (wire (TokenDelta "sess-1" "One.")); EFrame (wire (Done "sess-1" "end_turn" 10 2));
   ENew "2" 7; EDeleted "sess-2" "3" 8; ESwitch "sess-1"; ELoaded (Err "gone")].

Lemma current_session_listed_witness :
  ∃ b, panel_run panel_events (boot "1" 5 None) = Some b ∧
    b_current b = "sess-1" ∧ current_title b = "list interfaces" ∧
    ∃ s, s ∈ b_sessions b ∧ sm_id s = b_current b.
Proof.
  eexists. split; [vm_compute; reflexivity|]. split; [reflexivity|]. split; [reflexivity|].
  refine (current_session_listed "1" 5 None panel_events _ _). vm_compute. reflexivity.
Defined.

Definition turn_events : list TurnEvent :=
  [ToolUse "s" "fw.list" JNull; ToolResult "s" "fw.list" "ok" false; TokenDelta "s" "Two ";
   TokenDelta "s" "rules."; Done "s" "end_turn" 10 2].

Lemma panel_shows_turn_witness :
  ∃ b', on_frames (map wire turn_events) (boot "1" 5 None) = Some b' ∧
    spoken (b_turns b') = "Two rules." ∧ b_busy b' = false ∧ b_current b' = "sess-1".
Proof.
  refine (panel_shows_turn turn_events (boot "1" 5 None) _).
  repeat first [apply Forall_nil_2|apply Forall_cons_2]; simpl; try done; left; lia.
Defined.
End BubbleDemo.
