(* ===== verification/Listings.v ===== *)
(** * daimon-app: the console's views
    ([daimon-app/src/admin_audit.rs], [admin_observer.rs], [admin_memory.rs],
    [admin_plans.rs], the listing of [admin_approvals.rs], the plan chart of
    [pages/dashboard.rs])

    The server functions that show the audit log, alerts, anomalies, metrics, memory,
    plans and pending approvals, each behind the administrator check. HTTP, texts of
    times, Unicode lower case and hashing are parameters. *)

From stdpp Require Import sorting.
From S2P Require Import Prelude RustStd Json Core KillSwitch Policy Approvals Guard.
From S2P Require Import Channels Inventory AuditLog Broker Admin AuditChain Memory.
From S2P Require Import HotMemory AppDb Iam Config Console Observer Runtime.
From S2P Require Import Orchestrator Chat Graph Tables.
From Stdlib Require Import ZArith Ascii QArith SpecFloat.

Local Open Scope Z_scope.

(** ** The audit view's wire types *)

Inductive ActionKindDto :=
| DBrokerExecute | DVaultResolve | DVaultReveal | DVaultCreate | DVaultUpdate
| DVaultRename | DVaultDelete | DInventoryUpsert | DInventoryRemove | DInventoryResolve
| DTransportDispatch | DGuardApprove | DGuardDeny | DMemoryIngest | DMemoryRetrieve
| DMemoryWrite | DOther.

Definition action_label (k : ActionKindDto) : string :=
  match k with
  | DBrokerExecute => "broker.execute"
  | DVaultResolve => "vault.resolve"
  | DVaultReveal => "vault.reveal"
  | DVaultCreate => "vault.create"
  | DVaultUpdate => "vault.update"
  | DVaultRename => "vault.rename"
  | DVaultDelete => "vault.delete"
  | DInventoryUpsert => "inventory.upsert"
  | DInventoryRemove => "inventory.remove"
  | DInventoryResolve => "inventory.resolve"
  | DTransportDispatch => "transport.dispatch"
  | DGuardApprove => "guard.approve"
  | DGuardDeny => "guard.deny"
  | DMemoryIngest => "memory.ingest"
  | DMemoryRetrieve => "memory.retrieve"
  | DMemoryWrite => "memory.write"
  | DOther => "other"
  end.

Definition all_actions : list ActionKindDto :=
  [DBrokerExecute; DVaultResolve; DVaultReveal; DVaultCreate; DVaultUpdate; DVaultRename;
   DVaultDelete; DInventoryUpsert; DInventoryRemove; DInventoryResolve; DTransportDispatch;
   DGuardApprove; DGuardDeny; DMemoryIngest; DMemoryRetrieve; DMemoryWrite; DOther].

Definition action_to_dto (k : ActionKind) : ActionKindDto :=
  match k with
  | BrokerExecute => DBrokerExecute
  | VaultResolve => DVaultResolve
  | VaultReveal => DVaultReveal
  | VaultCreate => DVaultCreate
  | VaultUpdate => DVaultUpdate
  | VaultRename => DVaultRename
  | VaultDelete => DVaultDelete
  | InventoryUpsert => DInventoryUpsert
  | InventoryRemove => DInventoryRemove
  | InventoryResolve => DInventoryResolve
  | TransportDispatch => DTransportDispatch
  | GuardApprove => DGuardApprove
  | GuardDeny => DGuardDeny
  | MemoryIngest => DMemoryIngest
  | MemoryRetrieve => DMemoryRetrieve
  | MemoryWrite => DMemoryWrite
  | ActionOther => DOther
  end.

Definition dto_to_action (k : ActionKindDto) : ActionKind :=
  match k with
  | DBrokerExecute => BrokerExecute
  | DVaultResolve => VaultResolve
  | DVaultReveal => VaultReveal
  | DVaultCreate => VaultCreate
  | DVaultUpdate => VaultUpdate
  | DVaultRename => VaultRename
  | DVaultDelete => VaultDelete
  | DInventoryUpsert => InventoryUpsert
  | DInventoryRemove => InventoryRemove
  | DInventoryResolve => InventoryResolve
  | DTransportDispatch => TransportDispatch
  | DGuardApprove => GuardApprove
  | DGuardDeny => GuardDeny
  | DMemoryIngest => MemoryIngest
  | DMemoryRetrieve => MemoryRetrieve
  | DMemoryWrite => MemoryWrite
  | DOther => ActionOther
  end.

Inductive AuditResultDto := DSuccess | DError | DDenied.

Definition result_label (r : AuditResultDto) : string :=
  match r with DSuccess => "success" | DError => "error" | DDenied => "denied" end.

Definition result_to_dto (r : AuditResult) : AuditResultDto :=
  match r with ASuccess => DSuccess | AError => DError | ADenied => DDenied end.

Definition dto_to_result (r : AuditResultDto) : AuditResult :=
  match r with DSuccess => ASuccess | DError => AError | DDenied => ADenied end.

Record AuditFilterDto := mkFilterDto {
  fd_actor_id : option string;
  fd_action : option ActionKindDto;
  fd_target_ref : option string;
  fd_result : option AuditResultDto;
  fd_since_epoch_s : option Z;
  fd_until_epoch_s : option Z;
}.

Record AuditEventRow := mkEventRow {
  er_id : Uuid;
  er_ts_rfc3339 : string;
  er_actor_id : string;
  er_action : ActionKindDto;
  er_target_ref : option string;
  er_credential_ref : option string;
  er_op_summary : option string;
  er_result : AuditResultDto;
  er_latency_ms : option Z;
  er_metadata : gmap string string;
}.

(** [DateTime::from_timestamp]: the time in microseconds of a count of seconds, where a
    [DateTime] can hold it; and [to_rfc3339] of a time and of a Unix time in a double. *)
Class Chrono := {
  from_timestamp : Z → option Z;
  to_rfc3339 : Z → string;
  rfc3339_of_unix : float64 → string;
  from_timestamp_exact secs t : from_timestamp secs = Some t → t = secs * 1000000;
}.

Definition filter_text (o : option string) : option string :=
  match o with Some s => if string_eqb s "" then None else Some s | None => None end.

Definition dto_to_filter `{Chrono} (d : AuditFilterDto) : AuditFilter :=
  mkFilter (filter_text (fd_actor_id d)) (dto_to_action <$> fd_action d)
    (filter_text (fd_target_ref d)) (dto_to_result <$> fd_result d)
    (fd_since_epoch_s d ≫= from_timestamp) (fd_until_epoch_s d ≫= from_timestamp).

(** ** Wire types of the other views *)

(** The columns of [observer.anomalies] that a view shows beside the row. *)
Record stored_anomaly := mkStored {
  sa_row : AnomalyRow; sa_detected_at : Z; sa_resolved_at : option Z }.

Record AnomalyView := mkAnomalyView {
  av_id : string; av_detected_at : string; av_source : string; av_source_id : string;
  av_severity : string; av_title : string; av_description : option string;
  av_metric_name : option string; av_metric_value : option float64;
  av_threshold : option float64; av_resolved : bool;
}.

Record AlertDeliveryRow := mkDeliveryRow {
  ad_alert_class : string; ad_severity : option string; ad_signature : string;
  ad_channel : string; ad_recipient : string; ad_status : string; ad_detail : option string;
  ad_created_at : string;
}.

Record MetricSummaryRow := mkSummaryRow {
  ms_source : string; ms_source_id : string; ms_name : string; ms_last_value : float64;
  ms_last_ts : string; ms_sample_count : Z;
}.

Record PlanView := mkPlanView {
  pv_id : string; pv_intent : string; pv_status : string; pv_created_at : string;
  pv_finished_at : option string;
}.

Record StepView := mkStepView {
  sv_id : string; sv_step_index : Z; sv_capability_name : string; sv_target_ref : option string;
  sv_depends_on : list string; sv_status : string; sv_result_summary : option string;
}.

Record BlastRadiusItem := mkBlastItem {
  bi_kind : string; bi_id : string; bi_label : string; bi_depth : Z }.

Record ApprovalView := mkApprovalView {
  pa_id : string; pa_actor_id : string; pa_capability : string; pa_target_ref : option string;
  pa_params_pretty : string; pa_created_at : string; pa_blast_radius : list BlastRadiusItem;
}.

Record SearchHit := mkHit {
  sh_id : Z; sh_score : Q; sh_source_id : string; sh_source_kind : string; sh_chunk_index : Z;
  sh_text : string;
}.

(** [format!("{:?}", status).to_lowercase()]. *)
Definition plan_status_debug (s : PlanStatus) : string :=
  match s with
  | Planning => "planning"
  | AwaitingApproval => "awaitingapproval"
  | Executing => "executing"
  | PSucceeded => "succeeded"
  | PFailed => "failed"
  | Cancelled => "cancelled"
  | RolledBack => "rolledback"
  end.

Definition step_status_debug (s : StepStatus) : string := step_status_as_str s.

(** ** The server functions *)

(** VictoriaMetrics over HTTP: a GET with its query, whose answer has a status and a
    body that reads as JSON or not; the text of a refused status. *)
Class VmHttp (W : Type) := {
  vm_get : string → list (string * string) → io W string (Z * result string json);
  vm_status_error : Z → string;
}.

Section Views.
Context `{SemVerOrder} {I V D M : Type} `{Inventory I} `{VaultAdmin V} `{WorkingMemory M}.
Context `{PgMessages} `{Jwt} `{Bcrypt} `{HashOrder RegistryEntry} {X : Type} `{!BusDispatcher X}.
Context `{Sha256} `{PgText} `{JsonText} `{Chrono} `{F64Text} `{UuidParse} `{LowerCase}.
Context {T MW : Type} `{!MemoryService T MW} {GW : Type} `{!GraphHttp GW} {HW : Type} `{!VmHttp HW}.
(** The uuid parser with its error text, environment lookup, the pretty printer, the
    hash of a text in hexadecimal, and audit errors' texts. *)
Context (parse_uuid : string → result string Uuid) (env : string → option string).
Context (to_string_pretty : json → string) (hash_hex : string → string).
Context (show_audit_error : AuditError → string).
Abbreviation appw := (app (@bworld _ I V D) M).
Abbreviation ow := (@oworld _ X).
Abbreviation state := (AppState (D := D)).

(** The application and the services its views read. *)
Record viewsw := mkViews {
  vw_app : appw;
  vw_orch : ow;
  vw_audit : pgaudit;
  vw_mem : MW;
  vw_graph : GW;
  vw_vm : HW;
  vw_deliveries : list Delivery;
  vw_anomalies : list stored_anomaly;
}.
Abbreviation vio := (io viewsw string).

Definition on_vapp {A} (m : io appw string A) : vio A :=
  zoom vw_app (λ a w, mkViews a (vw_orch w) (vw_audit w) (vw_mem w) (vw_graph w) (vw_vm w)
    (vw_deliveries w) (vw_anomalies w)) m.
Definition on_vorch {A} (m : io ow OError A) : vio A :=
  io_map_err show_oerror (zoom vw_orch (λ o w, mkViews (vw_app w) o (vw_audit w) (vw_mem w)
    (vw_graph w) (vw_vm w) (vw_deliveries w) (vw_anomalies w)) m).
Definition on_vaudit {E A} (m : io pgaudit E A) : io viewsw E A :=
  zoom vw_audit (λ x w, mkViews (vw_app w) (vw_orch w) x (vw_mem w) (vw_graph w) (vw_vm w)
    (vw_deliveries w) (vw_anomalies w)) m.
Definition on_vmem {E A} (m : io MW E A) : io viewsw E A :=
  zoom vw_mem (λ x w, mkViews (vw_app w) (vw_orch w) (vw_audit w) x (vw_graph w) (vw_vm w)
    (vw_deliveries w) (vw_anomalies w)) m.
Definition on_vgraph {E A} (m : io GW E A) : io viewsw E A :=
  zoom vw_graph (λ x w, mkViews (vw_app w) (vw_orch w) (vw_audit w) (vw_mem w) x (vw_vm w)
    (vw_deliveries w) (vw_anomalies w)) m.
Definition on_vvm {E A} (m : io HW E A) : io viewsw E A :=
  zoom vw_vm (λ x w, mkViews (vw_app w) (vw_orch w) (vw_audit w) (vw_mem w) (vw_graph w) x
    (vw_deliveries w) (vw_anomalies w)) m.

(** *** [admin_audit.rs] *)

Definition event_to_row (e : AuditEvent) : AuditEventRow :=
  mkEventRow (AuditChain.ae_id e) (to_rfc3339 (AuditChain.ae_ts e)) (AuditChain.ae_actor_id e) (action_to_dto (AuditChain.ae_action e))
    (AuditChain.ae_target_ref e) (AuditChain.ae_credential_ref e) (AuditChain.ae_op_summary e) (result_to_dto (AuditChain.ae_result e))
    (AuditChain.ae_latency_ms e) (AuditChain.ae_metadata e).

(** [Broker::audit_query] and [audit_count]: the sink's answer, under the broker's error. *)
Definition broker_audit {A} (b : Broker (D := D)) (m : io pgaudit AuditError A) :
    io viewsw BrokerError A :=
  if br_audit b then io_map_err (λ e, BAudit (show_audit_error e)) (on_vaudit m)
  else throw (BAdminBackendNotAvailable "audit").

Definition list_audit_events (st : state) (req : request) (f : AuditFilterDto) (limit offset : Z) :
    vio (list AuditEventRow) :=
  on_vapp (require_admin st req) ≫= λ _ : Claims,
  io_map_err (λ e, "audit_query: " +:+ show_broker_error e)
    (broker_audit (st_broker st) (pg_audit_query (dto_to_filter f) limit offset)) ≫= λ events,
  mret (map event_to_row events).

Definition count_audit_events (st : state) (req : request) (f : AuditFilterDto) : vio Z :=
  on_vapp (require_admin st req) ≫= λ _ : Claims,
  io_map_err (λ e, "audit_count: " +:+ show_broker_error e)
    (broker_audit (st_broker st) (pg_audit_count (dto_to_filter f))).

(** *** [admin_observer.rs] *)

(** A connection and a query on a table the application shares with others. *)
Definition query_rows : vio unit :=
  on_vapp (fails "pool" (on_db pool_get)) ≫= λ _ : unit,
  on_vapp (fails "query" (on_db (select (λ _ _, tt)))).

Definition newest_delivery (x y : Delivery) : Prop := dl_created_at y ≤ dl_created_at x.
#[local] Instance newest_delivery_dec : RelDecision newest_delivery.
Proof. intros x y. unfold newest_delivery. apply _. Defined.

Definition newest_anomaly (x y : stored_anomaly) : Prop := sa_detected_at y ≤ sa_detected_at x.
#[local] Instance newest_anomaly_dec : RelDecision newest_anomaly.
Proof. intros x y. unfold newest_anomaly. apply _. Defined.

Definition delivery_row (d : Delivery) : AlertDeliveryRow :=
  mkDeliveryRow (dl_alert_class d) (dl_severity d) (dl_signature d) (dl_channel d)
    (dl_recipient d) (dl_status d) (dl_detail d) (to_rfc3339 (dl_created_at d)).

Definition list_alert_deliveries (st : state) (req : request) (limit : Z) :
    vio (list AlertDeliveryRow) :=
  on_vapp (require_admin st req) ≫= λ _ : Claims,
  query_rows ≫= λ _ : unit,
  gets (λ w, map delivery_row (take (Z.to_nat limit)
    (merge_sort newest_delivery (vw_deliveries w)))).

Definition anomaly_view (a : stored_anomaly) : AnomalyView :=
  let r := sa_row a in
  mkAnomalyView (aw_id r) (to_rfc3339 (sa_detected_at a)) (aw_source r) (aw_source_id r)
    (aw_severity r) (aw_title r) (aw_description r) (aw_metric_name r) (Some (aw_metric_value r))
    (Some (aw_threshold r)) (match sa_resolved_at a with Some _ => true | None => false end).

Definition list_anomalies (st : state) (req : request) (limit : Z) : vio (list AnomalyView) :=
  on_vapp (require_admin st req) ≫= λ _ : Claims,
  query_rows ≫= λ _ : unit,
  gets (λ w, map anomaly_view (take (Z.to_nat limit)
    (merge_sort newest_anomaly (vw_anomalies w)))).

(** The loop over the series: the distinct keys with a name, until there are [limit]. *)
Definition text_at (j : json) (k : string) : string := default "" (jget j k ≫= as_str).

Fixpoint series_keys (limit : nat) (l : list json) (keys : list (string * string * string)) :
    list (string * string * string) :=
  match l with
  | [] => keys
  | s :: l =>
      let key := (text_at s "__name__", text_at s "source", text_at s "source_id") in
      if string_eqb key.1.1 "" then series_keys limit l keys
      else
        let keys := if decide (key ∈ keys) then keys else keys ++ [key] in
        if (limit <=? length keys)%nat then keys else series_keys limit l keys
  end.

(** The name, and the labels between quotes as they are. *)
Definition series_query (key : string * string * string) : string :=
  let q := String "034"%char EmptyString in
  key.1.1 +:+ "{source=" +:+ q +:+ key.1.2 +:+ q +:+ ",source_id=" +:+ q +:+ key.2 +:+ q +:+ "}[1h]".

(** The last sample of the first series of the answer. *)
Definition last_sample (key : string * string * string) (body : json) : option MetricSummaryRow :=
  arr ← jget body "data" ≫= λ d, jget d "result" ≫= λ r,
        match r with JArray l => Some l | _ => None end;
  first ← hd_error arr;
  values ← jget first "values" ≫= λ v, match v with JArray l => Some l | _ => None end;
  sample ← last values;
  let cell i := match sample with JArray l => l !! i | _ => None end in
  let ts := default (S754_zero false) (cell 0%nat ≫= as_f64) in
  let val := default "0" (cell 1%nat ≫= as_str) in
  Some (mkSummaryRow key.1.2 key.2 key.1.1 (default (S754_zero false) (f64_parse val))
          (rfc3339_of_unix ts) (Z.of_nat (length values))).

Fixpoint query_series (vm_url : string) (keys : list (string * string * string)) :
    vio (list MetricSummaryRow) :=
  match keys with
  | [] => mret []
  | key :: keys =>
      io_map_err (λ e, "vm query: " +:+ e)
        (on_vvm (vm_get (vm_url +:+ "/api/v1/query") [("query", series_query key)])) ≫= λ resp,
      (if is_success resp.1 then
         lift (map_err (λ e, "vm query json: " +:+ e) resp.2) ≫= λ body,
         mret (option_list (last_sample key body))
       else mret []) ≫= λ row : list MetricSummaryRow,
      query_series vm_url keys ≫= λ rest, mret (row ++ rest)
  end.

Definition SERIES_MATCHER : string :=
  "{source!=" +:+ String "034"%char (String "034"%char "}").

Definition metric_summary (st : state) (req : request) (limit : Z) : vio (list MetricSummaryRow) :=
  on_vapp (require_admin st req) ≫= λ _ : Claims,
  let vm_url := trim_end_matches "/" (default "http://localhost:8428" (env "DAIMON_VM_URL")) in
  io_map_err (λ e, "vm series: " +:+ e)
    (on_vvm (vm_get (vm_url +:+ "/api/v1/series") [("match[]", SERIES_MATCHER)])) ≫= λ resp,
  (if (400 <=? resp.1) && (resp.1 <? 600) then throw ("vm series status: " +:+ vm_status_error resp.1)
   else mret tt) ≫= λ _ : unit,
  lift (map_err (λ e, "vm series json: " +:+ e) resp.2) ≫= λ body,
  let series := default [] (jget body "data" ≫= λ d, match d with JArray l => Some l | _ => None end) in
  query_series vm_url (series_keys (Z.to_nat limit) series []).

(** *** [admin_memory.rs] *)

(** [audit_memory_op], whose outcome is ignored. *)
Definition record_memory_op (st : state) (actor : string) (kind : ActionKind) (target summary : string)
    (latency : Z) (success : bool) (kvs : list (string * string)) : vio unit :=
  attempt (on_vapp (on_broker (audit_memory_op (st_broker st) actor kind (Some target)
    (Some summary) latency success kvs))) ≫= λ _, mret tt.

Definition admin_memory_ingest (mem : T) (st : state) (req : request) (doc : IngestDoc)
    (latency : Z) : vio IngestStats :=
  on_vapp (require_admin st req) ≫= λ claims : Claims,
  attempt (on_vmem (ingest mem doc)) ≫= λ r : result MemoryError IngestStats,
  let '(success, summary, chunks) :=
    match r with
    | Ok s => (true, "ingested " +:+ show_Z (is_chunks s) +:+ " chunks", show_Z (is_chunks s))
    | Err e => (false, "ingest failed: " +:+ show_memory_error e, "0")
    end in
  record_memory_op st (c_sub claims) MemoryIngest ("memory://" +:+ id_source_id doc) summary latency
    success [("source_id", id_source_id doc); ("source_kind", id_source_kind doc);
             ("chunks", chunks)] ≫= λ _ : unit,
  lift (map_err (λ e, "ingest: " +:+ show_memory_error e) r).

Definition query_hash (query : string) : string := hash_hex (to_lowercase (trim query)).

Definition hit_of_chunk (h : RetrievedChunk) : SearchHit :=
  mkHit 0 (rc_score h) (rc_source_id h) (rc_source_kind h) 0 (rc_content h).

Definition admin_memory_search (mem : T) (st : state) (req : request) (query : string) (top_k : Z)
    (latency : Z) : vio (list SearchHit) :=
  on_vapp (require_admin st req) ≫= λ claims : Claims,
  attempt (on_vmem (retrieve mem (mkQuery query top_k))) ≫= λ r : result MemoryError (list RetrievedChunk),
  let '(success, summary, returned) :=
    match r with
    | Ok h => (true, "returned " +:+ show_Z (Z.of_nat (length h)) +:+ " hits",
               show_Z (Z.of_nat (length h)))
    | Err e => (false, "retrieve failed: " +:+ show_memory_error e, "0")
    end in
  record_memory_op st (c_sub claims) MemoryRetrieve "memory://_search" summary latency success
    [("query_hash", query_hash query); ("top_k", show_Z top_k); ("returned", returned)] ≫= λ _ : unit,
  lift (map_err (λ e, "retrieve: " +:+ show_memory_error e) r) ≫= λ hits,
  mret (map hit_of_chunk hits).

(** *** [admin_plans.rs] *)

Definition plan_view (p : Plan) : PlanView :=
  mkPlanView (pl_id p) (pl_intent p) (plan_status_debug (pl_status p))
    (to_rfc3339 (pl_created_at p)) (to_rfc3339 <$> pl_finished_at p).

Definition view_plans (st : state) (req : request) : vio (list PlanView) :=
  on_vapp (require_admin st req) ≫= λ _ : Claims,
  io_map_err (λ e, "list_plans: " +:+ e) (on_vorch (list_plans 100)) ≫= λ plans,
  mret (map plan_view plans).

(** A result is shown up to 200 bytes; the cut panics inside a character. *)
Definition step_view (s : Step) : option StepView :=
  summary ← match st_result s with
            | Some v => Some <$> result_summary (json_to_string v)
            | None => Some None
            end;
  Some (mkStepView (st_id s) (st_step_index s) (st_capability_name s) (st_target_ref s)
          (st_depends_on s) (step_status_debug (st_status s)) summary).

(** [None]: the panic. *)
Definition view_plan_steps (st : state) (req : request) (plan_id : string) :
    vio (option (list StepView)) :=
  on_vapp (require_admin st req) ≫= λ _ : Claims,
  lift (map_err (λ e, "parse plan_id: " +:+ e) (parse_uuid plan_id)) ≫= λ id,
  io_map_err (λ e, "list_steps: " +:+ e) (on_vorch (list_steps id)) ≫= λ steps,
  mret (mapM step_view steps).

Definition console_create_plan (st : state) (svc : Service) (req : request) (intent : string)
    (steps : list StepDef) : vio Uuid :=
  on_vapp (require_admin st req) ≫= λ claims : Claims,
  io_map_err (λ e, "create_plan: " +:+ e)
    (on_vorch (create_plan svc (Some (c_user_id claims)) intent steps)) ≫= λ plan,
  mret (pl_id plan).

Definition console_run_plan (st : state) (svc : Service) (req : request) (plan_id : string) :
    vio string :=
  on_vapp (require_admin st req) ≫= λ _ : Claims,
  lift (map_err (λ e, "parse plan_id: " +:+ e) (parse_uuid plan_id)) ≫= λ id,
  io_map_err (λ e, "run_plan: " +:+ e) (on_vorch (run_plan svc id)) ≫= λ status,
  mret (plan_status_debug status).

(** [caps.sort_by]: by name, later versions first. *)
Definition version_cmp (u v : version) : comparison :=
  if version_leb u v then (if version_leb v u then Eq else Lt) else Gt.

Definition cap_cmp (a b : Capability) : comparison :=
  match String.compare (cap_name a) (cap_name b) with
  | Eq => version_cmp (cap_version b) (cap_version a)
  | c => c
  end.

Definition nl : string := String "010"%char EmptyString.

Definition cap_entry (c : Capability) : string :=
  "- " +:+ cap_name c +:+ " v" +:+ version_show (cap_version c) +:+ " — " +:+
  default "(no description)" (cap_description c) +:+ nl +:+
  match cap_schema c ≫= λ s, jget s "properties" with
  | Some (JObject ((k, v) :: props)) =>
      "  params: " +:+ string_concat (k :: map (λ kv, ", " +:+ kv.1) props) +:+ nl
  | _ => "  params: target_ref only (read capability)" +:+ nl
  end.

Definition capability_catalog (r : CapabilityRegistry) : string :=
  "Capabilities (use capability_name EXACTLY; put the TYPED params under `params`):" +:+ nl +:+
  string_concat (map cap_entry (sort_by cap_cmp (capabilities r))) +:+
  nl +:+ "Available targets: any registered target_ref (e.g. target://mikrotik-edge)." +:+ nl.

(** [AnthropicClient::from_env] gives a model or not; [llm] is its answer to a prompt. *)
Definition console_plan_from_intent (st : state) (svc : Service) (req : request) (intent : string)
    (client : result string (string → result string string))
    (read_plan : string → result string (list StepDef)) (r : CapabilityRegistry) : vio Uuid :=
  on_vapp (require_admin st req) ≫= λ claims : Claims,
  lift (map_err (λ e, "llm init: " +:+ e) client) ≫= λ llm,
  io_map_err (λ e, "plan_from_intent: " +:+ e)
    (on_vorch (plan_from_intent svc (Some (c_user_id claims)) intent (capability_catalog r) llm
       read_plan)) ≫= λ plan,
  mret (pl_id plan).

(** *** [admin_approvals.rs] *)

(** [value as u32]. *)
Definition as_u32_cast (n : Z) : Z := n mod 2^32.

Definition blast_item (e : BlastRadiusEntry) : BlastRadiusItem :=
  mkBlastItem (node_label (br_kind e)) (br_id e) (br_label e) (br_depth e).

(** A failed lookup shows an empty radius. *)
Fixpoint enrich_approvals (graph : option NornicGraphClient) (depth : Z)
    (l : list Approvals.ApprovalRecord) : vio (list ApprovalView) :=
  match l with
  | [] => mret []
  | a :: l =>
      match graph, Approvals.ar_target_ref a with
      | Some g, Some tref =>
          attempt (on_vgraph (blast_radius g tref depth)) ≫= λ r : result GraphError (list BlastRadiusEntry),
          mret (match r with Ok entries => map blast_item entries | Err _ => [] end)
      | _, _ => mret []
      end ≫= λ radius : list BlastRadiusItem,
      enrich_approvals graph depth l ≫= λ rest,
      mret (mkApprovalView (Approvals.ar_id a) (Approvals.ar_actor_id a) (Approvals.ar_capability a)
              (Approvals.ar_target_ref a) (to_string_pretty (Approvals.ar_params a))
              (to_rfc3339 (Approvals.ar_created_at a)) radius :: rest)
  end.

Definition list_pending_approvals (st : state) (graph : option NornicGraphClient) (req : request)
    (limit : option Z) : vio (list ApprovalView) :=
  on_vapp (require_admin st req) ≫= λ _ : Claims,
  on_vapp (fails "list_pending" (on_broker (approvals_pending (st_broker st) (default 50 limit))))
    ≫= λ approvals,
  gets (λ w, as_u32_cast (cfg_u64 env (ap_config (vw_app w)) "guard.blast_radius_depth"
    (Some "DAIMON_BLAST_RADIUS_DEPTH") DEFAULT_BLAST_RADIUS_DEPTH)) ≫= λ depth,
  enrich_approvals graph depth approvals.

(** *** [admin_chat_sessions.rs]: the models a panel offers *)

Definition list_available_models (st : state) (req : request) : vio (list string) :=
  on_vapp (require_authenticated st req) ≫= λ _ : Claims,
  gets (λ w, permitted_models env (ap_config (vw_app w))).

(** ** The administrator check *)

Inductive view_call :=
| VListAudit (f : AuditFilterDto) (limit offset : Z)
| VCountAudit (f : AuditFilterDto)
| VListDeliveries (limit : Z)
| VListAnomalies (limit : Z)
| VMetricSummary (limit : Z)
| VIngest (doc : IngestDoc) (latency : Z)
| VSearch (query : string) (top_k latency : Z)
| VListPlans
| VPlanSteps (plan_id : string)
| VCreatePlan (intent : string) (steps : list StepDef)
| VRunPlan (plan_id : string)
| VPlanFromIntent (intent : string)
| VListApprovals (limit : option Z).

(** What the calls need of their surroundings. *)
Record view_env := mkViewEnv {
  ve_memory : T;
  ve_service : Service;
  ve_graph : option NornicGraphClient;
  ve_client : result string (string → result string string);
  ve_read_plan : string → result string (list StepDef);
  ve_registry : CapabilityRegistry;
}.

Definition run_view (st : state) (e : view_env) (req : request) (c : view_call) : vio unit :=
  match c with
  | VListAudit f l o => list_audit_events st req f l o ≫= λ _, mret tt
  | VCountAudit f => count_audit_events st req f ≫= λ _, mret tt
  | VListDeliveries l => list_alert_deliveries st req l ≫= λ _, mret tt
  | VListAnomalies l => list_anomalies st req l ≫= λ _, mret tt
  | VMetricSummary l => metric_summary st req l ≫= λ _, mret tt
  | VIngest d l => admin_memory_ingest (ve_memory e) st req d l ≫= λ _, mret tt
  | VSearch q k l => admin_memory_search (ve_memory e) st req q k l ≫= λ _, mret tt
  | VListPlans => view_plans st req ≫= λ _, mret tt
  | VPlanSteps p => view_plan_steps st req p ≫= λ _, mret tt
  | VCreatePlan i s => console_create_plan st (ve_service e) req i s ≫= λ _, mret tt
  | VRunPlan p => console_run_plan st (ve_service e) req p ≫= λ _, mret tt
  | VPlanFromIntent i =>
      console_plan_from_intent st (ve_service e) req i (ve_client e) (ve_read_plan e) (ve_registry e)
        ≫= λ _, mret tt
  | VListApprovals l => list_pending_approvals st (ve_graph e) req l ≫= λ _, mret tt
  end.

Lemma on_vapp_err {A} (m : io appw string A) w err a :
  m (vw_app w) = (Err err, a) →
  on_vapp m w = (Err err, mkViews a (vw_orch w) (vw_audit w) (vw_mem w) (vw_graph w) (vw_vm w)
    (vw_deliveries w) (vw_anomalies w)).
Proof. unfold on_vapp, zoom. by intros ->. Qed.

Lemma run_view_refused st e req c w err a :
  require_admin st req (vw_app w) = (Err err, a) →
  run_view st e req c w = (Err err, mkViews a (vw_orch w) (vw_audit w) (vw_mem w) (vw_graph w)
    (vw_vm w) (vw_deliveries w) (vw_anomalies w)).
Proof.
  intros He. apply on_vapp_err in He.
  destruct c; simpl; unfold list_audit_events, count_audit_events, list_alert_deliveries,
    list_anomalies, metric_summary, admin_memory_ingest, admin_memory_search, view_plans,
    view_plan_steps, console_create_plan, console_run_plan, console_plan_from_intent,
    list_pending_approvals; by apply io_bind_run_err, io_bind_run_err.
Qed.

(** The console's views are the administrators'. The audit log, alerts, anomalies,
    metrics, memory, plans and pending approvals are reached only by a caller whose token
    names the admin role and whose session row is live; for anybody else the call fails
    and nothing, other connections' writes apart, has changed. *)
Theorem views_admin_only st e req c w :
  let a := (authenticate_headers st req (vw_app w)).2 in
  (∃ claims, request_claims st req (vw_app w) = Some claims ∧ "admin" ∈ c_roles claims ∧
     is_Some (live_session (clock a) (c_session_id claims) (db a))) ∨
  (∃ err, run_view st e req c w = (Err err, mkViews a (vw_orch w) (vw_audit w) (vw_mem w)
     (vw_graph w) (vw_vm w) (vw_deliveries w) (vw_anomalies w))) ∧
  ∃ n, a = set_pg (drift n (ap_pg (vw_app w))) (vw_app w).
Proof.
  intros a. destruct (authenticate_drift st req (vw_app w)) as (n & Hw & Hs). fold a in Hw, Hs.
  pose proof (run_view_refused st e req c w) as Hr.
  unfold require_admin, require_any, require_authenticated, mbind, io_bind in Hr.
  subst a. destruct (authenticate_headers st req (vw_app w)) as [[claims|] a]; simpl in *.
  - destruct (Hs claims eq_refl) as [Hcl Hl].
    destruct (existsb _ (c_roles claims)) eqn:Hp.
    + left. exists claims. split; [done|]. split; [|done].
      apply existsb_elem in Hp as (x & Hx & ->%string_eqb_eq). done.
    + right. eauto 10.
  - right. eauto 10.
Qed.
End Views.

(** ** The audit view *)

(** The wire types mirror the broker's, labels included. *)
Lemma action_dto_roundtrip k : dto_to_action (action_to_dto k) = k ∧ action_label (action_to_dto k) = action_as_str k.
Proof. by destruct k. Qed.

Lemma action_dto_roundtrip' k : action_to_dto (dto_to_action k) = k ∧ k ∈ all_actions.
Proof. split; [by destruct k|]. apply list_elem_of_In. destruct k; simpl; tauto. Qed.

Lemma result_dto_roundtrip r :
  dto_to_result (result_to_dto r) = r ∧ result_label (result_to_dto r) = audit_result_as_str r.
Proof. by destruct r. Qed.

Lemma filter_perm {A} (p : A → bool) l l' : l ≡ₚ l' → List.filter p l ≡ₚ List.filter p l'.
Proof.
  induction 1 as [|x l l' _ IH|x y l|l1 l2 l3 _ IH1 _ IH2]; simpl; [done| | |by rewrite IH1].
  - destruct (p x); [by rewrite IH|done].
  - destruct (p x), (p y); try done. apply Permutation_swap.
Qed.

Section AuditView.
Context `{SemVerOrder} {I V D M : Type} `{Inventory I} `{VaultAdmin V} `{WorkingMemory M}.
Context `{PgMessages} `{Jwt} `{Bcrypt} `{HashOrder RegistryEntry} {X : Type} `{!BusDispatcher X}.
Context `{Sha256} `{PgText} `{JsonText} `{Chrono} {MW GW HW : Type}.
Context (show_audit_error : AuditError → string).
Abbreviation views := (viewsw (I := I) (V := V) (D := D) (M := M) (X := X) (MW := MW) (GW := GW) (HW := HW)).

(** The events a filter selects, newest first. *)
Definition matching (f : AuditFilterDto) (w : views) : list AuditEventRow :=
  map event_to_row (row_to_event <$> List.filter (filter_matches (dto_to_filter f))
    (reverse (oldest_first (pa_rows (vw_audit w))))).

(** An administrator whose requests find the audit database up. *)
Definition audit_reachable (st : AppState (D := D)) (req : request) (w : views) : Prop :=
  is_ok (require_admin st req (vw_app w)).1 = true ∧ br_audit (st_broker st) = true ∧
  mjoin (head (pa_faults (vw_audit w))) = None.

Lemma list_audit_events_page st req f limit offset (w : views) :
  audit_reachable st req w →
  (list_audit_events show_audit_error st req f limit offset w).1 =
  Ok (take (Z.to_nat limit) (drop (Z.to_nat offset) (matching f w))).
Proof.
  intros (Hadm & Hb & Hf). unfold list_audit_events, broker_audit. rewrite Hb.
  destruct (require_admin st req (vw_app w)) as [[claims|] a] eqn:Hr; [|done].
  unfold mbind, io_bind, on_vapp, zoom at 1. rewrite Hr. unfold io_map_err, on_vaudit, zoom. simpl.
  pose proof (audit_query_spec (dto_to_filter f) limit offset (vw_audit w) Hf) as Hq.
  destruct (pg_audit_query _ limit offset (vw_audit w)) as [r x]. simpl in Hq. rewrite Hq. simpl.
  unfold mret, io_ret. simpl. unfold matching. do 2 f_equal.
  change (map event_to_row) with (fmap (M := list) event_to_row).
  by rewrite !fmap_take, !fmap_drop.
Qed.

Lemma count_audit_events_spec st req f (w : views) :
  audit_reachable st req w →
  (count_audit_events show_audit_error st req f w).1 = Ok (Z.of_nat (length (matching f w))).
Proof.
  intros (Hadm & Hb & Hf). unfold count_audit_events, broker_audit. rewrite Hb.
  destruct (require_admin st req (vw_app w)) as [[claims|] a] eqn:Hr; [|done].
  unfold mbind, io_bind, on_vapp, zoom at 1. rewrite Hr. unfold io_map_err, on_vaudit, zoom. simpl.
  assert ((pg_audit_count (dto_to_filter f) (vw_audit w)).1 =
    Ok (Z.of_nat (length (matching f w)))) as Hq.
  { unfold pg_audit_count, pa_query.
    assert (length (selected (build_count (dto_to_filter f)) (pa_rows (vw_audit w))) =
      length (matching f w)) as Hl.
    { unfold matching, build_count. rewrite selected_spec, length_map, length_fmap.
      apply Permutation_length, filter_perm. by rewrite reverse_Permutation, oldest_first_perm. }
    simpl. destruct (pa_faults (vw_audit w)) as [|[[[] er]|] fs]; simpl in Hf; try done; simpl;
      by rewrite Hl. }
  destruct (pg_audit_count _ (vw_audit w)) as [r x]. simpl in Hq. by rewrite Hq.
Qed.

(** The audit view shows everything. When the audit database answers, the count is
    that of the events a filter selects, and the pages of any size, asked for by the
    number of pages the count gives, put together are those events, newest first. *)
Theorem audit_view_complete st req f (w : views) size :
  audit_reachable st req w → (0 < size)%nat →
  ∃ n pages,
    (count_audit_events show_audit_error st req f w).1 = Ok (Z.of_nat n) ∧
    Forall2 (λ p page, (list_audit_events show_audit_error st req f (Z.of_nat size)
      (Z.of_nat (p * size)) w).1 = Ok page) (seq 0 (total_pages n size)) pages ∧
    concat pages = matching f w.
Proof.
  intros Hw Hs. exists (length (matching f w)),
    (map (λ p, take size (drop (p * size) (matching f w)))
       (seq 0 (total_pages (length (matching f w)) size))).
  split; [by apply count_audit_events_spec|]. split.
  - apply Forall2_fmap_r. apply Forall_Forall2_diag, Forall_forall. intros p _.
    rewrite list_audit_events_page by done. by rewrite !Nat2Z.id.
  - apply chunks_concat. by apply total_pages_spec.
Qed.
End AuditView.

(** The lower bound of the view's interval is part of it and the upper one is not. *)
Lemma audit_interval `{PgText} `{Chrono} f r s u ts tu :
  fd_since_epoch_s f = Some s → fd_until_epoch_s f = Some u →
  from_timestamp s = Some ts → from_timestamp u = Some tu →
  filter_matches (dto_to_filter f) r = true →
  s * 1000000 ≤ ar_ts r < u * 1000000.
Proof.
  intros Hs Hu Ht Hv Hm. unfold filter_matches, dto_to_filter in Hm. cbn in Hm.
  rewrite Hs, Hu in Hm. cbn in Hm. rewrite Ht, Hv in Hm. cbn in Hm.
  rewrite !andb_true_iff, Z.leb_le, Z.ltb_lt in Hm.
  apply from_timestamp_exact in Ht, Hv. subst. tauto.
Qed.

(** ** Memory operations are on record *)

Section MemoryView.
Context `{SemVerOrder} {I V D M : Type} `{Inventory I} `{VaultAdmin V} `{WorkingMemory M}.
Context `{PgMessages} `{Jwt} `{Bcrypt} `{HashOrder RegistryEntry} {X : Type} `{!BusDispatcher X}.
Context `{LowerCase} {T MW : Type} `{!MemoryService T MW} {GW HW : Type}.
Context (hash_hex : string → string).
Abbreviation views := (viewsw (I := I) (V := V) (D := D) (M := M) (X := X) (MW := MW) (GW := GW) (HW := HW)).

(** The record of a search: who, its outcome, and the query only as a hash. *)
Definition search_event (actor query : string) (top_k latency : Z)
    (r : result MemoryError (list RetrievedChunk)) : NewAuditEvent :=
  let returned := match r with Ok h => show_Z (Z.of_nat (length h)) | Err _ => "0" end in
  let summary := match r with
                 | Ok h => "returned " +:+ show_Z (Z.of_nat (length h)) +:+ " hits"
                 | Err e => "retrieve failed: " +:+ show_memory_error e
                 end in
  with_all [("query_hash", query_hash hash_hex query); ("top_k", show_Z top_k);
            ("returned", returned)]
    (with_op_summary summary (with_target "memory://_search" (with_latency_ms latency
      (audit_event_new actor MemoryRetrieve (if is_ok r then ASuccess else AError))))).

(** A search by an administrator is answered by the memory service, whether or not it can
    be recorded, and leaves one record of it when an audit sink takes it. *)
Lemma memory_search_recorded mem (st : AppState (D := D)) req query top_k latency (w : views)
    claims a r m :
  require_admin st req (vw_app w) = (Ok claims, a) →
  retrieve mem (mkQuery query top_k) (vw_mem w) = (r, m) →
  let out := admin_memory_search hash_hex mem st req query top_k latency w in
  out.1 = map_err (λ e, "retrieve: " +:+ show_memory_error e) (map hit_of_chunk <$> r) ∧
  b_audit (ap_broker (vw_app out.2)) =
    b_audit (ap_broker a) ++
    (if br_audit (st_broker st) then
       match b_audit_faults (ap_broker a) with
       | Some _ :: _ => []
       | _ => [search_event (c_sub claims) query top_k latency r]
       end
     else []).
Proof.
  intros Hadm Hret out. subst out. unfold admin_memory_search, record_memory_op.
  unfold mbind, io_bind, on_vapp, on_vmem, attempt, zoom. rewrite Hadm. simpl. rewrite Hret. simpl.
  unfold on_broker, audit_memory_op, require_audit_sink, search_event.
  destruct r as [h|e]; cbv beta iota zeta; simpl;
    unfold io_map_err, zoom, mbind, io_bind; simpl;
    (destruct (br_audit (st_broker st)); simpl;
      [unfold sink_append; destruct (b_audit_faults (ap_broker a)) as [|[x|] fs]; simpl
      |rewrite app_nil_r]);
    unfold lift, mret, io_ret; simpl; rewrite ?app_nil_r; done.
Qed.
End MemoryView.

(** ** The metric view *)

(** Each series is asked for once, a name is not empty, and there are no more than the
    limit, or one when it is zero. *)
Lemma series_keys_spec limit l keys :
  NoDup keys → Forall (λ k, k.1.1 ≠ "") keys → (length keys < Nat.max 1 limit)%nat →
  let out := series_keys limit l keys in
  NoDup out ∧ Forall (λ k, k.1.1 ≠ "") out ∧ (length out ≤ Nat.max 1 limit)%nat.
Proof.
  revert keys. induction l as [|s l IH]; intros keys Hn Hf Hlen; simpl; [split; [done|split; [done|lia]]|].
  set (key := (text_at s "__name__", text_at s "source", text_at s "source_id")).
  destruct (string_eqb (text_at s "__name__") "") eqn:He; [by apply IH|].
  apply string_eqb_neq in He.
  destruct (decide (key ∈ keys)) as [Hin|Hin].
  { destruct (Nat.leb_spec limit (length keys)); [split; [done|split; [done|lia]]|by apply IH]. }
  assert (NoDup (keys ++ [key])) as Hn'.
  { apply NoDup_app. split; [done|]. split; [|apply NoDup_singleton].
    intros x Hx Hk. apply list_elem_of_singleton in Hk as ->. done. }
  assert (Forall (λ k, k.1.1 ≠ "") (keys ++ [key])) as Hf'
    by (apply Forall_app; split; [done|by apply Forall_singleton]).
  rewrite length_app. destruct (Nat.leb_spec limit (length keys + length [key])) as [Hle|Hlt].
  - split; [done|]. split; [done|]. rewrite length_app. simpl. lia.
  - apply IH; [done|done|]. rewrite length_app. lia.
Qed.

(** ** The plan chart *)

(** [plan_dist]: label and count of each segment; [Other] only when there are such plans. *)
Definition known_status (s : string) : bool :=
  existsb (string_eqb s) ["succeeded"; "planning"; "awaiting_approval"; "executing"; "failed";
                          "rolled_back"; "cancelled"].

Definition count_status (p : string → bool) (plans : list PlanView) : nat :=
  length (List.filter (λ v, p (pv_status v)) plans).

Definition plan_dist (plans : list PlanView) : list (string * nat) :=
  let other := count_status (λ s, negb (known_status s)) plans in
  [("Succeeded", count_status (λ s, string_eqb s "succeeded") plans);
   ("Active", count_status (λ s, existsb (string_eqb s) ["planning"; "awaiting_approval"; "executing"])
      plans);
   ("Failed", count_status (λ s, string_eqb s "failed") plans);
   ("Rolled back", count_status (λ s, existsb (string_eqb s) ["rolled_back"; "cancelled"]) plans)] ++
  (if (0 <? other)%nat then [("Other", other)] else []).

(** The segments add up to the plans. *)
Lemma plan_dist_total plans : foldr Nat.add 0%nat (plan_dist plans).*2 = length plans.
Proof.
  assert (∀ o, foldr Nat.add 0%nat (if (0 <? o)%nat then [("Other", o)] else []).*2 = o) as Ho
    by (intros [|o]; simpl; lia).
  unfold plan_dist. rewrite fmap_app, foldr_app, Ho. simpl.
  induction plans as [|v plans IH]; [done|]. unfold count_status in *. simpl.
  rewrite <- IH. clear. unfold known_status. simpl.
  repeat match goal with |- context [string_eqb ?x ?y] =>
    let E := fresh in destruct (string_eqb x y) eqn:E;
    [apply string_eqb_eq in E; rewrite ?E in *; simpl|] end; simpl; lia.
Qed.

(** A plan that was rolled back, or waits for approval, is counted as something else: the
    view writes its status without the underscore. *)
Lemma rolled_back_plan_is_other `{Chrono} p :
  pl_status p = RolledBack ∨ pl_status p = AwaitingApproval →
  plan_dist [plan_view p] = [("Succeeded", 0%nat); ("Active", 0%nat); ("Failed", 0%nat);
    ("Rolled back", 0%nat); ("Other", 1%nat)] ∧
  pv_status (plan_view p) ≠ plan_status_as_str (pl_status p).
Proof. unfold plan_view. intros [-> | ->]; done. Qed.

(** ** Witnesses *)

Module ListingsDemo.
Import DemoSemVer AppDbDemo IamDemo ConfigDemo ConsoleDemo.

#[export] Existing Instance demo_sha256.
#[export] Existing Instance demo_pg_text.

#[export] Instance demo_chrono : Chrono.
Proof.
  refine {| from_timestamp := λ s, Some (s * 1000000); to_rfc3339 := show_Z;
            rfc3339_of_unix := λ _, EmptyString |}.
  by intros secs t [= <-].
Defined.

Definition demo_views : viewsw (I := InMemoryRegistry) (V := vault) (D := list StubRecord)
    (M := InProcWorkingMemory) (X := unit) (MW := unit) (GW := unit) (HW := unit) :=
  mkViews chat_world (mkOworld ∅ ∅ [] 0 (λ _, "p") 0 tt [] [] []) demo_log tt tt tt [] [].

Definition everything : AuditFilterDto := mkFilterDto (Some "") None None None None None.

Lemma audit_view_complete_witness :
  audit_reachable st (as_user alice) demo_views ∧
  ∃ n pages,
    (count_audit_events (λ _, EmptyString) st (as_user alice) everything demo_views).1 = Ok (Z.of_nat n) ∧
    Forall2 (λ p page, (list_audit_events (λ _, EmptyString) st (as_user alice) everything
      (Z.of_nat 25) (Z.of_nat (p * 25)) demo_views).1 = Ok page) (seq 0 (total_pages n 25)) pages ∧
    concat pages = matching everything demo_views.
Proof.
  assert (audit_reachable st (as_user alice) demo_views) as Hr
    by (split; [vm_compute; reflexivity|split; vm_compute; reflexivity]).
  split; [exact Hr|].
  refine (audit_view_complete (λ _, EmptyString) st (as_user alice) everything demo_views 25 Hr _). lia.
Defined.
End ListingsDemo.
