(* ===== verification/SelfMetrics.v ===== *)
(** * daimon-app: self-observation ([daimon-app/src/observability.rs])

    The process's own counters, 64 bits wide and wrapping, their exposition as text, and
    the health probe. *)

From S2P Require Import Prelude RustStd Json Memory.
From Stdlib Require Import ZArith Ascii.

Local Open Scope Z_scope.

(** [AtomicU64::fetch_add]. *)
Definition fetch_add (n x : Z) : Z := (x + n) mod 2^64.

Record SelfMetrics := mkSelfMetrics {
  m_ingest_cycles : Z;
  m_anomalies_raised : Z;
  m_sink_push_failures : Z;
  m_plan_dispatches : Z;
  m_memory_recall_degraded : Z;
}.

Definition metrics_new : SelfMetrics := mkSelfMetrics 0 0 0 0 0.

Definition inc_recall_degraded (m : SelfMetrics) : SelfMetrics :=
  mkSelfMetrics (m_ingest_cycles m) (m_anomalies_raised m) (m_sink_push_failures m)
    (m_plan_dispatches m) (fetch_add 1 (m_memory_recall_degraded m)).

(** The observer's increments through the handles it was given, which are the counters
    themselves. *)
Inductive observer_inc := IncIngest (n : Z) | IncAnomalies (n : Z) | IncFailures (n : Z).

Definition observer_handles (i : observer_inc) (m : SelfMetrics) : SelfMetrics :=
  match i with
  | IncIngest n =>
      mkSelfMetrics (fetch_add n (m_ingest_cycles m)) (m_anomalies_raised m)
        (m_sink_push_failures m) (m_plan_dispatches m) (m_memory_recall_degraded m)
  | IncAnomalies n =>
      mkSelfMetrics (m_ingest_cycles m) (fetch_add n (m_anomalies_raised m))
        (m_sink_push_failures m) (m_plan_dispatches m) (m_memory_recall_degraded m)
  | IncFailures n =>
      mkSelfMetrics (m_ingest_cycles m) (m_anomalies_raised m)
        (fetch_add n (m_sink_push_failures m)) (m_plan_dispatches m) (m_memory_recall_degraded m)
  end.

Definition series (m : SelfMetrics) : list (string * string * Z) :=
  [("daimon_ingest_cycles_total", "Observer ingest cycles completed.", m_ingest_cycles m);
   ("daimon_anomalies_raised_total", "Anomalies persisted and emitted by the observer.",
      m_anomalies_raised m);
   ("daimon_sink_push_failures_total", "Metric-sink push_batch failures in the observer.",
      m_sink_push_failures m);
   ("daimon_plan_dispatches_total", "Orchestrator plan dispatches.", m_plan_dispatches m);
   ("daimon_memory_recall_degraded_total", "Chat pre-turn recalls that returned degraded.",
      m_memory_recall_degraded m)].

Definition render_series (s : string * string * Z) : string :=
  let '(name, help, value) := s in
  let nl := String "010"%char EmptyString in
  "# HELP " +:+ name +:+ " " +:+ help +:+ nl +:+
  "# TYPE " +:+ name +:+ " counter" +:+ nl +:+
  name +:+ " " +:+ show_Z value +:+ nl.

Definition render_prometheus (m : SelfMetrics) : string :=
  string_concat (map render_series (series m)).

Record response := mkResponse { rs_status : Z; rs_content_type : string; rs_body : string }.

Definition metrics (m : SelfMetrics) : response :=
  mkResponse 200 "text/plain; version=0.0.4; charset=utf-8" (render_prometheus m).

Section Health.
Context `{JsonText} {T W : Type} `{!MemoryService T W}.

Definition healthz (db : result string unit) (mem : T) (w : W) : response * W :=
  let db_ok := is_ok db in
  let '(h, w) := mem_health mem w in
  let body := jobj [("db", JString (if db_ok then "ok" else "err"));
                    ("memory", JString (if mh_reachable h then "ok" else "degraded"))] in
  (mkResponse (if db_ok then 200 else 503) "application/json" (json_to_string body), w).

(** The status follows the database alone; the memory is in the body. *)
Lemma healthz_status db mem w :
  rs_status (healthz db mem w).1 = (if is_ok db then 200 else 503).
Proof. unfold healthz. by destruct (mem_health mem w). Qed.
End Health.

(** ** A scraper's view *)

(** A sample line: a name, a space and digits. *)
Definition read_sample (line : string) : option (string * Z) :=
  match split_once " "%char line with
  | Some (name, value) =>
      if starts_with line "#" then None else (λ v, (name, v)) <$> parse_int false 0 (2^64 - 1) value
  | None => None
  end.

Definition scrape (text : string) : list (string * Z) := omap read_sample (lines text).

Definition counters_ok (m : SelfMetrics) : Prop := Forall (λ s, 0 ≤ s.2 < 2^64) (series m).

Lemma fetch_add_range n x : 0 ≤ fetch_add n x < 2^64.
Proof. unfold fetch_add. apply Z.mod_pos_bound. lia. Qed.

Definition one_line (l : string) : Prop :=
  "010"%char ∉ bytes l ∧ "013"%char ∉ bytes l.

Lemma strip_cr_plain l : "013"%char ∉ bytes l → strip_cr l = l.
Proof.
  intros Hl. unfold strip_cr. destruct (strip_suffix _ l) as [r|] eqn:Hs; [|done].
  apply strip_suffix_Some in Hs as ->. exfalso. apply Hl. rewrite bytes_app.
  apply elem_of_app. right. left.
Qed.

Lemma lines_cons l rest : one_line l → lines (l +:+ String "010"%char rest) = l :: lines rest.
Proof.
  intros [Hn Hr]. unfold lines. rewrite split_app_sep by done.
  pose proof (split_nonempty "010"%char rest) as Hne.
  destruct (split "010"%char rest) as [|x pieces] eqn:Hs; [done|].
  change (lines_of (l :: x :: pieces)) with (strip_cr l :: lines_of (x :: pieces)).
  by rewrite strip_cr_plain.
Qed.

(** A name and a help text fit for a line of the exposition. *)
Definition series_ok (s : string * string * Z) : Prop :=
  one_line s.1.1 ∧ " "%char ∉ bytes s.1.1 ∧ s.1.1 ≠ "" ∧ starts_with s.1.1 "#" = false ∧
  one_line s.1.2 ∧ 0 ≤ s.2 < 2^64.

Lemma one_line_pair s t : one_line s → one_line t → one_line (s +:+ t).
Proof.
  intros [H1 H2] [H3 H4]. unfold one_line. rewrite bytes_app, !elem_of_app. tauto.
Qed.

Lemma one_line_show z : one_line (show_Z z).
Proof.
  pose proof (show_Z_digits z) as Hd. rewrite Forall_forall in Hd.
  split; intros [Hin|Hin]%Hd; discriminate.
Qed.

Lemma one_line_dec s : bool_decide (one_line s) = true → one_line s.
Proof. apply bool_decide_eq_true. Qed.

Lemma render_lines name help value rest :
  render_series (name, help, value) +:+ rest =
  ("# HELP " +:+ (name +:+ (" " +:+ help))) +:+ String "010"
    (("# TYPE " +:+ (name +:+ " counter")) +:+ String "010"
      ((name +:+ (" " +:+ show_Z value)) +:+ String "010" rest)).
Proof.
  unfold render_series. rewrite <- !string_app_assoc.
  repeat (rewrite !string_app_cons; change (EmptyString +:+ ?x) with x). done.
Qed.

Lemma read_comment l : starts_with l "#" = true → read_sample l = None.
Proof. unfold read_sample. intros ->. by destruct (split_once _ _) as [[]|]. Qed.

Lemma starts_with_hash name t :
  name ≠ "" → starts_with name "#" = false → starts_with (name +:+ t) "#" = false.
Proof.
  destruct name as [|a name]; [done|]. intros _ Hf. rewrite string_app_cons.
  apply not_true_iff_false. intros [r Hr]%starts_with_spec. apply not_true_iff_false in Hf.
  apply Hf, starts_with_spec. exists name. by injection Hr as -> _.
Qed.

Lemma scrape_series s rest :
  series_ok s → scrape (render_series s +:+ rest) = (s.1.1, s.2) :: scrape rest.
Proof.
  destruct s as [[name help] value]. intros (Hn & Hsp & Hne & Hh & Hhelp & Hv).
  cbn [fst snd] in *. assert (one_line " " ∧ one_line "# HELP " ∧ one_line "# TYPE " ∧ one_line " counter") as (H1 & H2 & H3 & H4)
    by (repeat split; apply (bool_decide_unpack _); vm_compute; done).
  rewrite render_lines. unfold scrape.
  rewrite lines_cons by (repeat apply one_line_pair; done).
  rewrite lines_cons by (repeat apply one_line_pair; done).
  rewrite lines_cons by (repeat apply one_line_pair; auto using one_line_show). cbn [omap list_omap].
  rewrite (read_comment ("# HELP " +:+ (name +:+ (" " +:+ help)))) by done.
  rewrite (read_comment ("# TYPE " +:+ (name +:+ " counter"))) by done.
  unfold read_sample. rewrite (starts_with_hash name) by done.
  change (" " +:+ show_Z value) with (String " " (show_Z value)).
  rewrite split_once_app, parse_int_show by (done || lia). done.
Qed.

Lemma series_all_ok m : counters_ok m → Forall series_ok (series m).
Proof.
  intros Hm. assert (Forall (λ s, bool_decide (one_line s.1.1 ∧ " "%char ∉ bytes s.1.1 ∧ s.1.1 ≠ "" ∧
    starts_with s.1.1 "#" = false ∧ one_line s.1.2) = true) (series m)) as Ht
    by (repeat constructor).
  unfold counters_ok in Hm. revert Hm Ht. generalize (series m).
  induction l as [|s l IH]; intros Hm Ht; [constructor|].
  apply Forall_cons in Hm as [Hv Hm]. apply Forall_cons in Ht as [Hs Ht].
  apply bool_decide_eq_true in Hs as (? & ? & ? & ? & ?).
  constructor; [unfold series_ok; tauto|by apply IH].
Qed.

(** What the process counts is what a scraper reads: a reader of the exposition text
    finds exactly the five series, each with its counter's value. *)
Theorem metrics_scraped m :
  counters_ok m → scrape (rs_body (metrics m)) = map (λ s, (s.1.1, s.2)) (series m).
Proof.
  intros Hm%series_all_ok. unfold metrics, render_prometheus. cbn [rs_body].
  revert Hm. generalize (series m). intros l0 Hm. induction Hm as [|s l Hs _ IH]; [done|]. cbn [map string_concat].
  by rewrite scrape_series, IH.
Qed.

(** Over any increments of the chat and the observer the counters stay in range, and no
    plan dispatch is ever counted. *)
Lemma counters_run l :
  let m := foldl (λ m i, match i with Some o => observer_handles o m | None => inc_recall_degraded m end)
             metrics_new l in
  counters_ok m ∧ m_plan_dispatches m = 0.
Proof.
  assert (counters_ok metrics_new ∧ m_plan_dispatches metrics_new = 0) as Hn
    by (split; [repeat constructor; simpl; lia|done]).
  revert Hn. generalize metrics_new. induction l as [|i l IH]; intros m Hm; [done|].
  simpl. apply IH. destruct Hm as [Hm Hp]. unfold counters_ok, series in *.
  rewrite !Forall_cons in Hm.
  destruct i as [[n|n|n]|]; simpl; (split; [|done]);
    repeat (apply Forall_cons_2; [simpl; first [apply fetch_add_range|tauto]|]); constructor.
Qed.

Lemma metrics_scraped_witness :
  scrape (rs_body (metrics (observer_handles (IncIngest 3) metrics_new))) =
  [("daimon_ingest_cycles_total", 3); ("daimon_anomalies_raised_total", 0);
   ("daimon_sink_push_failures_total", 0); ("daimon_plan_dispatches_total", 0);
   ("daimon_memory_recall_degraded_total", 0)].
Proof.
  refine (metrics_scraped (observer_handles (IncIngest 3) metrics_new) _).
  repeat (apply Forall_cons_2; [vm_compute; split; [discriminate|reflexivity]|]). constructor.
Defined.
