(* ===== verification/Startup.v ===== *)
(** * daimon-app: startup
    ([daimon-app/src/main.rs], [daimon-broker/src/production.rs])

    What happens between the start of the process and the first request: the database
    is migrated, the broker assembled around the guard, secret and first administrator
    created, the agents spawned and linted, the optional tiers and the messaging
    channels wired. {!boot_app} is [main] up to the listener; an error value is an exit
    or a panic. The file system, the environment, the TOML readers, the migration
    runner and the constructors of the network clients are the record {!boot_host};
    the HTTP router, the subscriber of log lines and the spawned loops themselves are
    elsewhere. *)

From stdpp Require Import sorting.
From S2P Require Import Prelude RustStd Json Core KillSwitch Policy Approvals Guard.
From S2P Require Import Gateway Inventory AuditLog Broker Admin Vault Memory HotMemory.
From S2P Require Import AppDb Iam Config Observer Runtime Supervisor Param Connector.
From S2P Require Import RouterOs Chat Adapters Skills Graph Tables.
From Stdlib Require Import ZArith Ascii.

Local Open Scope Z_scope.

(** ** Places *)

Section Places.
Variable env : string → option string.

(** [resolve_pg_url]. *)
Definition app_pg_url : string :=
  match env "DAIMON_PG_URL" with
  | Some u => u
  | None => "postgres://" +:+ default "postgres" (env "USER") +:+ "@localhost:5432/daimon"
  end.

(** The paths of [boot_broker]. *)
Definition data_dir : string := default "daimon-data" (env "DAIMON_DATA_DIR").
Definition known_hosts_path : string :=
  default (data_dir +:+ "/known_hosts") (env "DAIMON_KNOWN_HOSTS_PATH").
Definition kill_path : string := default (data_dir +:+ "/KILL") (env "DAIMON_KILL_PATH").
Definition policy_path : string :=
  default (data_dir +:+ "/policy.toml") (env "DAIMON_POLICY_PATH").

Definition connectors_dir : string := default "deploy/connectors" (env "DAIMON_CONNECTORS_DIR").
Definition skills_dir : string := default "deploy/skills" (env "DAIMON_SKILLS_DIR").

(** A variable that is set to something. *)
Definition env_nonempty (key : string) : option string :=
  env key ≫= λ s, if string_eqb s "" then None else Some s.

(** The observer's two addresses, when it runs at all. *)
Definition observer_urls : option (string * string) :=
  (λ prom, (prom, default "http://localhost:8428" (env "DAIMON_VM_URL"))) <$> env "DAIMON_PROM_URL".
End Places.

(** [str::rfind('@')], as the text from there on. *)
Fixpoint from_last (c : ascii) (s : string) : option string :=
  match s with
  | EmptyString => None
  | String a s' =>
      match from_last c s' with
      | Some t => Some t
      | None => if bool_decide (a = c) then Some s else None
      end
  end.

(** [&url[..url.find(p)? + p.len()]]. *)
Fixpoint up_to (p s : string) : option string :=
  if starts_with s p then Some p
  else match s with
       | EmptyString => None
       | String a s' => String a <$> up_to p s'
       end.

(** [scrub_pg_url]. *)
Definition scrub_pg_url (url : string) : string :=
  match from_last "@"%char url, up_to "://" url with
  | Some after_at, Some scheme => scheme +:+ "*****" +:+ after_at
  | _, _ => url
  end.

(** ** The settings of the channels *)

Section Channels.
Context `{LowerCase}.

(** The values [truthy] and [cfg_str] accept. *)
Definition truthy_value (v : option json) : bool :=
  match v with
  | Some (JBool b) => b
  | Some (JString s) => existsb (string_eqb (to_lowercase s)) ["true"; "1"; "yes"; "on"]
  | _ => false
  end.

Definition str_value (v : option json) : option string :=
  match v with
  | Some (JString s) => if string_eqb (trim s) "" then None else Some s
  | _ => None
  end.
End Channels.

(** A poller with the key its cursor is stored under. *)
Inductive poller :=
| PollTelegram (a : TelegramPollAdapter) (cursor : string)
| PollMatrix (a : MatrixAdapter) (cursor : string).

(** The working memory and the long-term memory that were chosen. *)
Inductive hot_tier := HotRedis (url : string) | HotInProc.
Inductive memory_tier := MemDmem (d : DmemHttpMemory) | MemNull.

(** ** Assembly *)

(** [BootError] and the context of the master key. *)
Inductive broker_failure :=
| BootKey (e : MasterKeyError)
| BootDb (e : string)
| BootGuard (e : string).

Inductive boot_failure :=
| BadPool (e : string)                    (** [eprintln!] and [exit(1)] *)
| BadBroker (e : broker_failure)
| BootPanic (e : string)                   (** an [unwrap] *)
| BadSpawn (agent : AgentId) (e : RuntimeError)
| BadConnectors (e : ConnectorError)
| BadPolicy (e : string)
| BadSkills (e : SkillError).

Section Startup.
Context `{SemVer} {I V D M : Type} `{VaultAdmin V} `{PgMessages} `{Jwt} `{Bcrypt}.
Context `{HashOrder RegistryEntry} {S : Type} `{RedisServer S} `{JsonText}.
Context {GW : Type} `{GraphHttp GW} `{LowerCase} `{ConstantTimeEq}.
Abbreviation bw := (@bworld _ I V D).
Abbreviation appw := (app bw M).
Abbreviation aio := (io appw string).

(** What [main] finds: the environment, the outcome of the migrations and of building
    pools and clients, the files, and the three transports. *)
Record boot_host := mkBootHost {
  bh_host : host;
  bh_migrate : string → result string unit;
  bh_pool : string → result string unit;
  bh_policy : string → bool * result string (list PolicyRule);
  bh_dir : string → option (result string (list (result string dir_entry)));
  bh_profile : string → result string ConnectorProfile;
  bh_skill : string → result string Skill;
  bh_update : string → result string Update;
  bh_redis : string → result string unit;
  bh_reqwest : result string unit;
  bh_url : string → result string (option string * option Z);
  bh_ssh : string → Transport D;
  bh_rest : Transport D;
  bh_snmp : Transport D;
}.

Definition bh_env (h : boot_host) (key : string) : option string :=
  env_var (host_env (bh_host h)) key.

(** The map of [build_production_broker]. *)
Definition production_transports (h : boot_host) (known_hosts : string) (k : TransportKind) :
    option (Transport D) :=
  match k with
  | Ssh => Some (bh_ssh h known_hosts)
  | Rest => Some (bh_rest h)
  | Snmp => Some (bh_snmp h)
  | Grpc => None
  end.

(** [build_production_broker]: the policy decides whether there is a broker; a file
    that is absent denies everything. *)
Definition build_production_broker (h : boot_host) (pg_url known_hosts policy : string) :
    result broker_failure (Broker (D := D)) :=
  _ ← map_err BootDb (bh_pool h pg_url);
  p ← map_err BootGuard (policy_from_file (bh_policy h policy).1 (bh_policy h policy).2);
  Ok (with_guard p (with_production_admin (production_transports h known_hosts))).

(** [boot_broker]. *)
Definition boot_broker (h : boot_host) : result broker_failure (Broker (D := D)) :=
  _ ← map_err BootKey (from_systemd_or_dev_env (bh_host h));
  build_production_broker h (app_pg_url (bh_env h)) (known_hosts_path (bh_env h))
    (policy_path (bh_env h)).

(** [Guard::new] on the state a former process left: the inbox stays. *)
Definition install_guard (g : gworld) : gworld :=
  set_kill kill_new (set_timeout DEFAULT_APPROVAL_TIMEOUT_SECS (set_bus_handle None g)).

(** [init_pool]. *)
Definition init_pool (h : boot_host) : result string unit :=
  _ ← bh_migrate h (app_pg_url (bh_env h)); bh_pool h (app_pg_url (bh_env h)).

(** The settings snapshot; what cannot be loaded is empty. *)
Definition load_config : aio unit :=
  attempt (reload (M := M)) ≫= λ r,
  match r with Ok _ => mret tt | Err _ => modify (set_live ∅) end.

(** The signing secret. *)
Definition new_jwt_secret : aio string :=
  generate_secret ≫= λ secret, on_db (set_config "jwt_secret" secret) ≫= λ _, mret secret.

Definition ensure_jwt_secret : aio string :=
  attempt (on_db (get_config "jwt_secret")) ≫= λ r,
  match r with
  | Ok (Some secret) => mret secret
  | _ => new_jwt_secret
  end.

(** The first administrator. A generated secret is ASCII, so its first 16 bytes are
    its first 16 characters. *)
Definition admin_password (h : boot_host) : aio string :=
  match bh_env h "DAIMON_ADMIN_PASSWORD" with
  | Some p => mret p
  | None => generate_secret ≫= λ pwd, mret (string_of_bytes (take 16 (bytes pwd)))
  end.

Definition seed_admin (h : boot_host) : aio unit :=
  attempt (on_db (find_user "admin")) ≫= λ r,
  match r with
  | Ok (Some _) => mret tt
  | _ => admin_password h ≫= λ password, hash_password password ≫= λ hash,
         on_db (db_create_user "admin" hash ["admin"]) ≫= λ _, mret tt
  end.

(** ** Channels *)

(** [resolve_vault_api_token] with the actor of the boot. *)
Definition boot_token (b : Broker (D := D)) (name : string) : aio (option string) := λ w,
  let '(r, bw') := resolve_vault_api_token b name "system:boot" (ap_broker w) in
  (Ok r, set_broker bw' w).

(** [truthy], [cfg_str]. *)
Definition read_setting (key : string) : aio (option json) :=
  attempt (on_db (get_config_json key)) ≫= λ r, mret (mjoin (ok r)).
Definition truthy (key : string) : aio bool := read_setting key ≫= λ v, mret (truthy_value v).
Definition cfg_str (key : string) : aio (option string) := read_setting key ≫= λ v, mret (str_value v).

(** A secret: the credential a setting names, or else an environment variable. *)
Definition channel_secret (h : boot_host) (b : Broker (D := D)) (cred_key env_key : string) :
    aio (option string) :=
  cfg_str cred_key ≫= λ cred,
  match cred with
  | Some name => boot_token b name
  | None => mret None
  end ≫= λ token,
  mret (match token with Some t => Some t | None => env_nonempty (bh_env h) env_key end).

(** [resolve_dmem_token]. *)
Definition resolve_dmem_token (h : boot_host) (b : Broker (D := D)) : aio (option string) :=
  boot_token b "dmem-bearer" ≫= λ token,
  mret (match token with Some t => Some t | None => env_nonempty (bh_env h) "DAIMON_DMEM_TOKEN" end).

Abbreviation wiring := (GatewayRegistry * list poller)%type.

(** [build_gateways], by channel. *)
Definition wire_telegram (h : boot_host) (b : Broker (D := D)) (g : wiring) : aio wiring :=
  truthy "channels.telegram.enabled" ≫= λ enabled : bool,
  if negb enabled then mret g
  else
    cfg_str "channels.telegram.mode" ≫= λ mode,
    channel_secret h b "channels.telegram.bot_token_cred" "DAIMON_GW_TELEGRAM_TOKEN" ≫= λ token,
    match token with
    | None => mret g
    | Some token =>
        if string_eqb (to_ascii_lowercase (default "poll" mode)) "webhook" then
          channel_secret h b "channels.telegram.webhook_secret_cred"
            "DAIMON_GW_TELEGRAM_WEBHOOK_SECRET" ≫= λ secret,
          mret (match secret with
                | Some secret =>
                    (register_gateway (telegram_gateway (bh_update h) (telegram_new token secret)) g.1, g.2)
                | None => g
                end)
        else mret (g.1, g.2 ++ [PollTelegram (telegram_poll_new token) "channels.telegram.offset"])
    end.

Definition wire_matrix (b : Broker (D := D)) (g : wiring) : aio wiring :=
  truthy "channels.matrix.enabled" ≫= λ enabled : bool,
  if negb enabled then mret g
  else
    cfg_str "channels.matrix.homeserver" ≫= λ homeserver,
    cfg_str "channels.matrix.access_token_cred" ≫= λ token_cred,
    match homeserver, token_cred with
    | Some hs, Some tc =>
        boot_token b tc ≫= λ token,
        mret (match token with
              | Some token => (g.1, g.2 ++ [PollMatrix (matrix_new hs token) "channels.matrix.since"])
              | None => g
              end)
    | _, _ => mret g
    end.

Definition build_gateways (h : boot_host) (b : Broker (D := D)) : aio wiring :=
  wire_telegram h b (∅, []) ≫= wire_matrix b.

(** ** Tiers *)

(** [connect_working_memory]; [cmd] is the [PING]. *)
Definition connect_working_memory (h : boot_host) (cmd : io S string string) (url : string) (w : S) :
    hot_tier * S :=
  match bh_redis h url with
  | Ok _ => let '(r, w) := ping cmd w in (if is_ok r then HotRedis url else HotInProc, w)
  | Err _ => (HotInProc, w)
  end.

Definition choose_hot (h : boot_host) (cmd : io S string string) (w : S) : hot_tier * S :=
  match bh_env h "DAIMON_REDIS_URL" with
  | Some s => if string_eqb s "disabled" then (HotInProc, w) else connect_working_memory h cmd s w
  | None => connect_working_memory h cmd "redis://localhost:6379" w
  end.

(** The graph tier: a client whose schema could be set up. *)
Definition choose_graph (h : boot_host) (w : GW) : option NornicGraphClient * GW :=
  match env_nonempty (bh_env h) "DAIMON_GRAPH_URL" with
  | Some uri =>
      match nornic_connect (bh_url h) uri with
      | Ok c => let '(r, w) := ensure_schema c SCHEMA_CYPHER w in
                (if is_ok r then Some c else None, w)
      | Err _ => (None, w)
      end
  | None => (None, w)
  end.

(** The long-term memory. *)
Definition choose_memory (h : boot_host) (b : Broker (D := D)) : aio memory_tier :=
  resolve_dmem_token h b ≫= λ token,
  mret (match token with
        | Some t =>
            match dmem_new (bh_reqwest h) (default "http://localhost:7071" (bh_env h "DAIMON_DMEM_URL")) t with
            | Ok d => MemDmem d
            | Err _ => MemNull
            end
        | None => MemNull
        end).

(** ** The process *)

Record bootw := mkBootw {
  bt_app : appw;
  bt_sup : sworld;
  bt_redis : S;
  bt_graph : GW;
}.
Abbreviation btio := (io bootw boot_failure).

Definition on_bapp {E A} (f : E → boot_failure) (m : io appw E A) : btio A :=
  io_map_err f (zoom bt_app (λ a w, mkBootw a (bt_sup w) (bt_redis w) (bt_graph w)) m).
Definition on_bsup {E A} (f : E → boot_failure) (m : io sworld E A) : btio A :=
  io_map_err f (zoom bt_sup (λ s w, mkBootw (bt_app w) s (bt_redis w) (bt_graph w)) m).

(** What [AppState] holds besides the world, and what was spawned. *)
Record Booted := mkBooted {
  bo_state : AppState (D := D);
  bo_hot : hot_tier;
  bo_graph : option NornicGraphClient;
  bo_memory : memory_tier;
  bo_gateways : GatewayRegistry;
  bo_pollers : list poller;
  bo_skills : SkillLibrary;
  bo_observer : option (string * string);
}.

(** Database, broker, settings, secret, administrator. *)
Definition open_stores (h : boot_host) : btio (Broker (D := D) * string) :=
  lift (map_err BadPool (init_pool h)) ≫= λ _,
  lift (map_err BadBroker (boot_broker h)) ≫= λ b,
  on_bapp BootPanic (modify (λ w, set_broker (set_guard (install_guard (b_guard (ap_broker w)))
    (ap_broker w)) w)) ≫= λ _,
  on_bapp BootPanic load_config ≫= λ _,
  on_bapp BootPanic ensure_jwt_secret ≫= λ secret,
  on_bapp BootPanic (seed_admin h) ≫= λ _,
  mret (b, secret).

(** [supervisor.spawn] of one agent. *)
Definition start_agent (a : Agent) : btio unit := on_bsup (BadSpawn (ag_id a)) (sup_spawn a).

Definition routeros_agent : Agent := mkAgent "agent:routeros" build_capabilities.
Definition connector_agent (d : ConnectorDriver) : Agent := mkAgent (cd_id d) (cd_capabilities d).
Definition triage_agent : Agent :=
  mkAgent "agent:triage" [read_only TRIAGE_CAPABILITY (version_new 1 0 0)].

Fixpoint start_connectors (l : list ConnectorDriver) : btio unit :=
  match l with
  | [] => mret tt
  | d :: l => start_agent (connector_agent d) ≫= λ _, start_connectors l
  end.

(** Bus, registry and supervisor; the drivers; the lint over what they registered.
    The handle of the bus never refuses an envelope. *)
Definition start_drivers (h : boot_host) (b : Broker (D := D)) : btio unit :=
  on_bsup BootPanic (modify (λ _, sup_new)) ≫= λ _,
  on_bapp BootPanic (modify (λ w,
    match br_guard b with
    | Some _ => set_broker (set_guard (set_bus (λ _, Ok tt) (b_guard (ap_broker w))) (ap_broker w)) w
    | None => w
    end)) ≫= λ _,
  start_agent routeros_agent ≫= λ _,
  lift (map_err BadConnectors (from_dir (bh_profile h) "agent:connector" (connectors_dir (bh_env h))
    (bh_dir h (connectors_dir (bh_env h))) "agent:connector")) ≫= λ drivers,
  start_connectors drivers ≫= λ _,
  gets (λ w, capabilities (s_registry (bt_sup w))) ≫= λ caps,
  lift (map_err BadPolicy (lint_write_capabilities b caps)).

(** [main], up to the listener. *)
Definition boot_app (h : boot_host) (cmd : io S string string) : btio Booted :=
  open_stores h ≫= λ '(b, secret),
  start_drivers h b ≫= λ _,
  (λ w, let '(t, r) := choose_hot h cmd (bt_redis w) in
        (Ok t, mkBootw (bt_app w) (bt_sup w) r (bt_graph w))) ≫= λ hot,
  (λ w, let '(c, g) := choose_graph h (bt_graph w) in
        (Ok c, mkBootw (bt_app w) (bt_sup w) (bt_redis w) g)) ≫= λ graph,
  on_bapp BootPanic (choose_memory h b) ≫= λ memory,
  start_agent triage_agent ≫= λ _,
  on_bapp BootPanic (build_gateways h b) ≫= λ '(registry, pollers),
  lift (map_err BadSkills (skills_from_dir (bh_skill h) (skills_dir (bh_env h))
    (bh_dir h (skills_dir (bh_env h))))) ≫= λ skills,
  let st := mkState secret b in
  on_bapp BootPanic (modify (λ w, apply_runtime_tunables (bh_env h) st (ap_config w) w)) ≫= λ _,
  mret (mkBooted st hot graph memory registry pollers skills (observer_urls (bh_env h))).

(** One pass of the retention sweep; the outcome is only logged. *)
Definition sweep_chat_history (h : boot_host) : aio unit :=
  gets (λ w, cfg_u64 (bh_env h) (ap_config w) "chat.history_retention_days"
    (Some "DAIMON_CHAT_HISTORY_RETENTION_DAYS") 0) ≫= λ days,
  if 0 <? days then attempt (on_db (prune_chat_history days)) ≫= λ _, mret tt else mret tt.

(** ** What the start of the process leaves alone *)

(** The guard stays, and with it an answering database. *)
Definition keeps (w w' : appw) : Prop :=
  b_guard (ap_broker w') = b_guard (ap_broker w) ∧ (quiet w → ap_pg w' = ap_pg w).

#[local] Instance keeps_refl : Reflexive keeps.
Proof. by split. Qed.

#[local] Instance keeps_trans : Transitive keeps.
Proof.
  intros w1 w2 w3 [Hg Hp] [Hg' Hp']. split; [congruence|]. intros Hq. rewrite <- (Hp Hq).
  apply Hp'. unfold quiet. by rewrite Hp.
Qed.

Lemma read_setting_keeps key : evolves keeps (read_setting key).
Proof.
  unfold read_setting. apply evolves_bind; [apply _|apply evolves_attempt|intros; by apply evolves_ret, _].
  intros w. split.
  - unfold on_db, zoom. by destruct (get_config_json key (ap_pg w)).
  - intros Hq. unfold get_config_json, select. rewrite query_quiet by done. by rewrite put_db.
Qed.

Lemma read_setting_quiet key (w : appw) :
  quiet w → read_setting key w = (Ok (config_value key (db w)), w).
Proof.
  intros Hq. unfold read_setting. unfold mbind at 1, io_bind at 1, attempt, get_config_json, select.
  rewrite query_quiet by done. cbn. by rewrite put_db.
Qed.

Lemma vault_call_guard {A} b actor action cred summary (m : io V VaultError A) (w : bw) :
  b_guard (vault_call b actor action cred summary m w).2 = b_guard w.
Proof.
  destruct (br_vault_admin b) eqn:Hb.
  - by destruct (vault_call_run b actor action cred summary m w Hb) as (w' & -> & _ & Hg).
  - unfold vault_call, require_vault_admin. by rewrite Hb.
Qed.

Lemma boot_token_keeps b name : evolves keeps (boot_token b name).
Proof.
  intros w. unfold boot_token, resolve_vault_api_token, reveal_token.
  pose proof (vault_call_guard b "system:boot" VaultResolve None (Some "vault list")
    va_list_metadata (ap_broker w)) as Hl. fold (vault_list_metadata (D := D) (I := I) b "system:boot") in Hl.
  destruct (vault_list_metadata b "system:boot" (ap_broker w)) as [[metas|e] w1]; simpl in Hl; [|by split].
  destruct (find_named name metas) as [m|]; [|by split].
  pose proof (vault_call_guard b "system:boot" VaultReveal (Some ("id=" +:+ cm_id m))
    (Some ("revealed credential id=" +:+ cm_id m)) (va_reveal (cm_id m)) w1) as Hr.
  fold (vault_reveal (D := D) (I := I) b "system:boot" (cm_id m)) in Hr.
  destruct (vault_reveal b "system:boot" (cm_id m) w1) as [r w2]. simpl in *. split; [simpl; congruence|done].
Qed.

#[local] Hint Resolve read_setting_keeps boot_token_keeps : boot_frame.
#[local] Hint Extern 5 (evolves keeps (_ ≫= _)) => apply evolves_bind; [apply _|..] : boot_frame.
#[local] Hint Extern 5 (evolves keeps (mret _)) => apply evolves_ret, _ : boot_frame.
#[local] Hint Extern 6 (evolves keeps (match ?x with _ => _ end)) => destruct x : boot_frame.

Lemma channel_secret_keeps h b c e : evolves keeps (channel_secret h b c e).
Proof. unfold channel_secret, cfg_str. auto 12 with boot_frame. Qed.
#[local] Hint Resolve channel_secret_keeps : boot_frame.

Lemma build_gateways_keeps h b : evolves keeps (build_gateways h b).
Proof.
  unfold build_gateways, wire_telegram, wire_matrix, truthy, cfg_str. auto 20 with boot_frame.
Qed.

Lemma choose_memory_keeps h b : evolves keeps (choose_memory h b).
Proof. unfold choose_memory, resolve_dmem_token. auto 12 with boot_frame. Qed.

(** ** The broker *)

Lemma boot_broker_ok h b :
  boot_broker h = Ok b →
  ∃ p, policy_from_file (bh_policy h (policy_path (bh_env h))).1
         (bh_policy h (policy_path (bh_env h))).2 = Ok p ∧
    b = with_guard p (with_production_admin (production_transports h (known_hosts_path (bh_env h)))).
Proof.
  unfold boot_broker, build_production_broker, mbind, result_bind.
  destruct (from_systemd_or_dev_env _), (bh_pool h _); try done. simpl.
  destruct (policy_from_file _ _) as [p|]; [|done]. intros [= <-]. by exists p.
Qed.

(** ** The agents *)

(** An agent that is registered is known. *)
Definition registered_known (w : sworld) : Prop :=
  ∀ id, s_agents w !! id = None → s_registry w !! id = None.

Lemma start_agent_ok a (w w' : bootw) :
  start_agent a w = (Ok tt, w') →
  bt_app w' = bt_app w ∧ s_agents (bt_sup w) !! ag_id a = None ∧
  bt_sup w' = spawn_commit a (bt_sup w) ∧
  (registered_known (bt_sup w) → registered_known (bt_sup w')).
Proof.
  unfold start_agent, on_bsup, zoom, io_map_err, sup_spawn, spawn_check, mbind, io_bind.
  destruct (s_agents (bt_sup w) !! ag_id a) eqn:Ha; [done|]. cbn. intros [= <-].
  do 3 (split; [done|]). intros Hk id. cbn.
  destruct (decide (id = ag_id a)) as [->|Hne]; [by rewrite lookup_insert_eq|].
  unfold register. rewrite !lookup_insert_ne by done. apply Hk.
Qed.

Lemma start_connectors_ok l (w w' : bootw) :
  start_connectors l w = (Ok tt, w') →
  bt_app w' = bt_app w ∧ (registered_known (bt_sup w) → registered_known (bt_sup w')).
Proof.
  revert w. induction l as [|d l IH]; intros w Hrun; simpl in Hrun; inv_io; [done|].
  match goal with H : start_agent _ _ = (Ok ?u, _) |- _ => destruct u; apply start_agent_ok in H end.
  apply IH in Hrun. naive_solver congruence.
Qed.

(** The drivers run, and the lint accepted what they registered. *)
Lemma start_drivers_ok h b p (w w' : bootw) :
  br_guard b = Some p → start_drivers h b w = (Ok tt, w') →
  lint_write_capabilities b (capabilities (s_registry (bt_sup w'))) = Ok tt ∧
  registered_known (bt_sup w') ∧ ap_pg (bt_app w') = ap_pg (bt_app w) ∧
  b_guard (ap_broker (bt_app w')) = set_bus (λ _, Ok tt) (b_guard (ap_broker (bt_app w))).
Proof.
  intros Hp. unfold start_drivers, on_bsup, on_bapp. rewrite Hp. intros Hrun. inv_io.
  repeat match goal with
  | H : zoom _ _ (modify _) _ = _ |- _ => unfold zoom, modify in H; simplify_eq/=
  | H : start_agent _ _ = (Ok ?u, _) |- _ => destruct u; apply start_agent_ok in H as (Ha & _ & _ & Hk)
  | H : start_connectors _ _ = (Ok ?u, _) |- _ =>
      destruct u; apply start_connectors_ok in H as (Ha' & Hk')
  end.
  destruct (lint_write_capabilities b _) as [[]|] eqn:Hl; [|done].
  split; [done|]. split; [apply Hk', Hk; by intros id _|]. by rewrite Ha', Ha.
Qed.

(** ** The whole start *)

Lemma on_bapp_keeps {E A} (f : E → boot_failure) (m : io appw E A) w r (w' : bootw) :
  evolves keeps m → on_bapp f m w = (r, w') → keeps (bt_app w) (bt_app w') ∧ bt_sup w' = bt_sup w.
Proof.
  intros Hm. unfold on_bapp, io_map_err, zoom. specialize (Hm (bt_app w)).
  destruct (m (bt_app w)) as [x a]. intros [= _ <-]. done.
Qed.

(** The tunables reach the guard's timeout and the observer's interval only. *)
Lemma tunables_frame env st cfg (w : appw) :
  ap_pg (apply_runtime_tunables env st cfg w) = ap_pg w ∧
  g_bus (b_guard (ap_broker (apply_runtime_tunables env st cfg w))) = g_bus (b_guard (ap_broker w)).
Proof.
  unfold apply_runtime_tunables. destruct (br_guard _); [|done]. simpl. split; [done|].
  unfold set_approval_timeout_secs. by destruct (0 <? _).
Qed.

Lemma boot_ok h cmd (w : bootw) bo w' :
  boot_app h cmd w = (Ok bo, w') →
  ∃ b secret w1 w2,
    open_stores h w = (Ok (b, secret), w1) ∧ start_drivers h b w1 = (Ok tt, w2) ∧
    bo_state bo = mkState secret b ∧
    s_agents (bt_sup w2) !! ag_id triage_agent = None ∧
    bt_sup w' = spawn_commit triage_agent (bt_sup w2) ∧
    g_bus (b_guard (ap_broker (bt_app w'))) = g_bus (b_guard (ap_broker (bt_app w2))) ∧
    (quiet (bt_app w2) → ap_pg (bt_app w') = ap_pg (bt_app w2)).
Proof.
  unfold boot_app. intros ([b secret] & w1 & Ho & Hrun)%io_bind_ok.
  apply io_bind_ok in Hrun as ([] & w2 & Hd & Hrun). exists b, secret, w1, w2.
  do 2 (split; [done|]). clear Ho Hd.
  apply io_bind_ok in Hrun as (hot & w3 & Hh & Hrun).
  destruct (choose_hot h cmd (bt_redis w2)) as [t r]. simplify_eq/=.
  apply io_bind_ok in Hrun as (graph & w4 & H4' & Hrun). simpl in H4'.
  destruct (choose_graph h (bt_graph w2)) as [c g]. simplify_eq/=.
  apply io_bind_ok in Hrun as (memory & w5 & Hm & Hrun).
  apply on_bapp_keeps in Hm as [[Hg5 Hp5] Hs5]; [|apply choose_memory_keeps]. simpl in *.
  apply io_bind_ok in Hrun as ([] & w6 & Ht & Hrun). apply start_agent_ok in Ht as (Ha6 & Hn & Hs6 & _).
  apply io_bind_ok in Hrun as ([reg ps] & w7 & Hw & Hrun).
  apply on_bapp_keeps in Hw as [[Hg7 Hp7] Hs7]; [|apply build_gateways_keeps].
  apply io_bind_ok in Hrun as (skills & w8 & [_ <-]%lift_ok & Hrun).
  apply io_bind_ok in Hrun as ([] & w9 & Hu & Hrun). inv_io.
  unfold on_bapp, io_map_err, zoom, modify in Hu. simplify_eq. cbn [bt_app bt_sup bo_state].
  destruct (tunables_frame (bh_env h) (mkState secret b) (ap_config (bt_app w7)) (bt_app w7)) as [Hpg Hbus].
  split; [done|]. split; [by rewrite <- Hs5|]. split; [congruence|].
  split; [by rewrite Hbus, Hg7, Ha6, Hg5|].
  intros Hq. rewrite Hpg. rewrite <- (Hp5 Hq), <- Ha6. apply Hp7. unfold quiet. rewrite Ha6, Hp5; done.
Qed.

(** Secret and administrator are made in the database, not in the broker. *)
Definition same_broker (w w' : appw) : Prop := ap_broker w' = ap_broker w.

#[local] Instance same_broker_refl : Reflexive same_broker.
Proof. done. Qed.

#[local] Instance same_broker_trans : Transitive same_broker.
Proof. unfold same_broker. congruence. Qed.

Lemma on_db_broker {A} (m : dio A) : evolves same_broker (on_db m).
Proof. intros w. unfold on_db, zoom. by destruct (m (ap_pg w)). Qed.

Lemma random_broker n : evolves same_broker (random_bytes n).
Proof. intros w. unfold random_bytes. by destruct (fill_bytes n (ap_rng w)). Qed.

#[local] Hint Resolve on_db_broker random_broker : broker_frame.
#[local] Hint Extern 5 (evolves same_broker (_ ≫= _)) => apply evolves_bind; [apply _|..] : broker_frame.
#[local] Hint Extern 5 (evolves same_broker (mret _)) => apply evolves_ret, _ : broker_frame.
#[local] Hint Extern 5 (evolves same_broker (attempt _)) => apply evolves_attempt : broker_frame.
#[local] Hint Extern 5 (evolves same_broker (modify _)) => by intros ? : broker_frame.
#[local] Hint Extern 6 (evolves same_broker (match ?x with _ => _ end)) => destruct x : broker_frame.

Lemma load_config_broker : evolves same_broker load_config.
Proof. unfold load_config, reload. auto 12 with broker_frame. Qed.

Lemma jwt_secret_broker : evolves same_broker ensure_jwt_secret.
Proof. unfold ensure_jwt_secret, new_jwt_secret, generate_secret. auto 12 with broker_frame. Qed.

Lemma seed_admin_broker h : evolves same_broker (seed_admin h).
Proof. unfold seed_admin, admin_password, hash_password, generate_secret. auto 16 with broker_frame. Qed.

Lemma on_bapp_run {E A} (f : E → boot_failure) (m : io appw E A) (w : bootw) a w' :
  on_bapp f m w = (Ok a, w') → m (bt_app w) = (Ok a, bt_app w') ∧ bt_sup w' = bt_sup w.
Proof.
  unfold on_bapp, io_map_err, zoom. destruct (m (bt_app w)) as [[x|] v]; [|done]. by intros [= -> <-].
Qed.

Lemma open_stores_ok h (w : bootw) b secret w' :
  open_stores h w = (Ok (b, secret), w') →
  boot_broker h = Ok b ∧ g_bus (b_guard (ap_broker (bt_app w'))) = None ∧
  ∃ a0 a1 a2, ap_pg a0 = ap_pg (bt_app w) ∧ load_config a0 = (Ok tt, a1) ∧
    ensure_jwt_secret a1 = (Ok secret, a2) ∧ seed_admin h a2 = (Ok tt, bt_app w').
Proof.
  unfold open_stores. intros Hrun. inv_io.
  destruct (boot_broker h) as [b'|] eqn:Hb; simplify_eq/=.
  repeat match goal with
  | H : on_bapp _ (modify _) _ = _ |- _ =>
      apply on_bapp_run in H as [H ?]; unfold modify in H; simplify_eq
  | H : on_bapp _ _ _ = (Ok _, _) |- _ => apply on_bapp_run in H as [H ?]
  end.
  repeat match goal with x : unit |- _ => destruct x end. split; [done|].
  match goal with
  | Ha : set_broker _ _ = ?a0, Hl : load_config ?a0 = (_, ?a1), Hj : ensure_jwt_secret ?a1 = (_, ?a2),
    Hs : seed_admin h ?a2 = _ |- _ =>
      pose proof (load_config_broker a0) as E1; pose proof (jwt_secret_broker a1) as E2;
      pose proof (seed_admin_broker h a2) as E3; rewrite Hl in E1; rewrite Hj in E2; rewrite Hs in E3;
      unfold same_broker in *; simpl in *; split; [by rewrite E3, E2, E1, <- Ha|];
      exists a0, a1, a2; split; [by rewrite <- Ha|done]
  end.
Qed.

Context `{Inventory I} `{VaultClient V}.

(** The registered capabilities of every agent but triage. *)
Definition driver_capability (w : bootw) (c : Capability) : Prop :=
  ∃ id e, id ≠ "agent:triage" ∧ s_registry (bt_sup w) !! id = Some e ∧ c ∈ re_capabilities e.

Lemma elem_of_capabilities r c :
  c ∈ capabilities r ↔ ∃ id e, r !! id = Some e ∧ c ∈ re_capabilities e.
Proof.
  unfold capabilities, reg_all. rewrite list_elem_of_bind. setoid_rewrite elem_of_hash_values.
  naive_solver.
Qed.

(** The capabilities of the drivers are those the lint saw. *)
Lemma driver_capability_linted (w w2 : bootw) c :
  registered_known (bt_sup w2) → s_agents (bt_sup w2) !! ag_id triage_agent = None →
  bt_sup w = spawn_commit triage_agent (bt_sup w2) →
  driver_capability w c ↔ c ∈ capabilities (s_registry (bt_sup w2)).
Proof.
  intros Hk Hn Hs. unfold driver_capability. rewrite elem_of_capabilities, Hs. simpl. unfold register.
  split.
  - intros (id & e & Hne & He & Hc). exists id, e. by rewrite lookup_insert_ne in He.
  - intros (id & e & He & Hc). exists id, e.
    assert (id ≠ "agent:triage") as Hne by (intros ->; by rewrite Hk in He).
    by rewrite lookup_insert_ne.
Qed.

(** C11: a process that listens is gated. When the start succeeds, the broker has an
    audit sink and a guard, whose policy is the one of the policy file, or denies
    everything when there is no file, and which announces approvals on the bus. Every
    compensator a driver names is registered, and from then on, whatever happens, a
    request with a write capability of a driver reaches a device only if the inbox
    holds a fresh row for it that a named operator approved. *)
Theorem boot_gated h cmd (w : bootw) bo w' :
  boot_app h cmd w = (Ok bo, w') →
  let b := st_broker (bo_state bo) in
  ∃ policy, br_audit b = true ∧ br_guard b = Some policy ∧
    g_bus (b_guard (ap_broker (bt_app w'))) ≠ None ∧
    policy_from_file (bh_policy h (policy_path (bh_env h))).1
      (bh_policy h (policy_path (bh_env h))).2 = Ok policy ∧
    (∀ c comp, driver_capability w' c → cap_compensating c = Some comp →
       ∃ c', driver_capability w' c' ∧ cap_name c' = comp_name comp) ∧
    (∀ c t op actor v r v', driver_capability w' c → is_read c = false → deciders (b_guard v) →
       let req := with_capability_meta c (exec_new actor t op) in
       execute b req v = (r, v') → b_calls v' ≠ b_calls v →
       ∃ id row, g_table (b_guard v) !! id = None ∧ g_table (b_guard v') !! id = Some row ∧
         row_actor_id row = actor ∧ row_capability row = cap_name c ∧
         row_target_ref row = Some (target_show t) ∧ row_params row = gate_params req ∧
         row_status row = "approved" ∧ row_decided_by row ≠ None).
Proof.
  intros (b & secret & w1 & w2 & (Hb & Hbus & _)%open_stores_ok & Hd & Hst & Hn & Hs & Hg & _)%boot_ok.
  rewrite Hst. cbn zeta. simpl. apply boot_broker_ok in Hb as (p & Hp & ->). exists p.
  apply (start_drivers_ok _ _ p) in Hd as (Hl & Hk & _ & Hg2); [|done].
  do 2 (split; [done|]). split; [rewrite Hg, Hg2; unfold set_bus; by rewrite Hbus|]. split; [done|].
  setoid_rewrite (driver_capability_linted w' w2 _ Hk Hn Hs).
  apply lint_write_capabilities_spec in Hl as [Hc Ha]. split; [eauto|].
  intros c t op actor v r v' Hin Hw Hde He Hne. set (req := with_capability_meta c _) in *.
  assert (∀ c', rq_capability_meta req = Some c' → is_read c' = false) as Hm by (by intros ? [= <-]).
  set (b := with_guard p _) in *. assert (br_guard b = Some p) as Hb by done.
  destruct (execute_write_gated b req v r v' p Hb Hde Hm He Hne) as [Hallow|(id & row & Hrow)].
  - by destruct (Ha c p Hin Hw).
  - exists id, row. naive_solver.
Qed.

(** ** A second start *)

Definition jwt_stored (t : tables) : option string := config_value "jwt_secret" t ≫= as_str.

Lemma load_config_quiet (a a' : appw) : quiet a → load_config a = (Ok tt, a') → ap_pg a' = ap_pg a.
Proof.
  intros Hq. unfold load_config, mbind, io_bind, attempt. rewrite (reload_run a Hq).
  intros [= <-]. done.
Qed.

Lemma new_secret_quiet (a : appw) :
  quiet a →
  let s := hex_bytes (fill_bytes 32 (ap_rng a)).1 in
  ∃ a', new_jwt_secret a = (Ok s, a') ∧ quiet a' ∧ jwt_stored (db a') = Some s ∧
    t_users (db a') = t_users (db a) ∧ t_grants (db a') = t_grants (db a) ∧
    t_roles (db a') = t_roles (db a).
Proof.
  intros Hq. unfold new_jwt_secret, generate_secret.
  destruct (fill_bytes 32 (ap_rng a)) as [bs r] eqn:Hr. simpl.
  rewrite (io_bind_run_ok _ _ a (hex_bytes bs) (set_rng r a)).
  2:{ unfold random_bytes, mbind, io_bind. by rewrite Hr. }
  unfold set_config, execute_sql. unfold mbind at 1, io_bind at 1. rewrite query_quiet by done.
  eexists. do 2 (split; [done|]). split; [|done]. unfold jwt_stored, config_value, upsert_config. simpl.
  rewrite lookup_insert_eq. by destruct (t_config _ !! _).
Qed.

Lemma jwt_secret_quiet (a a' : appw) s :
  quiet a → ensure_jwt_secret a = (Ok s, a') →
  quiet a' ∧ jwt_stored (db a') = Some s ∧ t_users (db a') = t_users (db a) ∧
  t_grants (db a') = t_grants (db a) ∧ t_roles (db a') = t_roles (db a) ∧
  (is_Some (jwt_stored (db a)) → ap_pg a' = ap_pg a).
Proof.
  intros Hq. unfold ensure_jwt_secret. unfold mbind at 1, io_bind at 1, attempt, get_config, select.
  rewrite query_quiet by done. cbn -[bytes]. rewrite put_db.
  fold (jwt_stored (db a)). destruct (jwt_stored (db a)) as [s'|] eqn:Hs.
  { intros [= <- <-]. done. }
  destruct (new_secret_quiet a Hq) as (a1 & -> & Hq1 & Hst & Hu & Hg & Hr). intros [= <- <-].
  do 5 (split; [done|]). by intros [? ?].
Qed.

Lemma create_user_quiet n hash (p p' : pg) id :
  pg_steps p = [] → db_create_user n hash ["admin"] p = (Ok id, p') →
  let t := pg_tables p in let t' := pg_tables p' in
  pg_steps p' = [] ∧ t_config t' = t_config t ∧ t_roles t' = t_roles t ∧
  t_users t !! id = None ∧ users_named t n = [] ∧
  t_users t' = <[id := mkUserRec n None hash "active" None]> (t_users t) ∧
  (is_Some (t_roles t !! "admin") → (id, "admin") ∈ t_grants t').
Proof.
  intros Hq. unfold db_create_user, grant_all, gen_random_uuid. intros Hrun. inv_io.
  unfold context in *. rewrite client_quiet in Hrun0 by done. simplify_eq/=.
  unfold io_map_err in Hrun2. rewrite sql_quiet in Hrun2 by done. unfold insert_user in Hrun2. simpl in Hrun2.
  repeat case_bool_decide; simplify_eq/=.
  unfold io_map_err in Hrun4. rewrite sql_quiet in Hrun4 by done. unfold insert_grant in Hrun4. simpl in Hrun4.
  repeat case_bool_decide; simplify_eq/=; do 3 (split; [done|]);
    (split; [by apply eq_None_not_Some|]); do 2 (split; [done|]); [|set_solver].
  by intros [??]; congruence.
Qed.

Lemma inserted_user t t' n id u :
  users_named t n = [] → t_users t !! id = None → u_username u = n →
  t_users t' = <[id := u]> (t_users t) →
  select_user n t' = Some (mkUserRow id n (u_password_hash u) (u_status u) (roles_of t' id)).
Proof.
  intros Hn Hi <- Ht. unfold select_user, users_named. rewrite Ht.
  assert (filter (λ p : Uuid * UserRec, u_username p.2 = u_username u) (map_to_list (<[id := u]> (t_users t)))
    ≡ₚ [(id, u)]) as Hp.
  { rewrite map_to_list_insert by done. rewrite filter_cons. rewrite decide_True by done.
    fold (users_named t (u_username u)). by rewrite Hn. }
  apply Permutation_singleton_r in Hp as ->. done.
Qed.

Lemma elem_of_roles_of t id s :
  (id, s) ∈ t_grants t → is_Some (t_roles t !! s) → s ∈ roles_of t id.
Proof.
  intros Hg [b Hb]. unfold roles_of, granted. rewrite elem_of_app, !merge_sort_Permutation,
    !list_elem_of_filter, list_elem_of_fmap.
  assert (∃ y, s = y.1 ∧ y ∈ map_to_list (t_roles t)) by (exists (s, b); by rewrite elem_of_map_to_list).
  destruct b; naive_solver.
Qed.

(** An administrator the configured password belongs to. *)
Definition fresh_admin (h : boot_host) (t : tables) : Prop :=
  ∃ row, select_user "admin" t = Some row ∧ ur_status row = "active" ∧
    (is_Some (t_roles t !! "admin") → "admin" ∈ ur_roles row) ∧
    ∀ p, bh_env h "DAIMON_ADMIN_PASSWORD" = Some p → verify_password p (ur_password_hash row) = true.

Lemma admin_password_run h (a a' : appw) p :
  admin_password h a = (Ok p, a') →
  ap_pg a' = ap_pg a ∧ ∀ q, bh_env h "DAIMON_ADMIN_PASSWORD" = Some q → p = q.
Proof.
  unfold admin_password. destruct (bh_env h _) as [q|]; intros Hrun.
  - inv_io. naive_solver.
  - unfold generate_secret, random_bytes in Hrun. inv_io. by destruct (fill_bytes _ _); simplify_eq/=.
Qed.

Lemma seed_admin_quiet h (a a' : appw) :
  quiet a → seed_admin h a = (Ok tt, a') →
  quiet a' ∧ t_config (db a') = t_config (db a) ∧
  match select_user "admin" (db a) with
  | Some row => ap_pg a' = ap_pg a
  | None => fresh_admin h (db a')
  end.
Proof.
  intros Hq. unfold seed_admin. unfold mbind at 1, io_bind at 1, attempt.
  rewrite find_user_quiet by done. cbn [fst snd].
  destruct (select_user "admin" (db a)) as [row|]; [by intros [= <-]|].
  unfold hash_password, random_bytes. intros (p & a1 & [Hp1 Hpw]%admin_password_run & Hrun)%io_bind_ok.
  inv_io. destruct (fill_bytes 16 (ap_rng a1)) as [salt r]. simplify_eq/=.
  unfold on_db, zoom in *. simpl in *.
  destruct (db_create_user "admin" (bcrypt_hash _ p) ["admin"] (ap_pg a1)) as [[id|] pg'] eqn:Hc;
    simplify_eq/=.
  apply create_user_quiet in Hc as (Hq' & Hcf & Hro & Hi & Hn & Hu & Hg); [|by rewrite Hp1].
  rewrite Hp1 in *. split; [done|]. split; [done|].
  eexists. split; [eapply inserted_user; [exact Hn|exact Hi| |exact Hu]; done|]. split; [done|]. split.
  - simpl. intros Hr. apply elem_of_roles_of; [|done]. apply Hg. by rewrite <- Hro.
  - intros q Hq2. rewrite (Hpw q Hq2). unfold verify_password. simpl. by rewrite bcrypt_correct.
Qed.

Lemma open_stores_quiet h (w : bootw) b secret w' :
  quiet (bt_app w) → open_stores h w = (Ok (b, secret), w') →
  quiet (bt_app w') ∧ jwt_stored (db (bt_app w')) = Some secret ∧
  is_Some (select_user "admin" (db (bt_app w'))) ∧
  match select_user "admin" (db (bt_app w)) with
  | Some row => is_Some (jwt_stored (db (bt_app w))) → ap_pg (bt_app w') = ap_pg (bt_app w)
  | None => fresh_admin h (db (bt_app w'))
  end.
Proof.
  intros Hq (_ & _ & a0 & a1 & a2 & Hp0 & Hl & Hj & Hs)%open_stores_ok.
  apply load_config_quiet in Hl; [|unfold quiet; by rewrite Hp0]. rewrite Hp0 in Hl.
  apply jwt_secret_quiet in Hj as (Hq2 & Hst & Hu & Hg & Hr & Hsame); [|unfold quiet; by rewrite Hl].
  apply seed_admin_quiet in Hs as (Hq3 & Hc & Hrow); [|done]. split; [done|].
  split; [unfold jwt_stored, config_value; rewrite Hc; exact Hst|].
  assert (db a1 = db (bt_app w)) as Hdb by (unfold db; by rewrite Hl).
  assert (select_user "admin" (db a2) = select_user "admin" (db (bt_app w))) as <-.
  { unfold select_user, users_named, roles_of, granted. by rewrite Hu, Hg, Hr, Hdb. }
  destruct (select_user "admin" (db a2)) as [row|] eqn:Hsel.
  - split; [unfold db in *; by rewrite Hrow, Hsel|].
    intros Hst'. rewrite Hrow, Hsame, Hl; [done|]. by rewrite Hdb.
  - split; [|done]. destruct Hrow as (row & -> & _). by eexists.
Qed.

(** The tables a start leaves, when the database answers. *)
Lemma boot_quiet h cmd (w : bootw) bo w' :
  quiet (bt_app w) → boot_app h cmd w = (Ok bo, w') →
  jwt_stored (db (bt_app w')) = Some (st_jwt_secret (bo_state bo)) ∧
  is_Some (select_user "admin" (db (bt_app w'))) ∧
  match select_user "admin" (db (bt_app w)) with
  | Some row => is_Some (jwt_stored (db (bt_app w))) → db (bt_app w') = db (bt_app w)
  | None => fresh_admin h (db (bt_app w'))
  end.
Proof.
  intros Hq (b & secret & w1 & w2 & Ho & Hd & Hst & _ & _ & _ & Hpg)%boot_ok.
  pose proof Ho as ((p & _ & Hb)%boot_broker_ok & _)%open_stores_ok.
  apply open_stores_quiet in Ho as (Hq1 & Hs & Hsel & Hrow); [|done].
  apply (start_drivers_ok _ _ p) in Hd as (_ & _ & Hpg1 & _); [|by subst b].
  assert (ap_pg (bt_app w') = ap_pg (bt_app w1)) as Hsame.
  { rewrite Hpg; [done|]. unfold quiet. by rewrite Hpg1. }
  unfold db in *. rewrite Hsame, Hst. do 2 (split; [done|]).
  destruct (select_user _ (pg_tables (ap_pg (bt_app w)))); [|done].
  intros Hj. by rewrite (Hrow Hj).
Qed.

(** Starting again changes nothing. When the database answers, a start leaves a
    stored signing secret and a user named admin; on a fresh database this user is
    active, holds the role of the name and has the configured password. Every later
    start on that database, whatever else changed around it, signs with the same
    secret, so the sessions of the former process stay valid, and leaves the tables
    as they are. *)
Theorem boot_again h cmd (w : bootw) bo w' :
  quiet (bt_app w) → boot_app h cmd w = (Ok bo, w') →
  is_Some (select_user "admin" (db (bt_app w'))) ∧
  (select_user "admin" (db (bt_app w)) = None → fresh_admin h (db (bt_app w'))) ∧
  ∀ h2 cmd2 (v : bootw) bo2 v',
    quiet (bt_app v) → db (bt_app v) = db (bt_app w') → boot_app h2 cmd2 v = (Ok bo2, v') →
    st_jwt_secret (bo_state bo2) = st_jwt_secret (bo_state bo) ∧ db (bt_app v') = db (bt_app w').
Proof.
  intros Hq (Hj & Hs & Hrow)%boot_quiet; [|done]. split; [done|]. split.
  { intros Hn. by rewrite Hn in Hrow. }
  intros h2 cmd2 v bo2 v' Hqv Hdb (Hj2 & _ & Hrow2)%boot_quiet; [|done].
  rewrite Hdb in Hrow2. destruct Hs as [row Hs]. rewrite Hs, Hj in Hrow2.
  specialize (Hrow2 ltac:(by eexists)). split; [|done]. rewrite Hrow2, Hj in Hj2. congruence.
Qed.

(** Where an error of the database is taken for the absence of the secret, the stored
    one is replaced: one failed read at the start signs everybody out. *)
Lemma failed_read_rotates_secret (a : appw) e :
  pg_steps (ap_pg a) = [mkDbStep 0 id (Failed e)] →
  ∃ s a', ensure_jwt_secret a = (Ok s, a') ∧ jwt_stored (db a') = Some s ∧
    s = hex_bytes (fill_bytes 32 (ap_rng a)).1.
Proof.
  intros Hf. set (a1 := set_pg (mkPg (db a) [] (pg_now (ap_pg a)) (pg_uuids (ap_pg a)) (pg_drawn (ap_pg a))) a).
  assert (on_db (get_config "jwt_secret") a = (Err "pg client", a1)) as Hg.
  { unfold on_db, zoom, get_config, client, context, io_map_err, pool_get, select, sql, arrive, mbind, io_bind.
    rewrite Hf. simpl. by rewrite Z.add_0_r. }
  unfold ensure_jwt_secret. unfold mbind at 1, io_bind at 1, attempt. rewrite Hg.
  destruct (new_secret_quiet a1 eq_refl) as (a2 & Hn & _ & Hst & _). by eexists _, a2.
Qed.

(** ** Channels are wired when they are configured *)

(** A secret of a channel: the token of the credential a setting names, or, without
    it, a non-empty variable. *)
Definition comes_from (h : boot_host) (b : Broker (D := D)) (t : tables) (cred_key env_key token : string) :
    Prop :=
  (∃ name (w : bw), str_value (config_value cred_key t) = Some name ∧
     (resolve_vault_api_token b name "system:boot" w).1 = Some token) ∨
  env_nonempty (bh_env h) env_key = Some token.

Lemma boot_token_ok b name (a a' : appw) token :
  boot_token b name a = (Ok (Some token), a') →
  ∃ w : bw, (resolve_vault_api_token b name "system:boot" w).1 = Some token.
Proof.
  unfold boot_token. destruct (resolve_vault_api_token b name "system:boot" (ap_broker a)) as [r w] eqn:Hr.
  intros [= -> _]. exists (ap_broker a). by rewrite Hr.
Qed.

Lemma cfg_str_quiet key (a : appw) r a' :
  quiet a → cfg_str key a = (r, a') → r = Ok (str_value (config_value key (db a))) ∧ a' = a.
Proof.
  intros Hq. unfold cfg_str. rewrite (io_bind_run_ok _ _ _ _ _ (read_setting_quiet key a Hq)).
  by intros [= <- <-].
Qed.

Lemma truthy_quiet key (a : appw) r a' :
  quiet a → truthy key a = (r, a') → r = Ok (truthy_value (config_value key (db a))) ∧ a' = a.
Proof.
  intros Hq. unfold truthy. rewrite (io_bind_run_ok _ _ _ _ _ (read_setting_quiet key a Hq)).
  by intros [= <- <-].
Qed.

(** An answering database is as it was. *)
Lemma keeps_quiet {A} (m : aio A) (a a' : appw) r :
  evolves keeps m → m a = (r, a') → quiet a → quiet a' ∧ db a' = db a.
Proof.
  intros Hm Hr Hq. specialize (Hm a). rewrite Hr in Hm. destruct Hm as [_ Hp]. simpl in Hp.
  unfold quiet, db. by rewrite Hp.
Qed.

Lemma channel_secret_ok h b ck ek (a a' : appw) token :
  quiet a → channel_secret h b ck ek a = (Ok (Some token), a') → comes_from h b (db a) ck ek token.
Proof.
  intros Hq. unfold channel_secret. intros (cred & a1 & Hc & Hrun)%io_bind_ok.
  apply cfg_str_quiet in Hc as [[= ->] ->]; [|done].
  apply io_bind_ok in Hrun as (t & a2 & Ht & Hrun). inv_io.
  destruct (str_value _) as [name|] eqn:Hs; inv_io; [|by right].
  destruct t as [t|]; simplify_eq/=; [|by right].
  apply boot_token_ok in Ht as [w Hw]. left. eauto.
Qed.

Definition webhook_mode (t : tables) : bool :=
  string_eqb (to_ascii_lowercase (default "poll" (str_value (config_value "channels.telegram.mode" t))))
    "webhook".

(** What the two channels may add, on these tables. *)
Definition telegram_wired (h : boot_host) (b : Broker (D := D)) (t : tables) (g g' : wiring) : Prop :=
  g' = g ∨
  truthy_value (config_value "channels.telegram.enabled" t) = true ∧
  ∃ token,
    comes_from h b t "channels.telegram.bot_token_cred" "DAIMON_GW_TELEGRAM_TOKEN" token ∧
    if webhook_mode t then
      ∃ secret, comes_from h b t "channels.telegram.webhook_secret_cred"
                  "DAIMON_GW_TELEGRAM_WEBHOOK_SECRET" secret ∧
        g' = (register_gateway (telegram_gateway (bh_update h) (telegram_new token secret)) g.1, g.2)
    else g' = (g.1, g.2 ++ [PollTelegram (telegram_poll_new token) "channels.telegram.offset"]).

Definition matrix_wired (b : Broker (D := D)) (t : tables) (g g' : wiring) : Prop :=
  g' = g ∨
  truthy_value (config_value "channels.matrix.enabled" t) = true ∧
  ∃ hs cred token (w : bw),
    str_value (config_value "channels.matrix.homeserver" t) = Some hs ∧
    str_value (config_value "channels.matrix.access_token_cred" t) = Some cred ∧
    (resolve_vault_api_token b cred "system:boot" w).1 = Some token ∧
    g' = (g.1, g.2 ++ [PollMatrix (matrix_new hs token) "channels.matrix.since"]).

Lemma wire_telegram_ok h b g (a a' : appw) g' :
  quiet a → wire_telegram h b g a = (Ok g', a') →
  quiet a' ∧ db a' = db a ∧ telegram_wired h b (db a) g g'.
Proof.
  intros Hq Hrun. assert (quiet a' ∧ db a' = db a) as [Hq' Hdb].
  { eapply (keeps_quiet (wire_telegram h b g)); [|done..]. unfold wire_telegram, truthy, cfg_str.
    auto 20 with boot_frame. }
  do 2 (split; [done|]). unfold wire_telegram in Hrun.
  apply io_bind_ok in Hrun as (en & a1 & He & Hrun). apply truthy_quiet in He as [[= ->] ->]; [|done].
  destruct (truthy_value _) eqn:Hen; simpl in Hrun; [|by inv_io; left].
  apply io_bind_ok in Hrun as (mode & a1 & Hm & Hrun). apply cfg_str_quiet in Hm as [[= ->] ->]; [|done].
  apply io_bind_ok in Hrun as (token & a1 & Ht & Hrun). destruct token as [token|]; [|by inv_io; left].
  pose proof (keeps_quiet _ _ _ _ (channel_secret_keeps _ _ _ _) Ht Hq) as [Hq1 Hdb1].
  apply channel_secret_ok in Ht; [|done]. fold (webhook_mode (db a)) in Hrun.
  destruct (webhook_mode (db a)) eqn:Hw; [|inv_io; right; unfold telegram_wired; rewrite Hw; eauto].
  apply io_bind_ok in Hrun as (secret & a2 & Hs & Hrun). inv_io.
  destruct secret as [secret|]; [|by left]. apply channel_secret_ok in Hs; [|done].
  rewrite Hdb1 in Hs. right. rewrite Hw. eauto 10.
Qed.

Lemma wire_matrix_ok b g (a a' : appw) g' :
  quiet a → wire_matrix b g a = (Ok g', a') → matrix_wired b (db a) g g'.
Proof.
  intros Hq Hrun. unfold wire_matrix in Hrun.
  apply io_bind_ok in Hrun as (en & a1 & He & Hrun). apply truthy_quiet in He as [[= ->] ->]; [|done].
  destruct (truthy_value _) eqn:Hen; simpl in Hrun; [|by inv_io; left].
  apply io_bind_ok in Hrun as (hs & a1 & Hm & Hrun). apply cfg_str_quiet in Hm as [[= ->] ->]; [|done].
  apply io_bind_ok in Hrun as (tc & a1 & Hm & Hrun). apply cfg_str_quiet in Hm as [[= ->] ->]; [|done].
  destruct (str_value (config_value "channels.matrix.homeserver" _)) as [hs|] eqn:Hhs; [|by inv_io; left].
  destruct (str_value (config_value "channels.matrix.access_token_cred" _)) as [tc|] eqn:Htc; [|by inv_io; left].
  apply io_bind_ok in Hrun as (token & a1 & Ht & Hrun). inv_io. destruct token as [token|]; [|by left].
  apply boot_token_ok in Ht as [w Hw]. right. eauto 12.
Qed.

(** A channel runs only as it is configured. With an answering database, the
    webhook route knows at most Telegram, and only when that channel is enabled in
    webhook mode and both its token and its secret were found, under the names the
    settings give or in the two variables; otherwise Telegram polls, or is not there.
    Matrix polls only when enabled, with the homeserver of the settings and a token
    from the vault. Nothing else is wired. *)
Theorem gateways_wired h b (a a' : appw) registry pollers :
  quiet a → build_gateways h b a = (Ok (registry, pollers), a') →
  ∃ g, telegram_wired h b (db a) (∅, []) g ∧ matrix_wired b (db a) g (registry, pollers) ∧
    (∀ ch gw, registry !! ch = Some gw → ch = "telegram" ∧ webhook_mode (db a) = true ∧
       truthy_value (config_value "channels.telegram.enabled" (db a)) = true).
Proof.
  intros Hq (g & a1 & (Hq1 & Hdb & Ht)%wire_telegram_ok & Hm%wire_matrix_ok)%io_bind_ok; [|done..].
  rewrite Hdb in Hm. exists g. do 2 (split; [done|]). intros ch gw Hr.
  assert (g.1 = registry) as <- by (destruct Hm as [<-|(_ & ? & ? & ? & ? & _ & _ & _ & [= <- _])]; done).
  destruct Ht as [->|(He & token & _ & Hg)]; [done|].
  destruct (webhook_mode (db a)); [|by subst g].
  destruct Hg as (secret & _ & ->). simpl in Hr. unfold register_gateway in Hr.
  apply lookup_insert_Some in Hr as [[<- _]|[_ Hr]]; [done|]. by rewrite lookup_empty in Hr.
Qed.
End Startup.

(** ** What is logged of the database's address *)

Lemma from_last_last c s t : c ∉ bytes t → from_last c (s +:+ String c t) = Some (String c t).
Proof.
  intros Ht. assert (from_last c t = None) as Hn.
  { induction t as [|a t IH]; [done|]. simpl in *. rewrite IH by set_solver.
    rewrite bool_decide_eq_false_2; [done|]. set_solver. }
  induction s as [|a s IH]; simpl; [rewrite Hn; by rewrite bool_decide_eq_true_2|]. by rewrite IH.
Qed.

Lemma up_to_first q s : ":"%char ∉ bytes q → up_to "://" (q +:+ "://" +:+ s) = Some (q +:+ "://").
Proof.
  induction q as [|a q IH]; intros Hq; [by destruct s|]. cbn [bytes] in Hq.
  change (String a q +:+ "://" +:+ s) with (String a (q +:+ "://" +:+ s)).
  change (up_to "://" (String a (q +:+ "://" +:+ s))) with
    (if starts_with (String a (q +:+ "://" +:+ s)) "://" then Some "://"
     else String a <$> up_to "://" (q +:+ "://" +:+ s)).
  rewrite IH by set_solver. unfold starts_with.
  change (strip_prefix "://" (String a (q +:+ "://" +:+ s))) with
    (if bool_decide (":"%char = a) then strip_prefix "//" (q +:+ "://" +:+ s) else None).
  by rewrite bool_decide_eq_false_2 by set_solver.
Qed.

(** The line logged about the broker shows neither user nor password: whatever stands
    between the scheme and the last at sign is replaced. *)
Lemma scrub_pg_url_spec scheme userinfo rest :
  ":"%char ∉ bytes scheme → "@"%char ∉ bytes rest →
  scrub_pg_url (scheme +:+ "://" +:+ userinfo +:+ String "@"%char rest)
    = scheme +:+ "://" +:+ "*****" +:+ String "@"%char rest.
Proof.
  intros Hs Hr. unfold scrub_pg_url. rewrite up_to_first by done.
  rewrite (string_app_assoc scheme "://"), (string_app_assoc _ userinfo).
  rewrite from_last_last by done. by rewrite (string_app_assoc scheme "://").
Qed.

(** The lint runs before triage is spawned, so triage's capability, which the
    classifier takes for a write, is not among those it saw. *)
Lemma triage_not_linted `{SemVer} : is_read (read_only TRIAGE_CAPABILITY (version_new 1 0 0)) = false.
Proof. done. Qed.

(** ** Witnesses *)

Module StartupDemo.
Import DemoSemVer AppDbDemo IamDemo AdminDemo.

#[export] Existing Instance demo_json_text.
#[export] Instance demo_lower_case : LowerCase := {| to_lowercase := to_ascii_lowercase |}.
#[export] Instance no_graph : GraphHttp unit :=
  {| tx_commit := λ _ _ w, (Err "refused", w); tx_shape := λ _, EmptyString |}.
#[export] Instance no_redis : RedisServer unit := {|
  r_list := λ _ _, []; r_checkout := λ w, (Err "refused", w); r_rpush := λ _ _ w, (Ok tt, w);
  r_expire := λ _ _ w, (Ok tt, w); r_llen := λ _ w, (Ok 0, w); r_lrange := λ _ _ w, (Ok [], w);
  r_set_ex := λ _ _ _ w, (Ok tt, w); r_get := λ _ w, (Ok None, w); r_del := λ _ w, (Ok tt, w);
  r_publish := λ _ _ w, (Ok tt, w) |}.

Definition demo_env : gmap string env_value :=
  list_to_map [("DAIMON_MASTER_KEY_FILE", EnvText "/etc/daimon/key");
    ("DAIMON_ADMIN_PASSWORD", EnvText "correct horse");
    ("DAIMON_GW_TELEGRAM_TOKEN", EnvText "123:abc");
    ("DAIMON_GW_TELEGRAM_WEBHOOK_SECRET", EnvText "s3cret")].

Definition demo_host : boot_host (D := list StubRecord) :=
  mkBootHost (mkHost demo_env (λ _, Ok (repeat "k"%char 32))) (λ _, Ok tt) (λ _, Ok tt)
    (λ _, (true, Ok [mkRule "network.*" RequireApproval None])) (λ _, None)
    (λ _, Err EmptyString) (λ _, Err EmptyString) (λ _, Err EmptyString) (λ _, Err EmptyString)
    (Ok tt) (λ _, Err EmptyString) (λ _, stub_transport "ssh") (stub_transport "rest") (stub_transport "snmp").

(** The seed of the migrations, with Telegram on. *)
Definition demo_pg : pg :=
  (set_config "channels.telegram.mode" "Webhook" (set_config "channels.telegram.enabled" "on" (empty_pg [])).2).2.

Definition first_start : bootw (S := unit) (GW := unit) :=
  mkBootw (mkApp (M := unit) demo_pg (AdminDemo.world []) tt ∅ 30 (mkRng (λ n, ascii_of_nat n) 0) ∅ [])
    sup_new tt tt.

Definition started := boot_app demo_host (λ w, (Ok "PONG", w)) first_start.

(** The next process finds what the database and the others hold. *)
Definition next_start {I V D M} (w : bootw (I := I) (V := V) (D := D) (M := M) (S := unit) (GW := unit)) :
    bootw (I := I) (V := V) (D := D) (M := M) (S := unit) (GW := unit) :=
  mkBootw (bt_app w) sup_new tt tt.
End StartupDemo.
Import DemoSemVer AppDbDemo IamDemo AdminDemo StartupDemo.

Lemma started_ok : is_ok started.1 = true.
Proof. vm_compute. reflexivity. Qed.

Definition registers_write (w : sworld) : bool :=
  match s_registry w !! "agent:routeros" with
  | Some e => existsb (λ c, negb (is_read c)) (re_capabilities e)
  | None => false
  end.

Lemma boot_gated_witness :
  match started.1 with
  | Ok bo =>
      ∃ c, driver_capability started.2 c ∧ is_read c = false ∧
      ∀ t op actor v r v', deciders (b_guard v) →
        execute (st_broker (bo_state bo)) (with_capability_meta c (exec_new actor t op)) v = (r, v') →
        b_calls v' ≠ b_calls v →
        ∃ id row, g_table (b_guard v) !! id = None ∧ g_table (b_guard v') !! id = Some row ∧
          row_status row = "approved" ∧ row_decided_by row ≠ None
  | Err _ => False
  end.
Proof.
  pose proof started_ok as Hok. assert (registers_write (bt_sup started.2) = true) as Hc by (vm_compute; reflexivity).
  destruct started as [[bo|e] w'] eqn:E; [|discriminate Hok]. unfold started in E. unfold registers_write in Hc.
  cbn [fst snd] in *. destruct (s_registry (bt_sup w') !! "agent:routeros") as [e|] eqn:He; [|discriminate Hc].
  apply existsb_elem in Hc as (c & Hc & Hw). exists c.
  assert (driver_capability w' c) as Hd by (exists "agent:routeros", e; auto).
  assert (is_read c = false) as Hr by (by destruct (is_read c)). split; [exact Hd|]. split; [exact Hr|].
  intros t op actor v r v' Hde Hx Hne. destruct (boot_gated _ _ _ _ _ E) as (p & _ & _ & _ & _ & _ & Hg).
  destruct (Hg c t op actor v r v' Hd Hr Hde Hx Hne)
    as (id & row & H1 & H2 & _ & _ & _ & _ & H3 & H4). exists id, row. auto.
Defined.

Definition restarted := boot_app demo_host (λ w, (Ok "PONG", w)) (next_start started.2).

Lemma first_start_empty : select_user "admin" (db (bt_app first_start)) = None.
Proof. vm_compute. reflexivity. Qed.

Lemma next_start_quiet : quiet (bt_app (next_start started.2)).
Proof.
  assert (match pg_steps (ap_pg (bt_app (next_start started.2))) with [] => true | _ => false end = true) as Hq
    by (vm_compute; reflexivity).
  unfold quiet. destruct (pg_steps (ap_pg (bt_app (next_start started.2)))); [reflexivity|discriminate Hq].
Qed.

Lemma restarted_ok : is_ok restarted.1 = true.
Proof. vm_compute. reflexivity. Qed.

Lemma next_start_tables {I V D M} (w : bootw (I := I) (V := V) (D := D) (M := M)) :
  db (bt_app (next_start w)) = db (bt_app w).
Proof. reflexivity. Qed.

Lemma boot_again_witness :
  fresh_admin demo_host (db (bt_app started.2)) ∧ db (bt_app restarted.2) = db (bt_app started.2).
Proof.
  pose proof started_ok as Hok. pose proof restarted_ok as Hok2. pose proof (next_start_tables started.2) as Hs.
  pose proof next_start_quiet as Hq2.
  assert (quiet (bt_app first_start)) as Hq by reflexivity. unfold restarted in *.
  destruct (boot_app demo_host (λ w, (Ok "PONG", w)) (next_start started.2)) as [[bo2|e] v'] eqn:E2; [|discriminate Hok2].
  destruct started as [[bo|e] w'] eqn:E; [|discriminate Hok]. unfold started in E.
  destruct (boot_again _ _ _ _ _ Hq E) as (_ & Hf & Ha).
  exact (conj (Hf first_start_empty) (proj2 (Ha _ _ _ _ _ Hq2 Hs E2))).
Defined.

Lemma gateways_wired_witness :
  let b := match boot_broker demo_host with Ok b => b | Err _ => broker_new (λ _, None) end in
  match (build_gateways demo_host b (bt_app first_start)).1 with
  | Ok (registry, pollers) => is_Some (registry !! "telegram") ∧ webhook_mode (db (bt_app first_start)) = true
  | Err _ => False
  end.
Proof.
  intros b.
  assert (match (build_gateways demo_host b (bt_app first_start)).1 with
    | Ok (registry, _) => bool_decide (is_Some (registry !! "telegram")) | Err _ => false end = true)
    as Hok by (vm_compute; reflexivity).
  destruct (build_gateways demo_host b (bt_app first_start)) as [[[reg ps]|e] a'] eqn:E; [|discriminate Hok].
  apply bool_decide_eq_true in Hok as [gw Hr]. assert (quiet (bt_app first_start)) as Hq by reflexivity.
  destruct (gateways_wired _ _ _ _ _ _ Hq E) as (g & _ & _ & Hw).
  destruct (Hw _ _ Hr) as (_ & Hm & _). split; [by exists gw|exact Hm].
Defined.
