(* ===== verification/Migrate.v ===== *)
(** * daimon-migrate: from the SQLite stores to Postgres
    ([daimon-migrate/src/main.rs], [vault.rs], [inventory.rs], [audit.rs], [app.rs])

    The one-shot tool reads four SQLite files and writes their rows with upserts. The
    files are what reading them gives; the tables are those of the schema the tool
    was written for (migrations V002 to V010), with their keys, checks and foreign
    keys; the hash columns a trigger fills are left out. Version 5 UUIDs and the time
    parsers are parameters. A failure is the chain of its contexts, outermost
    first. *)

From S2P Require Import Prelude RustStd Json Core Vault AuditChain.
From Stdlib Require Import ZArith Ascii.

Local Open Scope Z_scope.

(** ** Rows *)

Record CredentialRec := mkCredRec {
  cd_uuid : Uuid; cd_kind_text : string; cd_payload : blob; cd_version : Z;
  cd_created : Z; cd_updated : Z }.

Record TargetRec := mkTargetRec {
  tg_uuid : Uuid; tg_kind : string; tg_transport : string; tg_host : string; tg_port : Z;
  tg_credential : string; tg_labels : json; tg_caps : json; tg_created : Z; tg_updated : Z }.

Record EventRec := mkEventRec {
  er_tenant : Uuid; er_ts : Z; er_actor : string; er_action : string; er_target : option string;
  er_credential : option string; er_summary : option string; er_result : string;
  er_latency : option Z; er_metadata : json }.

Record MigUser := mkMigUser {
  mu_id : Uuid; mu_hash : string; mu_status : string; mu_created : Z; mu_updated : Z }.

Record MigSession := mkMigSession { ms_user : Uuid; ms_expires : Z; ms_created : Z }.

Record ClusterRec := mkClusterRec {
  cl_tenant : Uuid; cl_name : string; cl_url : string; cl_token : string; cl_notes : string;
  cl_created : Z; cl_updated : Z }.

(** The tables, by the key their conflict clause names. [mt_tenants] is absent once
    the table was dropped. *)
Record mtables := mkMTables {
  mt_tenants : option (gmap string Uuid);
  mt_credentials : gmap (Uuid * string) CredentialRec;
  mt_targets : gmap (Uuid * string) TargetRec;
  mt_events : gmap Uuid EventRec;
  mt_roles : gmap string Uuid;
  mt_users : gmap (Uuid * string) MigUser;
  mt_grants : gset (Uuid * Uuid * string);
  mt_sessions : gmap string MigSession;
  mt_clusters : gmap string ClusterRec;
  mt_config : gmap string string;
  mt_prefs : gmap (Uuid * string) string;
}.

Definition set_credentials x t := mkMTables (mt_tenants t) x (mt_targets t) (mt_events t) (mt_roles t)
  (mt_users t) (mt_grants t) (mt_sessions t) (mt_clusters t) (mt_config t) (mt_prefs t).
Definition set_targets x t := mkMTables (mt_tenants t) (mt_credentials t) x (mt_events t) (mt_roles t)
  (mt_users t) (mt_grants t) (mt_sessions t) (mt_clusters t) (mt_config t) (mt_prefs t).
Definition set_events x t := mkMTables (mt_tenants t) (mt_credentials t) (mt_targets t) x (mt_roles t)
  (mt_users t) (mt_grants t) (mt_sessions t) (mt_clusters t) (mt_config t) (mt_prefs t).
Definition set_musers x t := mkMTables (mt_tenants t) (mt_credentials t) (mt_targets t) (mt_events t)
  (mt_roles t) x (mt_grants t) (mt_sessions t) (mt_clusters t) (mt_config t) (mt_prefs t).
Definition set_mgrants x t := mkMTables (mt_tenants t) (mt_credentials t) (mt_targets t) (mt_events t)
  (mt_roles t) (mt_users t) x (mt_sessions t) (mt_clusters t) (mt_config t) (mt_prefs t).
Definition set_msessions x t := mkMTables (mt_tenants t) (mt_credentials t) (mt_targets t) (mt_events t)
  (mt_roles t) (mt_users t) (mt_grants t) x (mt_clusters t) (mt_config t) (mt_prefs t).
Definition set_clusters x t := mkMTables (mt_tenants t) (mt_credentials t) (mt_targets t) (mt_events t)
  (mt_roles t) (mt_users t) (mt_grants t) (mt_sessions t) x (mt_config t) (mt_prefs t).
Definition set_mconfig x t := mkMTables (mt_tenants t) (mt_credentials t) (mt_targets t) (mt_events t)
  (mt_roles t) (mt_users t) (mt_grants t) (mt_sessions t) (mt_clusters t) x (mt_prefs t).
Definition set_mprefs x t := mkMTables (mt_tenants t) (mt_credentials t) (mt_targets t) (mt_events t)
  (mt_roles t) (mt_users t) (mt_grants t) (mt_sessions t) (mt_clusters t) (mt_config t) x.

(** The database: [mw_faults] are the outcomes of the coming calls. *)
Record migw := mkMigw { mw_tables : mtables; mw_now : Z; mw_faults : list (option string) }.

Abbreviation mio := (io migw (list string)).

(** One round trip. *)
Definition call {A} (f : Z → mtables → result string (A * mtables)) : mio A := λ w,
  match mw_faults w with
  | Some e :: rest => (Err [e], mkMigw (mw_tables w) (mw_now w) rest)
  | faults =>
      match f (mw_now w) (mw_tables w) with
      | Ok (a, t) => (Ok a, mkMigw t (mw_now w) (tail faults))
      | Err e => (Err [e], mkMigw (mw_tables w) (mw_now w) (tail faults))
      end
  end.

Definition client : mio unit := call (λ _ t, Ok (tt, t)).

Definition with_context {A} (c : string) (m : mio A) : mio A := io_map_err (cons c) m.

(** ** Upserts *)

(** [INSERT .. ON CONFLICT (key) DO UPDATE] or, without [upd], [DO NOTHING]: the checks
    of the new row, the conflict, the primary key. It returns the rows affected. *)
Section Upsert.
Context {A K R : Type} `{Countable K}.
Context (key : A → K) (row : Z → A → R) (upd : option (Z → A → R → R)).
(** [clash]: whether a stored row has the primary key of a new one. *)
Context (check : A → result string unit) (clash : R → R → bool).

Definition pkey_taken (new : R) (m : gmap K R) : bool :=
  existsb (λ kr, clash kr.2 new) (map_to_list m).

Definition upsert (now : Z) (a : A) (m : gmap K R) : result string (Z * gmap K R) :=
  _ ← check a;
  match m !! key a, upd with
  | Some r, Some f => Ok (1, <[key a := f now a r]> m)
  | Some _, None => Ok (0, m)
  | None, _ =>
      if pkey_taken (row now a) m then Err "primary key"
      else Ok (1, <[key a := row now a]> m)
  end.
End Upsert.

(** ** Counting *)

Record MigrateStats := mkMigStats { st_read : nat; st_inserted : nat; st_skipped : nat }.

Definition show_stats (s : MigrateStats) : string :=
  "read=" +:+ show_Z (Z.of_nat (st_read s)) +:+ " inserted=" +:+ show_Z (Z.of_nat (st_inserted s)) +:+
  " skipped=" +:+ show_Z (Z.of_nat (st_skipped s)).

(** [if n == 1 { stats.inserted += 1 } else { stats.skipped += 1 }]. *)
Definition tally (n : Z) (s : MigrateStats) : MigrateStats :=
  if n =? 1 then mkMigStats (st_read s) (S (st_inserted s)) (st_skipped s)
  else mkMigStats (st_read s) (st_inserted s) (S (st_skipped s)).

(** The loop over the rows of a table. *)
Fixpoint each {A} (f : A → mio Z) (l : list A) (s : MigrateStats) : mio MigrateStats :=
  match l with
  | [] => mret s
  | a :: l => f a ≫= λ n, each f l (tally n s)
  end.

Section Migrate.
Context `{JsonText}.
(** [Uuid::new_v5] in the OID name space, [DateTime::parse_from_rfc3339],
    [NaiveDateTime::parse_from_str] with the format of SQLite's [datetime], and
    [DateTime::from_timestamp]; times are in microseconds. *)
Context (uuid_v5 : string → Uuid) (rfc3339 naive : string → option Z) (from_epoch : Z → option Z).

Definition parse_ts (s : string) : result (list string) Z := ok_or (rfc3339 s) ["parse ts " +:+ s].

(** A file: absent, or what its rows are. *)
Abbreviation file A := (option (result string (list A))).

Definition read_file {A} (f : file A) : result (list string) (list A) :=
  match f with None => Ok [] | Some r => map_err (λ e, [e]) r end.

(** ** vault.db *)

Record VaultRow := mkVaultRow {
  vr_id : Uuid; vr_name : string; vr_kind : string; vr_payload : blob; vr_created : Z; vr_updated : Z }.

Definition vault_uuid (tenant : Uuid) (sqlite_id : Z) : Uuid :=
  uuid_v5 ("vault/" +:+ tenant +:+ "/" +:+ show_Z sqlite_id).

(** A row of the file: id, name, kind, payload and the two times. *)
Abbreviation raw_credential := (Z * string * string * blob * string * string)%type.

Definition cred_row (tenant : Uuid) (raw : raw_credential) : result (list string) VaultRow :=
  let '(sqlite_id, name, kind, payload, created, updated) := raw in
  created_at ← parse_ts created;
  updated_at ← parse_ts updated;
  Ok (mkVaultRow (vault_uuid tenant sqlite_id) name kind payload created_at updated_at).

Fixpoint read_rows {A B} (f : A → result (list string) B) (l : list A) : result (list string) (list B) :=
  match l with
  | [] => Ok []
  | a :: l => b ← f a; bs ← read_rows f l; Ok (b :: bs)
  end.

Definition vault_kinds : list string := ["SshKey"; "SshPassword"; "ApiToken"; "Generic"].

Definition check_credential (r : VaultRow) : result string unit :=
  if existsb (string_eqb (vr_kind r)) vault_kinds then Ok tt else Err "credentials_kind_check".

(** The trigger [touch_updated_at] overwrites the time of an update. *)
Definition new_credential (_ : Z) (r : VaultRow) : CredentialRec :=
  mkCredRec (vr_id r) (vr_kind r) (vr_payload r) 1 (vr_created r) (vr_updated r).
Definition overwrite_credential (now : Z) (r : VaultRow) (old : CredentialRec) : CredentialRec :=
  mkCredRec (cd_uuid old) (vr_kind r) (vr_payload r) (cd_version old) (cd_created old) now.
Definition same_cred_id (r new : CredentialRec) : bool := string_eqb (cd_uuid r) (cd_uuid new).

Definition upsert_credential (tenant : Uuid) :=
  upsert (λ r, (tenant, vr_name r)) new_credential (Some overwrite_credential) check_credential same_cred_id.

(** What the four [migrate] functions share. *)
Definition migrate_table {A B} (what path : string) (source : file A) (decode : A → result (list string) B)
    (insert : B → mio Z) (dry_run : bool) : mio MigrateStats :=
  lift (map_err (cons ("read sqlite " +:+ what +:+ " " +:+ path)) (read_file source ≫= read_rows decode))
    ≫= λ rows,
  let stats := mkMigStats (length rows) 0 0 in
  if dry_run then mret stats
  else client ≫= λ _, each insert rows stats.

Definition on_credentials (r : result string (Z * gmap (Uuid * string) CredentialRec)) (t : mtables) :
    result string (Z * mtables) := '(n, m) ← r; Ok (n, set_credentials m t).

Definition insert_credential (tenant : Uuid) (r : VaultRow) : mio Z :=
  with_context ("insert credential " +:+ vr_name r)
    (call (λ now t, on_credentials (upsert_credential tenant now r (mt_credentials t)) t)).

Definition migrate_vault (path : string) (source : file raw_credential) (tenant : Uuid) (dry_run : bool) :
    mio MigrateStats :=
  migrate_table "vault" path source (cred_row tenant) (insert_credential tenant) dry_run.

(** ** inventory.db *)

Record InvRow := mkInvRow {
  ir_id : Uuid; ir_ref : string; ir_kind : string; ir_transport : string; ir_host : string; ir_port : Z;
  ir_credential : string; ir_labels : json; ir_caps : json; ir_created : Z; ir_updated : Z }.

Definition target_uuid (tenant : Uuid) (target_ref : string) : Uuid :=
  uuid_v5 ("inventory/" +:+ tenant +:+ "/" +:+ target_ref).

Abbreviation raw_target :=
  (string * string * string * string * Z * string * string * string * string * string)%type.

Definition json_or (dflt : json) (s : string) : json := default dflt (ok (json_from_str s)).

Definition inv_row (tenant : Uuid) (raw : raw_target) : result (list string) InvRow :=
  let '(target_ref, kind, transport, host, port, cred, labels, caps, created, updated) := raw in
  created_at ← parse_ts created;
  updated_at ← parse_ts updated;
  Ok (mkInvRow (target_uuid tenant target_ref) target_ref kind transport host (as_i32 port) cred
        (json_or (JObject []) labels) (json_or (JArray []) caps) created_at updated_at).

Definition check_target (r : InvRow) : result string unit :=
  if negb ((0 <? ir_port r) && (ir_port r <=? 65535)) then Err "targets_port_check"
  else if negb (starts_with (ir_ref r) "target://") then Err "targets_target_ref_check"
  else if negb (starts_with (ir_credential r) "vault://") then Err "targets_credential_ref_check"
  else Ok tt.

Definition new_target (_ : Z) (r : InvRow) : TargetRec :=
  mkTargetRec (ir_id r) (ir_kind r) (ir_transport r) (ir_host r) (ir_port r) (ir_credential r)
    (ir_labels r) (ir_caps r) (ir_created r) (ir_updated r).
Definition update_target (now : Z) (r : InvRow) (old : TargetRec) : TargetRec :=
  mkTargetRec (tg_uuid old) (ir_kind r) (ir_transport r) (ir_host r) (ir_port r) (ir_credential r)
    (ir_labels r) (ir_caps r) (tg_created old) now.
Definition same_target_id (r new : TargetRec) : bool := string_eqb (tg_uuid r) (tg_uuid new).

Definition upsert_target_row (tenant : Uuid) :=
  upsert (λ r, (tenant, ir_ref r)) new_target (Some update_target) check_target same_target_id.

Definition on_targets (r : result string (Z * gmap (Uuid * string) TargetRec)) (t : mtables) :
    result string (Z * mtables) := '(n, m) ← r; Ok (n, set_targets m t).

Definition insert_target (tenant : Uuid) (r : InvRow) : mio Z :=
  with_context ("insert target " +:+ ir_ref r)
    (call (λ now t, on_targets (upsert_target_row tenant now r (mt_targets t)) t)).

Definition migrate_inventory (path : string) (source : file raw_target) (tenant : Uuid) (dry_run : bool) :
    mio MigrateStats :=
  migrate_table "inventory" path source (inv_row tenant) (insert_target tenant) dry_run.

(** ** audit.db *)

Record AuditRow := mkAuditRow { au_id : Uuid; au_event : EventRec }.

Definition audit_uuid (tenant : Uuid) (sqlite_id : Z) : Uuid :=
  uuid_v5 ("audit/" +:+ tenant +:+ "/" +:+ show_Z sqlite_id).

(** A row of the file, in the order of its query. *)
Record raw_event := mkRawEvent {
  re_id : Z; re_ts : string; re_actor : string; re_action : string; re_target : option string;
  re_cred : option string; re_summary : option string; re_result : string; re_latency : option Z;
  re_metadata : string }.

Definition mig_event (tenant : Uuid) (r : raw_event) : result (list string) AuditRow :=
  ts ← ok_or (rfc3339 (re_ts r)) ["parse audit ts " +:+ re_ts r];
  Ok (mkAuditRow (audit_uuid tenant (re_id r))
        (mkEventRec tenant ts (re_actor r) (re_action r) (re_target r) (re_cred r) (re_summary r)
           (re_result r) (as_i32 <$> re_latency r) (json_or (JObject []) (re_metadata r)))).

Definition check_event (r : AuditRow) : result string unit :=
  if existsb (string_eqb (er_result (au_event r))) ["success"; "error"; "denied"] then Ok tt
  else Err "events_result_check".

Definition upsert_event :=
  upsert au_id (λ _ r, au_event r) None check_event (λ _ _, false).

Definition on_events (r : result string (Z * gmap Uuid EventRec)) (t : mtables) :
    result string (Z * mtables) := '(n, m) ← r; Ok (n, set_events m t).

Definition insert_event (r : AuditRow) : mio Z :=
  with_context ("insert audit event " +:+ er_action (au_event r) +:+ " (" +:+ au_id r +:+ ")")
    (call (λ now t, on_events (upsert_event now r (mt_events t)) t)).

Definition migrate_audit (path : string) (source : file raw_event) (tenant : Uuid) (dry_run : bool) :
    mio MigrateStats :=
  migrate_table "audit" path source (mig_event tenant) insert_event dry_run.

(** ** daimon.db *)

(** The five queries of [extract]. *)
Record app_file := mkAppFile {
  af_users : result string (list (Z * string * string * string * string * string));
  af_sessions : result string (list (string * Z * string * string));
  af_clusters : result string (list (string * string * string * string * string * string));
  af_config : result string (list (string * string));
  af_prefs : result string (list (Z * string * string));
}.

Record AppUser := mkAppUser {
  au_uuid : Uuid; au_username : string; au_hash : string; au_role : string; au_created : Z; au_updated : Z }.
Record AppSession := mkAppSession { as_id : string; as_row : MigSession }.
Record AppCluster := mkAppCluster {
  ac_id : string; ac_name : string; ac_url : string; ac_token : string; ac_notes : string; ac_created : Z }.
Record AppPref := mkAppPref { ap_user : Uuid; ap_key : string; ap_value : string }.

Record Extracted := mkExtracted {
  ex_users : list AppUser; ex_sessions : list AppSession; ex_clusters : list AppCluster;
  ex_config : list (string * string); ex_prefs : list AppPref }.

Definition read_total (e : Extracted) : nat :=
  (length (ex_users e) + length (ex_sessions e) + length (ex_clusters e) + length (ex_config e) +
   length (ex_prefs e))%nat.

Definition derive_user_uuid (tenant : Uuid) (username : string) : Uuid :=
  uuid_v5 ("user/" +:+ tenant +:+ "/" +:+ username).

Definition parse_app_ts (s : string) : result (list string) Z :=
  match rfc3339 s with
  | Some d => Ok d
  | None => ok_or (naive s) ["parse app ts " +:+ s]
  end.

(** [now] is the clock of the process. *)
Definition parse_session_expires (now : Z) (s : string) : Z :=
  match parse_i64 s ≫= from_epoch with
  | Some d => d
  | None => default now (rfc3339 s)
  end.

Definition app_user (tenant : Uuid) (raw : Z * string * string * string * string * string) :
    result (list string) AppUser :=
  let '(_, username, hash, role, created, updated) := raw in
  created_at ← parse_app_ts created;
  updated_at ← parse_app_ts updated;
  Ok (mkAppUser (derive_user_uuid tenant username) username hash role created_at updated_at).

Definition user_id_map (tenant : Uuid) (l : list (Z * string * string * string * string * string)) : gmap Z Uuid :=
  fold_left (λ m raw, let '(sqlite_id, username, _, _, _, _) := raw in
    <[sqlite_id := derive_user_uuid tenant username]> m) l ∅.

(** A session of an unknown user is left out. *)
Fixpoint app_sessions (now : Z) (users : gmap Z Uuid) (l : list (string * Z * string * string)) :
    result (list string) (list AppSession) :=
  match l with
  | [] => Ok []
  | (id, user, expires, created) :: l =>
      match users !! user with
      | None => app_sessions now users l
      | Some u =>
          created_at ← parse_app_ts created;
          rest ← app_sessions now users l;
          Ok (mkAppSession id (mkMigSession u (parse_session_expires now expires) created_at) :: rest)
      end
  end.

Definition app_cluster (raw : string * string * string * string * string * string) :
    result (list string) AppCluster :=
  let '(id, name, url, token, notes, created) := raw in
  created_at ← parse_app_ts created; Ok (mkAppCluster id name url token notes created_at).

Definition app_prefs (users : gmap Z Uuid) (l : list (Z * string * string)) : list AppPref :=
  omap (λ '(uid, key, value), (λ u, mkAppPref u key value) <$> users !! uid) l.

Definition query {A} (r : result string A) : result (list string) A := map_err (λ e, [e]) r.

Definition extract (now : Z) (f : app_file) (tenant : Uuid) : result (list string) Extracted :=
  raw_users ← query (af_users f);
  users ← read_rows (app_user tenant) raw_users;
  let ids := user_id_map tenant raw_users in
  raw_sess ← query (af_sessions f);
  sessions ← app_sessions now ids raw_sess;
  raw_clusters ← query (af_clusters f);
  clusters ← read_rows app_cluster raw_clusters;
  raw_cfg ← query (af_config f);
  raw_prefs ← query (af_prefs f);
  Ok (mkExtracted users sessions clusters raw_cfg (app_prefs ids raw_prefs)).

(** The statements. *)
Definition upsert_user (tenant : Uuid) :=
  upsert (λ u, (tenant, au_username u))
    (λ _ u, mkMigUser (au_uuid u) (au_hash u) "active" (au_created u) (au_updated u))
    (Some (λ now u old, mkMigUser (mu_id old) (au_hash u) (mu_status old) (mu_created old) now))
    (λ _, Ok tt) (λ r new, string_eqb (mu_id r) (mu_id new)).

Definition user_exists (id : Uuid) (t : mtables) : bool :=
  existsb (λ kr, string_eqb (mu_id kr.2) id) (map_to_list (mt_users t)).

Definition grant_role (user role : Uuid) (scope : string) (t : mtables) : result string (Z * mtables) :=
  if bool_decide ((user, role, scope) ∈ mt_grants t) then Ok (0, t)
  else if negb (user_exists user t) then Err "role_grants_user_id_fkey"
  else Ok (1, set_mgrants ({[ (user, role, scope) ]} ∪ mt_grants t) t).

Definition put_session (s : AppSession) (t : mtables) : result string (Z * mtables) :=
  match mt_sessions t !! as_id s with
  | Some _ => Ok (0, t)
  | None =>
      if negb (user_exists (ms_user (as_row s)) t) then Err "sessions_user_id_fkey"
      else Ok (1, set_msessions (<[as_id s := as_row s]> (mt_sessions t)) t)
  end.

(** Another cluster of the tenant with this name. *)
Definition cluster_name_taken (tenant : Uuid) (id name : string) (t : mtables) : bool :=
  existsb (λ kr, negb (string_eqb kr.1 id) && string_eqb (cl_tenant kr.2) tenant &&
                 string_eqb (cl_name kr.2) name) (map_to_list (mt_clusters t)).

Definition put_cluster (tenant : Uuid) (now : Z) (c : AppCluster) (t : mtables) : result string (Z * mtables) :=
  let row := match mt_clusters t !! ac_id c with
    | Some old => mkClusterRec (cl_tenant old) (ac_name c) (ac_url c) (ac_token c) (ac_notes c)
                    (cl_created old) now
    | None => mkClusterRec tenant (ac_name c) (ac_url c) (ac_token c) (ac_notes c) (ac_created c) (ac_created c)
    end in
  if cluster_name_taken (cl_tenant row) (ac_id c) (ac_name c) t then Err "clusters_tenant_name_idx"
  else Ok (1, set_clusters (<[ac_id c := row]> (mt_clusters t)) t).

Definition put_config (kv : string * string) (t : mtables) : result string (Z * mtables) :=
  Ok (1, set_mconfig (<[kv.1 := kv.2]> (mt_config t)) t).

Definition put_pref (p : AppPref) (t : mtables) : result string (Z * mtables) :=
  if negb (user_exists (ap_user p) t) then Err "user_preferences_user_id_fkey"
  else Ok (1, set_mprefs (<[(ap_user p, ap_key p) := ap_value p]> (mt_prefs t)) t).

(** A user, with the role the text column becomes. *)
Definition insert_user_row (tenant : Uuid) (roles : gmap string Uuid) (u : AppUser) : mio Z :=
  with_context ("insert user " +:+ au_username u)
    (call (λ now t, '(n, m) ← upsert_user tenant now u (mt_users t); Ok (n, set_musers m t))) ≫= λ n,
  let slug := if string_eqb (au_role u) "admin" then "tenant_admin" else "operator" in
  lift (ok_or (roles !! slug) ["role " +:+ slug +:+ " not seeded"]) ≫= λ role,
  with_context ("grant role to " +:+ au_username u)
    (call (λ _, grant_role (au_uuid u) role ("tenant:" +:+ tenant))) ≫= λ _,
  mret n.

Definition migrate_app (source : option app_file) (now : Z) (tenant : Uuid) (dry_run : bool) :
    mio MigrateStats :=
  match source with
  | None => mret (mkMigStats 0 0 0)
  | Some f =>
      lift (extract now f tenant) ≫= λ e,
      let stats := mkMigStats (read_total e) 0 0 in
      if dry_run then mret stats
      else
        client ≫= λ _,
        call (λ _ t, Ok (mt_roles t, t)) ≫= λ roles,
        each (insert_user_row tenant roles) (ex_users e) stats ≫= λ s,
        each (λ r, with_context ("insert session " +:+ as_id r) (call (λ _, put_session r)))
          (ex_sessions e) s ≫= λ s,
        each (λ c, with_context ("insert cluster " +:+ ac_name c) (call (λ now, put_cluster tenant now c)))
          (ex_clusters e) s ≫= λ s,
        each (λ kv, with_context ("insert config " +:+ kv.1) (call (λ _, put_config kv))) (ex_config e) s
          ≫= λ s,
        each (λ p, with_context ("insert pref " +:+ ap_user p +:+ "/" +:+ ap_key p) (call (λ _, put_pref p)))
          (ex_prefs e) s
  end.

(** ** The command *)

Record sources := mkSources {
  so_dir : string; so_vault : file raw_credential; so_inventory : file raw_target;
  so_audit : file raw_event; so_app : option app_file }.

Definition resolve_tenant_id (slug : string) : mio Uuid :=
  client ≫= λ _,
  with_context ("tenant lookup: " +:+ slug) (call (λ _ t,
    match mt_tenants t with
    | None => Err "relation public.tenants does not exist"
    | Some m => id ← ok_or (m !! slug) "query returned an unexpected number of rows"; Ok (id, t)
    end)).

Inductive Cmd := RunAll | RunVault | RunInventory | RunAudit | RunApp.

(** [main], for the commands that write; [now] is the clock of the process. *)
Definition run_migration (so : sources) (now : Z) (slug : string) (c : Cmd) (dry_run : bool) :
    mio (list MigrateStats) :=
  resolve_tenant_id slug ≫= λ tenant,
  let vault := migrate_vault (path_join (so_dir so) "vault.db") (so_vault so) tenant dry_run in
  let inventory := migrate_inventory (path_join (so_dir so) "inventory.db") (so_inventory so) tenant dry_run in
  let audit := migrate_audit (path_join (so_dir so) "audit.db") (so_audit so) tenant dry_run in
  let app := migrate_app (so_app so) now tenant dry_run in
  match c with
  | RunAll => vault ≫= λ v, inventory ≫= λ i, app ≫= λ a, audit ≫= λ u, mret [v; i; a; u]
  | RunVault => vault ≫= λ s, mret [s]
  | RunInventory => inventory ≫= λ s, mret [s]
  | RunAudit => audit ≫= λ s, mret [s]
  | RunApp => app ≫= λ s, mret [s]
  end.

(** [verify]: a missing file is created empty by opening it, and has no table. *)
Definition count_file {A} (table : string) (f : file A) : result (list string) nat :=
  match f with
  | None => Err ["no such table: " +:+ table]
  | Some r => length <$> query r
  end.

Definition count_query {A} (r : result string (list A)) : result (list string) nat := length <$> query r.

Definition of_tenant {R} (tenant : Uuid) (m : gmap (Uuid * string) R) : nat :=
  length (List.filter (λ kr : (Uuid * string) * R, string_eqb kr.1.1 tenant) (map_to_list m)).

Definition verify_all (so : sources) (tenant : Uuid) : mio (list (string * nat * nat)) :=
  client ≫= λ _,
  let no_app := mkAppFile (Err "no such table: users") (Err EmptyString) (Err EmptyString)
                  (Err EmptyString) (Err EmptyString) in
  let app := default no_app (so_app so) in
  lift (count_file "credentials" (so_vault so)) ≫= λ vault,
  lift (count_file "targets" (so_inventory so)) ≫= λ inventory,
  lift (count_file "audit_events" (so_audit so)) ≫= λ audit,
  lift (count_query (af_users app)) ≫= λ users,
  lift (count_query (af_sessions app)) ≫= λ sessions,
  lift (count_query (af_clusters app)) ≫= λ clusters,
  lift (count_query (af_config app)) ≫= λ config,
  lift (count_query (af_prefs app)) ≫= λ prefs,
  let count f := call (λ _ t, Ok (f t, t)) in
  count (λ t, of_tenant tenant (mt_credentials t)) ≫= λ pg_vault,
  count (λ t, of_tenant tenant (mt_targets t)) ≫= λ pg_inventory,
  count (λ t, length (List.filter (λ kr : Uuid * EventRec, string_eqb (er_tenant kr.2) tenant)
                        (map_to_list (mt_events t)))) ≫= λ pg_audit,
  count (λ t, of_tenant tenant (mt_users t)) ≫= λ pg_users,
  count (λ t, length (List.filter (λ kr : string * ClusterRec, string_eqb (cl_tenant kr.2) tenant)
                        (map_to_list (mt_clusters t)))) ≫= λ pg_clusters,
  count (λ t, size (mt_sessions t)) ≫= λ pg_sessions,
  count (λ t, size (mt_config t)) ≫= λ pg_config,
  count (λ t, size (mt_prefs t)) ≫= λ pg_prefs,
  mret [("vault.credentials", vault, pg_vault); ("inventory.targets", inventory, pg_inventory);
        ("audit.events", audit, pg_audit); ("public.users", users, pg_users);
        ("public.sessions", sessions, pg_sessions); ("public.clusters", clusters, pg_clusters);
        ("public.app_config", config, pg_config); ("public.user_preferences", prefs, pg_prefs)].
End Migrate.

(** ** Counting adds up, and a dry run writes nothing *)

Lemma each_adds_up {A} (f : A → mio Z) l s w s' w' :
  each f l s w = (Ok s', w') →
  st_read s' = st_read s ∧
  (st_inserted s' + st_skipped s' = st_inserted s + st_skipped s + length l)%nat.
Proof.
  revert s w. induction l as [|a l IH]; intros s w Hrun; simpl in Hrun; inv_io; [simpl; lia|].
  apply IH in Hrun as [Hr Hs]. unfold tally in *. destruct (a0 =? 1); simpl in *; lia.
Qed.

Section Facts.
Context `{JsonText} (uuid_v5 : string → Uuid) (rfc3339 naive : string → option Z).
Context (from_epoch : Z → option Z).
Abbreviation run := (run_migration uuid_v5 rfc3339 naive from_epoch).

(** Every row read was inserted or skipped. *)
Definition adds_up (s : MigrateStats) : Prop := (st_inserted s + st_skipped s = st_read s)%nat.

Lemma migrate_table_adds_up {A B} what path source (decode : A → result (list string) B) insert w s w' :
  migrate_table what path source decode insert false w = (Ok s, w') → adds_up s.
Proof.
  unfold migrate_table. intros Hrun. inv_io. apply each_adds_up in Hrun as [Hr Hs]. unfold adds_up. simpl in *. lia.
Qed.

Lemma migrate_app_adds_up source now tenant w s w' :
  migrate_app uuid_v5 rfc3339 naive from_epoch source now tenant false w = (Ok s, w') → adds_up s.
Proof.
  unfold migrate_app. destruct source as [f|]; [|by intros; inv_io]. intros Hrun. inv_io.
  repeat match goal with H : each _ _ _ _ = _ |- _ => apply each_adds_up in H as [? ?] end.
  unfold adds_up, read_total in *. simpl in *. lia.
Qed.

Lemma stats_add_up so now slug c w l w' :
  run so now slug c false w = (Ok l, w') → Forall adds_up l.
Proof.
  unfold run_migration, migrate_vault, migrate_inventory, migrate_audit. intros Hrun. inv_io.
  destruct c; inv_io; repeat constructor;
    eauto using migrate_table_adds_up, migrate_app_adds_up.
Qed.

(** The tables stay. *)
Definition same_tables (w w' : migw) : Prop := mw_tables w' = mw_tables w.

#[local] Instance same_tables_refl : Reflexive same_tables.
Proof. done. Qed.

#[local] Instance same_tables_trans : Transitive same_tables.
Proof. unfold same_tables. congruence. Qed.

Lemma client_same : evolves same_tables client.
Proof. intros w. unfold client, call. by destruct (mw_faults w) as [|[e|] l]. Qed.

Lemma tenant_same slug : evolves same_tables (resolve_tenant_id slug).
Proof.
  apply evolves_bind; [apply _|apply client_same|]. intros _. apply evolves_map_err. intros w. unfold call.
  destruct (mw_faults w) as [|[e|] l]; simpl; try done;
    destruct (mt_tenants (mw_tables w)) as [m|]; try done; by destruct (m !! slug).
Qed.

Lemma dry_table_same {A B} what path source (decode : A → result (list string) B) insert :
  evolves same_tables (migrate_table what path source decode insert true).
Proof. apply evolves_bind; [apply _|apply evolves_lift, _|]. intros rows. apply evolves_ret, _. Qed.

Lemma dry_app_same source now tenant :
  evolves same_tables (migrate_app uuid_v5 rfc3339 naive from_epoch source now tenant true).
Proof.
  destruct source; [|apply evolves_ret, _]. apply evolves_bind; [apply _|apply evolves_lift, _|].
  intros e. apply evolves_ret, _.
Qed.

(** A dry run writes nothing, whatever the files hold and wherever it stops; and
    in a run that is not dry and succeeds, every row that was read is counted as
    inserted or as skipped. *)
Theorem dry_run_pure so now slug c w :
  mw_tables (run so now slug c true w).2 = mw_tables w ∧
  ∀ l w', run so now slug c false w = (Ok l, w') → Forall adds_up l.
Proof.
  split; [|intros l w'; apply stats_add_up]. revert w.
  change (evolves same_tables (run so now slug c true)). apply evolves_bind; [apply _|apply tenant_same|].
  intros tenant. destruct c; repeat (apply evolves_bind; [apply _|auto using dry_table_same, dry_app_same|intros ?]);
    by intros ?.
Qed.
End Facts.

(** ** Running it again *)

Section Again.
Context {A K R : Type} `{Countable K}.
Context (key : A → K) (row : Z → A → R) (upd : option (Z → A → R → R)).
Context (check : A → result string unit) (clash : R → R → bool).
Context (get : mtables → gmap K R) (put : gmap K R → mtables → mtables) (label : A → string).
(** [agrees a r]: the columns the upsert writes have the values of [a]; [still] is what
    a second upsert leaves alone. *)
Context (agrees : A → R → Prop) (still : R → R).
Hypothesis get_put : ∀ m t, get (put m t) = m.
Hypothesis row_agrees : ∀ now a, agrees a (row now a).
Hypothesis upd_agrees : ∀ f now a r, upd = Some f → agrees a (f now a r).
Hypothesis skip_agrees : ∀ a r, upd = None → agrees a r.
Hypothesis upd_still : ∀ f now a r, upd = Some f → agrees a r → still (f now a r) = still r.

Definition insert_in (a : A) : mio Z :=
  with_context (label a) (call (λ now t,
    '(n, m) ← upsert key row upd check clash now a (get t); Ok (n, put m t))).

(** The row is in the table. *)
Definition settled (a : A) (m : gmap K R) : Prop :=
  check a = Ok tt ∧ ∃ r, m !! key a = Some r ∧ agrees a r.

Lemma upsert_settles now a m n m' :
  upsert key row upd check clash now a m = Ok (n, m') →
  settled a m' ∧ ∀ b, key b ≠ key a → settled b m → settled b m'.
Proof.
  unfold upsert, settled, mbind, result_bind. destruct (check a) as [[]|]; [|done].
  destruct (m !! key a) as [r|] eqn:Hr.
  - destruct upd as [f|] eqn:Hu; intros [= <- <-]; [|naive_solver].
    rewrite lookup_insert_eq. split; [eauto|]. intros b Hb. by rewrite lookup_insert_ne.
  - destruct (pkey_taken _ _ _); [done|]. intros [= <- <-]. rewrite lookup_insert_eq. split; [eauto|].
    intros b Hb. by rewrite lookup_insert_ne.
Qed.

Lemma upsert_again now a m :
  settled a m → ∃ n m', upsert key row upd check clash now a m = Ok (n, m') ∧ still <$> m' = still <$> m.
Proof.
  intros (Hc & r & Hr & Ha). unfold upsert. rewrite Hc, Hr. simpl. destruct upd as [f|] eqn:Hu; [|eauto].
  do 2 eexists. split; [done|]. rewrite fmap_insert, (upd_still f) by done.
  apply insert_id. by rewrite lookup_fmap, Hr.
Qed.

Lemma insert_in_ok a w n w' :
  insert_in a w = (Ok n, w') →
  upsert key row upd check clash (mw_now w) a (get (mw_tables w)) = Ok (n, get (mw_tables w')).
Proof.
  unfold insert_in, with_context, io_map_err, call.
  destruct (mw_faults w) as [|[e|] l]; [| done|];
    (destruct (upsert _ _ _ _ _ _ _ _) as [[n' m]|]; simpl; [|done]); intros [= <- <-]; simpl; by rewrite get_put.
Qed.

Lemma insert_in_again a w :
  mw_faults w = [] → settled a (get (mw_tables w)) →
  ∃ n w', insert_in a w = (Ok n, w') ∧ mw_faults w' = [] ∧
    still <$> get (mw_tables w') = still <$> get (mw_tables w).
Proof.
  intros Hf Hs. destruct (upsert_again (mw_now w) a _ Hs) as (n & m' & Hu & He).
  unfold insert_in, with_context, io_map_err, call. rewrite Hf, Hu. simpl. do 2 eexists. split; [done|].
  simpl. by rewrite get_put.
Qed.

Lemma each_settles l s w s' w' :
  NoDup (map key l) → each insert_in l s w = (Ok s', w') →
  Forall (λ a, settled a (get (mw_tables w'))) l ∧
  ∀ b, Forall (λ a, key b ≠ key a) l → settled b (get (mw_tables w)) → settled b (get (mw_tables w')).
Proof.
  revert s w. induction l as [|a l IH]; intros s w Hn Hrun; simpl in Hrun; inv_io; [done|].
  simpl in Hn. apply NoDup_cons in Hn as [Hni Hn]. apply insert_in_ok, upsert_settles in Hrun0 as [Ha Hb].
  apply IH in Hrun as [Hl Hk]; [|done]. split.
  - constructor; [|done]. apply Hk; [|done]. apply Forall_forall. intros x Hx Heq. apply Hni. rewrite Heq.
    by apply list_elem_of_fmap_2.
  - intros b Hbl Hs. apply Forall_cons in Hbl as [Hba Hbl]. apply Hk; [done|]. by apply Hb.
Qed.

Lemma each_again l s w :
  NoDup (map key l) → mw_faults w = [] → Forall (λ a, settled a (get (mw_tables w))) l →
  ∃ s' w', each insert_in l s w = (Ok s', w') ∧ still <$> get (mw_tables w') = still <$> get (mw_tables w).
Proof.
  revert s w. induction l as [|a l IH]; intros s w Hn Hf Hl; [by do 2 eexists|].
  simpl in Hn. apply NoDup_cons in Hn as [Hni Hn]. apply Forall_cons in Hl as [Ha Hl].
  destruct (insert_in_again a w Hf Ha) as (n & w1 & Hr & Hf1 & He).
  pose proof (insert_in_ok _ _ _ _ Hr) as [_ Hk]%upsert_settles.
  destruct (IH (tally n s) w1 Hn Hf1) as (s' & w' & Hr' & He').
  { apply Forall_forall. intros x Hx. apply Hk; [|by eapply Forall_forall in Hl].
    intros Heq. apply Hni. rewrite <- Heq. by apply list_elem_of_fmap_2. }
  exists s', w'. cbn [each]. rewrite (io_bind_run_ok _ _ _ _ _ Hr). split; [done|]. congruence.
Qed.

(** A run that succeeds has every row of the file in the table, and a second run with
    an answering database succeeds and changes no more than what an update touches. *)
Lemma migrate_table_again {X} what path source (decode : X → result (list string) A) w s w' now rows :
  read_file source ≫= read_rows decode = Ok rows → NoDup (map key rows) →
  migrate_table what path source decode insert_in false w = (Ok s, w') →
  Forall (λ a, settled a (get (mw_tables w'))) rows ∧
  ∃ s2 v', migrate_table what path source decode insert_in false (mkMigw (mw_tables w') now []) = (Ok s2, v') ∧
    still <$> get (mw_tables v') = still <$> get (mw_tables w').
Proof.
  intros Hrows Hn Hrun. unfold migrate_table in *. rewrite Hrows in *.
  apply io_bind_ok in Hrun as (rs & w1 & Hl & Hrun). unfold lift in Hl. injection Hl as <- <-. cbn [negb] in Hrun.
  apply io_bind_ok in Hrun as ([] & w1 & _ & Hrun). apply each_settles in Hrun as [Hl _]; [|done]. split; [done|].
  destruct (each_again rows (mkMigStats (length rows) 0 0) (mkMigw (mw_tables w') now []) Hn eq_refl Hl)
    as (s2 & v' & Hr & He). by exists s2, v'.
Qed.
End Again.

Section Stores.
Context `{JsonText} (uuid_v5 : string → Uuid) (rfc3339 naive : string → option Z).
Context (from_epoch : Z → option Z).

(** A credential of the file and its row in the table. *)
Definition holds_credential (r : VaultRow) (c : CredentialRec) : Prop :=
  cd_kind_text c = vr_kind r ∧ cd_payload c = vr_payload r.

Definition untouched_credential (c : CredentialRec) : CredentialRec :=
  mkCredRec (cd_uuid c) (cd_kind_text c) (cd_payload c) (cd_version c) (cd_created c) 0.

(** C36: the vault moves over completely, and moving it again changes only times of
    update. When a run succeeds, every credential of the file is in the table under its
    name, with its kind and its sealed payload unchanged; a second run of the same file
    succeeds while the database answers, adds and removes no row and leaves ids, kinds,
    payloads, versions and creation times as they are. (A row that was there already gets
    the time of the run as its time of update, not the file's.) The file's names are
    unique. *)
Theorem vault_migration_settles path source tenant rows w s w' now :
  read_file source ≫= read_rows (cred_row uuid_v5 rfc3339 tenant) = Ok rows → NoDup (map vr_name rows) →
  migrate_vault uuid_v5 rfc3339 path source tenant false w = (Ok s, w') →
  Forall (λ r, ∃ c, mt_credentials (mw_tables w') !! (tenant, vr_name r) = Some c ∧ holds_credential r c) rows ∧
  ∃ s2 v', migrate_vault uuid_v5 rfc3339 path source tenant false (mkMigw (mw_tables w') now []) = (Ok s2, v') ∧
    untouched_credential <$> mt_credentials (mw_tables v')
      = untouched_credential <$> mt_credentials (mw_tables w').
Proof.
  intros Hrows Hn Hrun.
  assert (NoDup (map (λ r, (tenant, vr_name r)) rows)) as Hk.
  { rewrite <- (map_map vr_name (pair tenant)). by apply NoDup_fmap_2; [intros ? ? [=]|]. }
  destruct (migrate_table_again (λ r, (tenant, vr_name r)) new_credential (Some overwrite_credential)
    check_credential same_cred_id mt_credentials set_credentials (λ r, "insert credential " +:+ vr_name r)
    holds_credential untouched_credential ltac:(done) ltac:(done) ltac:(by intros ? ? ? ? [= <-]) ltac:(done)
    ltac:(intros ? ? ? [] [= <-] [? ?]; simpl in *; by subst) "vault" path source
    (cred_row uuid_v5 rfc3339 tenant) w s w' now rows Hrows Hk Hrun) as [Hs Ha].
  split; [|exact Ha]. eapply Forall_impl; [exact Hs|]. by intros r [_ Hr].
Qed.

(** The same for targets, ports reduced to 32 bits, and for audit events, which are
    only ever added. *)
Definition holds_target (r : InvRow) (t : TargetRec) : Prop :=
  tg_kind t = ir_kind r ∧ tg_transport t = ir_transport r ∧ tg_host t = ir_host r ∧ tg_port t = ir_port r ∧
  tg_credential t = ir_credential r ∧ tg_labels t = ir_labels r ∧ tg_caps t = ir_caps r.

Definition untouched_target (t : TargetRec) : TargetRec :=
  mkTargetRec (tg_uuid t) (tg_kind t) (tg_transport t) (tg_host t) (tg_port t) (tg_credential t)
    (tg_labels t) (tg_caps t) (tg_created t) 0.

Lemma inventory_migration_settles path source tenant rows w s w' now :
  read_file source ≫= read_rows (inv_row uuid_v5 rfc3339 tenant) = Ok rows → NoDup (map ir_ref rows) →
  migrate_inventory uuid_v5 rfc3339 path source tenant false w = (Ok s, w') →
  Forall (λ r, ∃ t, mt_targets (mw_tables w') !! (tenant, ir_ref r) = Some t ∧ holds_target r t ∧
    0 < tg_port t ≤ 65535) rows ∧
  ∃ s2 v', migrate_inventory uuid_v5 rfc3339 path source tenant false (mkMigw (mw_tables w') now [])
      = (Ok s2, v') ∧
    untouched_target <$> mt_targets (mw_tables v') = untouched_target <$> mt_targets (mw_tables w').
Proof.
  intros Hrows Hn Hrun.
  assert (NoDup (map (λ r, (tenant, ir_ref r)) rows)) as Hk.
  { rewrite <- (map_map ir_ref (pair tenant)). by apply NoDup_fmap_2; [intros ? ? [=]|]. }
  destruct (migrate_table_again (λ r, (tenant, ir_ref r)) new_target (Some update_target)
    check_target same_target_id mt_targets set_targets (λ r, "insert target " +:+ ir_ref r)
    holds_target untouched_target ltac:(done) ltac:(done) ltac:(by intros ? ? ? ? [= <-]) ltac:(done)
    ltac:(intros ? ? ? [] [= <-] (? & ? & ? & ? & ? & ? & ?); simpl in *; by subst) "inventory" path source
    (inv_row uuid_v5 rfc3339 tenant) w s w' now rows Hrows Hk Hrun) as [Hs Ha].
  split; [|exact Ha]. eapply Forall_impl; [exact Hs|]. intros r (Hc & t & Ht & Hh). exists t.
  split; [done|]. split; [done|]. destruct Hh as (_ & _ & _ & -> & _). unfold check_target in Hc.
  destruct ((0 <? ir_port r) && (ir_port r <=? 65535)) eqn:Hp; [lia|done].
Qed.

Lemma audit_migration_settles path source tenant rows w s w' now :
  read_file source ≫= read_rows (mig_event uuid_v5 rfc3339 tenant) = Ok rows → NoDup (map au_id rows) →
  migrate_audit uuid_v5 rfc3339 path source tenant false w = (Ok s, w') →
  Forall (λ r, is_Some (mt_events (mw_tables w') !! au_id r)) rows ∧
  ∃ s2 v', migrate_audit uuid_v5 rfc3339 path source tenant false (mkMigw (mw_tables w') now [])
      = (Ok s2, v') ∧ mt_events (mw_tables v') = mt_events (mw_tables w').
Proof.
  intros Hrows Hn Hrun.
  destruct (migrate_table_again au_id (λ _ r, au_event r) None
    check_event (λ _ _, false) mt_events set_events
    (λ r, "insert audit event " +:+ er_action (au_event r) +:+ " (" +:+ au_id r +:+ ")")
    (λ _ _, True) id ltac:(done) ltac:(done) ltac:(done) ltac:(done) ltac:(done) "audit" path source
    (mig_event uuid_v5 rfc3339 tenant) w s w' now rows Hrows Hn Hrun) as [Hs (s2 & v' & Hr & He)].
  rewrite !map_fmap_id in He. split; [|eauto]. eapply Forall_impl; [exact Hs|].
  intros r (_ & e & He' & _). by exists e.
Qed.

(** ** Where the tool stops *)

(** Once the table of tenants is gone, and migration V023 drops it, no command gets
    past its first query. *)
Lemma dropped_tenants_stop so now slug c dry_run w :
  mw_faults w = [] → mt_tenants (mw_tables w) = None →
  run_migration uuid_v5 rfc3339 naive from_epoch so now slug c dry_run w
    = (Err ["tenant lookup: " +:+ slug; "relation public.tenants does not exist"], w).
Proof.
  intros Hf Ht. destruct w as [t n f]. simpl in *. subst f. unfold run_migration.
  apply io_bind_run_err. unfold resolve_tenant_id, client, with_context, io_map_err, call, mbind, io_bind.
  simpl. by rewrite Ht.
Qed.

Lemma user_exists_spec id t :
  user_exists id t = true ↔ ∃ k r, mt_users t !! k = Some r ∧ mu_id r = id.
Proof.
  unfold user_exists. rewrite existsb_elem. setoid_rewrite string_eqb_eq. split.
  - intros ([k r] & Hk%elem_of_map_to_list & Hi). eauto.
  - intros (k & r & Hk & Hi). exists (k, r). by rewrite elem_of_map_to_list.
Qed.

(** A user that exists under another id, as the administrator the application creates
    at its first start does, stops the run: the upsert keeps the id of the row, and
    the grant names the derived one. *)
Lemma existing_user_stops tenant roles u role old w :
  mw_faults w = [] → mt_users (mw_tables w) !! (tenant, au_username u) = Some old →
  user_exists (au_uuid u) (mw_tables w) = false →
  (∀ r sc, (au_uuid u, r, sc) ∉ mt_grants (mw_tables w)) →
  roles !! (if string_eqb (au_role u) "admin" then "tenant_admin" else "operator") = Some role →
  (insert_user_row tenant roles u w).1 = Err ["grant role to " +:+ au_username u; "role_grants_user_id_fkey"].
Proof.
  intros Hf Hu He Hg Hr. unfold insert_user_row, with_context, io_map_err, lift, call, mbind, io_bind.
  rewrite Hf. unfold upsert_user, upsert. simpl. rewrite Hu. simpl. rewrite Hr. simpl.
  unfold grant_role. simpl. rewrite bool_decide_eq_false_2 by done.
  match goal with |- context [user_exists _ ?t] => destruct (user_exists (au_uuid u) t) eqn:Hx end; [|done].
  apply user_exists_spec in Hx as (k & r & Hk & Hi). simpl in Hk.
  assert (user_exists (au_uuid u) (mw_tables w) = true) as Ht; [|congruence].
  apply user_exists_spec. apply lookup_insert_Some in Hk as [[<- <-]|[_ Hk]]; eauto.
Qed.

(** A credential that was renamed in the file since the last run stops the run too:
    its id is derived from the number of its row, which is taken under the old name. *)
Lemma renamed_credential_stops tenant r now m k old :
  check_credential r = Ok tt → m !! (tenant, vr_name r) = None →
  m !! k = Some old → cd_uuid old = vr_id r → upsert_credential tenant now r m = Err "primary key".
Proof.
  intros Hc Hn Hk Hi. unfold upsert_credential, upsert. rewrite Hc, Hn. simpl.
  replace (pkey_taken _ _ _) with true; [done|]. symmetry. unfold pkey_taken. apply existsb_elem.
  exists (k, old). split; [by apply elem_of_map_to_list|]. by apply string_eqb_eq.
Qed.

(** [verify] wants every file, although a run passes over the missing ones. *)
Lemma verify_needs_files so tenant w :
  mw_faults w = [] → so_vault so = None → (verify_all so tenant w).1 = Err ["no such table: credentials"].
Proof.
  intros Hf Hv. unfold verify_all. rewrite (io_bind_run_ok _ _ _ tt (mkMigw (mw_tables w) (mw_now w) [])).
  2:{ unfold client, call. by rewrite Hf. }
  by rewrite Hv.
Qed.
End Stores.

(** ** Witnesses *)

Module MigrateDemo.
#[export] Existing Instance demo_json_text.

Definition v5 (s : string) : Uuid := "v5:" +:+ s.
Definition seconds (s : string) : option Z := parse_i64 s.

Definition empty_store : mtables :=
  mkMTables (Some {["default" := "t0"]}) ∅ ∅ ∅ {["operator" := "r1"]} ∅ ∅ ∅ ∅ ∅ ∅.

Definition vault_file : option (result string (list (Z * string * string * blob * string * string))) :=
  Some (Ok [(1, "router", "SshKey", ["a"%char; "b"%char], "10", "20");
            (2, "api", "ApiToken", ["c"%char], "11", "11")]).

Definition moved := migrate_vault v5 seconds "vault.db" vault_file "t0" false (mkMigw empty_store 100 []).
End MigrateDemo.
Import MigrateDemo.

Lemma vault_migration_settles_witness :
  size (mt_credentials (mw_tables moved.2)) = 2%nat ∧
  ∃ s2 v', migrate_vault v5 seconds "vault.db" vault_file "t0" false (mkMigw (mw_tables moved.2) 200 [])
      = (Ok s2, v') ∧
    untouched_credential <$> mt_credentials (mw_tables v')
      = untouched_credential <$> mt_credentials (mw_tables moved.2).
Proof.
  split; [vm_compute; reflexivity|].
  assert (is_ok moved.1 = true) as Hok by (vm_compute; reflexivity).
  assert (∃ rows, read_file vault_file ≫= read_rows (cred_row v5 seconds "t0") = Ok rows ∧
    NoDup (map vr_name rows)) as (rows & Hrows & Hn).
  { eexists. split; [vm_compute; reflexivity|]. apply (bool_decide_unpack _). vm_compute. exact Logic.I. }
  destruct moved as [[s|e] w'] eqn:E; [|discriminate Hok]. unfold moved in E.
  exact (proj2 (vault_migration_settles v5 seconds "vault.db" vault_file "t0" rows _ s w' 200 Hrows Hn E)).
Defined.

Lemma dry_run_pure_witness :
  mw_tables (run_migration v5 seconds seconds Some
    (mkSources "data" vault_file None None None) 0 "default" RunAll true (mkMigw empty_store 100 [])).2 = empty_store.
Proof.
  exact (proj1 (dry_run_pure v5 seconds seconds Some (mkSources "data" vault_file None None None) 0 "default"
    RunAll (mkMigw empty_store 100 []))).
Defined.
