(* ===== verification/Pages.v ===== *)
(** * daimon-app: the logic of the console's pages
    ([daimon-app/src/pages]: [admin/targets.rs], [admin/credentials.rs],
    [admin/audit.rs], [topology.rs], [dashboard.rs])

    What the pages compute between the markup and the server functions: the drafts
    behind the forms and what they submit, the dialog that edits an endpoint, the
    dialogs that reveal a secret and hide it again, the filter and the pager of the
    audit page, the layout of the topology drawing. An event handler is a step on the
    record of the page's signals; an effect runs after each step; a request in flight
    is an entry of a list until its reply arrives. The markup itself is not modelled. *)

From stdpp Require Import sorting.
From S2P Require Import Prelude RustStd Json Core Inventory AuditLog Vault Iam Config.
From S2P Require Import Console Observer Tables Listings.
From Stdlib Require Import ZArith Ascii.

Local Open Scope Z_scope.

(** ** The endpoint form *)

Record LabelRow := mkLabelRow { lr_key : string; lr_value : string }.

Record TargetDraft := mkTargetDraft {
  dr_ref_name : string;
  dr_kind : TargetKindDto;
  dr_transport : TransportKindDto;
  dr_host : string;
  dr_port : string;
  dr_port_touched : bool;
  dr_credential_ref : string;
  dr_labels : list LabelRow;
  dr_capabilities : list string;
}.

(** [TargetDraft::default], [from_dto]. *)
Definition draft_default : TargetDraft :=
  mkTargetDraft "" DHost DSsh "" (show_Z (default_port DSsh)) false "" [] [].

Definition from_dto (d : TargetDto) : TargetDraft :=
  mkTargetDraft (td_ref_name d) (td_kind d) (td_transport d) (td_host d) (show_Z (td_port d)) true
    (td_credential_ref d) (map (λ '(k, v), mkLabelRow k v) (btree_iter (td_labels d)))
    (td_capabilities d).

Definition parse_u16 : string → option Z := parse_int false 0 65535.

(** The rows of a key/value editor as a map: blank keys are dropped, a later row wins. *)
Fixpoint rows_to_map (m : gmap string string) (rows : list LabelRow) : gmap string string :=
  match rows with
  | [] => m
  | r :: rows =>
      let k := trim (lr_key r) in
      rows_to_map (if string_eqb k "" then m else <[k := lr_value r]> m) rows
  end.

(** [to_dto]. *)
Definition to_dto (d : TargetDraft) : result string TargetDto :=
  if string_eqb (trim (dr_ref_name d)) "" then Err "Ref name is required"
  else if string_eqb (trim (dr_host d)) "" then Err "Host is required"
  else match parse_u16 (trim (dr_port d)) with
       | None => Err "Port must be a number between 1 and 65535"
       | Some port =>
           Ok (mkTargetDto (trim (dr_ref_name d)) (dr_kind d) (dr_transport d) (trim (dr_host d))
                 port (trim (dr_credential_ref d)) (rows_to_map ∅ (dr_labels d))
                 (dr_capabilities d))
       end.

(** *** [TargetEditor]: the handlers of its controls *)

Inductive draft_edit :=
| EditRef (s : string)
| PickKind (s : string)
| PickTransport (s : string)
| EditPort (s : string)
| EditHost (s : string)
| PickCredential (s : string)
| AddLabel
| EditKey (i : nat) (s : string)
| EditValue (i : nat) (s : string)
| RemoveLabel (i : nat).

Definition kind_option (s : string) : option TargetKindDto :=
  if string_eqb s "platform" then Some DPlatform
  else if string_eqb s "network" then Some DNetwork
  else if string_eqb s "host" then Some DHost
  else if string_eqb s "app" then Some DApp
  else None.

Definition transport_option (s : string) : option TransportKindDto :=
  if string_eqb s "ssh" then Some DSsh
  else if string_eqb s "rest" then Some DRest
  else if string_eqb s "snmp" then Some DSnmp
  else if string_eqb s "grpc" then Some DGrpc
  else None.

Definition with_labels (l : list LabelRow) (d : TargetDraft) : TargetDraft :=
  mkTargetDraft (dr_ref_name d) (dr_kind d) (dr_transport d) (dr_host d) (dr_port d)
    (dr_port_touched d) (dr_credential_ref d) l (dr_capabilities d).

(** [on_transport_change]. *)
Definition on_transport_change (t : TransportKindDto) (d : TargetDraft) : TargetDraft :=
  mkTargetDraft (dr_ref_name d) (dr_kind d) t (dr_host d)
    (if dr_port_touched d then dr_port d else show_Z (default_port t))
    (dr_port_touched d) (dr_credential_ref d) (dr_labels d) (dr_capabilities d).

(** Removing a row that is not there panics. *)
Definition edit_draft (e : draft_edit) (d : TargetDraft) : option TargetDraft :=
  match e with
  | EditRef s => Some (mkTargetDraft s (dr_kind d) (dr_transport d) (dr_host d) (dr_port d)
      (dr_port_touched d) (dr_credential_ref d) (dr_labels d) (dr_capabilities d))
  | PickKind s =>
      Some match kind_option s with
           | Some k => mkTargetDraft (dr_ref_name d) k (dr_transport d) (dr_host d) (dr_port d)
               (dr_port_touched d) (dr_credential_ref d) (dr_labels d) (dr_capabilities d)
           | None => d
           end
  | PickTransport s =>
      Some match transport_option s with Some t => on_transport_change t d | None => d end
  | EditPort s => Some (mkTargetDraft (dr_ref_name d) (dr_kind d) (dr_transport d) (dr_host d) s
      true (dr_credential_ref d) (dr_labels d) (dr_capabilities d))
  | EditHost s => Some (mkTargetDraft (dr_ref_name d) (dr_kind d) (dr_transport d) s (dr_port d)
      (dr_port_touched d) (dr_credential_ref d) (dr_labels d) (dr_capabilities d))
  | PickCredential s => Some (mkTargetDraft (dr_ref_name d) (dr_kind d) (dr_transport d) (dr_host d)
      (dr_port d) (dr_port_touched d) s (dr_labels d) (dr_capabilities d))
  | AddLabel => Some (with_labels (dr_labels d ++ [mkLabelRow "" ""]) d)
  | EditKey i s => Some (with_labels (alter (λ r, mkLabelRow s (lr_value r)) i (dr_labels d)) d)
  | EditValue i s => Some (with_labels (alter (λ r, mkLabelRow (lr_key r) s) i (dr_labels d)) d)
  | RemoveLabel i =>
      if (i <? length (dr_labels d))%nat then Some (with_labels (delete i (dr_labels d)) d) else None
  end.

Fixpoint edit_all (l : list draft_edit) (d : TargetDraft) : option TargetDraft :=
  match l with
  | [] => Some d
  | e :: l => edit_draft e d ≫= edit_all l
  end.

(** *** What the form guarantees *)

(** A record the form can show and give back: texts without outer white space, the
    required ones not empty, a port that fits. *)
Record clean_dto (d : TargetDto) : Prop := mkClean {
  cl_ref : trim (td_ref_name d) = td_ref_name d ∧ td_ref_name d ≠ "";
  cl_host : trim (td_host d) = td_host d ∧ td_host d ≠ "";
  cl_cred : trim (td_credential_ref d) = td_credential_ref d;
  cl_port : 0 ≤ td_port d < 65536;
  cl_labels : ∀ k v, td_labels d !! k = Some v → trim k = k ∧ k ≠ "";
}.

Lemma string_neqb s t : s ≠ t → string_eqb s t = false.
Proof. apply string_eqb_neq. Qed.

Lemma rows_to_map_blank m rows : m !! "" = None → rows_to_map m rows !! "" = None.
Proof.
  revert m. induction rows as [|r rows IH]; intros m Hm; [done|]. cbn [rows_to_map]. apply IH.
  destruct (string_eqb (trim (lr_key r)) "") eqn:E; [done|].
  rewrite lookup_insert_ne; [done|]. intros Hk. by rewrite Hk in E.
Qed.

Lemma rows_to_map_pairs (m : gmap string string) (l : list (string * string)) :
  NoDup l.*1 → Forall (λ kv, trim kv.1 = kv.1 ∧ kv.1 ≠ "") l →
  rows_to_map m (map (λ '(k, v), mkLabelRow k v) l) = list_to_map l ∪ m.
Proof.
  revert m. induction l as [|[k v] l IH]; intros m Hd Hl; simpl.
  { by rewrite (left_id_L ∅ (∪)). }
  apply NoDup_cons in Hd as [Hk Hd]. apply Forall_cons in Hl as [[Ht Hne] Hl]. simpl in *.
  rewrite Ht, string_neqb by done. rewrite IH by done.
  rewrite <- insert_union_r by by apply not_elem_of_list_to_map_1.
  by rewrite insert_union_l.
Qed.

Lemma rows_to_map_iter (m : gmap string string) :
  (∀ k v, m !! k = Some v → trim k = k ∧ k ≠ "") →
  rows_to_map ∅ (map (λ '(k, v), mkLabelRow k v) (btree_iter m)) = m.
Proof.
  intros Hm. assert (btree_iter m ≡ₚ map_to_list m) as Hp by apply merge_sort_Permutation.
  assert (NoDup (btree_iter m).*1) as Hd by (rewrite Hp; apply NoDup_fst_map_to_list).
  rewrite rows_to_map_pairs; [|done|].
  - rewrite (right_id_L ∅ (∪)), (list_to_map_proper _ (map_to_list m)) by done.
    apply list_to_map_to_list.
  - apply Forall_forall. intros [k v] Hkv%elem_of_btree_iter. by apply Hm in Hkv.
Qed.

Lemma trim_show_Z z : trim (show_Z z) = show_Z z.
Proof.
  apply trim_plain. eapply Forall_impl; [apply show_Z_digits|]. intros a [Ha| ->]; [|done].
  revert Ha. clear. destruct a as [[] [] [] [] [] [] [] []]; by vm_compute.
Qed.

Lemma target_form_rt d : clean_dto d → to_dto (from_dto d) = Ok d ∧ dto_wf d.
Proof.
  intros [[Hr Hrn] [Hh Hhn] Hc Hp Hl]. split; [|done].
  unfold to_dto, from_dto. cbn [dr_ref_name dr_host dr_port dr_credential_ref dr_labels dr_kind
    dr_transport dr_capabilities].
  rewrite Hr, Hh, Hc, !string_neqb, trim_show_Z by done.
  unfold parse_u16. rewrite parse_int_show by lia. rewrite rows_to_map_iter by done. by destruct d.
Qed.

(** The endpoint form round-trips: a stored endpoint whose texts carry no outer
    white space, opened in the edit form and saved unchanged, is submitted exactly as
    it was, with every label, and the inventory accepts it as the same target. *)
Theorem edit_form_roundtrip d :
  clean_dto d →
  to_dto (from_dto d) = Ok d ∧
  (∀ t, dto_to_managed d = Ok t → target_wf t ∧ managed_to_dto t = d).
Proof.
  intros [Hd Hw]%target_form_rt. split; [done|]. intros t. by apply dto_to_managed_ok.
Qed.

(** What is submitted has a name, a host and a port of sixteen bits. *)
Lemma to_dto_ok d t :
  to_dto d = Ok t → dto_wf t ∧ td_ref_name t ≠ "" ∧ td_host t ≠ "" ∧
    td_ref_name t = trim (dr_ref_name d) ∧ td_labels t !! "" = None.
Proof.
  unfold to_dto. destruct (string_eqb (trim (dr_ref_name d)) "") eqn:Hr; [done|].
  destruct (string_eqb (trim (dr_host d)) "") eqn:Hh; [done|].
  destruct (parse_u16 (trim (dr_port d))) as [p|] eqn:Hp; [|done]. intros [= <-]. simpl.
  split; [|split_and!; [by apply string_eqb_neq|by apply string_eqb_neq|done|by apply rows_to_map_blank]].
  apply parse_int_range in Hp. unfold dto_wf. simpl. lia.
Qed.

(** The message promises 1 to 65535; 0 is taken as well. *)
Lemma port_zero_accepted d :
  dr_port d = "0" → trim (dr_ref_name d) ≠ "" → trim (dr_host d) ≠ "" →
  ∃ t, to_dto d = Ok t ∧ td_port t = 0.
Proof.
  intros Hp Hr Hh. unfold to_dto. rewrite !string_neqb by done. rewrite Hp. by eexists.
Qed.

(** As long as nobody typed a port, the port is the transport's own. *)
Definition port_default (d : TargetDraft) : Prop :=
  dr_port_touched d = true ∨ dr_port d = show_Z (default_port (dr_transport d)).

Lemma port_follows_transport l d d' : edit_all l d = Some d' → port_default d → port_default d'.
Proof.
  revert d. induction l as [|e l IH]; intros d Hl Hp; [by simplify_eq/=|].
  apply bind_Some in Hl as (d1 & He & Hl). apply (IH d1 Hl). unfold port_default in *.
  destruct e; simpl in He; simplify_eq; simpl; auto.
  - destruct (kind_option s); auto.
  - destruct (transport_option s); [simpl|done]. destruct (dr_port_touched d); auto.
  - destruct (_ <? _)%nat; simplify_eq; auto.
Qed.

(** *** The dialog that edits an endpoint

    [em_loads] are the records asked for and not yet answered, [em_saves] the number of
    submissions not yet answered, [em_sent] the endpoints submitted so far. Save is neither rendered while a record loads nor enabled while
    one is being saved. *)
Record edit_modal := mkEditModal {
  em_open : bool;
  em_target : option string;
  em_draft : TargetDraft;
  em_error : option string;
  em_saving : bool;
  em_loading : bool;
  em_refresh : nat;
  em_loads : list string;
  em_saves : nat;
  em_sent : list TargetDto;
}.

Definition modal_closed : edit_modal :=
  mkEditModal false None draft_default None false false 0 [] 0 [].

Inductive edit_event :=
| OpenEdit (ref_name : string)                          (** the row's Edit button *)
| Loaded (ref_name : string) (r : result string TargetDto)
| EditField (e : draft_edit)
| SaveEdit
| Saved (r : result string unit)
| CloseEdit.

(** The reply takes its request off the list. *)
Fixpoint remove_first (x : string) (l : list string) : list string :=
  match l with
  | [] => []
  | y :: l => if string_eqb x y then l else y :: remove_first x l
  end.

Definition edit_step (e : edit_event) (m : edit_modal) : option edit_modal :=
  match e with
  | OpenEdit ref_name =>
      if em_open m then None
      else Some (mkEditModal true (Some ref_name) (em_draft m) None false true (em_refresh m)
                   (ref_name :: em_loads m) (em_saves m) (em_sent m))
  | Loaded ref_name r =>
      if bool_decide (ref_name ∈ em_loads m) then
        let rest := remove_first ref_name (em_loads m) in
        Some match r with
        | Ok dto => mkEditModal (em_open m) (em_target m) (from_dto dto) (em_error m) (em_saving m)
            false (em_refresh m) rest (em_saves m) (em_sent m)
        | Err e => mkEditModal (em_open m) (em_target m) (em_draft m) (Some e) (em_saving m)
            false (em_refresh m) rest (em_saves m) (em_sent m)
        end
      else None
  | EditField e =>
      if em_open m && negb (em_loading m) then
        (λ d, mkEditModal true (em_target m) d (em_error m) (em_saving m) false (em_refresh m)
                (em_loads m) (em_saves m) (em_sent m)) <$> edit_draft e (em_draft m)
      else None
  | SaveEdit =>
      if em_open m && negb (em_loading m) && negb (em_saving m) then
        Some match to_dto (em_draft m) with
        | Err e => mkEditModal true (em_target m) (em_draft m) (Some e) false false (em_refresh m)
            (em_loads m) (em_saves m) (em_sent m)
        | Ok dto => mkEditModal true (em_target m) (em_draft m) None true false (em_refresh m)
            (em_loads m) (S (em_saves m)) (em_sent m ++ [dto])
        end
      else None
  | Saved r =>
      match em_saves m, r with
      | O, _ => None
      | S n, Ok _ => Some (mkEditModal false (em_target m) (em_draft m) (em_error m) false
          (em_loading m) (S (em_refresh m)) (em_loads m) n (em_sent m))
      | S n, Err e => Some (mkEditModal (em_open m) (em_target m) (em_draft m) (Some e) false
          (em_loading m) (em_refresh m) (em_loads m) n (em_sent m))
      end
  | CloseEdit => Some (mkEditModal false (em_target m) (em_draft m) (em_error m) (em_saving m)
      (em_loading m) (em_refresh m) (em_loads m) (em_saves m) (em_sent m))
  end.

Fixpoint edit_run (l : list edit_event) (m : edit_modal) : option edit_modal :=
  match l with
  | [] => Some m
  | e :: l => edit_step e m ≫= edit_run l
  end.

Lemma edit_run_app l l' m : edit_run (l ++ l') m = edit_run l m ≫= edit_run l'.
Proof.
  revert m. induction l as [|e l IH]; intros m; simpl; [done|].
  destruct (edit_step e m); simpl; [apply IH|done].
Qed.

Lemma edit_fields_run l m d' :
  em_open m = true → em_loading m = false → edit_all l (em_draft m) = Some d' →
  edit_run (map EditField l) m = Some (mkEditModal true (em_target m) d' (em_error m) (em_saving m)
    false (em_refresh m) (em_loads m) (em_saves m) (em_sent m)).
Proof.
  revert m. induction l as [|e l IH]; intros m Ho Hl Hd; simpl in *.
  { destruct m; simplify_eq/=. done. }
  apply bind_Some in Hd as (d1 & He & Hd). rewrite Ho, Hl. simpl. rewrite He. simpl.
  by rewrite IH.
Qed.

(** An edit with no other load in flight submits what the form shows: the loaded record
    with the edits made to it. *)
Lemma edit_submits_form r dto l d' sent m :
  em_open m = false → em_loads m = [] →
  edit_all l (from_dto dto) = Some d' → to_dto d' = Ok sent →
  ∃ m', edit_run (OpenEdit r :: Loaded r (Ok dto) :: map EditField l ++ [SaveEdit]) m = Some m' ∧
    em_sent m' = em_sent m ++ [sent] ∧ em_target m' = Some r ∧ em_saving m' = true.
Proof.
  intros Ho Hn Hl Hs. cbn [edit_run edit_step]. rewrite Ho. cbn [mbind option_bind edit_run edit_step].
  rewrite bool_decide_true by by left. cbn [mbind option_bind].
  rewrite edit_run_app, (edit_fields_run l _ d') by done. cbn. rewrite Hs. by eexists.
Qed.

(** A record that cannot be loaded leaves the previous one in the form, under the name of
    the new target, and Save writes the previous one. *)
Lemma failed_load_saves_previous m r e prev :
  em_open m = false → em_loads m = [] → clean_dto prev → em_draft m = from_dto prev →
  ∃ m', edit_run [OpenEdit r; Loaded r (Err e); SaveEdit] m = Some m' ∧
    em_target m' = Some r ∧ em_sent m' = em_sent m ++ [prev].
Proof.
  intros Ho Hn Hc Hd. cbn [edit_run edit_step]. rewrite Ho. cbn [mbind option_bind edit_run edit_step].
  rewrite bool_decide_true by by left. cbn -[to_dto]. rewrite Hd, (proj1 (target_form_rt prev Hc)).
  by eexists.
Qed.

(** The reply to a load that was abandoned replaces the record of the endpoint opened
    since. *)
Lemma late_load_replaces m a b da db :
  em_open m = false → em_loads m = [] → a ≠ b →
  ∃ m', edit_run [OpenEdit a; CloseEdit; OpenEdit b; Loaded b (Ok db); Loaded a (Ok da)] m = Some m' ∧
    em_target m' = Some b ∧ em_open m' = true ∧ em_draft m' = from_dto da.
Proof.
  intros Ho Hn Hab. cbn -[remove_first from_dto]. rewrite Ho. cbn -[remove_first from_dto].
  rewrite Hn, bool_decide_true by by left. cbn -[from_dto].
  rewrite string_eqb_refl. rewrite bool_decide_true by by left. by eexists.
Qed.

(** ** The credential form *)

Record CredentialDraft := mkCredDraft {
  dc_kind : CredentialKindDto;
  dc_ssh_key_username : string;
  dc_ssh_key_pem : string;
  dc_ssh_key_passphrase : string;
  dc_ssh_password_username : string;
  dc_ssh_password_password : string;
  dc_api_token : string;
  dc_generic_rows : list LabelRow;
}.

Definition cred_draft_default : CredentialDraft :=
  mkCredDraft DSshKey "" "" "" "" "" "" [mkLabelRow "" ""].

(** The draft of the edit dialog: the kind of the credential, every value blank. *)
Definition cred_draft_edit (k : CredentialKindDto) : CredentialDraft :=
  mkCredDraft k "" "" "" "" "" "" [mkLabelRow "" ""].

(** [try_to_dto]. *)
Definition try_to_dto (d : CredentialDraft) : result string CredentialDto :=
  match dc_kind d with
  | DSshKey =>
      if string_eqb (trim (dc_ssh_key_username d)) "" then Err "Username is required"
      else if string_eqb (trim (dc_ssh_key_pem d)) "" then Err "Private key PEM is required"
      else Ok (DtoSshKey (dc_ssh_key_username d) (dc_ssh_key_pem d)
                 (if string_eqb (dc_ssh_key_passphrase d) "" then None
                  else Some (dc_ssh_key_passphrase d)))
  | DSshPassword =>
      if string_eqb (trim (dc_ssh_password_username d)) "" then Err "Username is required"
      else if string_eqb (dc_ssh_password_password d) "" then Err "Password is required"
      else Ok (DtoSshPassword (dc_ssh_password_username d) (dc_ssh_password_password d))
  | DApiToken =>
      if string_eqb (dc_api_token d) "" then Err "Token is required"
      else Ok (DtoApiToken (dc_api_token d))
  | DGeneric =>
      let fields := rows_to_map ∅ (dc_generic_rows d) in
      if bool_decide (fields = ∅) then Err "At least one key/value pair is required"
      else Ok (DtoGeneric fields)
  end.

(** What the add dialog asks the server for, and the rename dialog. *)
Definition submit_credential (name : string) (d : CredentialDraft) :
    result string (string * CredentialDto) :=
  if string_eqb (trim name) "" then Err "Name is required"
  else (λ dto, (name, dto)) <$> try_to_dto d.

(** [None]: the dialog closes and nothing is asked. *)
Definition submit_rename (old_name new_name : string) : result string (option string) :=
  if string_eqb (trim new_name) "" then Err "Name is required"
  else if string_eqb new_name old_name then Ok None
  else Ok (Some new_name).

(** [format_secret_for_clipboard]. *)
Definition format_secret_for_clipboard (s : CredentialDto) : string :=
  match s with
  | DtoSshKey username pem passphrase =>
      "username: " +:+ username +:+ nl +:+ "private_key_pem:" +:+ nl +:+ pem +:+
      match passphrase with Some p => nl +:+ "passphrase: " +:+ p | None => "" end
  | DtoSshPassword username password =>
      "username: " +:+ username +:+ nl +:+ "password: " +:+ password
  | DtoApiToken token => token
  | DtoGeneric fields => join "010"%char (map (λ '(k, v), k +:+ ": " +:+ v) (btree_iter fields))
  end.

(** A credential that can be used: nothing it needs is empty. *)
Definition usable_dto (c : CredentialDto) : Prop :=
  match c with
  | DtoSshKey u k p => trim u ≠ "" ∧ trim k ≠ "" ∧ p ≠ Some ""
  | DtoSshPassword u p => trim u ≠ "" ∧ p ≠ ""
  | DtoApiToken t => t ≠ ""
  | DtoGeneric f => f ≠ ∅ ∧ f !! "" = None
  end.

(** The form submits a credential of the kind that was picked, and a usable one; an edit
    that fills nothing in is refused, so a stored secret is never blanked. *)
Lemma credential_form_sound d c : try_to_dto d = Ok c → dto_kind c = dc_kind d ∧ usable_dto c.
Proof.
  unfold try_to_dto. destruct (dc_kind d).
  - destruct (string_eqb (trim (dc_ssh_key_username d)) "") eqn:Hu; [done|].
    destruct (string_eqb (trim (dc_ssh_key_pem d)) "") eqn:Hk; [done|]. intros [= <-].
    split; [done|]. simpl. split_and!; try by apply string_eqb_neq.
    destruct (string_eqb (dc_ssh_key_passphrase d) "") eqn:Hp; [done|].
    apply string_eqb_neq in Hp. congruence.
  - destruct (string_eqb (trim (dc_ssh_password_username d)) "") eqn:Hu; [done|].
    destruct (string_eqb (dc_ssh_password_password d) "") eqn:Hk; [done|]. intros [= <-].
    split; [done|]. by split; apply string_eqb_neq.
  - destruct (string_eqb (dc_api_token d) "") eqn:Hk; [done|]. intros [= <-].
    split; [done|]. by apply string_eqb_neq.
  - case_bool_decide; [done|]. intros [= <-]. split; [done|]. split; [done|].
    by apply rows_to_map_blank.
Qed.

Lemma blank_edit_refused k : is_ok (try_to_dto (cred_draft_edit k)) = false.
Proof. by destruct k. Qed.

(** ** Revealing a secret

    The signals of the page and of its two dialogs. [rv_asked] are the reveals whose
    reply has not come, [rv_timers] the countdown loops that are alive: one starts when
    the display opens and ends when it wakes to find it closed, or at zero. *)
Record reveal_page := mkReveal {
  rv_target : option (Uuid * string);
  rv_confirm_open : bool;
  rv_revealing : bool;
  rv_error : option string;
  rv_display_open : bool;
  rv_secret : option CredentialDto;
  rv_countdown : Z;
  rv_timers : nat;
  rv_asked : list Uuid;
}.

Definition reveal_idle : reveal_page := mkReveal None false false None false None 30 0 [].

Inductive reveal_event :=
| OpenReveal (id : Uuid) (name : string)       (** the row's Reveal button *)
| ConfirmReveal                                 (** the dialog's Reveal button *)
| CancelReveal
| Revealed (id : Uuid) (r : result string CredentialDto)
| TimerWakes
| HideNow.

(** The two effects on [reveal_display_open]: opening it starts a countdown of thirty
    seconds, closing it drops the secret. *)
Definition display_effects (was_open : bool) (p : reveal_page) : reveal_page :=
  match was_open, rv_display_open p with
  | false, true => mkReveal (rv_target p) (rv_confirm_open p) (rv_revealing p) (rv_error p) true
      (rv_secret p) 30 (S (rv_timers p)) (rv_asked p)
  | true, false => mkReveal (rv_target p) (rv_confirm_open p) (rv_revealing p) (rv_error p) false
      None (rv_countdown p) (rv_timers p) (rv_asked p)
  | _, _ => p
  end.

(** One wake-up of a countdown loop. *)
Definition timer_wakes (p : reveal_page) : reveal_page :=
  if rv_display_open p then
    let remaining := Z.max 0 (rv_countdown p - 1) in
    if remaining =? 0 then
      mkReveal (rv_target p) (rv_confirm_open p) (rv_revealing p) (rv_error p) false None 0
        (pred (rv_timers p)) (rv_asked p)
    else mkReveal (rv_target p) (rv_confirm_open p) (rv_revealing p) (rv_error p) true (rv_secret p)
        remaining (rv_timers p) (rv_asked p)
  else mkReveal (rv_target p) (rv_confirm_open p) (rv_revealing p) (rv_error p) false (rv_secret p)
        (rv_countdown p) (pred (rv_timers p)) (rv_asked p).

Definition reveal_handler (e : reveal_event) (p : reveal_page) : option reveal_page :=
  match e with
  | OpenReveal id name =>
      if rv_confirm_open p || rv_display_open p then None
      else Some (mkReveal (Some (id, name)) true false None false (rv_secret p) (rv_countdown p)
                   (rv_timers p) (rv_asked p))
  | ConfirmReveal =>
      match rv_target p with
      | Some (id, _) =>
          if rv_confirm_open p && negb (rv_revealing p) then
            Some (mkReveal (rv_target p) true true (rv_error p) (rv_display_open p) (rv_secret p)
                    (rv_countdown p) (rv_timers p) (id :: rv_asked p))
          else None
      | None => None
      end
  | CancelReveal =>
      if rv_confirm_open p then
        Some (mkReveal (rv_target p) false (rv_revealing p) (rv_error p) (rv_display_open p)
                (rv_secret p) (rv_countdown p) (rv_timers p) (rv_asked p))
      else None
  | Revealed id r =>
      if bool_decide (id ∈ rv_asked p) then
        let rest := remove_first id (rv_asked p) in
        Some match r with
        | Ok secret => mkReveal (rv_target p) false false (rv_error p) true (Some secret)
            (rv_countdown p) (rv_timers p) rest
        | Err e => mkReveal (rv_target p) (rv_confirm_open p) false (Some e) (rv_display_open p)
            (rv_secret p) (rv_countdown p) (rv_timers p) rest
        end
      else None
  | TimerWakes => if (0 <? rv_timers p)%nat then Some (timer_wakes p) else None
  | HideNow =>
      if rv_display_open p then
        Some (mkReveal (rv_target p) (rv_confirm_open p) (rv_revealing p) (rv_error p) false
                (rv_secret p) (rv_countdown p) (rv_timers p) (rv_asked p))
      else None
  end.

Definition reveal_step (e : reveal_event) (p : reveal_page) : option reveal_page :=
  display_effects (rv_display_open p) <$> reveal_handler e p.

(** Runs of the page. *)
Inductive reveals : list reveal_event → reveal_page → reveal_page → Prop :=
| reveals_nil p : reveals [] p p
| reveals_cons e l p p1 p2 :
    reveal_step e p = Some p1 → reveals l p1 p2 → reveals (e :: l) p p2.

(** A closed display holds no secret; an open one counts down, with a loop alive. *)
Definition reveal_inv (p : reveal_page) : Prop :=
  (rv_display_open p = false → rv_secret p = None) ∧
  (rv_display_open p = true → (0 < rv_timers p)%nat ∧ 1 ≤ rv_countdown p ≤ 30).

Lemma reveal_step_inv e p p1 : reveal_inv p → reveal_step e p = Some p1 → reveal_inv p1.
Proof.
  intros [Hc Ho] (q & Hq & ->)%fmap_Some. destruct p as [t cf rv er dis sec cd tm asked].
  unfold reveal_inv, display_effects in *. simpl in *. destruct e; simpl in Hq.
  - destruct cf, dis; simplify_eq/=; auto.
  - destruct t as [[id nm]|], cf, rv, dis; simplify_eq/=; auto.
  - destruct cf, dis; simplify_eq/=; auto.
  - case_bool_decide; [|done]. destruct r, dis; simplify_eq/=; split; try done; auto; lia.
  - destruct tm as [|tm]; [done|]. unfold timer_wakes in Hq. simpl in Hq.
    destruct dis; [|by simplify_eq/=; auto]. destruct Ho as [_ Ho]; [done|].
    destruct (Z.max 0 (cd - 1) =? 0) eqn:E; simplify_eq/=; [done|].
    apply Z.eqb_neq in E. split; [done|]. lia.
  - destruct dis; simplify_eq/=. done.
Qed.

Lemma reveals_inv l p p' : reveal_inv p → reveals l p p' → reveal_inv p'.
Proof. intros Hp Hr. induction Hr; eauto using reveal_step_inv. Qed.

Definition is_wake (e : reveal_event) : bool := match e with TimerWakes => true | _ => false end.
Definition wakes (l : list reveal_event) : Z := Z.of_nat (length (List.filter is_wake l)).

(** While the display stays open, only the wake-ups move the countdown. *)
Lemma reveal_step_countdown e p p1 :
  reveal_inv p → rv_display_open p = true → reveal_step e p = Some p1 →
  rv_display_open p1 = false ∨
  (rv_display_open p1 = true ∧ rv_countdown p1 = rv_countdown p - (if is_wake e then 1 else 0)).
Proof.
  intros [_ Hi] Ho (q & Hq & ->)%fmap_Some. specialize (Hi Ho).
  destruct p as [t cf rv er dis sec cd tm asked]. unfold display_effects. simpl in *. subst dis.
  destruct e; simpl in Hq.
  - destruct cf; simplify_eq/=.
  - destruct t as [[id nm]|], cf, rv; simplify_eq/=; right; split; (done || lia).
  - destruct cf; simplify_eq/=. right. split; [done|lia].
  - case_bool_decide; [|done]. destruct r; simplify_eq/=; right; split; (done || lia).
  - destruct tm as [|tm]; [done|]. unfold timer_wakes in Hq. simpl in Hq.
    destruct (Z.max 0 (cd - 1) =? 0) eqn:E; simplify_eq/=; [by left|].
    apply Z.eqb_neq in E. right. split; [done|lia].
  - simplify_eq/=. by left.
Qed.

(** C35: a revealed secret is hidden in time. On every page that can be reached, a closed
    display holds no secret and an open one has a countdown loop alive; and from there,
    however the operator goes on clicking and whatever replies arrive, a run in which the
    loops wake thirty times passes through a page where the display is closed and the
    secret is gone. *)
Theorem revealed_secret_hidden l p l' p' :
  reveals l reveal_idle p → reveals l' p p' → 30 ≤ wakes l' →
  (rv_display_open p = false → rv_secret p = None) ∧
  (rv_display_open p = true → (0 < rv_timers p)%nat) ∧
  ∃ k q, reveals (take k l') p q ∧ rv_display_open q = false ∧ rv_secret q = None.
Proof.
  intros Hl Hl' Hn. assert (reveal_inv p) as Hp.
  { eapply reveals_inv; [|exact Hl]. split; [done|]. by simpl. }
  split; [apply Hp|]. split; [intros Ho; by apply Hp|].
  assert (rv_display_open p = true → rv_countdown p ≤ wakes l') as Hc
    by (intros Ho; apply Hp in Ho; lia).
  clear Hl Hn. induction Hl' as [p|e l' p p1 p2 Hs Hr IH].
  - exists 0%nat, p. split; [constructor|]. destruct (rv_display_open p) eqn:Ho; [|by split; [|apply Hp]].
    specialize (Hc eq_refl). destruct Hp as [_ Hp]. apply Hp in Ho. unfold wakes in Hc. simpl in Hc. lia.
  - destruct (rv_display_open p) eqn:Ho; [|exists 0%nat, p; split; [constructor|]; by split; [|apply Hp]].
    assert (reveal_inv p1) as Hp1 by eauto using reveal_step_inv.
    destruct (reveal_step_countdown e p p1 Hp Ho Hs) as [Hd|[Hd Hcd]].
    + exists 1%nat, p1. split; [econstructor; [done|constructor]|]. by split; [|apply Hp1].
    + destruct IH as (k & q & Hk & Hq); [done|..].
      { intros _. specialize (Hc eq_refl). unfold wakes in *. simpl in Hc.
        destruct (is_wake e); simpl in Hc; lia. }
      exists (S k), q. split; [by econstructor|done].
Qed.

Fixpoint reveal_run (l : list reveal_event) (p : reveal_page) : option reveal_page :=
  match l with
  | [] => Some p
  | e :: l => reveal_step e p ≫= reveal_run l
  end.

Lemma reveal_run_reveals l p p' : reveal_run l p = Some p' → reveals l p p'.
Proof.
  revert p. induction l as [|e l IH]; intros p Hl; simpl in Hl; [by simplify_eq; constructor|].
  apply bind_Some in Hl as (p1 & Hs & Hl). by econstructor; [|apply IH].
Qed.

(** Cancelling does not stop a reveal that was asked for; and its secret appears under the
    name of the credential whose dialog was opened since. *)
Lemma cancelled_reveal_shown a na b nb s :
  (∃ p, reveal_run [OpenReveal a na; ConfirmReveal; CancelReveal; Revealed a (Ok s)] reveal_idle = Some p ∧
     rv_display_open p = true ∧ rv_secret p = Some s) ∧
  (∃ p, reveal_run [OpenReveal a na; ConfirmReveal; CancelReveal; OpenReveal b nb; Revealed a (Ok s)]
     reveal_idle = Some p ∧
     rv_display_open p = true ∧ rv_secret p = Some s ∧ rv_target p = Some (b, nb)).
Proof.
  split; cbn -[bool_decide remove_first]; rewrite bool_decide_true by (by left); by eexists.
Qed.

(** A secret revealed while the loop of the previous one sleeps is counted down by both. *)
Lemma quick_reveal_two_timers a na s s' :
  ∃ p, reveal_run [OpenReveal a na; ConfirmReveal; Revealed a (Ok s); HideNow;
                   OpenReveal a na; ConfirmReveal; Revealed a (Ok s')] reveal_idle = Some p ∧
    rv_timers p = 2%nat ∧ rv_countdown p = 30.
Proof.
  cbn -[bool_decide remove_first]. rewrite bool_decide_true by by left. cbn -[bool_decide].
  rewrite string_eqb_refl. cbn -[bool_decide remove_first]. rewrite bool_decide_true by by left.
  by eexists.
Qed.

(** ** The audit page *)

Definition PAGE_SIZE : Z := 25.

(** The browser's [Date.parse], in whole seconds. *)
Section AuditPage.
Variable date_parse : string → option Z.

Record audit_page := mkAuditPage {
  pa_actor : string;
  pa_action : option ActionKindDto;
  pa_target_ref : string;
  pa_result : option AuditResultDto;
  pa_since : option Z;
  pa_until : option Z;
  pa_since_input : string;
  pa_until_input : string;
  pa_page : Z;
}.

Definition audit_page_new : audit_page := mkAuditPage "" None "" None None None "" "" 0.

(** [parse_action], [parse_datetime_local]. *)
Definition parse_action (label : string) : ActionKindDto :=
  if string_eqb label "broker.execute" then DBrokerExecute
  else if string_eqb label "vault.resolve" then DVaultResolve
  else if string_eqb label "vault.reveal" then DVaultReveal
  else if string_eqb label "vault.create" then DVaultCreate
  else if string_eqb label "vault.update" then DVaultUpdate
  else if string_eqb label "vault.rename" then DVaultRename
  else if string_eqb label "vault.delete" then DVaultDelete
  else if string_eqb label "inventory.upsert" then DInventoryUpsert
  else if string_eqb label "inventory.remove" then DInventoryRemove
  else if string_eqb label "inventory.resolve" then DInventoryResolve
  else if string_eqb label "transport.dispatch" then DTransportDispatch
  else if string_eqb label "guard.approve" then DGuardApprove
  else if string_eqb label "guard.deny" then DGuardDeny
  else DOther.

Definition parse_datetime_local (s : string) : option Z :=
  if string_eqb (trim s) "" then None else date_parse s.

Definition some_text (s : string) : option string :=
  if string_eqb (trim s) "" then None else Some (trim s).

(** [build_filter]. *)
Definition build_filter (p : audit_page) : AuditFilterDto :=
  mkFilterDto (some_text (pa_actor p)) (pa_action p) (some_text (pa_target_ref p)) (pa_result p)
    (pa_since p) (pa_until p).

(** [total_pages], from the reply to the count. *)
Definition audit_pages (count : option Z) : Z :=
  Z.max 1 match count with
  | Some n => Z.min (2^32 - 1) (Z.max (n mod 2^32) 1 + (PAGE_SIZE - 1)) / PAGE_SIZE
  | None => 1
  end.

Definition audit_prev_disabled (p : audit_page) : bool := pa_page p =? 0.
Definition audit_next_disabled (count : option Z) (p : audit_page) : bool :=
  audit_pages count <=? pa_page p + 1.

Inductive audit_ui :=
| TypeActor (s : string)
| PickAction (s : string)
| TypeTarget (s : string)
| PickResult (s : string)
| Preset (now : Z) (days_or_hour : option Z)            (** seconds back; [None]: all *)
| TypeSince (s : string)
| TypeUntil (s : string)
| PrevPage
| NextPage.

Definition result_option (s : string) : option AuditResultDto :=
  if string_eqb s "success" then Some DSuccess
  else if string_eqb s "error" then Some DError
  else if string_eqb s "denied" then Some DDenied
  else None.

(** The handlers. A disabled button does nothing. *)
Definition audit_ui_step (count : option Z) (e : audit_ui) (p : audit_page) : audit_page :=
  match e with
  | TypeActor s => mkAuditPage s (pa_action p) (pa_target_ref p) (pa_result p) (pa_since p)
      (pa_until p) (pa_since_input p) (pa_until_input p) 0
  | PickAction s => mkAuditPage (pa_actor p) (if string_eqb s "" then None else Some (parse_action s))
      (pa_target_ref p) (pa_result p) (pa_since p) (pa_until p) (pa_since_input p)
      (pa_until_input p) 0
  | TypeTarget s => mkAuditPage (pa_actor p) (pa_action p) s (pa_result p) (pa_since p)
      (pa_until p) (pa_since_input p) (pa_until_input p) 0
  | PickResult s => mkAuditPage (pa_actor p) (pa_action p) (pa_target_ref p) (result_option s)
      (pa_since p) (pa_until p) (pa_since_input p) (pa_until_input p) 0
  | Preset now back => mkAuditPage (pa_actor p) (pa_action p) (pa_target_ref p) (pa_result p)
      ((λ b, now - b) <$> back) None "" "" 0
  | TypeSince s => mkAuditPage (pa_actor p) (pa_action p) (pa_target_ref p) (pa_result p)
      (parse_datetime_local s) (pa_until p) s (pa_until_input p) 0
  | TypeUntil s => mkAuditPage (pa_actor p) (pa_action p) (pa_target_ref p) (pa_result p)
      (pa_since p) (parse_datetime_local s) (pa_since_input p) s 0
  | PrevPage =>
      mkAuditPage (pa_actor p) (pa_action p) (pa_target_ref p) (pa_result p) (pa_since p)
        (pa_until p) (pa_since_input p) (pa_until_input p)
        (if audit_prev_disabled p then pa_page p else pa_page p - 1)
  | NextPage =>
      mkAuditPage (pa_actor p) (pa_action p) (pa_target_ref p) (pa_result p) (pa_since p)
        (pa_until p) (pa_since_input p) (pa_until_input p)
        (if audit_next_disabled count p then pa_page p else pa_page p + 1)
  end.

Definition changes_filter (e : audit_ui) : bool :=
  match e with PrevPage | NextPage => false | _ => true end.

Lemma audit_pages_bounds n :
  0 ≤ n < 2^32 - 24 →
  1 ≤ audit_pages (Some n) ∧ n ≤ audit_pages (Some n) * PAGE_SIZE < Z.max n 1 + PAGE_SIZE.
Proof.
  intros Hn. unfold audit_pages, PAGE_SIZE. rewrite Z.mod_small by lia.
  rewrite Z.min_r by lia. pose proof (Z.div_mod (Z.max n 1 + (25 - 1)) 25 ltac:(lia)).
  pose proof (Z.mod_pos_bound (Z.max n 1 + (25 - 1)) 25 ltac:(lia)). lia.
Qed.

(** The pager of the audit page is complete and stays in range. Whatever the operator
    does, the page shown lies between the first and the last, a change of the filter goes
    back to the first, so the offset asked for is below the number of events; and every
    event counted lies on exactly one of the pages the buttons can reach. *)
Theorem audit_pager_sound n e p :
  0 ≤ n < 2^32 - 24 → 0 ≤ pa_page p < audit_pages (Some n) →
  let p' := audit_ui_step (Some n) e p in
  0 ≤ pa_page p' < audit_pages (Some n) ∧
  (pa_page p' = 0 ∨ pa_page p' * PAGE_SIZE < n) ∧
  (changes_filter e = true → pa_page p' = 0) ∧
  (changes_filter e = false → build_filter p' = build_filter p) ∧
  ∀ i, 0 ≤ i < n → exists! q, 0 ≤ q < audit_pages (Some n) ∧ q * PAGE_SIZE ≤ i < (q + 1) * PAGE_SIZE.
Proof.
  intros Hn Hp p'. pose proof (audit_pages_bounds n Hn) as [Ht1 Ht].
  assert (0 ≤ pa_page p' < audit_pages (Some n)) as Hp'.
  { destruct e; simpl; try lia.
    - unfold audit_prev_disabled. destruct (Z.eqb_spec (pa_page p) 0); lia.
    - unfold audit_next_disabled. destruct (Z.leb_spec (audit_pages (Some n)) (pa_page p + 1)); lia. }
  split; [done|]. unfold PAGE_SIZE in *. split; [lia|].
  split; [by destruct e|]. split; [by destruct e|].
  intros i Hi. pose proof (Z.div_mod i 25 ltac:(lia)). pose proof (Z.mod_pos_bound i 25 ltac:(lia)).
  exists (i / 25). split; [split; [split; [by apply Z.div_pos; lia|lia]|lia]|].
  intros q [_ Hq]. lia.
Qed.

(** The labels of the picker are read back, except those of the memory actions: filtering
    by one of these asks for the events of kind [Other]. *)
Lemma parse_action_label k :
  parse_action (action_label k) =
    match k with DMemoryIngest | DMemoryRetrieve | DMemoryWrite => DOther | _ => k end.
Proof. by destruct k. Qed.
End AuditPage.

(** ** The topology drawing

    Every coordinate the layout computes is a whole number far below 2^53, so the doubles
    of the code are exact and integers stand for them; the height is even, so its half is
    whole as well. *)
Definition VIEW_W : Z := 920.
Definition HUB_X : Z := 92.
Definition HUB_R : Z := 36.
Definition LANE0_X : Z := 300.
Definition LANE_GAP : Z := 168.
Definition NODE_TOP : Z := 74.
Definition NODE_GAP : Z := 62.
Definition NODE_W : Z := 148.
Definition NODE_H : Z := 44.
Definition MIN_H : Z := 320.

Definition LANES : list (TargetKindDto * string * string) :=
  [(DNetwork, "Network", "#F59E0B"); (DPlatform, "Platform", "#A78BFA");
   (DHost, "Hosts", "#4CAF50"); (DApp, "Apps", "#38BDF8")].

Record NodeBox := mkNode { nb_x : Z; nb_y : Z; nb_title : string; nb_sub : string; nb_color : string }.
Record Edge := mkEdge { ed_x1 : Z; ed_y1 : Z; ed_x2 : Z; ed_y2 : Z; ed_color : string }.

Definition ellipsis : string := utf8 [226; 128; 166]%N.
Definition middle_dot : string := utf8 [194; 183]%N.

Definition trunc (s : string) (n : nat) : string :=
  if (n <? length (chars s))%nat then chars_take (n - 1) s +:+ ellipsis else s.

#[export] Instance target_kind_dto_eq_dec : EqDecision TargetKindDto.
Proof. solve_decision. Defined.

Definition transport_debug_lower (t : TransportKindDto) : string :=
  match t with DSsh => "ssh" | DRest => "rest" | DSnmp => "snmp" | DGrpc => "grpc" end.

Definition in_lane (k : TargetKindDto) (targets : list TargetRow) : list TargetRow :=
  List.filter (λ t, bool_decide (tr_kind t = k)) targets.

Definition lane_color (k : TargetKindDto) : string :=
  match k with DNetwork => "#F59E0B" | DPlatform => "#A78BFA" | DHost => "#4CAF50" | DApp => "#38BDF8" end.

Definition node_of (lane_x : Z) (color : string) (j : nat) (t : TargetRow) : NodeBox :=
  mkNode lane_x (NODE_TOP + Z.of_nat j * NODE_GAP) (trunc (tr_ref_name t) 17)
    (trunc (tr_host t +:+ ":" +:+ show_Z (tr_port t) +:+ " " +:+ middle_dot +:+ " " +:+
            transport_debug_lower (tr_transport t)) 22) color.

Definition edge_of (hub_y lane_x : Z) (color : string) (j : nat) : Edge :=
  mkEdge (HUB_X + HUB_R) hub_y (lane_x - NODE_W / 2) (NODE_TOP + Z.of_nat j * NODE_GAP) color.

Definition lane_nodes (targets : list TargetRow) (i : nat) (lane : TargetKindDto * string * string) :
    list NodeBox :=
  let '(k, _, color) := lane in
  imap (node_of (LANE0_X + Z.of_nat i * LANE_GAP) color) (in_lane k targets).

Definition lane_edges (targets : list TargetRow) (hub_y : Z) (i : nat)
    (lane : TargetKindDto * string * string) : list Edge :=
  let '(k, _, color) := lane in
  imap (λ j _, edge_of hub_y (LANE0_X + Z.of_nat i * LANE_GAP) color j) (in_lane k targets).

Definition max_lane (targets : list TargetRow) : nat :=
  foldr Nat.max 0%nat (map (λ '(k, _, _), length (in_lane k targets)) LANES).

Definition view_height (targets : list TargetRow) : Z :=
  Z.max (NODE_TOP + Z.of_nat (max_lane targets) * NODE_GAP + 20) MIN_H.

(** [layout]. *)
Definition layout (targets : list TargetRow) : list NodeBox * list Edge * Z :=
  let height := view_height targets in
  (mjoin (imap (lane_nodes targets) LANES), mjoin (imap (lane_edges targets (height / 2)) LANES),
   height).

(** Two boxes do not meet. *)
Definition apart (a b : NodeBox) : Prop :=
  NODE_W ≤ Z.abs (nb_x a - nb_x b) ∨ NODE_H ≤ Z.abs (nb_y a - nb_y b).

(** A box lies inside the drawing, right of the hub. *)
Definition inside (height : Z) (a : NodeBox) : Prop :=
  HUB_X + HUB_R < nb_x a - NODE_W / 2 ∧ nb_x a + NODE_W / 2 ≤ VIEW_W ∧
  0 ≤ nb_y a - NODE_H / 2 ∧ nb_y a + NODE_H / 2 ≤ height.

Lemma imap_pairwise {A B} (R : B → B → Prop) (f : nat → A → B) l :
  (∀ i j x y, (i < j)%nat → R (f i x) (f j y)) → StronglySorted R (imap f l).
Proof.
  revert f. induction l as [|x l IH]; intros f Hf; [constructor|]. rewrite imap_cons. constructor.
  - apply IH. intros i j a b Hij. apply Hf. lia.
  - apply Forall_forall. intros b (j & y & -> & _)%elem_of_lookup_imap. apply Hf. lia.
Qed.

Lemma lane_size_max k l c targets : (k, l, c) ∈ LANES → (length (in_lane k targets) ≤ max_lane targets)%nat.
Proof.
  intros Hk. unfold max_lane.
  assert (∀ ns n, n ∈ ns → (n ≤ foldr Nat.max 0 ns)%nat) as Hm.
  { clear. induction ns as [|m ns IH]; intros n; [by intros []%not_elem_of_nil|].
    intros [->|Hn]%elem_of_cons; simpl; [lia|]. apply IH in Hn. lia. }
  apply Hm. by apply (list_elem_of_fmap_2 (λ '(k, _, _), length (in_lane k targets)) _ (k, l, c)).
Qed.

Lemma lane_nodes_inside targets i k l c n :
  LANES !! i = Some (k, l, c) → n ∈ lane_nodes targets i (k, l, c) →
  inside (view_height targets) n ∧ nb_x n = LANE0_X + Z.of_nat i * LANE_GAP.
Proof.
  intros Hi (j & t & -> & Hj)%elem_of_lookup_imap. apply lookup_lt_Some in Hj.
  assert (length (in_lane k targets) ≤ max_lane targets)%nat as Hm
    by (eapply lane_size_max, list_elem_of_lookup_2, Hi).
  apply lookup_lt_Some in Hi. simpl in Hi. split; [|done]. unfold inside, view_height. simpl.
  unfold HUB_X, HUB_R, LANE0_X, LANE_GAP, NODE_W, VIEW_W, NODE_H, NODE_TOP, NODE_GAP, MIN_H.
  change (148 / 2) with 74. change (44 / 2) with 22. lia.
Qed.

Lemma lane_nodes_apart targets i lane : StronglySorted apart (lane_nodes targets i lane).
Proof.
  destruct lane as [[k l] c]. apply imap_pairwise. intros a b x y Hab. right. simpl.
  unfold NODE_H, NODE_TOP, NODE_GAP. lia.
Qed.

Lemma in_lane_count targets :
  (length (in_lane DNetwork targets) + length (in_lane DPlatform targets) +
   length (in_lane DHost targets) + length (in_lane DApp targets) = length targets)%nat.
Proof.
  induction targets as [|t targets IH]; [done|]. unfold in_lane in *. simpl.
  destruct (tr_kind t); simpl; lia.
Qed.

(** An edge leads from the hub to the middle of the left side of its box. *)
Definition reaches (height : Z) (n : NodeBox) (e : Edge) : Prop :=
  ed_x1 e = HUB_X + HUB_R ∧ ed_y1 e = height / 2 ∧
  ed_x2 e = nb_x n - NODE_W / 2 ∧ ed_y2 e = nb_y n ∧ ed_color e = nb_color n.

Lemma lane_edges_reach targets h i lane :
  Forall2 (reaches h) (lane_nodes targets i lane) (lane_edges targets (h / 2) i lane).
Proof.
  destruct lane as [[k l] c]. apply Forall2_lookup. intros j. unfold lane_nodes, lane_edges.
  rewrite !list_lookup_imap. destruct (in_lane k targets !! j); by constructor.
Qed.

Lemma layout_lanes targets :
  layout targets =
    (lane_nodes targets 0 (DNetwork, "Network", "#F59E0B") ++
     lane_nodes targets 1 (DPlatform, "Platform", "#A78BFA") ++
     lane_nodes targets 2 (DHost, "Hosts", "#4CAF50") ++
     lane_nodes targets 3 (DApp, "Apps", "#38BDF8"),
     lane_edges targets (view_height targets / 2) 0 (DNetwork, "Network", "#F59E0B") ++
     lane_edges targets (view_height targets / 2) 1 (DPlatform, "Platform", "#A78BFA") ++
     lane_edges targets (view_height targets / 2) 2 (DHost, "Hosts", "#4CAF50") ++
     lane_edges targets (view_height targets / 2) 3 (DApp, "Apps", "#38BDF8"),
     view_height targets).
Proof.
  rewrite <- (app_nil_r (lane_nodes targets 3 _)) at 1.
  rewrite <- (app_nil_r (lane_edges targets (view_height targets / 2) 3 _)) at 1. done.
Qed.

Lemma lanes_apart targets i j a b x y :
  (i < j)%nat → LANES !! i = Some a → LANES !! j = Some b →
  x ∈ lane_nodes targets i a → y ∈ lane_nodes targets j b → apart x y.
Proof.
  destruct a as [[ka la] ca], b as [[kb lb] cb]. intros Hij Ha Hb Hx Hy. left.
  apply lane_nodes_inside in Hx as [_ ->]; [|done]. apply lane_nodes_inside in Hy as [_ ->]; [|done].
  unfold NODE_W, LANE0_X, LANE_GAP. lia.
Qed.

Lemma nth_lane i : (i < 4)%nat → LANES !! i = Some (nth i LANES (DApp, "", "")).
Proof. intros Hi. destruct i as [|[|[|[|i]]]]; [done..|lia]. Qed.

Lemma lane_has targets i k l c t :
  LANES !! i = Some (k, l, c) → t ∈ targets → tr_kind t = k →
  ∃ n, n ∈ lane_nodes targets i (k, l, c) ∧ nb_title n = trunc (tr_ref_name t) 17 ∧ nb_color n = c.
Proof.
  intros Hi Ht Hk. assert (t ∈ in_lane k targets) as [j Hj]%list_elem_of_lookup.
  { unfold in_lane. apply list_elem_of_In, filter_In. split; [by apply list_elem_of_In|].
    by apply bool_decide_true. }
  eexists. split; [apply elem_of_lookup_imap; by eauto|done].
Qed.

(** The topology drawing is faithful and readable: every registered target gets exactly
    one box, no two boxes overlap, every box lies inside the drawing and clear of the hub,
    and the edges connect the hub to the boxes, one each, in the colour of the lane. *)
Theorem topology_layout_sound targets :
  let '(nodes, edges, height) := layout targets in
  length nodes = length targets ∧
  StronglySorted apart nodes ∧
  Forall (inside height) nodes ∧
  Forall2 (reaches height) nodes edges ∧
  (∀ t, t ∈ targets → ∃ n, n ∈ nodes ∧ nb_title n = trunc (tr_ref_name t) 17 ∧
     nb_color n = lane_color (tr_kind t)).
Proof.
  rewrite layout_lanes. split_and!.
  - rewrite !length_app. unfold lane_nodes. rewrite !length_imap, <- (in_lane_count targets). lia.
  - assert (∀ i j x y, (i < j < 4)%nat → x ∈ lane_nodes targets i (nth i LANES (DApp, "", "")) →
      y ∈ lane_nodes targets j (nth j LANES (DApp, "", "")) → apart x y) as Ha.
    { intros i j x y Hij. apply lanes_apart; [lia|by apply nth_lane; lia..]. }
    apply StronglySorted_app_2; [|apply lane_nodes_apart|].
    { intros x y Hx Hy. rewrite !elem_of_app in Hy. destruct Hy as [Hy|[Hy|Hy]].
      - by apply (Ha 0%nat 1%nat); [lia|..].
      - by apply (Ha 0%nat 2%nat); [lia|..].
      - by apply (Ha 0%nat 3%nat); [lia|..]. }
    apply StronglySorted_app_2; [|apply lane_nodes_apart|].
    { intros x y Hx Hy. rewrite !elem_of_app in Hy. destruct Hy as [Hy|Hy].
      - by apply (Ha 1%nat 2%nat); [lia|..].
      - by apply (Ha 1%nat 3%nat); [lia|..]. }
    apply StronglySorted_app_2; [|apply lane_nodes_apart|apply lane_nodes_apart].
    intros x y Hx Hy. by apply (Ha 2%nat 3%nat); [lia|..].
  - rewrite !Forall_app. split_and!; apply Forall_forall; intros n Hn;
      by eapply lane_nodes_inside in Hn as [? _].
  - do 3 (apply Forall2_app; [apply lane_edges_reach|]). apply lane_edges_reach.
  - intros t Ht. setoid_rewrite elem_of_app. repeat setoid_rewrite elem_of_app.
    destruct (tr_kind t) eqn:Hk.
    + destruct (lane_has targets 1 DPlatform "Platform" "#A78BFA" t) as (n & ? & ? & ?); naive_solver.
    + destruct (lane_has targets 0 DNetwork "Network" "#F59E0B" t) as (n & ? & ? & ?); naive_solver.
    + destruct (lane_has targets 2 DHost "Hosts" "#4CAF50" t) as (n & ? & ? & ?); naive_solver.
    + destruct (lane_has targets 3 DApp "Apps" "#38BDF8" t) as (n & ? & ? & ?); naive_solver.
Qed.

(** ** The anomaly chart of the dashboard *)

Definition severity_count (p : string → bool) (l : list AnomalyView) : nat :=
  length (List.filter (λ a, p (av_severity a)) l).

Definition severity_dist (l : list AnomalyView) : list (string * nat) :=
  let crit := severity_count (λ s, string_eqb s "critical") l in
  let warn := severity_count (λ s, string_eqb s "warning") l in
  [("Critical", crit); ("Warning", warn); ("Info", (length l - (crit + warn))%nat)].

(** The segments add up to the open anomalies. *)
Lemma severity_dist_total l : foldr Nat.add 0%nat (severity_dist l).*2 = length l.
Proof.
  assert (severity_count (λ s, string_eqb s "critical") l +
          severity_count (λ s, string_eqb s "warning") l ≤ length l)%nat as Hl; [|simpl; lia].
  induction l as [|a l IH]; [done|]. unfold severity_count in *. simpl.
  destruct (string_eqb (av_severity a) "critical") eqn:E.
  - apply string_eqb_eq in E. rewrite E. simpl. lia.
  - destruct (string_eqb (av_severity a) "warning"); simpl; lia.
Qed.

(** ** Witnesses *)

Module PagesDemo.
Definition edge_router : TargetDto :=
  mkTargetDto "mikrotik-edge" DNetwork DSsh "10.0.0.1" 22 "vault://edge" {["site" := "hq"]} ["dns"].

Definition shown_secret : list reveal_event :=
  [OpenReveal "c1" "edge"; ConfirmReveal; Revealed "c1" (Ok (DtoApiToken "t"))].

Definition drawn : list TargetRow :=
  [mkTargetRow "a" DHost DSsh "h" 22 0 0; mkTargetRow "b" DHost DRest "h" 443 0 0;
   mkTargetRow "c" DApp DSnmp "h" 161 0 0].

Lemma edge_router_clean : clean_dto edge_router.
Proof.
  split; try by vm_compute. intros k v Hk. simpl in Hk.
  apply lookup_singleton_Some in Hk as [<- _]. by vm_compute.
Qed.
End PagesDemo.

Lemma edit_form_roundtrip_witness :
  to_dto (from_dto PagesDemo.edge_router) = Ok PagesDemo.edge_router.
Proof. exact (proj1 (edit_form_roundtrip _ PagesDemo.edge_router_clean)). Defined.

Lemma revealed_secret_hidden_witness :
  ∃ p p', reveal_run PagesDemo.shown_secret reveal_idle = Some p ∧ rv_display_open p = true ∧
    reveal_run (replicate 30 TimerWakes) p = Some p' ∧
    ∃ k q, reveals (take k (replicate 30 TimerWakes)) p q ∧ rv_display_open q = false ∧
      rv_secret q = None.
Proof.
  eexists _, _. split; [vm_compute; reflexivity|]. split; [reflexivity|].
  split; [vm_compute; reflexivity|].
  eapply (revealed_secret_hidden PagesDemo.shown_secret _ (replicate 30 TimerWakes)).
  - apply reveal_run_reveals. vm_compute. reflexivity.
  - apply reveal_run_reveals. vm_compute. reflexivity.
  - vm_compute. discriminate.
Defined.

Lemma audit_pager_sound_witness :
  pa_page (audit_ui_step (λ _, None) (Some 60) NextPage audit_page_new) = 1 ∧
  (pa_page (audit_ui_step (λ _, None) (Some 60) NextPage audit_page_new) = 0 ∨
   pa_page (audit_ui_step (λ _, None) (Some 60) NextPage audit_page_new) * PAGE_SIZE < 60).
Proof.
  split; [reflexivity|].
  assert (0 ≤ pa_page audit_page_new < audit_pages (Some 60)) as Hp by (vm_compute; by split).
  exact (proj1 (proj2 (audit_pager_sound (λ _, None) 60 NextPage audit_page_new ltac:(lia) Hp))).
Defined.

Lemma topology_layout_sound_witness :
  length (layout PagesDemo.drawn).1.1 = 3%nat ∧ StronglySorted apart (layout PagesDemo.drawn).1.1.
Proof.
  pose proof (topology_layout_sound PagesDemo.drawn) as Hl.
  destruct (layout PagesDemo.drawn) as [[nodes edges] height]. destruct Hl as (Hn & Hs & _).
  by split.
Defined.
