(* ===== verification/SettingsUi.v ===== *)
(** * daimon-app: the settings pages
    ([daimon-app/src/pages/settings]: [mod.rs], [form.rs], [ai_providers.rs],
    [channels.rs], [memory.rs])

    What the settings pages do with the rows they are shown and with what is typed:
    the tabs, the schema-driven forms, the catalogue of model providers, the channel
    cards, the memory catalogue. Each Save is the sequence of [set_setting] calls the
    page makes, run here against the server function itself, so its effect is stated on
    the database, the live configuration and what reads them: the guard, the choice of
    the model client, the wiring of the channels at the next start. *)

From stdpp Require Import sorting.
From S2P Require Import Prelude RustStd Json Core KillSwitch Policy Approvals Guard.
From S2P Require Import Inventory AuditLog Broker Admin HotMemory AppDb Iam Vault Config.
From S2P Require Import Gateway Memory Runtime Llm Chat Adapters Tables Startup.
From Stdlib Require Import ZArith Ascii.

Local Open Scope Z_scope.

(** ** Tabs *)

Inductive Tab :=
| TabIdentity | TabIam | TabTargets | TabCredentials | TabConnections | TabLlm | TabGuard
| TabObserver | TabRag | TabVault | TabChannels | TabSystem | TabUpdate.

Definition tab_label (t : Tab) : string :=
  match t with
  | TabIdentity => "Identity" | TabIam => "IAM" | TabTargets => "Targets"
  | TabCredentials => "Credentials" | TabConnections => "Connections" | TabLlm => "AI Providers"
  | TabGuard => "Guard" | TabObserver => "Observer" | TabRag => "Memory" | TabVault => "Vault & KMS"
  | TabChannels => "Channels" | TabSystem => "System" | TabUpdate => "Update"
  end.

Definition tab_prefix (t : Tab) : string :=
  match t with
  | TabIdentity => "identity." | TabIam => "iam." | TabTargets => "targets."
  | TabCredentials => "credentials." | TabConnections => "connections." | TabLlm => "llm."
  | TabGuard => "guard." | TabObserver => "observer." | TabRag => "memory." | TabVault => "vault."
  | TabChannels => "channels." | TabSystem => "" | TabUpdate => "update."
  end.

Definition tab_read_only (t : Tab) : bool :=
  match t with TabConnections | TabVault => true | _ => false end.

Definition TAB_ORDER : list Tab :=
  [TabIdentity; TabIam; TabTargets; TabCredentials; TabConnections; TabLlm; TabGuard; TabObserver;
   TabRag; TabVault; TabChannels; TabSystem; TabUpdate].

(** ** Forms *)

(** [Control], [Field]. *)
Inductive Control :=
| CToggle
| CText (placeholder : string)
| CNumber (min max : Z) (unit_ : string)
| CSelect (options : list string)
| CSegmented (options : list string)
| CSecret.

Record Field := mkField { fl_key : string; fl_label : string; fl_help : string; fl_control : Control }.

Definition field_is_secret (f : Field) : bool :=
  match fl_control f with CSecret => true | _ => false end.

(** [schema_for]. *)
Definition schema_for (prefix : string) : list Field :=
  if string_eqb prefix "identity." then
    [mkField "identity.org_name" "Organisation name" "Shown in the console header." (CText "daimon")]
  else if string_eqb prefix "guard." then
    [mkField "guard.approval_timeout_secs" "Approval timeout"
       ("How long a gated write waits for a decision before it is denied. " +:+
        "Applies to the next gated request.") (CNumber 10 86400 "seconds");
     mkField "guard.blast_radius_depth" "Blast-radius depth"
       ("Graph traversal depth shown with an approval so the operator sees " +:+
        "what a write touches.") (CNumber 1 12 "hops")]
  else if string_eqb prefix "observer." then
    [mkField "observer.prom_poll_interval_secs" "Prometheus poll interval"
       "How often the observer queries Prometheus. Applies on the next tick."
       (CNumber 5 3600 "seconds")]
  else [].

Section Values.
Context `{JsonText}.

(** [row], [row_value] and the [row_string]s of the pages. *)
Definition setting_row (rows : list SettingRow) (key : string) : option SettingRow :=
  find (λ r, string_eqb (sr_key r) key) rows.

Definition value_text (v : json) : string :=
  match v with JString s => s | _ => json_to_string v end.

Definition row_value (rows : list SettingRow) (key : string) : string :=
  match setting_row rows key with Some r => value_text (sr_value r) | None => "" end.

(** The channel cards print a boolean themselves. *)
Definition channel_value (rows : list SettingRow) (key : string) : string :=
  match setting_row rows key with
  | Some r => match sr_value r with JBool b => show_bool b | v => value_text v end
  | None => ""
  end.

Definition row_bool (rows : list SettingRow) (key : string) : bool :=
  string_eqb (channel_value rows key) "true".

(** What an input shows when the rows have loaded; a secret's stays blank. *)
Definition seed_field (rows : list SettingRow) (f : Field) : string :=
  if field_is_secret f then "" else row_value rows (fl_key f).
End Values.

(** [to_json]. *)
Definition to_json (c : Control) (raw : string) : json :=
  match c with
  | CToggle => JBool (string_eqb raw "true")
  | CNumber _ _ _ => match parse_i64 raw with Some n => JInt n | None => JString raw end
  | _ => JString raw
  end.

Abbreviation write := (string * json * bool)%type.

(** The writes of a form: blank inputs are left out. *)
Definition form_items (fields : list Field) (values : string → string) : list write :=
  map (λ f, (fl_key f, to_json (fl_control f) (values (fl_key f)), field_is_secret f))
    (List.filter (λ f, negb (string_eqb (trim (values (fl_key f))) "")) fields).

(** ** The catalogue of model providers *)

Inductive AuthKind :=
| AuthApiKey (key_setting env_hint : string)
| AuthOAuthSession
| AuthLocalUrl (url_setting default_url : string).

Record ProviderSpec := mkProvider {
  ps_id : string; ps_name : string; ps_default_model : string; ps_auth : AuthKind }.

Definition PROVIDERS : list ProviderSpec :=
  [mkProvider "anthropic" "Anthropic" "claude-sonnet-4-6"
     (AuthApiKey "llm.anthropic_key" "ANTHROPIC_API_KEY");
   mkProvider "openai" "OpenAI" "gpt-4o" (AuthApiKey "llm.openai_key" "OPENAI_API_KEY");
   mkProvider "chatgpt" "ChatGPT (OAuth)" "" AuthOAuthSession;
   mkProvider "local" "Local / Ollama" "llama3.2"
     (AuthLocalUrl "llm.ollama_url" "http://localhost:11434")].

Definition active_id (raw : string) : string :=
  let p := to_ascii_lowercase raw in
  if string_eqb p "openai" then "openai"
  else if string_eqb p "chatgpt" then "chatgpt"
  else if string_eqb p "local" || string_eqb p "ollama" then "local"
  else "anthropic".

Section Providers.
Context `{JsonText}.

Definition is_configured (spec : ProviderSpec) (rows : list SettingRow) : option bool :=
  match ps_auth spec with
  | AuthApiKey key _ => Some (bool_decide (is_Some (setting_row rows key)))
  | AuthLocalUrl _ _ => Some true
  | AuthOAuthSession => None
  end.

(** What the configuration panel of a provider starts from. *)
Definition seed_model (spec : ProviderSpec) (active : string) (rows : list SettingRow) : string :=
  if string_eqb active (ps_id spec) then
    let m := row_value rows "llm.default_model.chat" in
    if string_eqb m "" then ps_default_model spec else m
  else ps_default_model spec.

Definition seed_url (spec : ProviderSpec) (rows : list SettingRow) : string :=
  match ps_auth spec with
  | AuthLocalUrl url dflt => let u := row_value rows url in if string_eqb u "" then dflt else u
  | _ => ""
  end.
End Providers.

Definition filled (s : string) : bool := negb (string_eqb (trim s) "").

(** The writes before the activation. *)
Definition provider_writes (spec : ProviderSpec) (api_key model base_url : string) : list write :=
  match ps_auth spec with
  | AuthApiKey key _ => if filled api_key then [(key, JString api_key, true)] else []
  | AuthLocalUrl url _ => if filled base_url then [(url, JString base_url, false)] else []
  | AuthOAuthSession => []
  end ++
  match ps_auth spec with
  | AuthOAuthSession => []
  | _ => if filled model then [("llm.default_model.chat", JString model, false)] else []
  end.

(** The chips of the permit list. *)
Definition model_chips (csv : string) : list string :=
  List.filter (λ s, negb (string_eqb s "")) (map trim (split ","%char csv)).

(** ** Channel cards *)

Definition text_writes (l : list (string * string)) : list write :=
  map (λ '(k, v), (k, JString v, false)) (List.filter (λ kv, filled kv.2) l).

Definition telegram_writes (mode token_cred secret_cred : string) : list write :=
  text_writes [("channels.telegram.mode", mode); ("channels.telegram.bot_token_cred", token_cred);
               ("channels.telegram.webhook_secret_cred", secret_cred)].

Definition matrix_writes (homeserver token_cred : string) : list write :=
  text_writes [("channels.matrix.homeserver", homeserver);
               ("channels.matrix.access_token_cred", token_cred)].

(** The memory catalogue's panel. *)
Definition dmem_writes (url bearer_cred : string) : list write :=
  text_writes [("memory.provider", "dmem"); ("memory.dmem.url", url);
               ("memory.dmem.bearer_cred", bearer_cred)].

Definition memory_focus (stored : string) : string :=
  if string_eqb stored "dmem" then "dmem" else if string_eqb stored "none" then "none" else "dmem".

Inductive badge := Disabled | Enabled | EnabledMissing.

Section Cards.
Context `{JsonText}.

Definition card_badge (enabled ready : bool) : badge :=
  if negb enabled then Disabled else if ready then Enabled else EnabledMissing.

Definition telegram_badge (rows : list SettingRow) : badge :=
  card_badge (row_bool rows "channels.telegram.enabled")
    (negb (string_eqb (channel_value rows "channels.telegram.bot_token_cred") "")).

Definition matrix_badge (rows : list SettingRow) : badge :=
  card_badge (row_bool rows "channels.matrix.enabled")
    (negb (string_eqb (channel_value rows "channels.matrix.homeserver") "") &&
     negb (string_eqb (channel_value rows "channels.matrix.access_token_cred") "")).
End Cards.

(** ** Saving *)

Section Saving.
Context `{SemVer} {I V D M : Type} `{VaultAdmin V} `{PgMessages} `{Jwt} `{Bcrypt} `{JsonText}.
Abbreviation bw := (@bworld _ I V D).
Abbreviation appw := (app bw M).
Abbreviation aio := (io appw string).
Context (env : string → option string) (st : AppState (D := D)) (req : request).

Definition put_setting (x : write) : aio unit := set_setting env st req x.1.1 x.1.2 x.2.

(** The forms go on after an error and report the last one. *)
Fixpoint write_all (l : list write) (n : nat) (err : option string) : aio (nat * option string) :=
  match l with
  | [] => mret (n, err)
  | x :: l =>
      attempt (put_setting x) ≫= λ r,
      match r with
      | Ok _ => write_all l (S n) err
      | Err e => write_all l n (Some e)
      end
  end.

(** The check mark. *)
Definition check_mark : string := utf8 [226; 156; 147]%N.

Definition form_message (r : nat * option string) : string :=
  match r.2 with
  | Some e => "error: " +:+ e
  | None => "saved " +:+ show_Z (Z.of_nat r.1) +:+ " setting(s) " +:+ check_mark
  end.

(** [FormTab]'s Save. *)
Definition form_save (fields : list Field) (values : string → string) : aio (nat * option string) :=
  write_all (form_items fields values) 0 None.

(** The other pages stop at the first error. *)
Fixpoint write_until (l : list write) : aio unit :=
  match l with
  | [] => mret tt
  | x :: l => put_setting x ≫= λ _, write_until l
  end.

Inductive provider_outcome :=
| NowActive (name : string)
| NotSwitched (e : string)
| ActivationFailed (e : string).

(** [ProviderConfig]'s Save: the activation comes last. *)
Definition provider_save (spec : ProviderSpec) (api_key model base_url : string) :
    aio provider_outcome :=
  attempt (write_until (provider_writes spec api_key model base_url)) ≫= λ r,
  match r with
  | Err e => mret (NotSwitched e)
  | Ok _ =>
      attempt (put_setting ("llm.provider", JString (ps_id spec), false)) ≫= λ r,
      mret (match r with Ok _ => NowActive (ps_name spec) | Err e => ActivationFailed e end)
  end.

(** The cards' toggles and Saves, the permit list, the memory panels, the release
    channel, the raw editor. *)
Definition telegram_toggle (on : bool) : aio unit :=
  put_setting ("channels.telegram.enabled", JBool on, false).
Definition matrix_toggle (on : bool) : aio unit :=
  put_setting ("channels.matrix.enabled", JBool on, false).
Definition telegram_save (mode token_cred secret_cred : string) : aio unit :=
  write_until (telegram_writes mode token_cred secret_cred).
Definition matrix_save (homeserver token_cred : string) : aio unit :=
  write_until (matrix_writes homeserver token_cred).
Definition model_access_save (csv : string) : aio unit :=
  put_setting ("llm.available_models", JString csv, false).
Definition dmem_save (url bearer_cred : string) : aio unit := write_until (dmem_writes url bearer_cred).
Definition memory_none_save : aio unit := put_setting ("memory.provider", JString "none", false).
Definition channel_save (channel : string) : aio unit :=
  put_setting ("update.channel", JString channel, false).

(** [KvTab]'s [on_save_new]. *)
Definition full_key (t : Tab) (typed : string) : option string :=
  let k := trim typed in
  if string_eqb k "" then None
  else Some (if starts_with k (tab_prefix t) then k else tab_prefix t +:+ k).

Definition kv_value (raw : string) : json :=
  match json_from_str raw with Ok v => v | Err _ => JString raw end.

Definition kv_save (t : Tab) (typed raw : string) (secret : bool) : aio unit :=
  match full_key t typed with
  | None => throw "key is required"
  | Some k => put_setting (k, kv_value raw, secret)
  end.

(** *** One write *)

Lemma require_any_same p (w : appw) : quiet w → (require_any p st req w).2 = w.
Proof.
  intros Hq. unfold require_any, mbind, io_bind, require_authenticated.
  rewrite authenticate_quiet by done. destruct (request_claims st req w ≫= _) as [c|]; simpl; [|done].
  by destruct (existsb p (c_roles c)).
Qed.

(** The row of a write: the value, or the reference that stands for a secret. *)
Definition row_of (x : write) (row : ConfigRow) : Prop :=
  cf_is_secret row = x.2 ∧
  if x.2 then secret_ref x.1.1 x.1.2 (cf_value row) else cf_value row = x.1.2.

(** What a write leaves behind: the row, or nothing at all. *)
Definition wrote (x : write) (c c' : gmap string ConfigRow) : Prop :=
  ∃ row, c' = <[x.1.1 := row]> c ∧ row_of x row.

(** Whatever the database answers, the row is there or nothing changed; it is there
    if the write is reported done. *)
Lemma put_setting_alone x (w : appw) :
  alone w →
  let '(r, w') := put_setting x w in
  alone w' ∧
  (wrote x (t_config (db w)) (t_config (db w')) ∨
   is_ok r = false ∧ t_config (db w') = t_config (db w)).
Proof.
  intros Ha. destruct x as [[key value] sec]. unfold put_setting. cbn [fst snd].
  pose proof (set_setting_upserts env st req key value sec w Ha) as (Ha' & _ & Hc).
  destruct (set_setting _ _ _ _ _ _ w) as [r w']. simpl in *. split; [done|].
  destruct Hc as [?|(v & now & by_ & Hv & Hc)]; [by right|]. left.
  exists (mkConfigRow v sec now (Some by_)). by destruct sec.
Qed.

Lemma put_setting_cases x (w : appw) :
  quiet w →
  let '(r, w') := put_setting x w in
  quiet w' ∧
  match r with
  | Ok _ => wrote x (t_config (db w)) (t_config (db w')) ∧ live env st w'
  | Err _ => db w' = db w
  end.
Proof.
  intros Hq. destruct x as [[key value] sec]. unfold put_setting, set_setting. cbn [fst snd].
  pose proof (require_any_same (λ r, string_eqb r "admin") w Hq) as Hw.
  unfold require_admin. destruct (require_any _ st req w) as [[c|e] w1] eqn:Ha; simpl in Hw; subst w1;
    [|by rewrite (io_bind_run_err _ _ _ _ _ Ha)].
  rewrite (io_bind_run_ok _ _ _ _ _ Ha), (io_bind_run_ok _ _ _ tt w) by by apply fails_ok, pool_run.
  set (m := if sec then _ else _). assert (evolves same_pg m) as Hm.
  { unfold m. destruct sec; [apply persist_secret_pg|by intros v]. }
  specialize (Hm w). destruct (m w) as [[v|e] w1] eqn:Hv; unfold same_pg in Hm; simpl in Hm;
    [rewrite (io_bind_run_ok _ _ _ _ _ Hv)|rewrite (io_bind_run_err _ _ _ _ _ Hv)];
    [|unfold quiet, db; by rewrite Hm].
  assert (quiet w1 ∧ db w1 = db w) as [Hq1 Hdb] by (unfold quiet, db; by rewrite Hm).
  destruct (upsert_setting key v sec (c_user_id c) (clock w1) (db w1)) as [[[] t]|e] eqn:Hu.
  - rewrite (io_bind_run_ok _ _ _ tt (put t w1)) by
      (apply fails_ok; rewrite sql_run by done; by rewrite Hu).
    destruct (audit_admin_vault st (c_sub c) None (Some ("settings.upsert " +:+ key))
      (<["settings.is_secret" := show_bool sec]> {["settings.key" := key]}) (put t w1)) as (b & Hb & _).
    rewrite (io_bind_run_ok _ _ _ _ _ Hb).
    destruct (refresh_run env st (set_broker b (put t w1))) as (w4 & -> & Hl & Hq4 & Hd4 & _); [done|].
    split; [done|]. split; [|done]. rewrite Hd4. unfold upsert_setting in Hu.
    case_bool_decide; simplify_eq. eexists. rewrite <- Hdb. split; [done|]. split; [done|].
    simpl. unfold m in Hv. destruct sec; [by eapply persist_secret_ref|by inv_io].
  - rewrite (io_bind_run_err _ _ _ ("upsert: " +:+ violation e) w1); [done|].
    unfold fails, io_map_err. rewrite sql_run by done. by rewrite Hu.
Qed.

(** *** A sequence of writes *)

Abbreviation keys l := (map (λ x : write, x.1.1) l).

(** The row of a write is there. *)
Definition stored (x : write) (c : gmap string ConfigRow) : Prop :=
  ∃ row, c !! x.1.1 = Some row ∧ row_of x row.

(** What a sequence leaves behind, if none of its writes failed. *)
Record all_stored (l : list write) (w w' : appw) : Prop := mkAllStored {
  as_quiet : quiet w';
  as_rest k : k ∉ keys l → t_config (db w') !! k = t_config (db w) !! k;
  as_rows : NoDup (keys l) → Forall (λ x, stored x (t_config (db w'))) l;
  as_live : l ≠ [] → live env st w';
}.

Lemma all_stored_nil (w : appw) : quiet w → all_stored [] w w.
Proof. by split. Qed.

Lemma all_stored_cons x l (w w1 w' : appw) :
  wrote x (t_config (db w)) (t_config (db w1)) → live env st w1 → all_stored l w1 w' →
  (l = [] → w' = w1) → all_stored (x :: l) w w'.
Proof.
  intros (row & Hc & Hv) Hl [Hq Hr Hf Hlive] Hnil. split.
  - done.
  - intros k Hk. rewrite map_cons, not_elem_of_cons in Hk. destruct Hk as [Hk Hkl].
    by rewrite (Hr k Hkl), Hc, lookup_insert_ne.
  - intros [Hx Hd]%NoDup_cons. constructor; [|by apply Hf].
    exists row. split; [|done]. by rewrite (Hr _ Hx), Hc, lookup_insert_eq.
  - intros _. destruct l as [|y l]; [by rewrite Hnil|by apply Hlive].
Qed.

Lemma write_all_stays l n e (w : appw) r w' :
  write_all l n (Some e) w = (Ok r, w') → r.2 ≠ None.
Proof.
  revert n e w. induction l as [|x l IH]; intros n e w Hrun; simpl in Hrun; [by inv_io|].
  apply io_bind_ok in Hrun as ([[]|e'] & w1 & _ & Hrun); eauto.
Qed.

Lemma write_all_ok l n (w : appw) n' w' :
  quiet w → write_all l n None w = (Ok (n', None), w') →
  n' = (n + length l)%nat ∧ all_stored l w w'.
Proof.
  revert n w. induction l as [|x l IH]; intros n w Hq Hrun; simpl in Hrun.
  { inv_io. split; [simpl; lia|by apply all_stored_nil]. }
  pose proof (put_setting_cases x w Hq) as Hx.
  apply io_bind_ok in Hrun as (r & w1 & Hput & Hrun). unfold attempt in Hput.
  destruct (put_setting x w) as [[[]|e] w2]; simplify_eq;
    [|by apply write_all_stays in Hrun].
  destruct Hx as (Hq1 & Hw & Hl). destruct (IH (S n) w1 Hq1 Hrun) as [-> Hst].
  split; [simpl; lia|]. eapply all_stored_cons; [done..|]. intros ->. simpl in Hrun. by inv_io.
Qed.

Lemma write_until_ok l (w w' : appw) :
  quiet w → write_until l w = (Ok tt, w') → all_stored l w w'.
Proof.
  revert w. induction l as [|x l IH]; intros w Hq Hrun; simpl in Hrun.
  { inv_io. by apply all_stored_nil. }
  pose proof (put_setting_cases x w Hq) as Hx.
  apply io_bind_ok in Hrun as ([] & w1 & Hput & Hrun). rewrite Hput in Hx.
  destruct Hx as (Hq1 & Hw & Hl). eapply all_stored_cons; [done..|by apply IH|].
  intros ->. simpl in Hrun. by inv_io.
Qed.

(** However it ends and whatever the database answers, a sequence touches only its
    keys; if it is reported done, its rows are there. *)
Lemma write_until_alone l (w : appw) r w' :
  alone w → write_until l w = (r, w') →
  alone w' ∧ (∀ k, k ∉ keys l → t_config (db w') !! k = t_config (db w) !! k) ∧
  (is_ok r = true → NoDup (keys l) → Forall (λ x, stored x (t_config (db w'))) l).
Proof.
  revert w. induction l as [|x l IH]; intros w Ha Hrun; simpl in Hrun.
  { unfold mret, io_ret in Hrun. by simplify_eq. }
  pose proof (put_setting_alone x w Ha) as Hx.
  destruct (put_setting x w) as [[[]|e] w1] eqn:Hput; destruct Hx as [Ha1 Hx].
  - rewrite (io_bind_run_ok _ _ _ _ _ Hput) in Hrun.
    destruct Hx as [(row & Hc & Hrow)|[? _]]; [|done].
    destruct (IH w1 Ha1 Hrun) as (Ha' & Hk & Hf). split; [done|]. split.
    + intros k Hkl. rewrite map_cons, not_elem_of_cons in Hkl. destruct Hkl as [Hkx Hkl].
      by rewrite (Hk k Hkl), Hc, lookup_insert_ne.
    + intros Hok [Hkx Hd]%NoDup_cons. constructor; [|by apply Hf].
      exists row. split; [|done]. by rewrite (Hk _ Hkx), Hc, lookup_insert_eq.
  - rewrite (io_bind_run_err _ _ _ _ _ Hput) in Hrun. simplify_eq. split; [done|].
    split; [|done]. intros k Hkl. rewrite map_cons, not_elem_of_cons in Hkl.
    destruct Hx as [(row & Hc & _)|[_ ->]]; [|done]. by rewrite Hc, lookup_insert_ne by naive_solver.
Qed.

(** *** The forms *)

Lemma form_items_keys fields values k :
  k ∈ keys (form_items fields values) ↔ ∃ f, f ∈ fields ∧ fl_key f = k ∧ filled (values k) = true.
Proof.
  unfold form_items. rewrite map_map. simpl. split.
  - intros (f & -> & Hf)%list_elem_of_fmap. apply list_elem_of_In, filter_In in Hf as [Hf Hv].
    apply list_elem_of_In in Hf. by exists f.
  - intros (f & Hf & <- & Hv). apply (list_elem_of_fmap_2 (λ f, fl_key f)).
    apply list_elem_of_In, filter_In. split; [by apply list_elem_of_In|done].
Qed.

Lemma form_items_nodup fields values :
  NoDup (map fl_key fields) → NoDup (keys (form_items fields values)).
Proof.
  unfold form_items. rewrite map_map. simpl.
  induction fields as [|f fields IH]; intros Hd; [constructor|]. simpl in *.
  apply NoDup_cons in Hd as [Hf Hd]. destruct (negb _); [|by apply IH]. simpl.
  apply NoDup_cons. split; [|by apply IH].
  intros (g & Hg & Hin)%list_elem_of_fmap. apply Hf. apply list_elem_of_In, filter_In in Hin as [Hin _].
  rewrite Hg. by apply (list_elem_of_fmap_2 fl_key), list_elem_of_In.
Qed.

(** C40: a form that reports success has taken effect, when the database answers every
    round trip at once. If Save counts no error, it counts every input that was filled in.
    Each of these is in force, in the live configuration: with the value its control gives
    it, or, for a secret, with the reference that stands for it. A blank input and every
    other key are as they were in the database, and what the live configuration says about
    them is that. A positive integer saved for the approval timeout is the time the guard
    now waits. *)
Theorem form_save_in_force fields values (w : appw) n w' :
  quiet w → NoDup (map fl_key fields) →
  form_save fields values w = (Ok (n, None), w') →
  n = length (List.filter (λ f, filled (values (fl_key f))) fields) ∧
  (∀ f, f ∈ fields → filled (values (fl_key f)) = true →
     ∃ v, ap_config w' !! fl_key f = Some v ∧
       let typed := to_json (fl_control f) (values (fl_key f)) in
       if field_is_secret f then secret_ref (fl_key f) typed v else v = typed) ∧
  (∀ k, (∀ f, f ∈ fields → fl_key f = k → filled (values k) = false) →
     t_config (db w') !! k = t_config (db w) !! k ∧
     (n ≠ 0%nat → ap_config w' !! k = cf_value <$> t_config (db w) !! k)) ∧
  (∀ f secs, f ∈ fields → fl_key f = "guard.approval_timeout_secs" →
     filled (values (fl_key f)) = true → to_json (fl_control f) (values (fl_key f)) = JInt secs →
     field_is_secret f = false → 0 < secs → br_guard (st_broker st) ≠ None →
     g_timeout_secs (b_guard (ap_broker w')) = secs).
Proof.
  intros Hq Hd [Hn Hst]%write_all_ok; [|done].
  assert (∀ f, f ∈ fields → filled (values (fl_key f)) = true →
    live env st w' ∧ ∃ v, ap_config w' !! fl_key f = Some v ∧
       let typed := to_json (fl_control f) (values (fl_key f)) in
       if field_is_secret f then secret_ref (fl_key f) typed v else v = typed) as Hf.
  { intros f Hf Hv. set (x := (fl_key f, to_json (fl_control f) (values (fl_key f)), field_is_secret f)).
    assert (x ∈ form_items fields values) as Hx.
    { apply (list_elem_of_fmap_2 (λ f, (fl_key f, to_json (fl_control f) (values (fl_key f)), field_is_secret f))).
      apply list_elem_of_In, filter_In. split; [by apply list_elem_of_In|done]. }
    assert (live env st w') as Hl by (apply Hst; intros Hnil; rewrite Hnil in Hx; by apply not_elem_of_nil in Hx).
    split; [done|]. destruct Hst as [_ _ Hrows _].
    apply form_items_nodup with (values := values), Hrows in Hd. rewrite Forall_forall in Hd.
    apply Hd in Hx as (row & Hrow & _ & Hval). simpl in *.
    exists (cf_value row). by rewrite (proj1 Hl), lookup_fmap, Hrow. }
  split; [by rewrite Hn; unfold form_items; rewrite length_map|].
  split; [intros f Hin Hv; by apply Hf|]. split.
  - intros k Hk. assert (t_config (db w') !! k = t_config (db w) !! k) as Hsame.
    { apply Hst. rewrite form_items_keys. intros (f & Hin & He & Hv). by rewrite (Hk f Hin He) in Hv. }
    split; [done|]. intros Hn0. assert (live env st w') as [-> _].
    { apply Hst. intros Hnil. by rewrite Hn, Hnil in Hn0. }
    by rewrite lookup_fmap, Hsame.
  - intros f secs Hin Hk Hv Hj Hs Hb Hg. destruct (Hf f Hin Hv) as [(_ & _ & Ht) (v & Hc & Hval)].
    rewrite Hs in Hval. simpl in Hval. rewrite Hval, Hj, Hk in Hc.
    assert (cfg_u64 env (ap_config w') "guard.approval_timeout_secs"
      (Some "DAIMON_APPROVAL_TIMEOUT_SECS") DEFAULT_APPROVAL_TIMEOUT_SECS = secs) as Hc'.
    { unfold cfg_u64. rewrite Hc. simpl. unfold db_u64, as_u64.
      by rewrite (proj2 (Z.leb_le 0 secs)) by lia. }
    rewrite <- Hc'. apply Ht; [done|]. rewrite Hc'. lia.
Qed.

(** The keys of the forms are distinct. *)
Lemma schema_nodup prefix : NoDup (map fl_key (schema_for prefix)).
Proof.
  unfold schema_for. repeat case_match; apply (bool_decide_unpack _); by vm_compute.
Qed.

(** A number outside the range the control names is stored like any other, and one that is
    not a plain integer is stored as text. *)
Lemma form_number_unchecked lo hi u :
  to_json (CNumber lo hi u) "-5" = JInt (-5) ∧ to_json (CNumber lo hi u) " 600" = JString " 600" ∧
  db_u64 (JInt (-5)) = None ∧ db_u64 (JString " 600") = None.
Proof. by vm_compute. Qed.

(** *** Providers *)

Lemma provider_keys spec k m u :
  spec ∈ PROVIDERS → "llm.provider" ∉ keys (provider_writes spec k m u) ∧
  NoDup (keys (provider_writes spec k m u)).
Proof.
  intros Hs. unfold provider_writes.
  assert (∀ b b' : bool, ∀ key j s,
    "llm.provider" ≠ key → key ≠ "llm.default_model.chat" →
    "llm.provider" ∉ keys ((if b then [(key, j, s)] else []) ++
        (if b' then [("llm.default_model.chat", JString m, false)] else [])) ∧
    NoDup (keys ((if b then [(key, j, s)] else []) ++
        (if b' then [("llm.default_model.chat", JString m, false)] else [])))) as Hb.
  { intros b b' key j s Hp Hk. destruct b, b'; simpl;
      repeat (rewrite ?NoDup_cons, ?not_elem_of_cons, ?list_elem_of_singleton);
      split_and!; try done; try apply not_elem_of_nil; try constructor; by apply not_elem_of_nil. }
  repeat (apply elem_of_cons in Hs as [->|Hs]; [cbn [ps_auth]|]); [apply Hb; done..| | |];
    [split; [apply not_elem_of_nil|constructor]|by apply Hb|by apply not_elem_of_nil in Hs].
Qed.

Lemma catalogue_id spec : spec ∈ PROVIDERS → active_id (ps_id spec) = ps_id spec ∧ ps_id spec ≠ "".
Proof.
  intros Hs. repeat (apply elem_of_cons in Hs as [->|Hs]; [by vm_compute|]).
  by apply not_elem_of_nil in Hs.
Qed.

(** The activation, the last write of a switch. *)
Lemma activation spec (w : appw) r w' :
  alone w → put_setting ("llm.provider", JString (ps_id spec), false) w = (r, w') →
  (∀ k, k ≠ "llm.provider" → t_config (db w') !! k = t_config (db w) !! k) ∧
  (cf_value <$> t_config (db w') !! "llm.provider" = Some (JString (ps_id spec)) ∨
   is_ok r = false ∧
   t_config (db w') !! "llm.provider" = t_config (db w) !! "llm.provider").
Proof.
  intros Ha Hput. pose proof (put_setting_alone ("llm.provider", JString (ps_id spec), false) w Ha) as Hx.
  rewrite Hput in Hx. destruct Hx as [_ [(row & Hc & _ & Hv)|[Hn Hc]]]; rewrite Hc.
  - split; [intros k Hk; by rewrite lookup_insert_ne|]. left. simpl in *.
    rewrite lookup_insert_eq. simpl. by rewrite Hv.
  - split; [done|by right].
Qed.


(** *** What the pages are shown *)

Lemma setting_row_find (m : gmap string ConfigRow) (p : string → bool) key :
  setting_row ((λ '(k, c), mkSetting k (cf_value c) (cf_is_secret c) (cf_updated_at c))
    <$> filter (λ kc, p kc.1 = true) (btree_iter m)) key =
  if p key then
    (λ c, mkSetting key (cf_value c) (cf_is_secret c) (cf_updated_at c)) <$> m !! key
  else None.
Proof.
  set (f := λ '(k, c), mkSetting k (cf_value c) (cf_is_secret c) (cf_updated_at c)).
  unfold setting_row. destruct (find _ _) as [r|] eqn:E.
  - apply find_Some_elem in E as [([k c] & -> & [HP Hkc]%list_elem_of_filter)%list_elem_of_fmap Hk].
    apply elem_of_btree_iter in Hkc. apply string_eqb_eq in Hk. simpl in Hk. subst k.
    simpl in HP. by rewrite HP, Hkc.
  - destruct (p key) eqn:HP; [|done]. destruct (m !! key) as [c|] eqn:Hc; [|done].
    apply elem_of_btree_iter in Hc.
    assert (f (key, c) ∈ f <$> filter (λ kc, p kc.1 = true) (btree_iter m)) as Hin.
    { apply list_elem_of_fmap_2, list_elem_of_filter. done. }
    apply list_elem_of_In in Hin. apply (List.find_none _ _ E) in Hin. simpl in Hin.
    by rewrite string_eqb_refl in Hin.
Qed.

(** A page that lists a prefix is shown the row of each of its keys. *)
Lemma listed_row prefix key (w : appw) rows w' :
  quiet w → list_settings st req prefix w = (Ok rows, w') →
  sql_like (chars (prefix +:+ "%")) (chars key) = true →
  setting_row rows key =
    (λ c, mkSetting key (cf_value c) (cf_is_secret c) (cf_updated_at c)) <$> t_config (db w) !! key.
Proof.
  intros Hq Hrun Hk. unfold list_settings in Hrun.
  apply io_bind_ok in Hrun as (c & w1 & Ha & Hrun). apply require_any_ok in Ha as (-> & _ & _); [|done].
  rewrite (io_bind_run_ok _ _ _ tt w) in Hrun by by apply fails_ok, pool_run.
  unfold fails, io_map_err, select in Hrun. rewrite sql_run in Hrun by done. simplify_eq/=.
  etrans; [apply (setting_row_find _ (λ k, sql_like (chars (prefix +:+ "%")) (chars k)))|].
  by rewrite Hk.
Qed.

(** *** The channels *)

Lemma shown_bool key b (w : appw) rows w' :
  quiet w → list_settings st req "channels." w = (Ok rows, w') →
  sql_like (chars ("channels." +:+ "%")) (chars key) = true →
  config_value key (db w) = Some (JBool b) → row_bool rows key = b.
Proof.
  intros Hq Hl Hk Hv. unfold row_bool, channel_value. rewrite (listed_row _ _ _ _ _ Hq Hl Hk).
  unfold config_value in Hv. destruct (t_config (db w) !! key) as [c|]; [|done]. simpl in *.
  injection Hv as ->. by destruct b.
Qed.

Lemma toggled key on (w w' : appw) :
  quiet w → put_setting (key, JBool on, false) w = (Ok tt, w') →
  quiet w' ∧ config_value key (db w') = Some (JBool on) ∧
  ∀ k, k ≠ key → t_config (db w') !! k = t_config (db w) !! k.
Proof.
  intros Hq Hrun. pose proof (put_setting_cases (key, JBool on, false) w Hq) as Hx.
  rewrite Hrun in Hx. destruct Hx as (Hq' & (row & Hc & _ & Hv) & _). simpl in *.
  split; [done|]. unfold config_value. rewrite Hc, lookup_insert_eq. simpl. rewrite Hv by done.
  split; [done|]. intros k Hk. by rewrite lookup_insert_ne.
Qed.

Section NextStart.
Context `{LowerCase} `{ConstantTimeEq}.

(** A channel's switch means what it says. Once the toggle has answered, the card shows
    the new state, the setting the next start reads has it, no other setting changed; and a
    start on these tables wires nothing for a channel that was switched off. *)
Theorem channel_toggle_applies (h : boot_host (D := D)) (b : Broker.Broker (D := D)) g g'
    (a a' : appw) on (w w' : appw) rows wl :
  quiet w → telegram_toggle on w = (Ok tt, w') →
  list_settings st req "channels." w' = (Ok rows, wl) →
  quiet a → db a = db w' → wire_telegram h b g a = (Ok g', a') →
  row_bool rows "channels.telegram.enabled" = on ∧
  truthy_value (config_value "channels.telegram.enabled" (db a)) = on ∧
  (∀ k, k ≠ "channels.telegram.enabled" → t_config (db w') !! k = t_config (db w) !! k) ∧
  (on = false → g' = g).
Proof.
  intros Hq Ht Hl Hqa Hdb Hw. destruct (toggled _ _ _ _ Hq Ht) as (Hq' & Hv & Hk).
  split; [by eapply shown_bool|]. rewrite Hdb, Hv. split; [done|]. split; [done|]. intros ->.
  apply wire_telegram_ok in Hw as (_ & _ & [Hw|[Hw _]]); [done| |done].
  by rewrite Hdb, Hv in Hw.
Qed.

(** A value the start takes for on, but written by hand, is shown as off. *)
Lemma hand_written_on_shown_off (w : appw) rows wl :
  quiet w → list_settings st req "channels." w = (Ok rows, wl) →
  config_value "channels.telegram.enabled" (db w) = Some (JString "1") → to_lowercase "1" = "1" →
  truthy_value (config_value "channels.telegram.enabled" (db w)) = true ∧
  telegram_badge rows = Disabled.
Proof.
  intros Hq Hl Hv Hone. rewrite Hv. unfold truthy_value. rewrite Hone. split; [done|].
  unfold telegram_badge, row_bool, channel_value.
  rewrite (listed_row _ "channels.telegram.enabled" _ _ _ Hq Hl eq_refl).
  unfold config_value in Hv. destruct (t_config (db w) !! _) as [c|]; [|done]. simpl in *.
  by injection Hv as ->.
Qed.

(** A Telegram channel in webhook mode without a secret is shown as enabled; the start does
    not wire it. *)
Lemma webhook_without_secret_shown_on (h : boot_host (D := D)) (b : Broker.Broker (D := D)) g g'
    cred (w w' : appw) rows wl :
  quiet w → list_settings st req "channels." w = (Ok rows, wl) →
  config_value "channels.telegram.enabled" (db w) = Some (JBool true) →
  config_value "channels.telegram.mode" (db w) = Some (JString "webhook") →
  config_value "channels.telegram.bot_token_cred" (db w) = Some (JString cred) → cred ≠ "" →
  config_value "channels.telegram.webhook_secret_cred" (db w) = None →
  env_nonempty (bh_env h) "DAIMON_GW_TELEGRAM_WEBHOOK_SECRET" = None →
  wire_telegram h b g w = (Ok g', w') →
  telegram_badge rows = Enabled ∧ g' = g.
Proof.
  intros Hq Hl He Hm Ht Hne Hs Henv Hw. split.
  - unfold telegram_badge. rewrite (shown_bool "channels.telegram.enabled" true _ _ _ Hq Hl eq_refl He). unfold card_badge.
    unfold channel_value.
    rewrite (listed_row _ "channels.telegram.bot_token_cred" _ _ _ Hq Hl eq_refl).
    unfold config_value in Ht. destruct (t_config (db w) !! _) as [c|]; [|done]. simpl in *.
    injection Ht as ->. simpl. by rewrite (proj2 (string_eqb_neq _ _) Hne).
  - apply wire_telegram_ok in Hw as (_ & _ & [Hw|(_ & token & _ & Hw)]); [done| |done].
    unfold webhook_mode in Hw. rewrite Hm in Hw. simpl in Hw.
    destruct Hw as (secret & Hc & _). unfold comes_from in Hc. rewrite Hs, Henv in Hc. naive_solver.
Qed.
End NextStart.
End Saving.

(** The raw editor of a tab writes under the tab's prefix. *)
Lemma full_key_prefixed t typed k : full_key t typed = Some k → starts_with k (tab_prefix t) = true ∧ k ≠ "".
Proof.
  unfold full_key. destruct (string_eqb (trim typed) "") eqn:Hne; [done|]. apply string_eqb_neq in Hne.
  destruct (starts_with (trim typed) (tab_prefix t)) eqn:Hp; intros [= <-]; [done|].
  split; [apply starts_with_app|]. by destruct t.
Qed.

(** ** The active card and the client that is chosen *)

Definition llm_family (c : AnyLlm) : string :=
  match c with
  | UseAnthropic _ => "anthropic" | UseOpenAi _ => "openai"
  | UseLocal _ => "local" | UseChatGpt _ => "chatgpt"
  end.

Section Choice.
Context `{SemVer} {I V D M : Type} `{VaultAdmin V} `{PgMessages} `{WorkingMemory M}.
Context `{HashOrder RegistryEntry} `{!SemVerOrder} {X : Type} `{!BusDispatcher X}.
Context {T MW : Type} `{!MemoryService T MW}.
Context {HW : Type} `{LlmHost HW} `{JsonText} {K : Type} `{ReplySink K}.
Context (env : string → option string) (builder : result string unit).

(** The catalogue tells the truth about the next turn: the client a turn chooses is of
    the family whose card [active_id] marks, for the provider the configuration in force
    names, whatever its spelling; and for every name outside the catalogue both fall back
    to Anthropic. *)
Theorem active_card_is_chosen (b : Broker.Broker (D := D)) effort
    (w : chatw (I := I) (V := V) (D := D) (M := M) (X := X) (MW := MW) (HW := HW) (K := K)) c w' :
  select_llm env builder b effort w = (Ok c, w') →
  llm_family c = active_id (cfg_string env (ap_config (cw_app w)) "llm.provider"
    (Some "DAIMON_LLM_PROVIDER") "anthropic").
Proof.
  unfold select_llm. intros Hrun. apply io_bind_ok in Hrun as (cfg & w1 & Hg & Hrun).
  unfold gets in Hg. simplify_eq. unfold active_id.
  set (p := to_ascii_lowercase _) in *. clearbody p.
  destruct (string_eqb p "chatgpt") eqn:Ec.
  { apply io_bind_ok in Hrun as (cl & w2 & _ & Hrun). inv_io. apply string_eqb_eq in Ec. by subst p. }
  destruct (string_eqb p "openai") eqn:Eo.
  { do 3 (apply io_bind_ok in Hrun as (? & ? & _ & Hrun)). by inv_io. }
  destruct (string_eqb p "local" || string_eqb p "ollama") eqn:El.
  { apply io_bind_ok in Hrun as (? & ? & _ & Hrun). by inv_io. }
  do 3 (apply io_bind_ok in Hrun as (? & ? & _ & Hrun)). by inv_io.
Qed.
End Choice.

(** A provider that only the environment names is in force, yet the card shown as active is
    Anthropic's. *)
Lemma env_provider_not_shown `{JsonText} env rows cfg :
  setting_row rows "llm.provider" = None → cfg !! "llm.provider" = None →
  env "DAIMON_LLM_PROVIDER" = Some "openai" →
  active_id (cfg_string env cfg "llm.provider" (Some "DAIMON_LLM_PROVIDER") "anthropic") = "openai" ∧
  active_id (row_value rows "llm.provider") = "anthropic".
Proof.
  intros Hr Hc He. unfold cfg_string, cfg_opt_string, from_env, row_value. rewrite Hr, Hc. simpl.
  by rewrite He.
Qed.

(** ** Witnesses *)

Module SettingsUiDemo.
Import DemoSemVer AppDbDemo IamDemo ConfigDemo.
#[export] Existing Instance demo_json_text.
#[export] Existing Instance StartupDemo.demo_lower_case.

Definition typed (k : string) : string :=
  if string_eqb k "guard.approval_timeout_secs" then "600" else "".

Abbreviation guard_saved :=
  (form_save no_env st (as_user alice) (schema_for "guard.") typed ConfigDemo.world).

Definition local_spec : ProviderSpec :=
  mkProvider "local" "Local / Ollama" "llama3.2" (AuthLocalUrl "llm.ollama_url" "http://localhost:11434").

Abbreviation switched :=
  (provider_save no_env st (as_user alice) local_spec "" "llama3.2" "http://gpu:11434" ConfigDemo.world).

Abbreviation switched_off := (telegram_toggle no_env st (as_user alice) false ConfigDemo.world).
End SettingsUiDemo.
Import DemoSemVer AppDbDemo IamDemo ConfigDemo SettingsUiDemo.

Lemma form_save_in_force_witness :
  match guard_saved with
  | (Ok (n, None), w') => n = 1%nat ∧ g_timeout_secs (b_guard (ap_broker w')) = 600
  | _ => False
  end.
Proof.
  assert (match guard_saved.1 with Ok (_, None) => true | _ => false end = true) as Hr
    by (vm_compute; reflexivity).
  destruct guard_saved as [[[n [e|]]|e] w'] eqn:E; try discriminate Hr.
  assert (quiet ConfigDemo.world) as Hq by reflexivity.
  assert (NoDup (map fl_key (schema_for "guard."))) as Hd by apply schema_nodup.
  destruct (form_save_in_force _ _ _ _ _ _ _ _ Hq Hd E) as (Hn & _ & _ & Hg).
  split; [rewrite Hn; vm_compute; reflexivity|].
  refine (Hg _ 600 (list_elem_of_here _ _) eq_refl _ _ eq_refl eq_refl _);
    [vm_compute; reflexivity|vm_compute; reflexivity|discriminate].
Defined.


Lemma channel_toggle_applies_witness :
  match switched_off with
  | (Ok tt, w') =>
      match list_settings st (as_user alice) "channels." w' with
      | (Ok rows, _) => row_bool rows "channels.telegram.enabled" = false
      | _ => False
      end
  | _ => False
  end.
Proof.
  assert (match switched_off with
    | (Ok tt, w') => is_ok (list_settings st (as_user alice) "channels." w').1 &&
        is_ok (wire_telegram StartupDemo.demo_host (st_broker st) (∅, []) w').1 && bool_decide (pg_steps (ap_pg w') = [])
    | _ => false end = true) as Hr by (vm_compute; reflexivity).
  assert (quiet ConfigDemo.world) as Hq by reflexivity.
  destruct switched_off as [[[]|e] w'] eqn:E; [|discriminate Hr].
  destruct (list_settings st (as_user alice) "channels." w') as [[rows|e] wl] eqn:El; [|discriminate Hr].
  destruct (wire_telegram StartupDemo.demo_host (st_broker st) (∅, []) w') as [[g'|e] a'] eqn:Ew;
    [|discriminate Hr].
  apply andb_prop in Hr as [_ Hs%bool_decide_eq_true].
  exact (proj1 (channel_toggle_applies _ _ _ _ _ _ _ _ _ _ _ _ _ _ Hq E El Hs eq_refl Ew)).
Defined.

Section ChoiceWitness.
Import LlmDemo AdminDemo ChatDemo.

Lemma active_card_is_chosen_witness :
  match select_llm env0 (Ok tt) (st_broker st) None (chat_on sink_new two_rounds) with
  | (Ok c, _) => llm_family c = "anthropic"
  | _ => False
  end.
Proof.
  assert (is_ok (select_llm env0 (Ok tt) (st_broker st) None (chat_on sink_new two_rounds)).1 = true) as Hr
    by (vm_compute; reflexivity).
  destruct (select_llm env0 (Ok tt) (st_broker st) None (chat_on sink_new two_rounds)) as [[c|e] w'] eqn:E;
    [|discriminate Hr].
  rewrite (active_card_is_chosen _ _ _ _ _ _ _ E). vm_compute. reflexivity.
Defined.
End ChoiceWitness.
