(* ===== verification/Transports.v ===== *)
(** * daimon-transport: the real transports
    ([daimon-transport/src/{ssh,rest,snmp}.rs])

    What each transport makes of an operation and of the device's answer, whom it
    talks to, and when a credential leaves the process. The crates [russh], [reqwest]
    and [csnmp] are classes; each transport is a [Transport] of the contract. *)

From S2P Require Import Prelude RustStd Json Inventory Connector.
From Stdlib Require Import ZArith Ascii.

Local Open Scope Z_scope.

(** ** [String::from_utf8_lossy] *)

(** U+FFFD. *)
Definition replacement : string := utf8 [239; 191; 189]%N.

(** How many bytes of an ill-formed sequence one replacement character stands for, or
    how long the well-formed character at the front is. *)
Inductive Utf8Step := Good (n : nat) | Bad (n : nat).

(** The second byte of a character that starts with [a]. *)
Definition second_ok (a b : ascii) : bool :=
  if bool_decide (byte_val a = 224) then in_range 160 191 b
  else if bool_decide (byte_val a = 237) then in_range 128 159 b
  else if bool_decide (byte_val a = 240) then in_range 144 191 b
  else if bool_decide (byte_val a = 244) then in_range 128 143 b
  else cont b.

Definition utf8_step (l : list ascii) : Utf8Step :=
  match l with
  | [] => Good 0
  | a :: r =>
      if byte_val a <? 128 then Good 1
      else if in_range 194 244 a then
        match r with
        | [] => Bad 1
        | b :: r =>
            if negb (second_ok a b) then Bad 1
            else if in_range 194 223 a then Good 2
            else match r with
            | [] => Bad 2
            | c :: r =>
                if negb (cont c) then Bad 2
                else if in_range 224 239 a then Good 3
                else match r with
                | [] => Bad 3
                | d :: _ => if cont d then Good 4 else Bad 3
                end
            end
        end
      else Bad 1
  end.

Fixpoint lossy_fuel (fuel : nat) (l : list ascii) : string :=
  match fuel with
  | O => ""
  | S fuel =>
      match l with
      | [] => ""
      | _ =>
          match utf8_step l with
          | Good n => string_of_bytes (take n l) +:+ lossy_fuel fuel (drop n l)
          | Bad n => replacement +:+ lossy_fuel fuel (drop n l)
          end
      end
  end.

Definition from_utf8_lossy (l : list ascii) : string := lossy_fuel (length l) l.

(** ** SSH ([ssh.rs]) *)

Definition DEFAULT_KNOWN_HOSTS_PATH : string := "/var/lib/daimon/known_hosts".

Inductive HostKeyPolicy :=
| KnownHosts (path host : string) (port : Z)
| AcceptAny
| AcceptAnyAndLearn (learn_to host : string) (port : Z).

(** [SshTransport] without the client configuration. *)
Record SshTransport := mkSsh {
  ss_known_hosts_path : option string;
  ss_accept_any : bool;
  ss_learn_to : option string;
}.

Definition with_known_hosts_path (path : string) : SshTransport := mkSsh (Some path) false None.
Definition ssh_new : SshTransport := with_known_hosts_path DEFAULT_KNOWN_HOSTS_PATH.
Definition with_accept_any : SshTransport := mkSsh None true None.
Definition with_accept_any_and_learn (path : string) : SshTransport := mkSsh None true (Some path).

(** [policy_for]. *)
Definition policy_for (s : SshTransport) (host : string) (port : Z) : HostKeyPolicy :=
  if ss_accept_any s then
    match ss_learn_to s with
    | Some path => AcceptAnyAndLearn path host port
    | None => AcceptAny
    end
  else KnownHosts (default DEFAULT_KNOWN_HOSTS_PATH (ss_known_hosts_path s)) host port.

(** What [channel.wait] yields. *)
Inductive ChannelMsg :=
| Data (data : list ascii)
| ExtendedData (data : list ascii) (ext : Z)
| ExitStatus (exit_status : Z)
| Eof
| Close
| OtherMsg.

(** [russh]: the steps of a session, each an await, with [K] the public keys and [P]
    the key pairs. An await that fails gives the error's text; one that is not over
    when the deadline of the surrounding [timeout] passes gives [None], and the
    session is dropped there. [wait_all] is what [wait] yields until it returns
    [None]. *)
Class Russh (D K P : Type) := {
  ssh_exchange : string → Z → io D (option string) K;
  unknown_key : string;
  check_known_hosts : string → string → Z → K → D → result string bool;
  learn_known_hosts : string → string → Z → K → D → result string unit * D;
  decode_secret_key : string → option string → result string P;
  authenticate_publickey : string → P → io D (option string) bool;
  authenticate_password : string → string → io D (option string) bool;
  channel_open_session : io D (option string) unit;
  channel_exec : string → io D (option string) unit;
  wait_all : io D (option string) (list ChannelMsg);
  ssh_disconnect : io D (option string) unit;
}.

(** What the device and the network see of a session. *)
Inductive SshEvent {K : Type} :=
| EvKeyOffered (host : string) (port : Z) (key : K)
| EvKeyAccepted (key : K)
| EvCredential (username : string)
| EvCommand (command : string).
Arguments SshEvent : clear implicits.

Record sshw {D K : Type} := mkSshw { sh_dev : D; sh_log : list (SshEvent K) }.
Arguments sshw : clear implicits.
Arguments mkSshw {D K}.

(** [op_name]. *)
Definition op_name (op : Op) : string :=
  match op with
  | ShellCommand _ _ => "shell_command"
  | Http _ _ _ _ _ => "http"
  | SnmpGet _ => "snmp_get"
  | SnmpSet _ _ => "snmp_set"
  | SnmpWalk _ => "snmp_walk"
  end.

(** [Debug] of a credential's kind. *)
Definition kind_debug (k : CredentialKind) : string :=
  match k with
  | KSshKey => "SshKey" | KSshPassword => "SshPassword" | KApiToken => "ApiToken" | KGeneric => "Generic"
  end.

(** The channel loop: output up to the close, the last exit status as an [i32], zero if
    there is none. *)
Record Drained := mkDrained { dr_stdout : list ascii; dr_stderr : list ascii; dr_exit : option Z }.

Definition exit_i32 (z : Z) : Z := (z + 2^31) mod 2^32 - 2^31.

Fixpoint drain (l : list ChannelMsg) (d : Drained) : Drained :=
  match l with
  | [] => d
  | m :: l =>
      match m with
      | Data data => drain l (mkDrained (dr_stdout d ++ data) (dr_stderr d) (dr_exit d))
      | ExtendedData data ext =>
          if ext =? 1 then drain l (mkDrained (dr_stdout d) (dr_stderr d ++ data) (dr_exit d))
          else drain l d
      | ExitStatus s => drain l (mkDrained (dr_stdout d) (dr_stderr d) (Some (exit_i32 s)))
      | Eof | OtherMsg => drain l d
      | Close => d
      end
  end.

Definition shell_result (l : list ChannelMsg) : OpResult :=
  let d := drain l (mkDrained [] [] None) in
  RShell (from_utf8_lossy (dr_stdout d)) (from_utf8_lossy (dr_stderr d)) (default 0 (dr_exit d)).

Section Ssh.
Context {D K P : Type} `{Russh D K P}.
Abbreviation shio := (io (sshw D K) (option TransportError)).

Definition ssh_note (e : SshEvent K) : shio unit :=
  modify (λ w, mkSshw (sh_dev w) (sh_log w ++ [e])).

(** An await of the crate, with its [map_err]. *)
Definition ssh_await {A} (f : string → TransportError) (m : io D (option string) A) : shio A :=
  io_map_err (fmap f) (zoom sh_dev (λ d w, mkSshw d (sh_log w)) m).

(** [check_server_key]: a known-hosts file that cannot be read or names another key
    refuses; a key that cannot be learned is accepted all the same. *)
Definition check_server_key (p : HostKeyPolicy) (key : K) : shio bool := λ w,
  match p with
  | KnownHosts path host port =>
      (Ok (match check_known_hosts path host port key (sh_dev w) with Ok b => b | Err _ => false end), w)
  | AcceptAny => (Ok true, w)
  | AcceptAnyAndLearn path host port =>
      (Ok true, mkSshw (learn_known_hosts path host port key (sh_dev w)).2 (sh_log w))
  end.

(** [client::connect]: the server shows its key, and the handler decides. *)
Definition ssh_connect (p : HostKeyPolicy) (host : string) (port : Z) : shio unit :=
  let connect_err (e : string) := TConnect ("ssh connect: " +:+ e) in
  ssh_await connect_err (ssh_exchange host port) ≫= λ key,
  ssh_note (EvKeyOffered host port key) ≫= λ _,
  check_server_key p key ≫= λ accepted : bool,
  if accepted then ssh_note (EvKeyAccepted key) else throw (Some (connect_err unknown_key)).

Definition ssh_authenticate (cred : Credential) : shio unit :=
  match cred with
  | SshKey username pem passphrase =>
      lift (map_err (λ e, Some (TAuth ("decode key: " +:+ e))) (decode_secret_key pem passphrase)) ≫= λ kp,
      ssh_note (EvCredential username) ≫= λ _,
      ssh_await (λ e, TAuth ("publickey auth: " +:+ e)) (authenticate_publickey username kp) ≫= λ ok : bool,
      if ok then mret tt else throw (Some (TAuth "public-key auth rejected by server"))
  | SshPassword username password =>
      ssh_note (EvCredential username) ≫= λ _,
      ssh_await (λ e, TAuth ("password auth: " +:+ e)) (authenticate_password username password) ≫= λ ok : bool,
      if ok then mret tt else throw (Some (TAuth "password auth rejected by server"))
  | other => throw (Some (TOpMismatch "ssh_shell_command"
      ("credential_kind=" +:+ kind_debug (cred_kind other))))
  end.

(** [exec_shell]. *)
Definition exec_shell (s : SshTransport) (target : TransportTarget) (command : string) (cred : Credential) :
    shio OpResult :=
  ssh_connect (policy_for s (tt_host target) (tt_port target)) (tt_host target) (tt_port target) ≫= λ _,
  ssh_authenticate cred ≫= λ _,
  ssh_await (λ e, TIo ("open channel: " +:+ e)) channel_open_session ≫= λ _,
  ssh_note (EvCommand command) ≫= λ _,
  ssh_await (λ e, TIo ("exec: " +:+ e)) (channel_exec command) ≫= λ _,
  ssh_await TIo wait_all ≫= λ msgs,
  attempt (ssh_await TIo ssh_disconnect) ≫= λ bye,
  match bye with
  | Err None => throw None
  | _ => mret (shell_result msgs)
  end.

(** [execute]: a deadline that passes is a timeout. *)
Definition ssh_execute (s : SshTransport) (target : TransportTarget) (op : Op) (cred : Credential) :
    io (sshw D K) TransportError OpResult :=
  match op with
  | ShellCommand command timeout_secs =>
      io_map_err (λ e, match e with Some e => e | None => TTimeout timeout_secs end)
        (exec_shell s target command cred)
  | other => throw (TOpMismatch (op_name other) "ssh")
  end.

Definition ssh_transport (s : SshTransport) : Transport (sshw D K) := mkTransport "ssh" (ssh_execute s).
End Ssh.

(** ** REST ([rest.rs]) *)

Definition REST_TIMEOUT_SECS : Z := 30.

(** [full_url]. *)
Definition full_url (target : TransportTarget) (path : string) : string :=
  if starts_with path "http://" || starts_with path "https://" then path
  else
    let sep := if starts_with path "/" then "" else "/" in
    "https://" +:+ tt_host target +:+ ":" +:+ show_Z (tt_port target) +:+ sep +:+ path.

(** [value.replace("{token}", token)]: left to right, without overlaps. *)
Fixpoint replace_fuel (fuel : nat) (pat by_ s : string) : string :=
  match fuel with
  | O => s
  | S fuel =>
      match strip_prefix pat s with
      | Some rest => by_ +:+ replace_fuel fuel pat by_ rest
      | None => match s with EmptyString => "" | String a s => String a (replace_fuel fuel pat by_ s) end
      end
  end.

Definition str_replace (pat by_ s : string) : string := replace_fuel (S (length (bytes s))) pat by_ s.

(** A request as it is handed to [reqwest]: the headers of the operation, then the
    authentication header, marked sensitive. *)
Record RestRequest := mkRestRequest {
  rr_method : HttpMethod;
  rr_url : string;
  rr_timeout_ms : Z;
  rr_headers : list (string * string);
  rr_auth : option (string * string);
  rr_body : option json;
}.

Record RestResponse := mkRestResponse {
  rs_status : Z;
  rs_headers : list (string * string);
  rs_text : result string string;
}.

(** An error of sending. *)
Inductive SendError := SendTimeout (e : string) | SendConnect (e : string) | SendOther (e : string).

(** [reqwest] and the [http] crate: sending, and the checks of header names and
    values with their messages; a value may hold visible ASCII, blanks, tabs and bytes
    beyond ASCII, so no line break. *)
Class RestHttp (D : Type) := {
  rest_send : RestRequest → io D SendError RestResponse;
  header_value_check : string → result string unit;
  header_name_check : string → result string unit;
}.

(** [HeaderValue::to_str]. *)
Definition visible (v : string) : bool :=
  forallb (λ a, in_range 32 126 a || bool_decide (a = "009"%char)) (bytes v).

(** [collect_headers]: the last value of a repeated name stays. *)
Definition collect_headers (h : list (string * string)) : gmap string string :=
  fold_left (λ m kv, if visible kv.2 then <[kv.1 := kv.2]> m else m) h ∅.

(** [map_reqwest_err]. *)
Definition map_reqwest_err (e : SendError) : TransportError :=
  match e with
  | SendTimeout _ => TTimeout REST_TIMEOUT_SECS
  | SendConnect e => TConnect ("rest connect: " +:+ e)
  | SendOther e => TIo ("rest: " +:+ e)
  end.

Section Rest.
Context {D : Type} `{RestHttp D} `{JsonText}.

(** The authentication header an [AuthScheme] makes of a token. *)
Definition auth_header (auth : AuthScheme) (token : string) :
    result TransportError (option (string * string)) :=
  match auth with
  | NoAuth => Ok None
  | Bearer =>
      let v := "Bearer " +:+ token in
      _ ← map_err (λ e, TAuth ("invalid bearer token: " +:+ e)) (header_value_check v);
      Ok (Some ("authorization", v))
  | Header name value =>
      let v := str_replace "{token}" token value in
      _ ← map_err (λ e, TAuth ("invalid auth header value: " +:+ e)) (header_value_check v);
      _ ← map_err (λ e, TAuth ("invalid auth header name: " +:+ e)) (header_name_check name);
      Ok (Some (name, v))
  end.

(** The first half of [exec_http]. *)
Definition rest_request (timeout_ms : Z) (target : TransportTarget) (method : HttpMethod) (path : string)
    (headers : gmap string string) (body : option json) (auth : AuthScheme) (cred : Credential) :
    result TransportError RestRequest :=
  match cred with
  | ApiToken token =>
      a ← auth_header auth token;
      Ok (mkRestRequest method (full_url target path) timeout_ms (btree_iter headers) a body)
  | other => Err (TOpMismatch "http"
      ("rest requires ApiToken credential, got " +:+ kind_debug (cred_kind other)))
  end.

(** The body: null when empty, JSON when it is, a string otherwise. *)
Definition body_json (text : string) : json :=
  if string_eqb text "" then JNull
  else match json_from_str text with Ok j => j | Err _ => JString text end.

Definition exec_http (timeout_ms : Z) (target : TransportTarget) (method : HttpMethod) (path : string)
    (headers : gmap string string) (body : option json) (auth : AuthScheme) (cred : Credential) :
    io D TransportError OpResult :=
  lift (rest_request timeout_ms target method path headers body auth cred) ≫= λ req,
  io_map_err map_reqwest_err (rest_send req) ≫= λ resp,
  lift (map_err (λ e, TIo ("read body: " +:+ e)) (rs_text resp)) ≫= λ text,
  mret (RHttp (rs_status resp) (body_json text) (collect_headers (rs_headers resp))).

Definition rest_execute (timeout_ms : Z) (target : TransportTarget) (op : Op) (cred : Credential) :
    io D TransportError OpResult :=
  match op with
  | Http method path headers body auth => exec_http timeout_ms target method path headers body auth cred
  | other => throw (TOpMismatch (op_name other) "rest")
  end.

Definition rest_transport (timeout_ms : Z) : Transport D := mkTransport "rest" (rest_execute timeout_ms).
End Rest.

(** ** SNMP ([snmp.rs]) *)

Definition SNMP_PORT : Z := 161.

(** [csnmp::ObjectValue]; the numbers are within their types. *)
Inductive ObjectValue :=
| OVInteger (i : Z)
| OVString (b : list ascii)
| OVObjectId (oid : string)
| OVIpAddress (ip : string)
| OVCounter32 (u : Z)
| OVUnsigned32 (u : Z)
| OVTimeTicks (u : Z)
| OVOpaque (b : list ascii)
| OVCounter64 (u : Z).

(** [csnmp] and name resolution: [A] are socket addresses, [O] object identifiers. *)
Class Csnmp (D A O : Type) := {
  parse_ip : string → Z → option A;
  lookup_host : string → Z → io D string (list A);
  show_addr : A → string;
  parse_object_id : string → result string O;
  snmp_client : A → string → Z → nat → io D string unit;
  snmp_get : O → io D string ObjectValue;
  snmp_walk : O → io D string (list (string * ObjectValue));
}.

Definition SNMP_TIMEOUT : Z := 5000.
Definition SNMP_RETRIES : nat := 2.

(** [community_from_cred]. *)
Definition community_from_cred (cred : Credential) : result TransportError string :=
  match cred with
  | ApiToken token => Ok token
  | Generic fields => ok_or (fields !! "community") (TAuth "snmp Generic credential missing `community`")
  | other => Err (TOpMismatch "snmp"
      ("snmp requires ApiToken (community) or Generic{community}, got " +:+ kind_debug (cred_kind other)))
  end.

(** [map_value]. *)
Definition hex_lower (z : Z) : ascii := ascii_of_N (Z.to_N (if z <? 10 then 48 + z else 87 + z)).

Fixpoint hex_text (l : list ascii) : string :=
  match l with
  | [] => ""
  | a :: l => String (hex_lower (byte_val a / 16)) (String (hex_lower (byte_val a mod 16)) (hex_text l))
  end.

Definition map_value (v : ObjectValue) : SnmpValue :=
  match v with
  | OVInteger z | OVCounter32 z | OVUnsigned32 z | OVTimeTicks z => SInt z
  | OVCounter64 u => SUInt u
  | OVString b => SString (from_utf8_lossy b)
  | OVObjectId oid => SOid oid
  | OVIpAddress ip => SString ip
  | OVOpaque b => SString (hex_text b)
  end.

Section Snmp.
Context {D A O : Type} `{Csnmp D A O}.

(** [resolve_addr]. *)
Definition resolve_addr (host : string) (port : Z) : io D TransportError A :=
  let port := if port =? 0 then SNMP_PORT else port in
  let where_ := host +:+ ":" +:+ show_Z port in
  match parse_ip host port with
  | Some a => mret a
  | None =>
      io_map_err (λ e, TConnect ("resolve " +:+ where_ +:+ ": " +:+ e)) (lookup_host host port) ≫= λ l,
      lift (ok_or (head l) (TConnect ("no address for " +:+ where_)))
  end.

Definition parse_oid (s : string) : result TransportError O :=
  map_err (λ e, TOther ("bad OID `" +:+ s +:+ "`: " +:+ e)) (parse_object_id s).

(** The client of a call. *)
Definition snmp_connect (target : TransportTarget) (cred : Credential) : io D TransportError unit :=
  lift (community_from_cred cred) ≫= λ community,
  resolve_addr (tt_host target) (tt_port target) ≫= λ addr,
  io_map_err (λ e, TConnect ("snmp connect " +:+ show_addr addr +:+ ": " +:+ e))
    (snmp_client addr community SNMP_TIMEOUT SNMP_RETRIES).

(** [execute]. *)
Definition snmp_execute (target : TransportTarget) (op : Op) (cred : Credential) :
    io D TransportError OpResult :=
  match op with
  | SnmpGet oid =>
      snmp_connect target cred ≫= λ _, lift (parse_oid oid) ≫= λ o,
      io_map_err (λ e, TIo ("snmp get " +:+ oid +:+ ": " +:+ e)) (snmp_get o) ≫= λ v,
      mret (RSnmp {[oid := map_value v]})
  | SnmpWalk root =>
      snmp_connect target cred ≫= λ _, lift (parse_oid root) ≫= λ o,
      io_map_err (λ e, TIo ("snmp walk " +:+ root +:+ ": " +:+ e)) (snmp_walk o) ≫= λ l,
      mret (RSnmp (list_to_map ((λ kv, (kv.1, map_value kv.2)) <$> l)))
  | SnmpSet _ _ => throw (TOpMismatch "snmp_set" "snmp is READ-ONLY in this build (SET disabled)")
  | _ => throw (TOpMismatch "non-snmp" "snmp requires an SNMP op (get/walk)")
  end.

Definition snmp_transport : Transport D := mkTransport "snmp" snmp_execute.
End Snmp.

(** ** Properties: lossy text *)

(** Settle the comparisons of a byte whose range is known. *)
Ltac settle_bytes := repeat first
  [ rewrite bool_decide_true by lia | rewrite bool_decide_false by lia
  | match goal with
    | |- context [?x <=? ?y] =>
        first [rewrite (proj2 (Z.leb_le x y)) by lia | rewrite (proj2 (Z.leb_gt x y)) by lia]
    | |- context [?x <? ?y] =>
        first [rewrite (proj2 (Z.ltb_lt x y)) by lia | rewrite (proj2 (Z.ltb_ge x y)) by lia]
    end ].

(** Validity is decided step by step. *)
Lemma utf8_valid_step a l :
  utf8_valid (a :: l) =
  match utf8_step (a :: l) with Good n => utf8_valid (drop n (a :: l)) | Bad _ => false end.
Proof.
  cbn [utf8_valid utf8_step]. unfold in_range, second_ok.
  set (z := byte_val a). clearbody z.
  assert (z < 128 ∨ 128 ≤ z < 194 ∨ 194 ≤ z ≤ 223 ∨ z = 224 ∨ 225 ≤ z ≤ 236 ∨ z = 237 ∨ 238 ≤ z ≤ 239 ∨
          z = 240 ∨ 241 ≤ z ≤ 243 ∨ z = 244 ∨ 244 < z) as Hz by lia.
  repeat destruct Hz as [Hz|Hz]; settle_bytes; cbn [andb drop]; try done;
    destruct l as [|b [|c [|d l]]]; settle_bytes; cbn [andb drop]; try done;
    unfold in_range; repeat match goal with
    | |- context [cont ?x] => destruct (cont x); cbn [andb negb drop]
    | |- context [?x <=? ?y] => destruct (x <=? y); cbn [andb negb drop]
    end; try done; by rewrite ?andb_true_r, ?andb_false_r.
Qed.

(** A step looks no further than it goes. *)
Lemma utf8_step_local a l n r :
  utf8_step (a :: l) = Good n →
  (0 < n ≤ length (a :: l))%nat ∧ utf8_step (take n (a :: l) ++ r) = Good n.
Proof.
  unfold utf8_step. destruct (byte_val a <? 128) eqn:Ha.
  { intros [= <-]. simpl. rewrite Ha. split; [lia|done]. }
  destruct (in_range 194 244 a) eqn:H1; [|done]. destruct l as [|b l]; [done|].
  destruct (second_ok a b) eqn:H2; [|done]. destruct (in_range 194 223 a) eqn:H3.
  { intros [= <-]. simpl. rewrite Ha, H1, H2, H3. split; [lia|done]. }
  destruct l as [|c l]; [done|]. destruct (cont c) eqn:H4; [|done].
  destruct (in_range 224 239 a) eqn:H5.
  { intros [= <-]. simpl. rewrite Ha, H1, H2, H3, H4, H5. split; [lia|done]. }
  destruct l as [|d l]; [done|]. destruct (cont d) eqn:H6; [|done].
  intros [= <-]. simpl. rewrite Ha, H1, H2, H3, H4, H5, H6. split; [lia|done].
Qed.

Lemma utf8_step_bad a l n : utf8_step (a :: l) = Bad n → (0 < n)%nat.
Proof.
  cbn [utf8_step]. destruct (_ <? _); [done|]. destruct (in_range 194 244 a); [|intros [= <-]; lia].
  destruct l as [|b l]; [intros [= <-]; lia|]. destruct (negb _); [intros [= <-]; lia|].
  destruct (in_range 194 223 a); [done|]. destruct l as [|c l]; [intros [= <-]; lia|].
  destruct (negb _); [intros [= <-]; lia|]. destruct (in_range 224 239 a); [done|].
  destruct l as [|d l]; [intros [= <-]; lia|]. destruct (cont d); [done|intros [= <-]; lia].
Qed.

Lemma utf8_valid_good a l n r :
  utf8_step (a :: l) = Good n → utf8_valid (take n (a :: l) ++ r) = utf8_valid r.
Proof.
  intros Hs. destruct (utf8_step_local a l n r Hs) as [[Hn Hl] Hs'].
  destruct n as [|n]; [lia|]. cbn [take app] in Hs' |- *. rewrite utf8_valid_step, Hs'. cbn [drop].
  cbn [length] in Hl. rewrite drop_app_length'; [done|]. rewrite length_take. lia.
Qed.

Lemma replacement_valid r : utf8_valid (bytes replacement ++ r) = utf8_valid r.
Proof. done. Qed.

Lemma bytes_string_of_bytes l : bytes (string_of_bytes l) = l.
Proof. induction l as [|a l IH]; simpl; [done|]. by rewrite IH. Qed.

(** The text of any output is valid UTF-8, and output that is valid is kept as it is. *)
Lemma from_utf8_lossy_spec l :
  utf8_valid (bytes (from_utf8_lossy l)) = true ∧
  (utf8_valid l = true → from_utf8_lossy l = string_of_bytes l).
Proof.
  unfold from_utf8_lossy. assert (length l ≤ length l)%nat as Hf by lia. revert Hf.
  generalize (length l) at 2 3 4. intros fuel. revert l.
  induction fuel as [|fuel IH]; intros l Hf.
  { destruct l; simpl in Hf; [done|lia]. }
  destruct l as [|a l]; [done|]. cbn [lossy_fuel]. destruct (utf8_step (a :: l)) as [n|n] eqn:Hs.
  - destruct (utf8_step_local a l n [] Hs) as [[Hn Hl] _].
    destruct (IH (drop n (a :: l))) as [IH1 IH2]; [rewrite length_drop; simpl in *; lia|].
    rewrite bytes_app, bytes_string_of_bytes, (utf8_valid_good a l n _ Hs). split; [done|].
    rewrite utf8_valid_step, Hs. intros Hv. rewrite (IH2 Hv). apply bytes_inj.
    by rewrite bytes_app, !bytes_string_of_bytes, take_drop.
  - apply utf8_step_bad in Hs as Hn.
    destruct (IH (drop n (a :: l))) as [IH1 _]; [rewrite length_drop; simpl in *; lia|].
    rewrite bytes_app, replacement_valid. split; [done|]. by rewrite utf8_valid_step, Hs.
Qed.

(** ** Properties: SSH *)

(** What the channel said before it closed. *)
Definition until_close (l : list ChannelMsg) : list ChannelMsg :=
  take_while (λ m, match m with Close => false | _ => true end) l.

Definition stdout_of (l : list ChannelMsg) : list ascii :=
  flat_map (λ m, match m with Data b => b | _ => [] end) l.

Definition stderr_of (l : list ChannelMsg) : list ascii :=
  flat_map (λ m, match m with ExtendedData b 1 => b | _ => [] end) l.

Definition exit_of (l : list ChannelMsg) : option Z :=
  last (omap (λ m, match m with ExitStatus s => Some (exit_i32 s) | _ => None end) l).

Lemma exit_of_status s l : exit_of (ExitStatus s :: l) = Some (default (exit_i32 s) (exit_of l)).
Proof. unfold exit_of. cbn [omap list_omap]. rewrite last_cons. by destruct (last _). Qed.

Lemma drain_spec l d :
  let u := until_close l in
  drain l d = mkDrained (dr_stdout d ++ stdout_of u) (dr_stderr d ++ stderr_of u)
    (match exit_of u with Some s => Some s | None => dr_exit d end).
Proof.
  cbv zeta. revert d. induction l as [|m l IH]; intros d; simpl.
  { rewrite !app_nil_r. by destruct d. }
  destruct m as [b|b ext|s| | |]; simpl; rewrite ?IH; simpl; try done.
  - by rewrite <- app_assoc.
  - destruct (Z.eqb_spec ext 1) as [->|Hne]; simpl; [by rewrite <- app_assoc|].
    unfold exit_of. f_equal. destruct ext as [|[]|]; done.
  - f_equal. change (until_close (ExitStatus s :: l)) with (ExitStatus s :: until_close l).
    rewrite exit_of_status. by destruct (exit_of (until_close l)).
  - rewrite !app_nil_r. by destruct d.
Qed.

(** The status of a command that ended without one, killed by a signal or cut off with
    its connection, is that of success. *)
Lemma ssh_no_status_is_success l :
  exit_of (until_close l) = None → ∃ out err, shell_result l = RShell out err 0.
Proof. intros He. unfold shell_result. rewrite drain_spec, He. simpl. eauto. Qed.

Section SshProofs.
Context {D K P : Type} `{Russh D K P}.

(** The user a credential names. *)
Definition cred_user (c : Credential) : string :=
  match c with SshKey u _ _ | SshPassword u _ => u | _ => "" end.

Lemma ssh_await_log {A} f (m : io D (option string) A) (w : sshw D K) :
  sh_log (ssh_await f m w).2 = sh_log w.
Proof. unfold ssh_await, io_map_err, zoom. by destruct (m (sh_dev w)). Qed.

(** Each part of a session adds its events, all of them if it succeeds. *)
Definition logs {A} (m : io (sshw D K) (option TransportError) A) (evs : list (SshEvent K)) : Prop :=
  ∀ w, ∃ done, sh_log (m w).2 = sh_log w ++ done ∧ done `prefix_of` evs ∧
    (is_ok (m w).1 = true → done = evs).

Lemma logs_bind {A B} (m : io (sshw D K) (option TransportError) A) (f : A → _ B) e1 e2 :
  logs m e1 → (∀ a, logs (f a) e2) → logs (m ≫= f) (e1 ++ e2).
Proof.
  intros Hm Hf w. unfold mbind, io_bind. destruct (Hm w) as (d1 & H1 & P1 & O1).
  destruct (m w) as [[a|e] w1]; simpl in *.
  - destruct (Hf a w1) as (d2 & H2 & P2 & O2). exists (e1 ++ d2). rewrite (O1 eq_refl) in H1.
    rewrite H2, H1, app_assoc. split; [done|]. split; [by apply prefix_app|].
    intros Ho. by rewrite (O2 Ho).
  - exists d1. split; [done|]. split; [by apply prefix_app_r|done].
Qed.

Lemma logs_await {A} f (m : io D (option string) A) : logs (ssh_await f m) [].
Proof. intros w. exists []. rewrite app_nil_r. split; [apply ssh_await_log|]. by split. Qed.

Lemma logs_note e : logs (ssh_note e) [e].
Proof. intros w. by exists [e]. Qed.

Lemma logs_ret {A} (a : A) : logs (mret a) [].
Proof. intros w. exists []. rewrite app_nil_r. by split. Qed.

Lemma logs_throw {A} e evs : logs (throw e : io (sshw D K) (option TransportError) A) evs.
Proof. intros w. exists []. rewrite app_nil_r. split; [done|]. split; [apply prefix_nil|done]. Qed.

Lemma logs_authenticate cred : logs (ssh_authenticate cred) [EvCredential (cred_user cred)].
Proof.
  destruct cred as [u pem pass|u pw| |]; simpl; [| |apply logs_throw..].
  - apply (logs_bind _ _ [] [EvCredential u]).
    { intros w. exists []. rewrite app_nil_r. by split. }
    intros kp. apply (logs_bind _ _ [EvCredential u] []); [apply logs_note|]. intros _.
    apply (logs_bind _ _ [] []); [apply logs_await|]. intros []; [apply logs_ret|apply logs_throw].
  - apply (logs_bind _ _ [EvCredential u] []); [apply logs_note|]. intros _.
    apply (logs_bind _ _ [] []); [apply logs_await|]. intros []; [apply logs_ret|apply logs_throw].
Qed.

(** What follows the connection. *)
Lemma logs_session cred command :
  logs (ssh_authenticate cred ≫= λ _,
    ssh_await (λ e, TIo ("open channel: " +:+ e)) channel_open_session ≫= λ _,
    ssh_note (EvCommand command) ≫= λ _,
    ssh_await (λ e, TIo ("exec: " +:+ e)) (channel_exec command) ≫= λ _,
    ssh_await TIo wait_all ≫= λ msgs,
    attempt (ssh_await TIo ssh_disconnect) ≫= λ bye,
    match bye with Err None => throw None | _ => mret (shell_result msgs) end)
    [EvCredential (cred_user cred); EvCommand command].
Proof.
  apply (logs_bind _ _ [_] [_]); [apply logs_authenticate|]. intros _.
  apply (logs_bind _ _ [] [_]); [apply logs_await|]. intros _.
  apply (logs_bind _ _ [_] []); [apply logs_note|]. intros _.
  apply (logs_bind _ _ [] []); [apply logs_await|]. intros _.
  apply (logs_bind _ _ [] []); [apply logs_await|]. intros msgs.
  apply (logs_bind _ _ [] []).
  - intros w. exists []. rewrite app_nil_r. split; [|by split].
    pose proof (ssh_await_log TIo ssh_disconnect w) as Hl. unfold attempt.
    by destruct (ssh_await TIo ssh_disconnect w).
  - intros [[]|[]]; (apply logs_ret || apply logs_throw).
Qed.

(** C29: with the known-hosts policy, whatever the server and the network do and wherever
    the deadline falls: the user's name, its secret and the command go out, in this
    order, only after the key the server showed was found in the known-hosts file for
    that host and port; a key that was not ends the call with a connection error; and a
    call that succeeds has sent the command exactly once. *)
Theorem ssh_host_verified_first s target command secs cred w :
  ss_accept_any s = false →
  let host := tt_host target in let port := tt_port target in
  let path := default DEFAULT_KNOWN_HOSTS_PATH (ss_known_hosts_path s) in
  let run := ssh_execute s target (ShellCommand command secs) cred w in
  match ssh_exchange host port (sh_dev w) with
  | (Err _, _) => sh_log run.2 = sh_log w ∧ is_ok run.1 = false
  | (Ok key, d) =>
      match check_known_hosts path host port key d with
      | Ok true => ∃ sent, sh_log run.2 =
            sh_log w ++ [EvKeyOffered host port key; EvKeyAccepted key] ++ sent ∧
          sent `prefix_of` [EvCredential (cred_user cred); EvCommand command] ∧
          (is_ok run.1 = true → sent = [EvCredential (cred_user cred); EvCommand command])
      | _ => sh_log run.2 = sh_log w ++ [EvKeyOffered host port key] ∧
          run.1 = Err (TConnect ("ssh connect: " +:+ unknown_key))
      end
  end.
Proof.
  intros Hs. cbv zeta. unfold ssh_execute, io_map_err, exec_shell. set (rest := λ _ : unit, _ ≫= _).
  assert (∀ u, logs (rest u) [EvCredential (cred_user cred); EvCommand command]) as Hrest
    by (intros u; apply logs_session). clearbody rest.
  unfold policy_for, ssh_connect, ssh_await, io_map_err, zoom, ssh_note, check_server_key, modify, throw,
    mbind, io_bind. rewrite Hs. destruct (ssh_exchange _ _ (sh_dev w)) as [[key|e] d]; simpl; [|done].
  destruct (check_known_hosts _ _ _ key d) as [[]|e]; simpl; [|done..].
  destruct (Hrest tt (mkSshw d ((sh_log w ++ [EvKeyOffered (tt_host target) (tt_port target) key]) ++
    [EvKeyAccepted key]))) as (sent & Hl & Hp & Ho).
  destruct (rest _ _) as [r w'] in *. simpl in *. exists sent. rewrite Hl. split.
  { rewrite <- !app_assoc. done. }
  split; [done|]. destruct r; [by intros _; apply Ho|done].
Qed.
End SshProofs.

(** ** Properties: REST *)

Section RestProofs.
Context {D : Type} `{RestHttp D} `{JsonText}.

(** A request for a path of the target goes to the target, over TLS; and of the
    request only the authentication header depends on the token. *)
Theorem rest_token_confined timeout target method path headers body auth token req :
  rest_request timeout target method path headers body auth (ApiToken token) = Ok req →
  (starts_with path "http://" = false → starts_with path "https://" = false →
   starts_with (rr_url req) ("https://" +:+ tt_host target +:+ ":" +:+ show_Z (tt_port target) +:+ "/") = true) ∧
  (auth = NoAuth → rr_auth req = None) ∧
  ∀ token' req', rest_request timeout target method path headers body auth (ApiToken token') = Ok req' →
    req' = mkRestRequest (rr_method req) (rr_url req) (rr_timeout_ms req) (rr_headers req)
             (rr_auth req') (rr_body req).
Proof.
  unfold rest_request, mbind, result_bind. intros Hr.
  destruct (auth_header auth token) as [a|] eqn:Ha; [|done]. simplify_eq. simpl. split_and!.
  - intros H1 H2. unfold full_url. rewrite H1, H2. simpl. destruct (starts_with path "/") eqn:Hp.
    + apply starts_with_spec in Hp as [r ->].
      replace ("https://" +:+ tt_host target +:+ ":" +:+ show_Z (tt_port target) +:+ "" +:+ "/" +:+ r)
        with (("https://" +:+ tt_host target +:+ ":" +:+ show_Z (tt_port target) +:+ "/") +:+ r)
        by (by rewrite <- !string_app_assoc).
      apply starts_with_app.
    + replace ("https://" +:+ tt_host target +:+ ":" +:+ show_Z (tt_port target) +:+ "/" +:+ path)
        with (("https://" +:+ tt_host target +:+ ":" +:+ show_Z (tt_port target) +:+ "/") +:+ path)
        by (by rewrite <- !string_app_assoc).
      apply starts_with_app.
  - intros ->. simpl in Ha. by simplify_eq.
  - intros token' req' Hr'. destruct (auth_header auth token') as [a'|]; [|done]. by simplify_eq.
Qed.

(** Whatever deadline the transport was built with, a timeout is reported as one of
    thirty seconds. *)
Lemma rest_timeout_misreported timeout target method path headers body auth token req d e d' :
  rest_request timeout target method path headers body auth (ApiToken token) = Ok req →
  rest_send req d = (Err (SendTimeout e), d') →
  rest_execute timeout target (Http method path headers body auth) (ApiToken token) d =
    (Err (TTimeout 30), d').
Proof.
  intros Hr Hs. unfold rest_execute, exec_http, lift, io_map_err, mbind, io_bind. rewrite Hr. simpl.
  by rewrite Hs.
Qed.
End RestProofs.

(** A rendered template keeps its leading slash. *)
Lemma renders_slash vals t out :
  renders vals t out → starts_with t "/" = true → starts_with out "/" = true.
Proof.
  intros Hr Ht. destruct Hr as [|lit name v rest out Hlit Hname Hv Hr]; [done|].
  destruct lit as [|a lit].
  - by apply starts_with_spec in Ht as [r Hr'].
  - apply starts_with_spec in Ht as [r Hr']. injection Hr' as -> _.
    apply starts_with_spec. by exists (lit +:+ v +:+ out).
Qed.

(** Whatever parameters a caller gives, a capability whose path template starts with a
    slash, as those of the shipped profiles do, is carried out on the target named:
    no parameter can point the request, and the token with it, elsewhere. *)
Theorem connector_rest_on_target `{RestHttp D} op capability vals auth timeout target
    method path headers body auth' token req :
  starts_with (po_path op) "/" = true →
  render_http_op op capability vals auth = Ok (Http method path headers body auth') →
  rest_request timeout target method path headers body auth' (ApiToken token) = Ok req →
  starts_with (rr_url req) ("https://" +:+ tt_host target +:+ ":" +:+ show_Z (tt_port target) +:+ "/") = true.
Proof.
  intros Hs Hop Hreq. unfold render_http_op, mbind, result_bind in Hop.
  destruct (substitute (po_path op) capability vals) as [p|] eqn:Hp; [|done].
  assert (starts_with p "/" = true) as Hslash
    by (eapply renders_slash; [eapply substitute_fuel_renders; [|exact Hp]; lia|done]).
  assert (p = path) as -> by (repeat case_match; simplify_eq; done).
  unfold rest_request, mbind, result_bind in Hreq. destruct (auth_header auth' token); simplify_eq. simpl.
  apply starts_with_spec in Hslash as [r ->]. unfold full_url. simpl. apply starts_with_spec. exists r.
  by rewrite <- !string_app_assoc.
Qed.

(** ** Properties: SNMP *)

(** The numbers of a device are carried unchanged, each in a type that holds its range. *)
Definition object_number (v : ObjectValue) : option Z :=
  match v with
  | OVInteger z | OVCounter32 z | OVUnsigned32 z | OVTimeTicks z | OVCounter64 z => Some z
  | _ => None
  end.

Definition object_ok (v : ObjectValue) : bool :=
  match v with
  | OVInteger z => (-2^31 <=? z) && (z <? 2^31)
  | OVCounter32 z | OVUnsigned32 z | OVTimeTicks z => (0 <=? z) && (z <? 2^32)
  | OVCounter64 z => (0 <=? z) && (z <? 2^64)
  | _ => true
  end.

Lemma snmp_numbers_exact v z :
  object_ok v = true → object_number v = Some z →
  (map_value v = SInt z ∧ -2^63 ≤ z < 2^63) ∨ (map_value v = SUInt z ∧ 0 ≤ z < 2^64).
Proof.
  destruct v; simpl; try done; rewrite andb_true_iff, Z.leb_le, Z.ltb_lt; intros [? ?] [= <-];
    (left; split; [done|lia]) || (right; split; [done|lia]).
Qed.

(** ** Concrete runs *)

Module TransportsDemo.

(** A host with one key on file; the device answers a command with its text. *)
Record device := mkDevice { dv_key : string; dv_known : list string; dv_ran : list string }.

#[export] Instance demo_russh : Russh device string string := {|
  ssh_exchange _ _ d := (Ok (dv_key d), d);
  unknown_key := "Unknown server key";
  check_known_hosts _ _ _ k d := Ok (bool_decide (k ∈ dv_known d));
  learn_known_hosts _ _ _ k d := (Ok tt, mkDevice (dv_key d) (k :: dv_known d) (dv_ran d));
  decode_secret_key pem _ := Ok pem;
  authenticate_publickey _ _ d := (Ok true, d);
  authenticate_password _ p d := (Ok (string_eqb p "pw"), d);
  channel_open_session d := (Ok tt, d);
  channel_exec c d := (Ok tt, mkDevice (dv_key d) (dv_known d) (dv_ran d ++ [c]));
  wait_all d := (Ok [Data (bytes "up "); ExtendedData (bytes "warn") 1; Data ["255"%char]; ExitStatus 3; Eof;
                     Close; Data (bytes "late")], d);
  ssh_disconnect d := (Ok tt, d);
|}.

Definition host : TransportTarget := mkTransportTarget "10.0.0.1" 22.
Definition genuine : sshw device string := mkSshw (mkDevice "k1" ["k1"] []) [].
Definition impostor : sshw device string := mkSshw (mkDevice "k2" ["k1"] []) [].

#[export] Instance demo_rest : RestHttp unit := {|
  rest_send r d := (Ok (mkRestResponse 200 [("server", "demo")] (Ok (rr_url r))), d);
  header_value_check v := if contains_char "010"%char v then Err "failed to parse header value" else Ok tt;
  header_name_check _ := Ok tt;
|}.

Definition vm_status : ProfileOp :=
  mkProfileOp Get "/api2/json/nodes/{node}/status" None None None None false.
End TransportsDemo.
Import TransportsDemo.

(** The genuine host runs the command; the impostor learns nothing. *)
Lemma ssh_host_verified_first_witness :
  let run w := ssh_execute ssh_new host (ShellCommand "uptime" 30) (SshPassword "root" "pw") w in
  (run genuine).1 = Ok (RShell ("up " +:+ replacement) "warn" 3) ∧
  sh_log (run impostor).2 = [EvKeyOffered "10.0.0.1" 22 "k2"] ∧
  (run impostor).1 = Err (TConnect "ssh connect: Unknown server key").
Proof.
  cbv zeta. split; [vm_compute; reflexivity|].
  refine (ssh_host_verified_first ssh_new host "uptime" 30 (SshPassword "root" "pw") impostor _). reflexivity.
Defined.

Lemma rest_token_confined_witness :
  let target := mkTransportTarget "pve.lab" 8006 in
  let build token := rest_request (D := unit) 30000 target Get "api2/json/version" ∅ None Bearer (ApiToken token) in
  build "s3cr3t" = Ok (mkRestRequest Get "https://pve.lab:8006/api2/json/version" 30000 []
    (Some ("authorization", "Bearer s3cr3t")) None) ∧
  build ("a" +:+ String "010"%char "b") =
    Err (TAuth "invalid bearer token: failed to parse header value") ∧
  starts_with "https://pve.lab:8006/api2/json/version" "https://pve.lab:8006/" = true.
Proof.
  cbv zeta. split; [vm_compute; reflexivity|]. split; [vm_compute; reflexivity|].
  refine (proj1 (rest_token_confined (D := unit) 30000 (mkTransportTarget "pve.lab" 8006) Get
    "api2/json/version" ∅ None Bearer "s3cr3t" (mkRestRequest Get "https://pve.lab:8006/api2/json/version" 30000
    [] (Some ("authorization", "Bearer s3cr3t")) None) _) _ _); vm_compute; reflexivity.
Defined.

Lemma connector_rest_on_target_witness :
  starts_with "https://pve.lab:8006/api2/json/nodes/pve1/status" "https://pve.lab:8006/" = true.
Proof.
  refine (connector_rest_on_target (D := unit) vm_status "compute.vm.status" {["node" := "pve1"]} Bearer 30000
    (mkTransportTarget "pve.lab" 8006) Get "/api2/json/nodes/pve1/status" ∅ None Bearer "t"
    (mkRestRequest Get "https://pve.lab:8006/api2/json/nodes/pve1/status" 30000 []
      (Some ("authorization", "Bearer t")) None) _ _ _); vm_compute; reflexivity.
Defined.
