(* ===== verification/System.v ===== *)
(** * The components together

    Properties that need several components at once: the shipped policy with the
    RouterOS catalog and the broker; driver replies with the dispatcher and the
    orchestrator that read them; RouterOS compensation with the parameters the
    orchestrator derives for it. *)

From stdpp Require Import sorting.
From S2P Require Import Prelude RustStd Json Core KillSwitch Policy Approvals Guard.
From S2P Require Import Inventory AuditLog Broker Runtime Orchestrator Saga Param.
From S2P Require Import Connector RouterOs.
From Stdlib Require Import ZArith Ascii.

Local Open Scope Z_scope.
Local Arguments validate : simpl never.

(** ** The shipped policy ([deploy/policy.toml]) *)

Definition shipped_policy : PolicyEngine :=
  policy_new
    [mkRule "network.routeros.*" RequireApproval
       (Some "RouterOS mutations (firewall rules, SSH keys) need operator approval.");
     mkRule "vault.*" Deny (Some "Vault operations only via admin UI, never via agent paths.");
     mkRule "network.firewall.*" RequireApproval
       (Some "Firewall mutations need explicit operator approval.");
     mkRule "network.routing.*" RequireApproval
       (Some "Routing mutations need explicit operator approval.");
     mkRule "platform.workload.*" RequireApproval
       (Some "VM / workload lifecycle changes need approval.");
     mkRule "compute.*" RequireApproval
       (Some "Baremetal / compute lifecycle actions (Redfish power reset, etc.) need operator approval.");
     mkRule "orchestrator.k8s.*" RequireApproval
       (Some "Kubernetes deployment lifecycle changes need operator approval.");
     mkRule "memory.*" Allow (Some "Memory tier operations from the admin UI.")].

Section System.
Context `{SemVer}.

(** The boot lint accepts the RouterOS catalog under the shipped policy, and
    every name the driver treats as a write needs approval there. *)
Theorem shipped_policy_gates_routeros {D : Type} ts :
  lint_write_capabilities (with_guard shipped_policy (with_production_admin (D := D) ts))
    build_capabilities = Ok tt ∧
  ∀ cap, is_write_capability cap = true →
    verdict_decision (evaluate shipped_policy cap) = RequireApproval ∧
    ∃ c, c ∈ build_capabilities ∧ cap_name c = cap ∧ is_read c = false.
Proof.
  split; [reflexivity|]. intros cap Hw.
  apply existsb_elem in Hw as (x & Hx & <-%string_eqb_eq).
  repeat (apply elem_of_cons in Hx as [->|Hx]); [..|by apply not_elem_of_nil in Hx].
  all: split; [reflexivity|].
  - exists (nth 4 build_capabilities (read_only "" (version_new 0 0 0))). split; [|done].
    apply list_elem_of_In, nth_In. simpl. lia.
  - exists (nth 7 build_capabilities (read_only "" (version_new 0 0 0))). split; [|done].
    apply list_elem_of_In, nth_In. simpl. lia.
  - exists (nth 5 build_capabilities (read_only "" (version_new 0 0 0))). split; [|done].
    apply list_elem_of_In, nth_In. simpl. lia.
  - exists (nth 6 build_capabilities (read_only "" (version_new 0 0 0))). split; [|done].
    apply list_elem_of_In, nth_In. simpl. lia.
Qed.

Section Brokered.
Context {I V D : Type} `{Inventory I} `{VaultClient V}.

(** The request of a RouterOS write carries the catalog's descriptor. *)
Lemma routeros_write_request actor cap target cmd t req :
  is_write_capability cap = true →
  build_exec_request actor cap target cmd t build_capabilities = Ok req →
  rq_capability req = Some cap ∧ rq_actor_id req = actor ∧ derive_read_only req = false ∧
  verdict_decision (evaluate shipped_policy cap) = RequireApproval.
Proof.
  intros Hw. unfold build_exec_request, mbind, result_bind.
  destruct (target_parse target) as [tr|]; simpl; [|done].
  apply existsb_elem in Hw as (x & Hx & <-%string_eqb_eq).
  repeat (apply elem_of_cons in Hx as [->|Hx]); [..|by apply not_elem_of_nil in Hx].
  all: intros [= <-]; repeat split.
Qed.

(** C6: end to end, a RouterOS write needs a human. With the shipped policy
    attached to the broker, when the driver handles a write capability and a
    command reaches the device, the inbox holds a fresh row for this caller and
    capability that a named operator approved. *)
Theorem routeros_write_needs_approval dbg b actor cap target params t
    (w : bworld I V D) r w' :
  br_guard b = Some shipped_policy → deciders (b_guard w) →
  is_write_capability cap = true →
  ros_dispatch dbg b actor cap target params t w = (r, w') → b_calls w' ≠ b_calls w →
  ∃ id row, g_table (b_guard w) !! id = None ∧ g_table (b_guard w') !! id = Some row ∧
    row_actor_id row = actor ∧ row_capability row = cap ∧
    row_status row = "approved" ∧ row_decided_by row ≠ None.
Proof.
  intros Hb Hd Hw Hrun Hne. unfold ros_dispatch in Hrun.
  destruct (build_command cap params) as [cmd|e]; [|unfold lift, mbind, io_bind in Hrun; by simplify_eq].
  rewrite (io_bind_run_ok _ _ _ cmd w) in Hrun by done.
  destruct (build_exec_request actor cap target cmd t build_capabilities) as [req|e] eqn:Hreq;
    [|unfold lift, mbind, io_bind in Hrun; by simplify_eq].
  rewrite (io_bind_run_ok _ _ _ req w) in Hrun by done.
  destruct (routeros_write_request _ _ _ _ _ _ Hw Hreq) as (Hcap & Hactor & Hro & Hv).
  destruct (execute b req w) as [res w1] eqn:He.
  assert (w' = w1) as ->.
  { revert Hrun. unfold io_map_err, throw, mbind, io_bind, mret, io_ret. rewrite He.
    destruct res as [[]|]; simpl; by intros [= _ <-]. }
  destruct (execute_cleared b req w res w1 shipped_policy Hb Hd He Hne)
    as (_ & [Hr|[Ha|(_ & id & row & Hrow)]]).
  - congruence.
  - unfold gate_capability in Ha. rewrite Hcap in Ha. simpl in Ha. congruence.
  - exists id, row. unfold gate_capability in Hrow. rewrite Hcap, Hactor in Hrow. simpl in Hrow.
    naive_solver.
Qed.
End Brokered.

(** ** Driver replies *)

Lemma reports_failure_reply r :
  reports_failure (reply_json r) = negb (rep_success r).
Proof. destruct r as [[] [[[so se] x]|] [e|]]; reflexivity. Qed.

(** A driver's failure fails the plan step. The orchestrator's test on a
    reply body reads the connector's reply as a failure exactly when the
    operation failed, and reads every error reply as a failure. *)
Theorem connector_failure_fails_step print out msg :
  reports_failure (reply_json (from_output print out)) = negb (out_success out) ∧
  reports_failure (reply_json (reply_err msg)) = true.
Proof.
  rewrite !reports_failure_reply. split; [|done].
  by destruct (from_output_honest print out) as [-> _].
Qed.

(** The RouterOS driver does not report a command's failure. When the broker
    ran the command and the device returned exit status [x], whatever [x] is, the
    reply on the bus says success, so the orchestrator counts the step as
    succeeded; the status only survives as a field of the output. *)
Theorem routeros_exit_status_ignored dbg dbg_str decode {I V D : Type} `{Inventory I}
    `{VaultClient V} b drv env now nq cmd req stdout stderr x (w w' : bworld I V D) :
  decode (env_body env) = Ok nq →
  build_command (nq_capability nq) (nq_params nq) = Ok cmd →
  build_exec_request (env_from env) (nq_capability nq) (nq_target_ref nq) cmd
    (default DEFAULT_TIMEOUT_SECS (nq_timeout_secs nq)) build_capabilities = Ok req →
  execute b req w = (Ok (RShell stdout stderr x), w') →
  let reply := env_body (ros_handle dbg dbg_str decode b drv env now w).1 in
  reports_failure reply = false ∧
  (jget reply "output" ≫= λ out, jget out "exit_status") = Some (JInt x).
Proof.
  intros Hd Hc Hr He. unfold ros_handle, ros_dispatch. rewrite Hd, Hc.
  unfold lift, io_map_err, mbind, io_bind, mret, io_ret. rewrite Hr, He. by split.
Qed.

(** The reply a connector sends answers the call. The envelope
    [Agent::handle] sends back carries the request's correlation id and is
    addressed to its sender, so it is an answer to the dispatcher that sent the
    request and to no other caller. *)
Theorem connector_reply_answers {I V D : Type} `{Inventory I} `{VaultClient V}
    dbg decode print b drv env now (w : bworld I V D) corr from :
  let reply := (connector_handle dbg decode print b drv env now w).1 in
  is_Some (answers corr from (Recv reply)) ↔
  corr = env_correlation_id env ∧ from = env_from env.
Proof.
  assert (∀ body, is_Some (answers corr from (Recv (reply_to env now (cd_id drv) body))) ↔
    corr = env_correlation_id env ∧ from = env_from env) as Hr.
  { intros body. unfold answers. simpl. split.
    - destruct (string_eqb (env_correlation_id env) corr) eqn:Hc; [|by intros [? ?]].
      destruct (string_eqb (env_from env) from) eqn:Hf; [|by intros [? ?]].
      apply string_eqb_eq in Hc, Hf. done.
    - intros [-> ->]. rewrite !(proj2 (string_eqb_eq _ _) eq_refl). by eexists. }
  unfold connector_handle. destruct (decode (env_body env)) as [req|e]; [|apply Hr].
  destruct (connector_dispatch _ _ _ _ _ _ _ _) as [r w']. apply Hr.
Qed.

(** ** RouterOS compensation *)

Lemma compensation_str p r name :
  name ≠ "match" → str_param (compensation_params p r) name = str_param p name.
Proof.
  intros Hne. unfold compensation_params. destruct p as [| | | | | |obj]; try done.
  destruct (assoc "match" obj); [done|].
  destruct (assoc "comment" obj ≫= as_str) as [c|]; [|done].
  unfold str_param. simpl. by rewrite assoc_insert_ne.
Qed.

(** Importing an SSH key cannot be rolled back. The compensator of
    [user_ssh_key_import] is built from the import's own parameters, which have
    no row number: unless the caller happened to add one, the compensating
    command is refused before it reaches the device. *)
Theorem ssh_key_import_not_compensable p r :
  str_param p "number" = None →
  build_command "network.routeros.user_ssh_key_remove" (Some (compensation_params p r))
    = Err (RMissingParam "user_ssh_key_remove.number is required").
Proof.
  intros Hn. unfold build_command. simpl. rewrite compensation_str by done. by rewrite Hn.
Qed.

Lemma ssh_key_import_not_compensable_witness :
  let p := jobj [("user", JString "ops"); ("file", JString "ops.pub")] in
  build_command "network.routeros.user_ssh_key_remove" (Some (compensation_params p None))
    = Err (RMissingParam "user_ssh_key_remove.number is required").
Proof.
  apply (ssh_key_import_not_compensable
    (jobj [("user", JString "ops"); ("file", JString "ops.pub")]) None). reflexivity.
Defined.

(** When a drop rule can be rolled back. For a step whose parameters are an
    object with no explicit [match], the compensating command is built exactly
    when the rule was added with a comment that is an identifier: without a
    comment, or with one that has a space or a dot in it, nothing is sent. *)
Theorem drop_rule_compensable obj r :
  assoc "match" obj = None →
  is_ok (build_command "network.routeros.firewall_remove_rule"
    (Some (compensation_params (JObject obj) r))) = true ↔
  ∃ c, assoc "comment" obj = Some (JString c) ∧ validate c Identifier = Ok tt.
Proof.
  intros Hm. unfold build_command, compensation_params, mbind, result_bind. simpl. rewrite Hm.
  destruct (assoc "comment" obj) as [j|] eqn:Hc; simpl; last first.
  { unfold str_param. simpl. rewrite Hm. split; [done|]. by intros (c & ? & _). }
  destruct (as_str j) as [c|] eqn:Hj; last first.
  { unfold str_param. simpl. rewrite Hm. split; [done|]. intros (c & Hs & _).
    injection Hs as ->. done. }
  assert (j = JString c) as -> by (by destruct j; simplify_eq/=).
  unfold str_param, check. simpl. rewrite assoc_insert_eq. simpl. split.
  - destruct (validate c Identifier) as [[]|] eqn:Hv; [|done]. intros _. by exists c.
  - intros (c' & Hs & Hv). injection Hs as <-. by rewrite Hv.
Qed.

Lemma drop_rule_compensable_witness :
  is_ok (build_command "network.routeros.firewall_remove_rule"
    (Some (compensation_params (JObject [("comment", JString "block scan")]) None))) = false.
Proof.
  destruct (is_ok _) eqn:E; [|reflexivity]. exfalso.
  apply (drop_rule_compensable [("comment", JString "block scan")] None eq_refl) in E
    as (c & Hc & Hv).
  injection Hc as <-. revert Hv. vm_compute. discriminate.
Defined.
End System.

(** ** A write to the demo router under the shipped policy *)

Module SystemDemo.
Import DemoSemVer.

Definition params : json :=
  jobj [("dst_address", JString "10.9.0.0/16"); ("comment", JString "block")].

Definition run (sched : list (Z * list env_action)) :=
  ros_dispatch (λ _, "") (BrokerDemo.broker shipped_policy) "alice"
    "network.routeros.firewall_add_drop_rule" "target://mikrotik-edge" (Some params) 30
    (BrokerDemo.world kill_new sched).
End SystemDemo.

Lemma routeros_write_needs_approval_witness :
  let w' := (SystemDemo.run GuardDemo.approving).2 in
  ∃ id row, g_table (b_guard w') !! id = Some row ∧ row_status row = "approved".
Proof.
  intros w'.
  destruct (routeros_write_needs_approval (λ _, "") (BrokerDemo.broker shipped_policy) "alice"
    "network.routeros.firewall_add_drop_rule" "target://mikrotik-edge" (Some SystemDemo.params)
    30 (BrokerDemo.world kill_new GuardDemo.approving) (SystemDemo.run GuardDemo.approving).1 w')
    as (id & row & _ & Hr & H).
  - reflexivity.
  - apply BrokerDemo.world_deciders.
  - reflexivity.
  - exact (surjective_pairing (SystemDemo.run GuardDemo.approving)).
  - assert (length (b_calls w') = 1%nat) as Hl by (vm_compute; reflexivity).
    intros Heq. rewrite Heq in Hl. discriminate Hl.
  - exists id, row. split; [exact Hr|]. apply H.
Defined.

(** A router that answers every command with exit status 1. *)
Module FailingDemo.
Import DemoSemVer.

Definition failing : Transport unit :=
  mkTransport "ssh" (λ _ _ _ d, (Ok (RShell "" "failure: already exists" 1), d)).
Definition broker : Broker (D := unit) :=
  with_guard shipped_policy
    (with_production_admin (λ k, match k with Ssh => Some failing | _ => None end)).
Definition world : bworld InMemoryRegistry StubVault unit :=
  mkBworld (GuardDemo.fresh kill_new GuardDemo.approving) BrokerDemo.inv BrokerDemo.vault tt
    [] [] [].
Definition nq : NetworkRequest :=
  mkNetReq "network.routeros.firewall_add_drop_rule" "target://mikrotik-edge" None
    (Some SystemDemo.params).
Definition env : AgentEnvelope :=
  envelope_new "c1" 0 "orchestrator" (Direct "routeros") JNull.
Definition cmd : string := default "" (ok (build_command (nq_capability nq) (nq_params nq))).
Definition req : ExecRequest :=
  default BrokerDemo.req (ok (build_exec_request (env_from env) (nq_capability nq)
    (nq_target_ref nq) cmd DEFAULT_TIMEOUT_SECS build_capabilities)).
End FailingDemo.

Lemma routeros_exit_status_ignored_witness :
  reports_failure (env_body (ros_handle (λ _, "") id (λ _, Ok FailingDemo.nq)
    FailingDemo.broker (mkRouterOs "routeros" "routeros") FailingDemo.env 0
    FailingDemo.world).1) = false.
Proof.
  apply (routeros_exit_status_ignored (λ _, "") id (λ _, Ok FailingDemo.nq) FailingDemo.broker
    (mkRouterOs "routeros" "routeros") FailingDemo.env 0 FailingDemo.nq FailingDemo.cmd
    FailingDemo.req "" "failure: already exists" 1 FailingDemo.world
    (execute FailingDemo.broker FailingDemo.req FailingDemo.world).2).
  - reflexivity.
  - reflexivity.
  - vm_compute; reflexivity.
  - apply run_split. vm_compute. reflexivity.
Defined.
